(** * wmalloc: a boundary-tag allocator with segregated bins (wmalloc.h)

    A shallow embedding of [wmalloc.h] over a byte-addressed memory, and the
    properties of the allocator that follow from the code.

    - 64-bit unsigned values are [Z] in [0, 2^64) with the wrap-around written
      out ([wrap64]); pointers are 64-bit addresses.
    - Memory is a map from byte addresses to bytes; a [uint64_t] is read and
      written as eight little-endian bytes, at any (also unaligned) address.
    - Only what [sbrk] and [mmap] handed out is mapped; touching anything else
      is a fault.  [assert] is enabled in the source ([NDEBUG] is commented
      out), so a failed assertion aborts.
    - The operating system is an oracle: every top-level call receives the
      answers [sbrk] and [mmap] would give. *)

From Stdlib Require Import ZArith List Lia Bool.
Import ListNotations.
Local Open Scope Z_scope.

(** ** Machine integers *)

Definition wrap64 (z : Z) : Z := z mod 2 ^ 64.

(** Conversion of a [uint64_t] to [int] (32 bits, two's complement), as it
    happens when [wmalloc] passes [necessary_length] to [search_bin]. *)
Definition to_int (z : Z) : Z :=
  let r := z mod 2 ^ 32 in if r <? 2 ^ 31 then r else r - 2 ^ 32.

(** Conversion of an [int] to [uint64_t] (usual arithmetic conversions of the
    comparison in [search_bin]): sign extension. *)
Definition int_to_u64 (z : Z) : Z := wrap64 z.

Definition NULL : Z := 0.
(** [(void* ) -1], the failure value of [sbrk] and [mmap]. *)
Definition MAP_FAILED : Z := 2 ^ 64 - 1.
(** [0x8000000000000000] and [0x7fffffffffffffff]. *)
Definition FLAG_BIT : Z := 2 ^ 63.
Definition SIZE_MASK : Z := 2 ^ 63 - 1.

Definition CHUNK_OVERHEAD : Z := 24.
Definition NUM_BINS : Z := 46.
Definition MMAP_SIZE : Z := 131072.
Definition PAGE_SIZE : Z := 4096.
Definition MINIMUM_CHUNK_SIZE : Z := 40.

(** ** Memory *)

Definition memory := Z -> Z.

Fixpoint load_bytes (m : memory) (a : Z) (n : nat) : Z :=
  match n with
  | O => 0
  | S k => m a mod 256 + 256 * load_bytes m (a + 1) k
  end.

Definition load64 (m : memory) (a : Z) : Z := load_bytes m a 8.

Definition store64 (m : memory) (a v : Z) : memory :=
  fun x => if (a <=? x) && (x <? a + 8) then (v / 2 ^ (8 * (x - a))) mod 256 else m x.

Definition store8 (m : memory) (a v : Z) : memory :=
  fun x => if x =? a then v mod 256 else m x.

Definition zero_range (m : memory) (b len : Z) : memory :=
  fun x => if (b <=? x) && (x <? b + len) then 0 else m x.

(** ** Engine state

    [wmalloc_ptr] is the global of the source; [mapped] lists the regions
    (base, length) obtained from the operating system. *)

Record state := mkState {
  wmalloc_ptr : Z;
  mem : memory;
  mapped : list (Z * Z)
}.

Definition in_region (a : Z) (r : Z * Z) : bool :=
  (fst r <=? a) && (a + 8 <=? fst r + snd r).

Definition valid (s : state) (a : Z) : bool :=
  (0 <=? a) && (a + 8 <=? 2 ^ 64) && existsb (in_region a) (mapped s).

(** ** Results: a value and a state, or the way the process died *)

Inductive error := AssertFail | Segfault | OutOfFuel.

Inductive result (A : Type) :=
| Ok (a : A) (s : state)
| Err (e : error).
Arguments Ok {A} a s.
Arguments Err {A} e.

Definition M (A : Type) := state -> result A.

Definition ret {A} (a : A) : M A := fun s => Ok a s.
Definition bind {A B} (c : M A) (k : A -> M B) : M B :=
  fun s => match c s with Ok a s' => k a s' | Err e => Err e end.
Definition fail {A} (e : error) : M A := fun _ => Err e.

Declare Scope wm_scope.
Delimit Scope wm_scope with wm.
Notation "x <- c ;; k" := (bind c (fun x => k))
  (at level 61, c at next level, right associativity) : wm_scope.
Notation "c ;; k" := (bind c (fun _ => k))
  (at level 61, right associativity) : wm_scope.
Local Open Scope wm_scope.

Definition assert (b : bool) : M unit :=
  if b then ret tt else fail AssertFail.

Definition load (a : Z) : M Z :=
  fun s => if valid s a then Ok (load64 (mem s) a) s else Err Segfault.

Definition upd_mem (s : state) (a v : Z) : state :=
  mkState (wmalloc_ptr s) (store64 (mem s) a v) (mapped s).

Definition store (a v : Z) : M unit :=
  fun s => if valid s a then Ok tt (upd_mem s a v) else Err Segfault.

Definition get_wmalloc_ptr : M Z := fun s => Ok (wmalloc_ptr s) s.
Definition set_wmalloc_ptr (p : Z) : M unit :=
  fun s => Ok tt (mkState p (mem s) (mapped s)).

(** ** The operating system

    [sbrk_call r len] is [sbrk(len)] answering [r]: on success the bytes
    [r, r+len) become part of the data segment.  [mmap_call r len] is the
    anonymous private mapping of [wmalloc.h] answering [r]: a length of zero
    is rejected (EINVAL), a successful mapping is zero-filled. *)

Record os_env := mkEnv { sbrk_ret : Z; mmap_ret : Z }.

Definition sbrk_call (r len : Z) : M Z :=
  fun s => if r =? MAP_FAILED then Ok MAP_FAILED s
           else Ok r (mkState (wmalloc_ptr s) (mem s) ((r, len) :: mapped s)).

Definition mmap_call (r len : Z) : M Z :=
  fun s => if (len =? 0) || (r =? MAP_FAILED) then Ok MAP_FAILED s
           else Ok r (mkState (wmalloc_ptr s) (zero_range (mem s) r len)
                              ((r, len) :: mapped s)).

(** ** Layout of [struct chunk] and [struct wmalloc_info] *)

Definition off_prev_chunk_size : Z := 0.
Definition off_curr_chunk_size : Z := 8.
Definition off_left_ptr : Z := 16.
Definition off_right_ptr : Z := 24.
Definition sizeof_chunk : Z := 32.

(** [bin] at 0, [dummy] at 46*8, [bin_index] at 46*8 + 46*32. *)
Definition sizeof_wmalloc_info : Z := 2208.
Definition bin_addr (wp i : Z) : Z := wp + 8 * i.
Definition dummy_addr (wp i : Z) : Z := wp + 368 + 32 * i.
Definition bin_index_addr (wp i : Z) : Z := wp + 1840 + 8 * i.

Definition load_bin (i : Z) : M Z :=
  wp <- get_wmalloc_ptr ;; load (bin_addr wp i).
Definition load_bin_index (i : Z) : M Z :=
  wp <- get_wmalloc_ptr ;; load (bin_index_addr wp i).

(** ** Initializing functions *)

(** One [for] loop of [initialize_bin_indices]: [i] runs while [cont i],
    stepping by [next]; returns the advanced [index]. *)
Fixpoint fill_bin_indices (fuel : nat) (cont : Z -> bool) (next : Z -> Z)
    (i index : Z) : M Z :=
  match fuel with
  | O => fail OutOfFuel
  | S f =>
      if cont i then
        wp <- get_wmalloc_ptr ;;
        store (bin_index_addr wp index) i ;;
        fill_bin_indices f cont next (next i) (index + 1)
      else ret index
  end.

Definition initialize_bin_indices : M unit :=
  wp <- get_wmalloc_ptr ;;
  assert (negb (wp =? NULL)) ;;
  index <- fill_bin_indices 64 (fun i => i <=? 128) (fun i => i + 8) 40 0 ;;
  index <- fill_bin_indices 64 (fun i => i <=? 256) (fun i => i + 16) 144 index ;;
  index <- fill_bin_indices 64 (fun i => i <=? 512) (fun i => i + 32) 288 index ;;
  index <- fill_bin_indices 64 (fun i => i <=? 1024) (fun i => i + 64) 576 index ;;
  index <- fill_bin_indices 64 (fun i => i <? 1000000) (fun i => i * 2) 2048 index ;;
  store (bin_index_addr wp index) (2 ^ 64 - 1).

(** The loop over the [NUM_BINS] dummy nodes; [k] bins remain, [i] is next. *)
Fixpoint init_dummies (k : nat) (i : Z) : M unit :=
  match k with
  | O => ret tt
  | S k' =>
      wp <- get_wmalloc_ptr ;;
      store (dummy_addr wp i + off_curr_chunk_size) 0 ;;
      store (dummy_addr wp i + off_left_ptr) NULL ;;
      store (dummy_addr wp i + off_right_ptr) NULL ;;
      store (bin_addr wp i) (dummy_addr wp i) ;;
      init_dummies k' (i + 1)
  end.

(** Returns [-1] when [sbrk] fails and [1] otherwise.  The answer of [sbrk]
    is assigned to [wmalloc_ptr] before it is checked. *)
Definition initialize_wmalloc (e : os_env) : M Z :=
  p <- sbrk_call (sbrk_ret e) sizeof_wmalloc_info ;;
  set_wmalloc_ptr p ;;
  if p =? MAP_FAILED then ret (-1)
  else
    init_dummies (Z.to_nat NUM_BINS) 0 ;;
    initialize_bin_indices ;;
    ret 1.

(** ** General purpose functions *)

(** Address of the trailing size word of [ch]:
    [(uint64_t) ch + ch->curr_chunk_size - 8]. *)
Definition next_size_addr (ch : Z) : M Z :=
  sz <- load (ch + off_curr_chunk_size) ;;
  ret (wrap64 (ch + sz - 8)).

Definition is_prev_available (ch : Z) : M Z :=
  assert (negb (ch =? NULL)) ;;
  prev_chunk_size <- load (ch + off_prev_chunk_size) ;;
  if negb (prev_chunk_size =? 0) then
    if Z.shiftr prev_chunk_size 63 =? 0 then ret 1 else ret 0
  else ret 0.

Definition is_next_available (ch : Z) : M Z :=
  assert (negb (ch =? NULL)) ;;
  address <- next_size_addr ch ;;
  w <- load address ;;
  if negb (w =? 0) then
    if Z.shiftr w 63 =? 0 then ret 1 else ret 0
  else ret 0.

Definition set_prev_chunk_size (ch next_chunk_size : Z) : M unit :=
  assert (negb (ch =? NULL)) ;;
  w <- load (ch + off_prev_chunk_size) ;;
  let flag := Z.land FLAG_BIT w in
  store (ch + off_prev_chunk_size) (wrap64 (next_chunk_size + flag)).

Definition set_next_chunk_size (ch next_chunk_size : Z) : M unit :=
  assert (negb (ch =? NULL)) ;;
  address <- next_size_addr ch ;;
  w <- load address ;;
  let flag := Z.land FLAG_BIT w in
  store address (wrap64 (next_chunk_size + flag)).

Definition get_prev_chunk_size (ch : Z) : M Z :=
  assert (negb (ch =? NULL)) ;;
  w <- load (ch + off_prev_chunk_size) ;;
  ret (Z.land w SIZE_MASK).

Definition get_next_chunk_size (ch : Z) : M Z :=
  assert (negb (ch =? NULL)) ;;
  address <- next_size_addr ch ;;
  w <- load address ;;
  ret (Z.land SIZE_MASK w).

Definition get_prev_chunk (ch : Z) : M Z :=
  assert (negb (ch =? NULL)) ;;
  sz <- get_prev_chunk_size ch ;;
  ret (wrap64 (ch - sz)).

Definition get_next_chunk (ch : Z) : M Z :=
  assert (negb (ch =? NULL)) ;;
  sz <- load (ch + off_curr_chunk_size) ;;
  ret (wrap64 (ch + sz)).

(** [flag == 1] clears the top bit; any other [flag] toggles it. *)
Definition set_prev_flag (ch flag : Z) : M unit :=
  assert (negb (ch =? NULL)) ;;
  w <- load (ch + off_prev_chunk_size) ;;
  if flag =? 1 then store (ch + off_prev_chunk_size) (Z.land w SIZE_MASK)
  else store (ch + off_prev_chunk_size) (Z.lxor w FLAG_BIT).

Definition set_next_flag (ch flag : Z) : M unit :=
  assert (negb (ch =? NULL)) ;;
  address <- next_size_addr ch ;;
  w <- load address ;;
  if flag =? 1 then store address (Z.land w SIZE_MASK)
  else store address (Z.lxor w FLAG_BIT).

(** The local [chunk_size] of the source is computed and never used. *)
Definition set_unavailable (ch : Z) : M unit :=
  assert (negb (ch =? NULL)) ;;
  _ <- load (ch + off_curr_chunk_size) ;;
  psz <- get_prev_chunk_size ch ;;
  (if negb (psz =? 0) then
     prev_chunk <- get_prev_chunk ch ;;
     set_next_flag prev_chunk 0
   else ret tt) ;;
  nsz <- get_next_chunk_size ch ;;
  (if negb (nsz =? 0) then
     next_chunk <- get_next_chunk ch ;;
     set_prev_flag next_chunk 0
   else ret tt).

Definition set_available (ch : Z) : M unit :=
  assert (negb (ch =? NULL)) ;;
  _ <- load (ch + off_curr_chunk_size) ;;
  psz <- get_prev_chunk_size ch ;;
  (if negb (psz =? 0) then
     prev_chunk <- get_prev_chunk ch ;;
     set_next_flag prev_chunk 1
   else ret tt) ;;
  nsz <- get_next_chunk_size ch ;;
  (if negb (nsz =? 0) then
     next_chunk <- get_next_chunk ch ;;
     set_prev_flag next_chunk 1
   else ret tt).

Definition set_adjacent_sizes (ch available : Z) : M unit :=
  assert (negb (ch =? NULL)) ;;
  sz <- load (ch + off_curr_chunk_size) ;;
  let chunk_size := if available =? 1 then sz else wrap64 (sz + FLAG_BIT) in
  w <- load (ch + off_prev_chunk_size) ;;
  (if negb (w =? 0) then
     prev_chunk <- get_prev_chunk ch ;;
     set_next_chunk_size prev_chunk chunk_size
   else ret tt) ;;
  nsz <- get_next_chunk_size ch ;;
  (if negb (nsz =? 0) then
     next_chunk <- get_next_chunk ch ;;
     store (next_chunk + off_prev_chunk_size) chunk_size
   else ret tt).

(** ** The free-list registry *)

(** The [while] loop of [insert_in_place]. *)
Fixpoint insert_loop (fuel : nat) (prev curr to_add : Z) : M unit :=
  match fuel with
  | O => fail OutOfFuel
  | S f =>
      if negb (curr =? NULL) then
        a <- load (to_add + off_curr_chunk_size) ;;
        c <- load (curr + off_curr_chunk_size) ;;
        if a <? c then
          store (prev + off_right_ptr) to_add ;;
          store (curr + off_left_ptr) to_add ;;
          store (to_add + off_right_ptr) curr ;;
          store (to_add + off_left_ptr) prev
        else
          next <- load (curr + off_right_ptr) ;;
          insert_loop f curr next to_add
      else
        store (prev + off_right_ptr) to_add ;;
        store (to_add + off_left_ptr) prev ;;
        store (to_add + off_right_ptr) NULL
  end.

Definition insert_in_place (fuel : nat) (head to_add : Z) : M unit :=
  assert (negb (head =? NULL)) ;;
  curr <- load (head + off_right_ptr) ;;
  insert_loop fuel head curr to_add.

(** The scan [while(to_add->curr_chunk_size > bin_index[i]) i++] of
    [add_chunk]. *)
Fixpoint add_chunk_scan (fuel : nat) (to_add i : Z) : M Z :=
  match fuel with
  | O => fail OutOfFuel
  | S f =>
      sz <- load (to_add + off_curr_chunk_size) ;;
      b <- load_bin_index i ;;
      if sz >? b then add_chunk_scan f to_add (i + 1) else ret i
  end.

Definition add_chunk (fuel : nat) (to_add : Z) : M unit :=
  assert (negb (to_add =? NULL)) ;;
  i <- add_chunk_scan fuel to_add 0 ;;
  head <- load_bin i ;;
  insert_in_place fuel head to_add.

(** [while(request_length > bin_index[i] && i<NUM_BINS) i++], from [i = 1];
    the table is read before [i] is compared with [NUM_BINS]. *)
Fixpoint find_bin_loop (fuel : nat) (request_length i : Z) : M Z :=
  match fuel with
  | O => fail OutOfFuel
  | S f =>
      b <- load_bin_index i ;;
      if (request_length >? b) && (i <? NUM_BINS)
      then find_bin_loop f request_length (i + 1)
      else ret i
  end.

Definition find_bin (fuel : nat) (request_length : Z) : M Z :=
  find_bin_loop fuel request_length 1.

Definition remove_chunk (to_remove : Z) : M Z :=
  left_neighbor <- load (to_remove + off_left_ptr) ;;
  right_neighbor <- load (to_remove + off_right_ptr) ;;
  (if right_neighbor =? NULL then
     store (left_neighbor + off_right_ptr) NULL
   else
     store (left_neighbor + off_right_ptr) right_neighbor ;;
     store (right_neighbor + off_left_ptr) left_neighbor) ;;
  store (to_remove + off_right_ptr) NULL ;;
  store (to_remove + off_left_ptr) NULL ;;
  ret to_remove.

(** The walk of [search_bin]: the node at which the loop breaks, or [NULL].
    [request_length] is the [int] parameter of [search_bin]; it is converted
    to [uint64_t] for the comparison with [curr_chunk_size]. *)
Fixpoint search_bin_select (fuel : nat) (curr request_length : Z) : M Z :=
  match fuel with
  | O => fail OutOfFuel
  | S f =>
      if negb (curr =? NULL) then
        sz <- load (curr + off_curr_chunk_size) ;;
        if sz >=? int_to_u64 request_length then ret curr
        else
          next <- load (curr + off_right_ptr) ;;
          search_bin_select f next request_length
      else ret NULL
  end.

(** The walk starts at [wmalloc_ptr->bin[i]], the dummy node itself. *)
Definition search_bin (fuel : nat) (i request_length : Z) : M Z :=
  head <- load_bin i ;;
  curr <- search_bin_select fuel head request_length ;;
  if negb (curr =? NULL) then remove_chunk curr else ret NULL.

(** The loop of [check_bigger_bins], entered with [i] already incremented. *)
Fixpoint check_bigger_loop (fuel : nat) (i : Z) : M Z :=
  match fuel with
  | O => fail OutOfFuel
  | S f =>
      if i <? NUM_BINS then
        head <- load_bin i ;;
        first <- load (head + off_right_ptr) ;;
        if negb (first =? NULL) then remove_chunk first
        else check_bigger_loop f (i + 1)
      else ret NULL
  end.

Definition check_bigger_bins (fuel : nat) (i : Z) : M Z :=
  check_bigger_loop fuel (i + 1).

(** ** Allocating functions *)

Definition mmap_length (required_length : Z) : Z :=
  if required_length <=? MMAP_SIZE then MMAP_SIZE
  else wrap64 ((required_length / PAGE_SIZE + 1) * PAGE_SIZE).

Definition allocate_chunk (e : os_env) (required_length : Z) : M Z :=
  let len := mmap_length required_length in
  mmap_ptr <- mmap_call (mmap_ret e) len ;;
  if mmap_ptr =? MAP_FAILED then ret NULL
  else
    let new_chunk := mmap_ptr in
    set_prev_chunk_size new_chunk 0 ;;
    store (new_chunk + off_curr_chunk_size) len ;;
    set_next_chunk_size new_chunk 0 ;;
    ret new_chunk.

(** The body of the [if] of [split_chunk]: carve the residue off the right
    end of [to_remove] and hand it to the free-list registry. *)
Definition split_residue (fuel : nat) (to_remove required_length : Z) : M unit :=
  sz <- load (to_remove + off_curr_chunk_size) ;;
  if sz >=? wrap64 (required_length + MINIMUM_CHUNK_SIZE) then
    let next_chunk_size := wrap64 (sz - required_length) in
    save_chunk_size <- get_next_chunk_size to_remove ;;
    store (to_remove + off_curr_chunk_size) required_length ;;
    set_next_chunk_size to_remove next_chunk_size ;;
    left_size <- load (to_remove + off_curr_chunk_size) ;;
    let new_chunk := wrap64 (to_remove + left_size) in
    store (new_chunk + off_curr_chunk_size) next_chunk_size ;;
    left_size' <- load (to_remove + off_curr_chunk_size) ;;
    set_prev_chunk_size new_chunk left_size' ;;
    set_next_chunk_size new_chunk save_chunk_size ;;
    add_chunk fuel new_chunk
  else ret tt.

Definition split_chunk (fuel : nat) (to_remove required_length : Z) : M unit :=
  assert (negb (to_remove =? NULL)) ;;
  split_residue fuel to_remove required_length ;;
  set_unavailable to_remove.

Definition necessary_length (request_length : Z) : Z :=
  let n := wrap64 (request_length + CHUNK_OVERHEAD) in
  if n <? MINIMUM_CHUNK_SIZE then MINIMUM_CHUNK_SIZE else n.

(** Steps 1 and 2 of [wmalloc]: look in the proper bin, then in the bins of
    greater size.  [NULL] when the registry has nothing to offer. *)
Definition find_free_chunk (fuel : nat) (necessary : Z) : M Z :=
  i <- find_bin fuel necessary ;;
  to_remove <- search_bin fuel i (to_int necessary) ;;
  if to_remove =? NULL then check_bigger_bins fuel i else ret to_remove.

(** [wmalloc] after the lazy initialization. *)
Definition wmalloc_body (fuel : nat) (e : os_env) (request_length : Z) : M Z :=
  let necessary := necessary_length request_length in
  to_remove <- find_free_chunk fuel necessary ;;
  to_remove <- (if to_remove =? NULL then
                  c <- allocate_chunk e necessary ;;
                  split_chunk fuel c necessary ;;
                  ret c
                else
                  split_chunk fuel to_remove necessary ;;
                  ret to_remove) ;;
  ret (wrap64 (to_remove + 16)).

Definition wmalloc (fuel : nat) (e : os_env) (request_length : Z) : M Z :=
  wp <- get_wmalloc_ptr ;;
  r <- (if wp =? NULL then initialize_wmalloc e else ret 1) ;;
  if r =? -1 then ret NULL
  else wmalloc_body fuel e request_length.

(** ** Freeing functions *)

Definition join_chunks (first second : Z) : M Z :=
  a <- load (first + off_curr_chunk_size) ;;
  b <- load (second + off_curr_chunk_size) ;;
  store (first + off_curr_chunk_size) (wrap64 (a + b)) ;;
  set_adjacent_sizes first 1 ;;
  ret first.

Definition wfree (fuel : nat) (to_free : Z) : M unit :=
  let ch := wrap64 (to_free - 16) in
  set_available ch ;;
  pa <- is_prev_available ch ;;
  ch <- (if pa =? 1 then
           p <- get_prev_chunk ch ;;
           prev_chunk <- remove_chunk p ;;
           join_chunks prev_chunk ch
         else ret ch) ;;
  na <- is_next_available ch ;;
  ch <- (if na =? 1 then
           n <- get_next_chunk ch ;;
           next_chunk <- remove_chunk n ;;
           join_chunks ch next_chunk
         else ret ch) ;;
  add_chunk fuel ch.

(** ** Callers

    A caller is a sequence of operations.  Pointers are named by the position
    of the allocation that returned them, so a caller does not depend on the
    addresses the operating system picks.  [Write] is the caller storing one
    byte into a buffer it owns.  A caller that releases a pointer it does not
    hold, or writes outside the bytes it asked for, is outside the contract
    of the allocator ([Misuse]). *)

Inductive op :=
| Malloc (e : os_env) (n : Z)
| Free (k : nat)
| Write (k : nat) (off v : Z).

Record buffer := mkBuffer { buf_ptr : Z; buf_len : Z; buf_live : bool }.

Inductive outcome :=
| Finished (bufs : list buffer) (s : state)
| Died (e : error)
| Misuse.

Definition kill (k : nat) (bufs : list buffer) : list buffer :=
  match nth_error bufs k with
  | Some b => firstn k bufs ++ mkBuffer (buf_ptr b) (buf_len b) false :: skipn (S k) bufs
  | None => bufs
  end.

Definition user_write (a v : Z) : M unit :=
  fun s => if (0 <=? a) && existsb (fun r => (fst r <=? a) && (a <? fst r + snd r)) (mapped s)
           then Ok tt (mkState (wmalloc_ptr s) (store8 (mem s) a v) (mapped s))
           else Err Segfault.

Fixpoint run (fuel : nat) (ops : list op) (bufs : list buffer) (s : state) : outcome :=
  match ops with
  | [] => Finished bufs s
  | Malloc e n :: rest =>
      match wmalloc fuel e n s with
      | Ok p s' => run fuel rest (bufs ++ [mkBuffer p n (negb (p =? NULL))]) s'
      | Err x => Died x
      end
  | Free k :: rest =>
      match nth_error bufs k with
      | Some b =>
          if buf_live b then
            match wfree fuel (buf_ptr b) s with
            | Ok _ s' => run fuel rest (kill k bufs) s'
            | Err x => Died x
            end
          else Misuse
      | None => Misuse
      end
  | Write k off v :: rest =>
      match nth_error bufs k with
      | Some b =>
          if buf_live b && (0 <=? off) && (off <? buf_len b) then
            match user_write (buf_ptr b + off) v s with
            | Ok _ s' => run fuel rest bufs s'
            | Err x => Died x
            end
          else Misuse
      | None => Misuse
      end
  end.

(** The state of a process that has not called [wmalloc] yet. *)
Definition initial_state : state := mkState NULL (fun _ => 0) [].

(** * Reading the heap

    Observations of a state, used to state the properties: the size field of
    a chunk, the chunks linked into a bin, and the table of bin bounds. *)

Definition chunk_size (s : state) (c : Z) : Z :=
  load64 (mem s) (c + off_curr_chunk_size).

(** The leading word of [c] (describes the chunk before it) and the trailing
    word of [c] (describes the chunk after it). *)
Definition prev_word (s : state) (c : Z) : Z := load64 (mem s) c.
Definition next_word (s : state) (c : Z) : Z :=
  load64 (mem s) (c + chunk_size s c - 8).

(** The chunks linked after [c] (inclusive), following [right_ptr]. *)
Fixpoint walk (fuel : nat) (s : state) (c : Z) : list Z :=
  match fuel with
  | O => []
  | S f => if c =? NULL then []
           else c :: walk f s (load64 (mem s) (c + off_right_ptr))
  end.

Definition bin_ids : list Z := map Z.of_nat (seq 0 46).

Definition bin_chunks (fuel : nat) (s : state) (i : Z) : list Z :=
  walk fuel s (load64 (mem s) (dummy_addr (wmalloc_ptr s) i + off_right_ptr)).

Definition free_chunks (fuel : nat) (s : state) : list Z :=
  flat_map (bin_chunks fuel s) bin_ids.

(** The bounds [bin_index] holds once initialized. *)
Definition bin_bounds : list Z :=
  [40; 48; 56; 64; 72; 80; 88; 96; 104; 112; 120; 128;
   144; 160; 176; 192; 208; 224; 240; 256;
   288; 320; 352; 384; 416; 448; 480; 512;
   576; 640; 704; 768; 832; 896; 960; 1024;
   2048; 4096; 8192; 16384; 32768; 65536; 131072; 262144; 524288;
   2 ^ 64 - 1].

Definition U (i : Z) : Z := nth (Z.to_nat i) bin_bounds 0.

(** The index the scan of [add_chunk] stops at, and the one [find_bin]
    stops at, over the initialized table. *)
Fixpoint scan_bin (fuel : nat) (sz i : Z) : Z :=
  match fuel with
  | O => i
  | S f => if sz >? U i then scan_bin f sz (i + 1) else i
  end.
Definition bin_of (sz : Z) : Z := scan_bin 46 sz 0.

Fixpoint find_scan (fuel : nat) (r i : Z) : Z :=
  match fuel with
  | O => i
  | S f => if (r >? U i) && (i <? NUM_BINS) then find_scan f r (i + 1) else i
  end.
Definition find_of (r : Z) : Z := find_scan 45 r 1.

(** * Well-formed free lists

    The shape the free-list registry has when the engine works as designed.
    [G i] lists the chunks of bin [i] in list order, each with its size. *)

Definition gbins := Z -> list (Z * Z).

Definition no_chunks : gbins := fun _ => [].

Definition set_bin (G : gbins) (i : Z) (l : list (Z * Z)) : gbins :=
  fun j => if j =? i then l else G j.

Definition all_chunks (G : gbins) : list (Z * Z) := flat_map G bin_ids.

(** A doubly linked segment: from [prev], through the nodes [l], to [nxt]. *)
Fixpoint lseg (m : memory) (prev : Z) (l : list Z) (nxt : Z) : Prop :=
  match l with
  | [] => load64 m (prev + off_right_ptr) = nxt
  | c :: l' =>
      load64 m (prev + off_right_ptr) = c /\ c <> NULL /\
      load64 m (c + off_left_ptr) = prev /\ lseg m c l' nxt
  end.

Definition range_mapped (s : state) (c sz : Z) : Prop :=
  exists r, In r (mapped s) /\ fst r <= c /\ c + sz <= fst r + snd r.

Record info_ok (s : state) : Prop := mkInfoOk {
  io_pos : 0 < wmalloc_ptr s;
  io_top : wmalloc_ptr s + sizeof_wmalloc_info <= 2 ^ 64;
  io_mapped : range_mapped s (wmalloc_ptr s) sizeof_wmalloc_info;
  io_bin : forall i, 0 <= i < NUM_BINS ->
    load64 (mem s) (bin_addr (wmalloc_ptr s) i) = dummy_addr (wmalloc_ptr s) i;
  io_dummy : forall i, 0 <= i < NUM_BINS ->
    load64 (mem s) (dummy_addr (wmalloc_ptr s) i + off_curr_chunk_size) = 0;
  io_table : forall i, 0 <= i < NUM_BINS ->
    load64 (mem s) (bin_index_addr (wmalloc_ptr s) i) = U i
}.

(** Two byte ranges that do not overlap. *)
Definition apart (a la b lb : Z) : Prop := a + la <= b \/ b + lb <= a.

(** The chunk at [c] announces a left neighbour only if one is there: a
    chunk of that size ending where [c] starts, whose size field is neither
    in the engine's block nor a link field of a chunk in a bin. *)
Definition left_ok (s : state) (G : gbins) (c : Z) : Prop :=
  let psz := Z.land (load64 (mem s) c) SIZE_MASK in
  psz <> 0 ->
  MINIMUM_CHUNK_SIZE <= psz < c /\
  valid s (c - psz + 8) = true /\
  chunk_size s (c - psz) = psz /\
  valid s (c - 8) = true /\
  apart (c - psz + 8) 8 (wmalloc_ptr s) sizeof_wmalloc_info /\
  forall x, In x (all_chunks G) -> apart (c - psz + 8) 8 (fst x + 16) 16.

(** The chunk at [c] of size [sz] announces a right neighbour only if the
    memory behind it is mapped. *)
Definition right_ok (s : state) (c sz : Z) : Prop :=
  Z.land SIZE_MASK (load64 (mem s) (c + sz - 8)) <> 0 ->
  valid s (c + sz) = true.

(** What is required of a chunk at [c] of size [sz] in a bin: it lies in
    mapped memory outside the engine's block, its size field holds [sz], and
    the neighbours its boundary words announce are there. *)
Record chunk_ok (s : state) (G : gbins) (c sz : Z) : Prop := mkChunkOk {
  co_pos : 0 < c;
  co_min : MINIMUM_CHUNK_SIZE <= sz;
  co_top : c + sz <= 2 ^ 64;
  co_mapped : range_mapped s c sz;
  co_size : chunk_size s c = sz;
  co_info : apart c sz (wmalloc_ptr s) sizeof_wmalloc_info;
  co_left : left_ok s G c;
  co_right : right_ok s c sz
}.

Record wf (s : state) (G : gbins) : Prop := mkWf {
  wf_info : info_ok s;
  wf_lists : forall i, 0 <= i < NUM_BINS ->
    lseg (mem s) (dummy_addr (wmalloc_ptr s) i) (map fst (G i)) NULL;
  wf_chunks : forall i c sz, 0 <= i < NUM_BINS -> In (c, sz) (G i) ->
    chunk_ok s G c sz /\ bin_of sz = i;
  wf_nodup : NoDup (map fst (all_chunks G));
  wf_apart : forall x y, In x (all_chunks G) -> In y (all_chunks G) ->
    fst x <> fst y -> apart (fst x) (snd x) (fst y) (snd y)
}.

(** The longest bin, for the fuel the list walks need. *)
Definition longest (G : gbins) : nat :=
  fold_right Nat.max O (map (fun i => length (G i)) bin_ids).

(** An engine that works as designed: not yet initialized, or initialized
    with well-formed free lists. *)
Definition engine_ok (s : state) (G : gbins) : Prop :=
  (wmalloc_ptr s = NULL /\ G = no_chunks) \/ wf s G.

(** What the operating system may answer to the calls of one [wmalloc]:
    [sbrk] fails or extends the data segment inside the address space;
    [mmap] fails or returns a region that lies inside the address space and
    overlaps nothing that is mapped already. *)
Definition os_sound (s : state) (e : os_env) (len : Z) : Prop :=
  let regions := (if wmalloc_ptr s =? NULL
                  then [(sbrk_ret e, sizeof_wmalloc_info)] else []) ++ mapped s in
  (wmalloc_ptr s = NULL -> sbrk_ret e = MAP_FAILED \/
     (0 < sbrk_ret e /\ sbrk_ret e + sizeof_wmalloc_info <= 2 ^ 64)) /\
  (mmap_ret e = MAP_FAILED \/
     (0 < mmap_ret e /\ mmap_ret e + len <= 2 ^ 64 /\
      forall r, In r regions -> apart (mmap_ret e) len (fst r) (snd r))).

(** ** The registry alone

    [only_changed P s s']: going from [s] to [s'], only words at the
    addresses in [P] were written, and nothing was mapped. *)

Definition only_changed (P : Z -> Prop) (s s' : state) : Prop :=
  wmalloc_ptr s' = wmalloc_ptr s /\ mapped s' = mapped s /\
  forall a, (forall w, P w -> apart a 8 w 8) -> load64 (mem s') a = load64 (mem s) a.

(** The words of a node the registry reads and writes are accessible. *)
Definition hdr_ok (s : state) (d : Z) : Prop :=
  valid s (d + off_curr_chunk_size) = true /\
  valid s (d + off_left_ptr) = true /\
  valid s (d + off_right_ptr) = true.

(** The nodes of the registry: the dummies and the chunks in the bins. *)
Definition nodes (wp : Z) (G : gbins) : list Z :=
  map (dummy_addr wp) bin_ids ++ map fst (all_chunks G).

(** Nodes whose registry words (size and the two pointers) do not overlap. *)
Definition nodes_apart (N : list Z) : Prop :=
  NoDup N /\
  forall a b, In a N -> In b N -> a <> b -> apart (a + 8) 24 (b + 8) 24.

(** The link fields of the nodes [N]. *)
Definition links_of (N : list Z) (w : Z) : Prop :=
  exists d, In d N /\ (w = d + off_left_ptr \/ w = d + off_right_ptr).

Definition links (wp : Z) (G : gbins) : Z -> Prop := links_of (nodes wp G).

(** The registry is in order: the engine's block is initialized, every bin is
    a doubly linked list from its dummy to [NULL], the chunks in the bins
    hold their sizes and lie outside the engine's block, and no two nodes
    overlap. *)
Record reg (s : state) (G : gbins) : Prop := mkReg {
  reg_info : info_ok s;
  reg_lists : forall i, 0 <= i < NUM_BINS ->
    lseg (mem s) (dummy_addr (wmalloc_ptr s) i) (map fst (G i)) NULL;
  reg_hdr : forall x, In x (all_chunks G) ->
    hdr_ok s (fst x) /\ chunk_size s (fst x) = snd x /\ 0 < fst x /\
    apart (fst x + 8) 24 (wmalloc_ptr s) sizeof_wmalloc_info;
  reg_apart : nodes_apart (nodes (wmalloc_ptr s) G)
}.

(** The first chunk of a list that is large enough, and the list without
    it. *)
Fixpoint take_fit (r : Z) (l : list (Z * Z)) : option ((Z * Z) * list (Z * Z)) :=
  match l with
  | [] => None
  | x :: l' =>
      if snd x >=? r then Some (x, l')
      else match take_fit r l' with
           | Some (y, l'') => Some (y, x :: l'')
           | None => None
           end
  end.

(** The first chunk of the first non-empty bin among [j, j+1, ...] ([k] bins
    to look at), and the bins without it. *)
Fixpoint take_bigger (k : nat) (G : gbins) (j : Z) : option ((Z * Z) * gbins) :=
  match k with
  | O => None
  | S k' =>
      match G j with
      | x :: l => Some (x, set_bin G j l)
      | [] => take_bigger k' G (j + 1)
      end
  end.

(** The requirement as [search_bin] sees it: passed as an [int], converted
    back for the comparison with a chunk size. *)
Definition seen (r : Z) : Z := int_to_u64 (to_int r).

(** What the registry offers for a requirement [r]: [find_bin] picks the bin
    by [r], [search_bin] compares with [seen r], and the bigger bins give
    their first chunk. *)
Definition lookup (G : gbins) (r : Z) : option ((Z * Z) * gbins) :=
  let i := find_of r in
  match take_fit (seen r) (G i) with
  | Some (x, l) => Some (x, set_bin G i l)
  | None => take_bigger (Z.to_nat (45 - i)) G (i + 1)
  end.


(** [set_unavailable] and [set_available] differ in the flag they pass on
    only; this is their common shape. *)
Definition mark_neighbours (flag : Z) (ch : Z) : M unit :=
  assert (negb (ch =? NULL)) ;;
  _ <- load (ch + off_curr_chunk_size) ;;
  psz <- get_prev_chunk_size ch ;;
  (if negb (psz =? 0) then
     prev_chunk <- get_prev_chunk ch ;;
     set_next_flag prev_chunk flag
   else ret tt) ;;
  nsz <- get_next_chunk_size ch ;;
  (if negb (nsz =? 0) then
     next_chunk <- get_next_chunk ch ;;
     set_prev_flag next_chunk flag
   else ret tt).

(** What [set_prev_flag] and [set_next_flag] make of a word. *)
Definition flagged (flag w : Z) : Z :=
  if flag =? 1 then Z.land w SIZE_MASK else Z.lxor w FLAG_BIT.

(** The state after the flag bits that describe [c] were rewritten in both
    neighbours, where they exist. *)
Definition neighbours_marked (flag : Z) (s : state) (c : Z) : state :=
  let sz := chunk_size s c in
  let psz := Z.land (load64 (mem s) c) SIZE_MASK in
  let nsz := Z.land SIZE_MASK (load64 (mem s) (c + sz - 8)) in
  let s1 := if psz =? 0 then s
            else upd_mem s (c - 8) (flagged flag (load64 (mem s) (c - 8))) in
  if nsz =? 0 then s1
  else upd_mem s1 (c + sz) (flagged flag (load64 (mem s) (c + sz))).

(** What the boundary words of [c] must announce for that to be so: a left
    neighbour that ends where [c] starts, a right neighbour that is mapped. *)
Definition neighbours_ok (s : state) (c : Z) : Prop :=
  let sz := chunk_size s c in
  let psz := Z.land (load64 (mem s) c) SIZE_MASK in
  let nsz := Z.land SIZE_MASK (load64 (mem s) (c + sz - 8)) in
  0 < c /\ valid s c = true /\ valid s (c + 8) = true /\
  16 <= sz /\ c + sz <= 2 ^ 64 /\ valid s (c + sz - 8) = true /\
  (psz <> 0 -> 16 <= psz < c /\ valid s (c - psz + 8) = true /\
               chunk_size s (c - psz) = psz /\ valid s (c - 8) = true) /\
  (nsz <> 0 -> valid s (c + sz) = true).

(** What [split_chunk] needs of the chunk [c] of size [sz] it is given for a
    requirement [r]: the registry is in order and does not hold [c]; [c] is
    mapped and lies outside the engine's block and the registry words of all
    chunks in the bins. *)
Record carve_ok (s : state) (G : gbins) (c sz r : Z) : Prop := mkCarveOk {
  cv_reg : reg s G;
  cv_pos : 0 < c;
  cv_top : c + sz <= 2 ^ 64;
  cv_mapped : range_mapped s c sz;
  cv_size : chunk_size s c = sz;
  cv_info : apart c sz (wmalloc_ptr s) sizeof_wmalloc_info;
  cv_out : forall x, In x (all_chunks G) -> apart c sz (fst x + 8) 24;
  cv_req : MINIMUM_CHUNK_SIZE <= r <= sz;
  cv_nowrap : r + MINIMUM_CHUNK_SIZE < 2 ^ 64
}.

(** The values one loop of [initialize_bin_indices] stores, and whether the
    loop ends within [fuel] rounds. *)
Fixpoint fill_values (fuel : nat) (cont : Z -> bool) (next : Z -> Z) (i : Z) : list Z :=
  match fuel with
  | O => []
  | S f => if cont i then i :: fill_values f cont next (next i) else []
  end.

Fixpoint fill_stops (fuel : nat) (cont : Z -> bool) (next : Z -> Z) (i : Z) : bool :=
  match fuel with
  | O => false
  | S f => if cont i then fill_stops f cont next (next i) else true
  end.

(** The first [n] entries of [bin_index] hold their bounds. *)
Definition table_upto (s : state) (n : Z) : Prop :=
  forall k, 0 <= k < n ->
    load64 (mem s) (bin_index_addr (wmalloc_ptr s) k) = U k.

(** The engine's block is accessible. *)
Definition block_valid (s : state) : Prop :=
  forall a, wmalloc_ptr s <= a -> a + 8 <= wmalloc_ptr s + sizeof_wmalloc_info ->
    valid s a = true.

(** The first [n] bins point to their dummy nodes, which are empty. *)
Definition dummies_upto (s : state) (n : Z) : Prop :=
  forall j, 0 <= j < n ->
    load64 (mem s) (bin_addr (wmalloc_ptr s) j) = dummy_addr (wmalloc_ptr s) j /\
    load64 (mem s) (dummy_addr (wmalloc_ptr s) j + off_curr_chunk_size) = 0 /\
    load64 (mem s) (dummy_addr (wmalloc_ptr s) j + off_left_ptr) = NULL /\
    load64 (mem s) (dummy_addr (wmalloc_ptr s) j + off_right_ptr) = NULL.

(** What a successful [wmalloc] with requirement [r] leaves at the chunk [c]
    it dispenses out of a chunk of [sz] bytes: the chunk lies in mapped
    memory; it has been cut to [r] bytes when at least 40 bytes remain, and
    is handed out whole otherwise. *)
Definition dispensed (s' : state) (c sz r : Z) : Prop :=
  0 < c /\ c + sz <= 2 ^ 64 /\ r <= sz /\ range_mapped s' c sz /\
  if r + MINIMUM_CHUNK_SIZE <=? sz
  then chunk_size s' c = r /\ chunk_size s' (c + r) = sz - r
  else chunk_size s' c = sz.

(** The registry with the single chunk [x], in the bin of its size. *)
Definition one_chunk (x : Z * Z) : gbins := set_bin no_chunks (bin_of (snd x)) [x].

(** What [wmalloc] leaves when the registry [G] had nothing to offer for the
    requirement [r] and a fresh region [c, c + L) was mapped: the chunk at
    [c] announces no left neighbour, the region ends with a word that
    announces no right neighbour, and the residue, if there is one, has
    joined the bin of its size. *)
Definition fresh_chunk (s : state) (G : gbins) (c L r : Z) : Prop :=
  0 < c /\ c + L <= 2 ^ 64 /\ MINIMUM_CHUNK_SIZE <= r <= L /\ L < 2 ^ 63 /\
  range_mapped s c L /\ apart c L (wmalloc_ptr s) sizeof_wmalloc_info /\
  (forall y, In y (all_chunks G) -> apart c L (fst y + 8) 24) /\
  load64 (mem s) c = 0 /\ load64 (mem s) (c + L - 8) = 0 /\
  if r + MINIMUM_CHUNK_SIZE <=? L then
    chunk_size s c = r /\ chunk_size s (c + r) = L - r /\
    load64 (mem s) (c + r - 8) = L - r /\
    Z.land (load64 (mem s) (c + r)) SIZE_MASK = r /\
    exists l1 l2, G (bin_of (L - r)) = l1 ++ l2 /\
      reg s (set_bin G (bin_of (L - r)) (l1 ++ (c + r, L - r) :: l2))
  else chunk_size s c = L /\ reg s G.

(** Going from [s] to [s'], the region [c, c + L) was mapped, and of the
    memory of [s] only the engine's block and link fields of chunks in the
    bins [G] were written. *)
Definition grown (s s' : state) (G : gbins) (c L : Z) : Prop :=
  wmalloc_ptr s' = wmalloc_ptr s /\ mapped s' = (c, L) :: mapped s /\
  forall a, valid s a = true ->
    apart a 8 (wmalloc_ptr s) sizeof_wmalloc_info ->
    (forall y, In y (all_chunks G) -> apart a 8 (fst y + 16) 16) ->
    load64 (mem s') a = load64 (mem s) a.

(** * The properties under study, as predicates *)

(** The state a caller leaves behind, when it runs to the end. *)
Definition state_after (fuel : nat) (ops : list op) : state :=
  match run fuel ops [] initial_state with
  | Finished _ s => s
  | _ => initial_state
  end.

(** The operating system of the examples: [sbrk] answers 4096, the [k]-th
    mapping is placed at [k * 2^32]. *)
Definition os_at (k : Z) : os_env := mkEnv 4096 (k * 2 ^ 32).
Definition os_no_mmap : os_env := mkEnv 4096 MAP_FAILED.
Definition os_no_sbrk : os_env := mkEnv MAP_FAILED (2 ^ 32).

(** The value a run returns. *)
Definition returns {A} (r : result A) (a : A) : Prop :=
  match r with Ok x _ => x = a | Err _ => False end.

(** Contract of allocate: a non-null result points to at least [n] bytes
    (the chunk is at least [n + 24] long) and is aligned to 8 bytes. *)
Definition allocate_contract (fuel : nat) (e : os_env) (n : Z) (s : state) : Prop :=
  forall p s', wmalloc fuel e n s = Ok p s' -> p <> NULL ->
    n + CHUNK_OVERHEAD <= chunk_size s' (p - 16) /\ p mod 8 = 0.

(** Sizes of the chunks the engine manages after a run: those behind the live
    buffers and those in the bins. *)
Definition managed_sizes (fuel : nat) (bufs : list buffer) (s : state) : list Z :=
  map (fun b => chunk_size s (buf_ptr b - 16)) (filter buf_live bufs)
  ++ map (chunk_size s) (free_chunks fuel s).

Definition sizes_aligned_claim (fuel : nat) (ops : list op) : Prop :=
  match run fuel ops [] initial_state with
  | Finished bufs s =>
      Forall (fun z => z mod 8 = 0 /\ MINIMUM_CHUNK_SIZE <= z) (managed_sizes fuel bufs s)
  | _ => True
  end.

(** Two chunks of the bins that touch in memory. *)
Definition adjacent_free (fuel : nat) (s : state) : bool :=
  existsb (fun c => existsb (fun d => d =? c + chunk_size s c) (free_chunks fuel s))
          (free_chunks fuel s).

(** The region size the specification announces: 131072 bytes up to that
    requirement, and the requirement rounded up to pages plus one page
    beyond it. *)
Definition announced_region_size (r : Z) : Z :=
  if r <=? MMAP_SIZE then MMAP_SIZE
  else ((r + PAGE_SIZE - 1) / PAGE_SIZE + 1) * PAGE_SIZE.

(** Allocate, release, allocate again: the same pointer, no new region. *)
Definition reuse_claim (fuel : nat) (e1 e2 : os_env) (n : Z) (s : state) : Prop :=
  forall p s1 s2 p' s3,
    wmalloc fuel e1 n s = Ok p s1 -> p <> NULL ->
    wfree fuel p s1 = Ok tt s2 ->
    wmalloc fuel e2 n s2 = Ok p' s3 ->
    p' = p /\ mapped s3 = mapped s2.

(** Callers used as examples. *)

(** Four buffers of 24 bytes, the first and third released: bin 1 then holds
    two chunks of 48 bytes. *)
Definition two_equal_chunks : list op :=
  [Malloc (os_at 1) 24; Malloc (os_at 2) 24; Malloc (os_at 2) 24;
   Malloc (os_at 2) 24; Free 0%nat; Free 2%nat].

(** A buffer of 100 bytes whose owner sets the top byte of its third and
    fourth 8-byte word before releasing it. *)
Definition dirty_buffer : list op :=
  [Malloc (os_at 1) 100; Write 0%nat 23 255; Write 0%nat 31 255; Free 0%nat].

(** The same effect without a single write by the caller, through sizes that
    are not multiples of 8. *)
Definition odd_sizes : list op :=
  [Malloc (os_at 1) 24; Free 0%nat; Malloc (os_at 2) 17; Free 1%nat].

(** The caller runs to the end and leaves buffers and a state with [Q]. *)
Definition leaves (fuel : nat) (ops : list op) (Q : list buffer -> state -> Prop) : Prop :=
  match run fuel ops [] initial_state with
  | Finished bufs s => Q bufs s
  | _ => False
  end.

(** [c] then [k], with a property of the final value and state. *)
Definition then_holds {A} (r : result A) (Q : A -> state -> Prop) : Prop :=
  match r with Ok a s => Q a s | Err _ => False end.

(** A buffer of 104 bytes taken and released, so that the next split of the
    region can fall across the old boundary words. *)
Definition old_boundary : list op :=
  [Malloc (os_at 1) 104; Free 0%nat].

(** Two buffers of 100 bytes side by side; the first is released and 16 bytes
    are taken from its place, so that the second keeps a leading word that
    announces a free left neighbour of 124 bytes where a buffer in use of 40
    bytes now lies.  The owner of the 16 bytes stores an address of its
    choice in them, and the second buffer is released; 100 bytes are
    requested again. *)
Definition stale_left_size : list op :=
  [Malloc (os_at 1) 100; Malloc (os_at 2) 100; Free 0%nat; Malloc (os_at 2) 16;
   Write 2%nat 0 140; Write 2%nat 4 1; Free 1%nat; Malloc (os_at 2) 100].

(** Two buffers of 104 bytes side by side, so that every size is a multiple
    of 8; the first is released and 16 bytes are taken from its place.  The
    owner of the 16 bytes stores the address of the second buffer in them,
    and the second buffer is released. *)
Definition chunk_in_use_released : list op :=
  [Malloc (os_at 1) 104; Malloc (os_at 2) 104; Free 0%nat; Malloc (os_at 2) 16;
   Write 2%nat 0 144; Write 2%nat 4 1; Free 1%nat].

(** * Debugging functions and callers (wmalloc_test.c, example.c) *)

(** The [while] loop of [calc_mem_available]: [total] grows by the size of
    every chunk from [curr] on; the sum is a [uint64_t]. *)
Fixpoint sum_sizes (fuel : nat) (curr total : Z) : M Z :=
  match fuel with
  | O => fail OutOfFuel
  | S f =>
      if negb (curr =? NULL) then
        sz <- load (curr + off_curr_chunk_size) ;;
        next <- load (curr + off_right_ptr) ;;
        sum_sizes f next (wrap64 (total + sz))
      else ret total
  end.

(** The [for] loop over the bins; [k] bins remain, [i] is next. *)
Fixpoint calc_bins (fuel k : nat) (i total : Z) : M Z :=
  match k with
  | O => ret total
  | S k' =>
      head <- load_bin i ;;
      first <- load (head + off_right_ptr) ;;
      total <- sum_sizes fuel first total ;;
      calc_bins fuel k' (i + 1) total
  end.

Definition calc_mem_available (fuel : nat) : M Z :=
  calc_bins fuel (Z.to_nat NUM_BINS) 0 0.

(** [print_available] writes one line per bin: the bound of the bin, then
    the sizes of its chunks in list order.  The lines are returned. *)
Fixpoint print_sizes (fuel : nat) (curr : Z) : M (list Z) :=
  match fuel with
  | O => fail OutOfFuel
  | S f =>
      if negb (curr =? NULL) then
        sz <- load (curr + off_curr_chunk_size) ;;
        next <- load (curr + off_right_ptr) ;;
        rest <- print_sizes f next ;;
        ret (sz :: rest)
      else ret []
  end.

Fixpoint print_bins (fuel k : nat) (i : Z) : M (list (Z * list Z)) :=
  match k with
  | O => ret []
  | S k' =>
      b <- load_bin_index i ;;
      head <- load_bin i ;;
      first <- load (head + off_right_ptr) ;;
      sizes <- print_sizes fuel first ;;
      rest <- print_bins fuel k' (i + 1) ;;
      ret ((b, sizes) :: rest)
  end.

Definition print_available (fuel : nat) : M (list (Z * list Z)) :=
  print_bins fuel (Z.to_nat NUM_BINS) 0.

(** The bytes in the bins of a registry. *)
Definition total_free (G : gbins) : Z :=
  fold_right Z.add 0 (map snd (all_chunks G)).

(** A caller's view of the buffer [k]: the writes [ws] (offset, byte) go to
    buffer [k]. *)
Definition writes_to (k : nat) (ws : list (Z * Z)) : list op :=
  map (fun w => Write k (fst w) (snd w)) ws.

(** [array[i] = v] for an array of [int] held in a buffer: the four bytes
    of [v], least significant first. *)
Definition int_bytes (i v : Z) : list (Z * Z) :=
  [(4 * i, v); (4 * i + 1, v / 2 ^ 8); (4 * i + 2, v / 2 ^ 16); (4 * i + 3, v / 2 ^ 24)].

(** [for(int i=0; i<count; i++) array[i] = rand();] where the [i]-th call of
    [rand] answers [rand i]. *)
Definition fill_array (rand : Z -> Z) (count : Z) : list (Z * Z) :=
  flat_map (fun i => int_bytes (Z.of_nat i) (rand (Z.of_nat i)))
           (seq 0 (Z.to_nat count)).

(** [main] of example.c: an array of 100000 [int] is requested, filled with
    the answers of [rand] and released.  Printing reads the array only. *)
Definition example_main (e : os_env) (rand : Z -> Z) : list op :=
  Malloc e (4 * 100000) :: writes_to 0 (fill_array rand 100000) ++ [Free 0%nat].

(** * Order inside a bin *)

(** Sizes do not decrease along the list. *)
Fixpoint ascending (l : list (Z * Z)) : Prop :=
  match l with
  | [] => True
  | x :: l' => (forall y, In y l' -> snd x <= snd y) /\ ascending l'
  end.

Definition bins_sorted (G : gbins) : Prop :=
  forall i, 0 <= i < NUM_BINS -> ascending (G i).

(** * Chunks in use *)


(** * Properties *)

(** ** Memory: reading back what was written *)

Lemma load_bytes_ext (m1 m2 : memory) (n : nat) : forall a,
  (forall x, a <= x < a + Z.of_nat n -> m1 x = m2 x) ->
  load_bytes m1 a n = load_bytes m2 a n.
Proof.
  induction n as [|n IH]; intros a H; cbn [load_bytes]; [reflexivity|].
  rewrite (H a) by lia.
  rewrite (IH (a + 1)); [reflexivity|].
  intros x Hx. apply H. lia.
Qed.

Lemma load_bytes_range (m : memory) (n : nat) : forall a,
  0 <= load_bytes m a n < 2 ^ (8 * Z.of_nat n).
Proof.
  induction n as [|n IH]; intros a; cbn [load_bytes].
  - simpl. lia.
  - specialize (IH (a + 1)).
    replace (8 * Z.of_nat (S n)) with (8 + 8 * Z.of_nat n) by lia.
    rewrite Z.pow_add_r by lia.
    change (2 ^ 8) with 256.
    pose proof (Z.mod_pos_bound (m a) 256 ltac:(lia)).
    remember (2 ^ (8 * Z.of_nat n)) as X.
    remember (load_bytes m (a + 1) n) as L.
    lia.
Qed.

Lemma load64_range (m : memory) (a : Z) : 0 <= load64 m a < 2 ^ 64.
Proof. exact (load_bytes_range m 8 a). Qed.

Lemma load_bytes_of_value (v a : Z) (n : nat) : forall k,
  0 <= k ->
  load_bytes (fun x => (v / 2 ^ (8 * (x - a))) mod 256) (a + k) n
  = (v / 2 ^ (8 * k)) mod 2 ^ (8 * Z.of_nat n).
Proof.
  induction n as [|n IH]; intros k Hk; cbn [load_bytes].
  - simpl. now rewrite Z.mod_1_r.
  - replace (a + k + 1) with (a + (k + 1)) by lia.
    rewrite IH by lia.
    replace (a + k - a) with k by lia.
    rewrite Z.mod_mod by lia.
    replace (8 * Z.of_nat (S n)) with (8 + 8 * Z.of_nat n) by lia.
    rewrite (Z.pow_add_r 2 8) by lia.
    change (2 ^ 8) with 256.
    rewrite Z.rem_mul_r by lia.
    replace (8 * (k + 1)) with (8 * k + 8) by lia.
    rewrite Z.pow_add_r by lia.
    rewrite <- Z.div_div by lia.
    reflexivity.
Qed.

Lemma load64_store64_same (m : memory) (a v : Z) :
  load64 (store64 m a v) a = wrap64 v.
Proof.
  unfold load64, wrap64.
  rewrite (load_bytes_ext _ (fun x => (v / 2 ^ (8 * (x - a))) mod 256)).
  - pose proof (load_bytes_of_value v a 8 0 ltac:(lia)) as E.
    rewrite Z.add_0_r in E. rewrite E.
    change (2 ^ (8 * 0)) with 1. now rewrite Z.div_1_r.
  - intros x Hx. unfold store64.
    destruct (a <=? x) eqn:E1; destruct (x <? a + 8) eqn:E2; try reflexivity; lia.
Qed.

Lemma load64_store64_other (m : memory) (a v b : Z) :
  b + 8 <= a \/ a + 8 <= b ->
  load64 (store64 m a v) b = load64 m b.
Proof.
  intros H. unfold load64. apply load_bytes_ext.
  intros x Hx. unfold store64.
  destruct (a <=? x) eqn:E1; destruct (x <? a + 8) eqn:E2; try reflexivity; lia.
Qed.

Lemma load64_zero_range_in (m : memory) (b len a : Z) :
  b <= a -> a + 8 <= b + len ->
  load64 (zero_range m b len) a = 0.
Proof.
  intros H1 H2. unfold load64.
  rewrite (load_bytes_ext _ (fun _ => 0)).
  - reflexivity.
  - intros x Hx. unfold zero_range.
    destruct (b <=? x) eqn:E1; destruct (x <? b + len) eqn:E2; try reflexivity; lia.
Qed.

Lemma load64_zero_range_out (m : memory) (b len a : Z) :
  a + 8 <= b \/ b + len <= a ->
  load64 (zero_range m b len) a = load64 m a.
Proof.
  intros H. unfold load64. apply load_bytes_ext.
  intros x Hx. unfold zero_range.
  destruct (b <=? x) eqn:E1; destruct (x <? b + len) eqn:E2; try reflexivity; lia.
Qed.

Lemma wrap64_small (z : Z) : 0 <= z < 2 ^ 64 -> wrap64 z = z.
Proof. intros H. unfold wrap64. now apply Z.mod_small. Qed.

Lemma wrap64_range (z : Z) : 0 <= wrap64 z < 2 ^ 64.
Proof. unfold wrap64. apply Z.mod_pos_bound. lia. Qed.

(** ** Running the code one step at a time *)

Lemma bind_ok {A B} (c : M A) (k : A -> M B) (s s1 : state) (a : A) :
  c s = Ok a s1 -> bind c k s = k a s1.
Proof. intros H. unfold bind. now rewrite H. Qed.

Lemma bind_err {A B} (c : M A) (k : A -> M B) (s : state) (e : error) :
  c s = Err e -> bind c k s = Err e.
Proof. intros H. unfold bind. now rewrite H. Qed.

Lemma bind_assoc {A B C} (c : M A) (k1 : A -> M B) (k2 : B -> M C) (s : state) :
  bind (bind c k1) k2 s = bind c (fun x => bind (k1 x) k2) s.
Proof. unfold bind. destruct (c s); reflexivity. Qed.

Lemma bind_inv {A B} (c : M A) (k : A -> M B) (s s2 : state) (b : B) :
  bind c k s = Ok b s2 -> exists a s1, c s = Ok a s1 /\ k a s1 = Ok b s2.
Proof.
  unfold bind. destruct (c s) as [a s1|e]; [|discriminate].
  intros H. now exists a, s1.
Qed.

Lemma load_ok (s : state) (a : Z) :
  valid s a = true -> load a s = Ok (load64 (mem s) a) s.
Proof. intros H. unfold load. now rewrite H. Qed.

Lemma store_ok (s : state) (a v : Z) :
  valid s a = true -> store a v s = Ok tt (upd_mem s a v).
Proof. intros H. unfold store. now rewrite H. Qed.

Lemma load_inv (s s' : state) (a v : Z) :
  load a s = Ok v s' -> s' = s /\ v = load64 (mem s) a /\ valid s a = true.
Proof.
  unfold load. destruct (valid s a); [|discriminate].
  intros H. inversion H. auto.
Qed.

Lemma store_inv (s s' : state) (a v : Z) (u : unit) :
  store a v s = Ok u s' -> s' = upd_mem s a v /\ valid s a = true.
Proof.
  unfold store. destruct (valid s a); [|discriminate].
  intros H. inversion H. auto.
Qed.

Lemma valid_upd_mem (s : state) (a v b : Z) :
  valid (upd_mem s a v) b = valid s b.
Proof. reflexivity. Qed.

Lemma valid_range (s : state) (a : Z) :
  valid s a = true -> 0 <= a /\ a + 8 <= 2 ^ 64.
Proof.
  unfold valid. rewrite !andb_true_iff. intros [[H1 H2] _]. lia.
Qed.

Lemma range_mapped_valid (s : state) (c sz a : Z) :
  range_mapped s c sz -> 0 <= c -> c + sz <= 2 ^ 64 ->
  c <= a -> a + 8 <= c + sz -> valid s a = true.
Proof.
  intros (r & Hin & H1 & H2) H3 H4 H5 H6. unfold valid.
  rewrite !andb_true_iff. repeat split; try lia.
  apply existsb_exists. exists r. split; [assumption|].
  unfold in_region. rewrite andb_true_iff. lia.
Qed.

Lemma valid_mapped (s : state) (a : Z) :
  valid s a = true -> range_mapped s a 8.
Proof.
  unfold valid. rewrite !andb_true_iff. intros [_ H].
  apply existsb_exists in H. destruct H as (r & Hin & Hr).
  unfold in_region in Hr. rewrite andb_true_iff in Hr.
  exists r. split; [assumption|]. lia.
Qed.

Lemma ret_inv {A} (a b : A) (s s' : state) : ret a s = Ok b s' -> b = a /\ s' = s.
Proof. unfold ret. intros H. inversion H. auto. Qed.

Lemma assert_inv (b : bool) (u : unit) (s s' : state) :
  assert b s = Ok u s' -> b = true /\ s' = s.
Proof. destruct b; unfold assert, ret, fail; intros H; inversion H; auto. Qed.

Lemma get_wmalloc_ptr_inv (p : Z) (s s' : state) :
  get_wmalloc_ptr s = Ok p s' -> p = wmalloc_ptr s /\ s' = s.
Proof. unfold get_wmalloc_ptr. intros H. inversion H. auto. Qed.

(** Take apart a run that is known to have returned. *)
Ltac inv_run :=
  repeat match goal with
  | H : bind _ _ _ = Ok _ _ |- _ =>
      apply bind_inv in H; destruct H as (? & ? & ? & ?)
  | H : load _ _ = Ok ?v ?s' |- _ =>
      apply load_inv in H; destruct H as (? & ? & ?); try subst s'; try subst v
  | H : store _ _ _ = Ok _ ?s' |- _ =>
      apply store_inv in H; destruct H as (? & ?); try subst s'
  | H : ret _ _ = Ok ?v ?s' |- _ =>
      apply ret_inv in H; destruct H; try subst s'; try subst v
  | H : assert _ _ = Ok _ ?s' |- _ =>
      apply assert_inv in H; destruct H; try subst s'
  | H : get_wmalloc_ptr _ = Ok ?v ?s' |- _ =>
      apply get_wmalloc_ptr_inv in H; destruct H; try subst s'; try subst v
  end.

Lemma mmap_length_cases (r : Z) :
  mmap_length r = 0 \/ PAGE_SIZE <= mmap_length r < 2 ^ 64.
Proof.
  unfold mmap_length, MMAP_SIZE, PAGE_SIZE, wrap64.
  destruct (r <=? 131072); [right; lia|].
  pose proof (Z.mod_pos_bound ((r / 4096 + 1) * 4096) (2 ^ 64) ltac:(lia)) as Hb.
  assert (Hd : (((r / 4096 + 1) * 4096) mod 2 ^ 64) mod 4096 = 0).
  { change (2 ^ 64) with (4096 * 2 ^ 52).
    rewrite Z.rem_mul_r by lia.
    rewrite Z.mod_mul by lia. rewrite Z.add_0_l.
    rewrite (Z.mul_comm 4096). apply Z.mod_mul. lia. }
  remember (((r / 4096 + 1) * 4096) mod 2 ^ 64) as L.
  destruct (Z.eq_dec L 0); [left; assumption|right].
  pose proof (Z.div_mod L 4096 ltac:(lia)). lia.
Qed.

Lemma bind_load {B} (a : Z) (k : Z -> M B) (s : state) :
  valid s a = true -> bind (load a) k s = k (load64 (mem s) a) s.
Proof. intros H. apply bind_ok. now apply load_ok. Qed.

Lemma bind_store {B} (a v : Z) (k : unit -> M B) (s : state) :
  valid s a = true -> bind (store a v) k s = k tt (upd_mem s a v).
Proof. intros H. apply bind_ok. now apply store_ok. Qed.

Lemma bind_ret {A B} (a : A) (k : A -> M B) (s : state) :
  bind (ret a) k s = k a s.
Proof. reflexivity. Qed.

Lemma bind_assert {B} (b : bool) (k : unit -> M B) (s : state) :
  b = true -> bind (assert b) k s = k tt s.
Proof. intros ->. reflexivity. Qed.

Lemma bind_get_wmalloc_ptr {B} (k : Z -> M B) (s : state) :
  bind get_wmalloc_ptr k s = k (wmalloc_ptr s) s.
Proof. reflexivity. Qed.

Lemma mem_upd_mem (s : state) (a v : Z) :
  mem (upd_mem s a v) = store64 (mem s) a v.
Proof. reflexivity. Qed.

Lemma wmalloc_ptr_upd_mem (s : state) (a v : Z) :
  wmalloc_ptr (upd_mem s a v) = wmalloc_ptr s.
Proof. reflexivity. Qed.

Lemma mapped_upd_mem (s : state) (a v : Z) :
  mapped (upd_mem s a v) = mapped s.
Proof. reflexivity. Qed.

Lemma neq_null_negb (c : Z) : c <> NULL -> negb (c =? NULL) = true.
Proof. intros H. apply Z.eqb_neq in H. now rewrite H. Qed.

(** Split conjunctions only (records stay whole). *)
Ltac conj_split := repeat match goal with |- _ /\ _ => split end.

Lemma chunk_size_eq (s : state) (c : Z) : load64 (mem s) (c + 8) = chunk_size s c.
Proof. reflexivity. Qed.

(** ** The table of bin bounds and the two scans over it *)

Lemma bin_ids_in (i : Z) : In i bin_ids <-> 0 <= i < NUM_BINS.
Proof.
  unfold bin_ids, NUM_BINS. rewrite in_map_iff. split.
  - intros (n & <- & Hn). apply in_seq in Hn. lia.
  - intros H. exists (Z.to_nat i). split; [lia|]. apply in_seq. lia.
Qed.

Lemma scan_bin_spec (sz : Z) (k : nat) : forall i,
  0 <= i <= 45 -> i + Z.of_nat k = NUM_BINS -> sz <= U 45 ->
  i <= scan_bin k sz i <= 45 /\ sz <= U (scan_bin k sz i) /\
  forall j, i <= j < scan_bin k sz i -> U j < sz.
Proof.
  unfold NUM_BINS.
  induction k as [|k IH]; intros i Hi Hk Hsz; cbn [scan_bin]; [lia|].
  destruct (sz >? U i) eqn:E.
  - assert (i <> 45) by (intros ->; lia).
    specialize (IH (i + 1) ltac:(lia) ltac:(lia) Hsz).
    destruct IH as (H1 & H2 & H3).
    split; [lia|]. split; [lia|].
    intros j Hj. destruct (Z.eq_dec j i) as [->|]; [lia|]. apply H3. lia.
  - split; [lia|]. split; [lia|]. intros j Hj. lia.
Qed.

Lemma bin_of_spec (sz : Z) :
  sz < 2 ^ 64 ->
  0 <= bin_of sz <= 45 /\ sz <= U (bin_of sz) /\
  forall j, 0 <= j < bin_of sz -> U j < sz.
Proof.
  intros H. apply (scan_bin_spec sz 46 0); [lia|reflexivity|].
  change (U 45) with (2 ^ 64 - 1). lia.
Qed.

Lemma find_scan_spec (r : Z) (k : nat) : forall i,
  0 <= i <= 45 -> i + Z.of_nat k = NUM_BINS -> r <= U 45 ->
  i <= find_scan k r i <= 45 /\ r <= U (find_scan k r i) /\
  forall j, i <= j < find_scan k r i -> U j < r.
Proof.
  unfold NUM_BINS.
  induction k as [|k IH]; intros i Hi Hk Hr; cbn [find_scan]; [lia|].
  destruct (r >? U i) eqn:E; cbn [andb].
  - assert (i <> 45) by (intros ->; lia).
    replace (i <? NUM_BINS) with true
      by (symmetry; apply Z.ltb_lt; unfold NUM_BINS; lia).
    specialize (IH (i + 1) ltac:(lia) ltac:(lia) Hr).
    destruct IH as (H1 & H2 & H3).
    split; [lia|]. split; [lia|].
    intros j Hj. destruct (Z.eq_dec j i) as [->|]; [lia|]. apply H3. lia.
  - split; [lia|]. split; [lia|]. intros j Hj. lia.
Qed.

Lemma find_of_spec (r : Z) :
  r < 2 ^ 64 ->
  1 <= find_of r <= 45 /\ r <= U (find_of r) /\
  forall j, 1 <= j < find_of r -> U j < r.
Proof.
  intros H. unfold find_of.
  apply (find_scan_spec r 45 1); [lia|reflexivity|].
  change (U 45) with (2 ^ 64 - 1). lia.
Qed.

(** ** Frames: what a run leaves untouched *)

Lemma only_changed_refl (P : Z -> Prop) (s : state) : only_changed P s s.
Proof. repeat split. Qed.

Lemma only_changed_weaken (P Q : Z -> Prop) (s s' : state) :
  (forall w, P w -> Q w) -> only_changed P s s' -> only_changed Q s s'.
Proof.
  intros HPQ (H1 & H2 & H3). repeat split; try assumption.
  intros a Ha. apply H3. intros w Hw. apply Ha, HPQ, Hw.
Qed.

Lemma only_changed_trans (P : Z -> Prop) (s s1 s2 : state) :
  only_changed P s s1 -> only_changed P s1 s2 -> only_changed P s s2.
Proof.
  intros (H1 & H2 & H3) (K1 & K2 & K3). repeat split; try congruence.
  intros a Ha. rewrite K3 by assumption. now apply H3.
Qed.

Lemma only_changed_upd (P : Z -> Prop) (s : state) (a v : Z) :
  P a -> only_changed P s (upd_mem s a v).
Proof.
  intros Ha. repeat split. intros b Hb. cbn [mem upd_mem].
  apply load64_store64_other. specialize (Hb a Ha). unfold apart in Hb. lia.
Qed.

Lemma only_changed_valid (P : Z -> Prop) (s s' : state) (a : Z) :
  only_changed P s s' -> valid s' a = valid s a.
Proof. intros (_ & H & _). unfold valid. now rewrite H. Qed.

Lemma only_changed_range_mapped (P : Z -> Prop) (s s' : state) (c sz : Z) :
  only_changed P s s' -> range_mapped s c sz -> range_mapped s' c sz.
Proof. intros (_ & H & _). unfold range_mapped. now rewrite H. Qed.

(** ** Doubly linked segments *)

Lemma lseg_ext (m m' : memory) (l : list Z) : forall prev nxt,
  (forall d, In d (prev :: l) ->
     load64 m' (d + off_right_ptr) = load64 m (d + off_right_ptr)) ->
  (forall d, In d l ->
     load64 m' (d + off_left_ptr) = load64 m (d + off_left_ptr)) ->
  lseg m prev l nxt -> lseg m' prev l nxt.
Proof.
  induction l as [|c l IH]; intros prev nxt Hr Hl; cbn [lseg].
  - intros <-. apply Hr. now left.
  - intros (H1 & H2 & H3 & H4). repeat split.
    + rewrite Hr by now left. assumption.
    + assumption.
    + rewrite Hl by now left. assumption.
    + apply IH; [| |assumption].
      * intros d Hd. apply Hr. now right.
      * intros d Hd. apply Hl. now right.
Qed.

Lemma lseg_nonnull (m : memory) (l : list Z) : forall prev nxt,
  lseg m prev l nxt -> forall d, In d l -> d <> NULL.
Proof.
  induction l as [|c l IH]; intros prev nxt H d Hd; [contradiction|].
  cbn [lseg] in H. destruct H as (_ & H2 & _ & H4).
  destruct Hd as [<-|Hd]; [assumption|]. eapply IH; eassumption.
Qed.

Lemma lseg_next (m : memory) (l : list Z) (prev nxt : Z) :
  lseg m prev l nxt -> load64 m (prev + off_right_ptr) = hd nxt l.
Proof. destruct l; cbn [lseg hd]; tauto. Qed.

(** ** Removing a node from a bin *)

Lemma last_in {A} (l : list A) (a : A) : In (last l a) (a :: l).
Proof.
  revert a. induction l as [|b l IH]; intros a; [now left|].
  change (last (b :: l) a) with (match l with [] => b | _ => last l a end).
  destruct l as [|c l]; [right; now left|].
  right. specialize (IH b).
  change (last (c :: l) a) with (match l with [] => c | _ => last l a end).
  change (last (c :: l) b) with (match l with [] => c | _ => last l b end) in IH.
  destruct l; [exact IH|].
  replace (last (a0 :: l) a) with (last (a0 :: l) b); [exact IH|].
  clear. revert a0. induction l; intros; [reflexivity|].
  change (last (a0 :: a1 :: l) b) with (last (a1 :: l) b).
  change (last (a0 :: a1 :: l) a) with (last (a1 :: l) a). apply IHl.
Qed.

Lemma last_cons {A} (l : list A) (a b : A) : last (a :: l) b = last l a.
Proof.
  revert a b. induction l as [|c l IH]; intros a b; [reflexivity|].
  change (last (a :: c :: l) b) with (last (c :: l) b).
  rewrite IH. change (last (c :: l) a) with (match l with [] => c | _ => last l a end).
  destruct l; [reflexivity|]. symmetry.
  change (last (a0 :: l) a) with (last (c :: a0 :: l) a). apply IH.
Qed.

Lemma lseg_mid (m : memory) (c : Z) (l2 : list Z) (nxt : Z) (l1 : list Z) : forall head,
  lseg m head (l1 ++ c :: l2) nxt ->
  load64 m (c + off_left_ptr) = last l1 head /\
  load64 m (c + off_right_ptr) = hd nxt l2 /\ c <> NULL.
Proof.
  induction l1 as [|a l1 IH]; intros head H.
  - cbn [app lseg] in H. destruct H as (_ & H2 & H3 & H4).
    cbn [last]. repeat split; try assumption. now apply lseg_next.
  - cbn [app lseg] in H. destruct H as (_ & _ & _ & H4).
    rewrite last_cons. now apply IH.
Qed.

Lemma lseg_remove (m m' : memory) (c : Z) (l2 : list Z) (nxt : Z) (l1 : list Z) :
  forall head,
  lseg m head (l1 ++ c :: l2) nxt ->
  NoDup (head :: l1 ++ c :: l2) ->
  load64 m' (last l1 head + off_right_ptr) = hd nxt l2 ->
  (forall d, hd_error l2 = Some d -> load64 m' (d + off_left_ptr) = last l1 head) ->
  (forall d, In d (head :: l1 ++ l2) -> d <> last l1 head ->
     load64 m' (d + off_right_ptr) = load64 m (d + off_right_ptr)) ->
  (forall d, In d (l1 ++ l2) -> hd_error l2 <> Some d ->
     load64 m' (d + off_left_ptr) = load64 m (d + off_left_ptr)) ->
  lseg m' head (l1 ++ l2) nxt.
Proof.
  induction l1 as [|a l1 IH]; intros head H Hnd Hp Hs Hr Hl.
  - cbn [app last] in *. cbn [lseg] in H. destruct H as (H1 & H2 & H3 & H4).
    destruct l2 as [|d l2]; cbn [lseg hd] in *; [assumption|].
    destruct H4 as (K1 & K2 & K3 & K4).
    apply NoDup_cons_iff in Hnd. destruct Hnd as [Hn1 Hnd1].
    apply NoDup_cons_iff in Hnd1. destruct Hnd1 as [Hn2 Hnd2].
    apply NoDup_cons_iff in Hnd2. destruct Hnd2 as [Hn3 Hnd3].
    repeat split; try assumption.
    + now apply Hs.
    + apply (lseg_ext m); [| |assumption].
      * intros e He. apply Hr; [now right|].
        intros ->. apply Hn1. right. exact He.
      * intros e He. apply Hl; [now right|].
        cbn [hd_error]. intros [= ->]. contradiction.
  - cbn [app] in *. rewrite last_cons in *.
    cbn [lseg] in H. destruct H as (H1 & H2 & H3 & H4).
    apply NoDup_cons_iff in Hnd. destruct Hnd as [Hn1 Hnd1].
    cbn [lseg]. repeat split.
    + rewrite Hr; [assumption|now left|].
      intros E. apply Hn1. rewrite E.
      pose proof (last_in l1 a) as Hi.
      destruct Hi as [Hi|Hi]; [left; exact Hi|right].
      apply in_or_app. now left.
    + assumption.
    + rewrite Hl; [assumption|now left|].
      intros E. apply NoDup_cons_iff in Hnd1. destruct Hnd1 as [Hn2 _]. apply Hn2.
      apply in_or_app. right. right.
      destruct l2; [discriminate|]. cbn [hd_error] in E. inversion E. now left.
    + apply IH; try assumption.
      * intros d Hd Hne. apply Hr; [now right|assumption].
      * intros d Hd Hne. apply Hl; [now right|assumption].
Qed.

Lemma remove_chunk_spec (s : state) (head c : Z) (l1 l2 : list Z) :
  lseg (mem s) head (l1 ++ c :: l2) NULL ->
  nodes_apart (head :: l1 ++ c :: l2) ->
  (forall d, In d (head :: l1 ++ c :: l2) -> hdr_ok s d) ->
  exists s', remove_chunk c s = Ok c s' /\
    lseg (mem s') head (l1 ++ l2) NULL /\
    only_changed (links_of (head :: l1 ++ c :: l2)) s s'.
Proof.
  intros Hseg [Hnd Hsep] Hok.
  destruct (lseg_mid _ _ _ _ _ _ Hseg) as (Hl & Hr & Hc).
  set (N := head :: l1 ++ c :: l2) in *.
  assert (HcN : In c N) by (right; apply in_or_app; right; now left).
  assert (HpN : In (last l1 head) N).
  { destruct (last_in l1 head) as [E|E]; [left; exact E|].
    right. apply in_or_app. now left. }
  assert (Hpc : last l1 head <> c).
  { intros E. subst N. apply NoDup_cons_iff in Hnd. destruct Hnd as [Hn1 Hn2].
    apply NoDup_remove_2 in Hn2.
    destruct (last_in l1 head) as [E1|E1].
    - apply Hn1. rewrite E1, E. apply in_or_app. right. now left.
    - apply Hn2. rewrite <- E. apply in_or_app. now left. }
  destruct (Hok c HcN) as (Vc8 & Vc16 & Vc24).
  destruct (Hok _ HpN) as (Vp8 & Vp16 & Vp24).
  pose proof (Hsep _ _ HpN HcN Hpc) as Spc.
  unfold off_left_ptr, off_right_ptr, off_curr_chunk_size, apart, NULL in *.
  unfold remove_chunk, off_left_ptr, off_right_ptr.
  rewrite bind_load by assumption. rewrite bind_load by assumption.
  rewrite Hl, Hr.
  destruct l2 as [|d l2]; cbn [hd] in *.
  - change (0 =? NULL) with true. cbv iota.
    rewrite bind_store by assumption.
    rewrite bind_store by assumption.
    rewrite bind_store by assumption.
    eexists. split; [reflexivity|]. split.
    + apply (lseg_remove (mem s) _ c [] 0 l1 head Hseg Hnd);
        cbn [mem upd_mem hd hd_error]; unfold off_left_ptr, off_right_ptr.
      * rewrite !load64_store64_other by lia.
        rewrite load64_store64_same. reflexivity.
      * discriminate.
      * intros e He Hne.
        assert (HeN : In e N).
        { destruct He as [He|He]; [left; exact He|right].
          apply in_app_or in He. apply in_or_app. destruct He; [now left|contradiction]. }
        assert (Hec : e <> c).
        { intros ->. subst N. apply NoDup_cons_iff in Hnd. destruct Hnd as [Hn1 Hn2].
          apply NoDup_remove_2 in Hn2.
          destruct He as [He|He]; [apply Hn1; rewrite He; apply in_or_app; right; now left|].
          contradiction. }
        pose proof (Hsep _ _ HeN HcN Hec). pose proof (Hsep _ _ HeN HpN Hne).
        rewrite !load64_store64_other by lia. reflexivity.
      * intros e He _.
        assert (HeN : In e N).
        { right. apply in_app_or in He. apply in_or_app. destruct He; [now left|contradiction]. }
        assert (Hec : e <> c).
        { intros ->. subst N. apply NoDup_cons_iff in Hnd. destruct Hnd as [Hn1 Hn2].
          apply NoDup_remove_2 in Hn2. contradiction. }
        pose proof (Hsep _ _ HeN HcN Hec).
        destruct (Z.eq_dec e (last l1 head)) as [->|Hne].
        -- rewrite !load64_store64_other by lia. reflexivity.
        -- pose proof (Hsep _ _ HeN HpN Hne).
           rewrite !load64_store64_other by lia. reflexivity.
    + eapply only_changed_trans; [eapply only_changed_trans|];
        [apply only_changed_upd| apply only_changed_upd | apply only_changed_upd].
      * exists (last l1 head). split; [assumption|now right].
      * exists c. split; [assumption|now right].
      * exists c. split; [assumption|now left].
  - assert (HdN : In d N) by (right; apply in_or_app; right; right; now left).
    assert (Hd0 : d <> 0).
    { apply (lseg_nonnull _ _ _ _ Hseg). apply in_or_app. right. right. now left. }
    assert (Hdc : d <> c).
    { intros ->. subst N. apply NoDup_cons_iff in Hnd. destruct Hnd as [_ Hn2].
      apply NoDup_remove_2 in Hn2. apply Hn2. apply in_or_app. right. now left. }
    assert (Hdp : d <> last l1 head).
    { intros E. subst N. apply NoDup_cons_iff in Hnd. destruct Hnd as [Hn1 Hn2].
      destruct (last_in l1 head) as [E1|E1].
      - apply Hn1. rewrite E1, <- E. apply in_or_app. right. right. now left.
      - apply NoDup_app_remove_l in Hn2 as Hn3.
        apply (NoDup_remove_2 l1 (d :: l2) c) in Hn2 as Hn4.
        rewrite <- E in E1.
        assert (Hn5 : NoDup (l1 ++ d :: l2)) by (eapply NoDup_remove_1; exact Hn2).
        apply NoDup_remove_2 in Hn5. apply Hn5. apply in_or_app. now left. }
    destruct (Hok d HdN) as (Vd8 & Vd16 & Vd24).
    pose proof (Hsep _ _ HdN HcN Hdc) as Sdc.
    pose proof (Hsep _ _ HdN HpN Hdp) as Sdp.
    unfold off_left_ptr, off_right_ptr, off_curr_chunk_size, apart, NULL in *.
    apply Z.eqb_neq in Hd0 as Hd0'. unfold NULL. rewrite Hd0'. cbv iota.
    rewrite bind_assoc.
    rewrite bind_store by assumption.
    rewrite bind_store by assumption.
    rewrite bind_store by assumption.
    rewrite bind_store by assumption.
    eexists. split; [reflexivity|]. split.
    + apply (lseg_remove (mem s) _ c (d :: l2) 0 l1 head Hseg Hnd);
        cbn [mem upd_mem hd hd_error]; unfold off_left_ptr, off_right_ptr.
      * rewrite !load64_store64_other by lia.
        rewrite load64_store64_same. apply wrap64_small.
        rewrite <- Hr. apply load64_range.
      * intros ? [= <-].
        rewrite !load64_store64_other by lia.
        rewrite load64_store64_same. apply wrap64_small.
        rewrite <- Hl. apply load64_range.
      * intros e He Hne.
        assert (HeN : In e N).
        { destruct He as [He|He]; [left; exact He|right].
          apply in_app_or in He. apply in_or_app.
          destruct He; [now left|right; now right]. }
        assert (Hec : e <> c).
        { intros ->. subst N. apply NoDup_cons_iff in Hnd. destruct Hnd as [Hn1 Hn2].
          apply NoDup_remove_2 in Hn2.
          destruct He as [He|He]; [apply Hn1; rewrite He; apply in_or_app; right; now left|].
          contradiction. }
        pose proof (Hsep _ _ HeN HcN Hec). pose proof (Hsep _ _ HeN HpN Hne).
        destruct (Z.eq_dec e d) as [->|Hed].
        -- rewrite !load64_store64_other by lia. reflexivity.
        -- pose proof (Hsep _ _ HeN HdN Hed).
           rewrite !load64_store64_other by lia. reflexivity.
      * intros e He Hne.
        assert (HeN : In e N).
        { right. apply in_app_or in He. apply in_or_app.
          destruct He; [now left|right; now right]. }
        assert (Hec : e <> c).
        { intros ->. subst N. apply NoDup_cons_iff in Hnd. destruct Hnd as [Hn1 Hn2].
          apply NoDup_remove_2 in Hn2. contradiction. }
        assert (Hed : e <> d) by (intros ->; now apply Hne).
        pose proof (Hsep _ _ HeN HcN Hec). pose proof (Hsep _ _ HeN HdN Hed).
        destruct (Z.eq_dec e (last l1 head)) as [->|Hne'].
        -- rewrite !load64_store64_other by lia. reflexivity.
        -- pose proof (Hsep _ _ HeN HpN Hne').
           rewrite !load64_store64_other by lia. reflexivity.
    + eapply only_changed_trans; [eapply only_changed_trans;
        [eapply only_changed_trans|]|];
        [apply only_changed_upd| apply only_changed_upd | apply only_changed_upd
        | apply only_changed_upd].
      * exists (last l1 head). split; [assumption|now right].
      * exists d. split; [assumption|now left].
      * exists c. split; [assumption|now right].
      * exists c. split; [assumption|now left].
Qed.

(** ** Inserting a node into a bin *)

Lemma nodes_apart_tail (a : Z) (N : list Z) : nodes_apart (a :: N) -> nodes_apart N.
Proof.
  intros [Hnd Hsep]. split.
  - apply NoDup_cons_iff in Hnd. tauto.
  - intros x y Hx Hy. apply Hsep; now right.
Qed.

Lemma nodes_apart_head (a b : Z) (N : list Z) :
  nodes_apart (a :: N) -> In b N -> a <> b /\ apart (a + 8) 24 (b + 8) 24.
Proof.
  intros [Hnd Hsep] Hb.
  assert (a <> b).
  { intros ->. apply NoDup_cons_iff in Hnd. tauto. }
  split; [assumption|]. apply Hsep; [now left|now right|assumption].
Qed.

(** The node goes behind every node that is not larger and before the first
    larger one. *)
Lemma insert_loop_pos (to_add : Z) (l : list Z) :
  forall (s : state) (prev : Z) (fuel : nat),
  lseg (mem s) prev l NULL ->
  nodes_apart (prev :: l ++ [to_add]) ->
  (forall d, In d (prev :: l ++ [to_add]) -> hdr_ok s d) ->
  0 < to_add < 2 ^ 64 -> 0 <= prev < 2 ^ 64 ->
  (length l < fuel)%nat ->
  exists s' l1 l2,
    insert_loop fuel prev (load64 (mem s) (prev + off_right_ptr)) to_add s = Ok tt s' /\
    l = l1 ++ l2 /\
    ((forall d, In d l1 -> chunk_size s d <= chunk_size s to_add) /\
     (forall d, hd_error l2 = Some d -> chunk_size s to_add < chunk_size s d)) /\
    lseg (mem s') prev (l1 ++ to_add :: l2) NULL /\
    only_changed (fun w => w = prev + off_right_ptr \/ links_of (l ++ [to_add]) w) s s'.
Proof.
  induction l as [|d l IH]; intros s prev fuel Hseg Hap Hok Hta Hprev Hfuel;
    (destruct fuel as [|f]; [simpl in Hfuel; lia|]).
  - cbn [lseg] in Hseg. rewrite Hseg. cbn [insert_loop app].
    change (negb (NULL =? NULL)) with false. cbv iota.
    destruct (Hok prev ltac:(now left)) as (Vp8 & Vp16 & Vp24).
    destruct (Hok to_add ltac:(right; now left)) as (Vt8 & Vt16 & Vt24).
    destruct (nodes_apart_head _ to_add _ Hap ltac:(now left)) as [Hne Hs].
    unfold off_left_ptr, off_right_ptr, off_curr_chunk_size, apart, NULL in *.
    rewrite bind_store by assumption.
    rewrite bind_store by assumption.
    rewrite store_ok by assumption.
    eexists. exists [], []. split; [reflexivity|]. split; [reflexivity|].
    split; [split; [intros ? []|intros ? Hd0; discriminate Hd0]|]. split.
    + cbn [app lseg mem upd_mem]. unfold off_left_ptr, off_right_ptr, NULL.
      repeat split.
      * rewrite !load64_store64_other by lia. rewrite load64_store64_same.
        apply wrap64_small. lia.
      * lia.
      * rewrite !load64_store64_other by lia. rewrite load64_store64_same.
        apply wrap64_small. lia.
      * rewrite load64_store64_same. reflexivity.
    + eapply only_changed_trans; [eapply only_changed_trans|];
        [apply only_changed_upd| apply only_changed_upd | apply only_changed_upd].
      * now left.
      * right. exists to_add. split; [now left|now left].
      * right. exists to_add. split; [now left|now right].
  - cbn [lseg] in Hseg. destruct Hseg as (H1 & H2 & H3 & H4). rewrite H1.
    cbn [insert_loop]. rewrite (neq_null_negb _ H2). cbv iota.
    destruct (Hok prev ltac:(now left)) as (Vp8 & Vp16 & Vp24).
    destruct (Hok to_add ltac:(right; apply in_or_app; right; now left))
      as (Vt8 & Vt16 & Vt24).
    destruct (Hok d ltac:(right; now left)) as (Vd8 & Vd16 & Vd24).
    destruct (nodes_apart_head _ to_add _ Hap ltac:(apply in_or_app; right; now left))
      as [Hne Hs].
    destruct (nodes_apart_head _ d _ Hap ltac:(now left)) as [Hnd Hsd].
    pose proof (nodes_apart_tail _ _ Hap) as Hap'.
    destruct (nodes_apart_head _ to_add _ Hap' ltac:(apply in_or_app; right; now left))
      as [Hndt Hsdt].
    rewrite bind_load by assumption. rewrite bind_load by assumption.
    destruct (load64 (mem s) (to_add + off_curr_chunk_size) <?
              load64 (mem s) (d + off_curr_chunk_size)) eqn:E.
    + unfold off_left_ptr, off_right_ptr, off_curr_chunk_size, apart, NULL in *.
      rewrite bind_store by assumption.
      rewrite bind_store by assumption.
      rewrite bind_store by assumption.
      rewrite store_ok by assumption.
      assert (Hdr : 0 <= d < 2 ^ 64) by (rewrite <- H1; apply load64_range).
      eexists. exists [], (d :: l). split; [reflexivity|]. split; [reflexivity|].
      split; [split; [intros ? []|intros d0 Hd0; injection Hd0 as <-;
                      unfold chunk_size, off_curr_chunk_size;
                      apply Z.ltb_lt in E; exact E]|].
      split.
      * cbn [app lseg mem upd_mem]. unfold off_left_ptr, off_right_ptr, NULL.
        repeat split.
        -- rewrite !load64_store64_other by lia. rewrite load64_store64_same.
           apply wrap64_small. lia.
        -- lia.
        -- rewrite load64_store64_same. apply wrap64_small. lia.
        -- rewrite !load64_store64_other by lia. rewrite load64_store64_same.
           apply wrap64_small. lia.
        -- assumption.
        -- rewrite !load64_store64_other by lia. rewrite load64_store64_same.
           apply wrap64_small. lia.
        -- apply (lseg_ext (mem s)); [| |assumption].
           ++ intros e He.
              assert (e <> prev /\ apart (prev + 8) 24 (e + 8) 24) as [Hep Hsep].
              { destruct (nodes_apart_head _ e _ Hap) as [? ?]; [|split; congruence || assumption].
                destruct He as [->|He]; [now left|right]. apply in_or_app. now left. }
              assert (e <> to_add /\ apart (e + 8) 24 (to_add + 8) 24) as [Het Hset].
              { destruct He as [->|He]; [split; assumption|].
                destruct Hap' as [Hnd' Hsep'].
                assert (e <> to_add).
                { intros ->. apply NoDup_cons_iff in Hnd'. destruct Hnd' as [_ Hnd'].
                  apply NoDup_remove_2 in Hnd'. apply Hnd'. now rewrite app_nil_r. }
                split; [assumption|]. apply Hsep'; [right; apply in_or_app; now left| |assumption].
                right. apply in_or_app. right. now left. }
              unfold apart, off_right_ptr in *.
              destruct (Z.eq_dec e d) as [->|Hed].
              ** rewrite !load64_store64_other by lia. reflexivity.
              ** assert (apart (d + 8) 24 (e + 8) 24) as Hsde.
                 { destruct Hap' as [_ Hsep']. apply Hsep'; [now left| |congruence].
                   destruct He as [->|He]; [congruence|]. right. apply in_or_app. now left. }
                 unfold apart in *.
                 rewrite !load64_store64_other by lia. reflexivity.
           ++ intros e He.
              assert (e <> prev /\ apart (prev + 8) 24 (e + 8) 24) as [Hep Hsep].
              { destruct (nodes_apart_head _ e _ Hap) as [? ?]; [|split; congruence || assumption].
                right. apply in_or_app. now left. }
              destruct Hap' as [Hnd' Hsep'].
              assert (e <> to_add).
              { intros ->. apply NoDup_cons_iff in Hnd'. destruct Hnd' as [_ Hnd'].
                apply NoDup_remove_2 in Hnd'. apply Hnd'. now rewrite app_nil_r. }
              assert (e <> d).
              { intros ->. apply NoDup_cons_iff in Hnd'. destruct Hnd' as [Hnd' _].
                apply Hnd'. apply in_or_app. now left. }
              assert (apart (e + 8) 24 (to_add + 8) 24).
              { apply Hsep'; [right; apply in_or_app; now left| |assumption].
                right. apply in_or_app. right. now left. }
              assert (apart (d + 8) 24 (e + 8) 24).
              { apply Hsep'; [now left| |congruence]. right. apply in_or_app. now left. }
              unfold apart, off_left_ptr in *.
              rewrite !load64_store64_other by lia. reflexivity.
      * eapply only_changed_trans; [eapply only_changed_trans;
          [eapply only_changed_trans|]|];
          [apply only_changed_upd| apply only_changed_upd | apply only_changed_upd
          | apply only_changed_upd].
        -- now left.
        -- right. exists d. split; [now left|now left].
        -- right. exists to_add. split; [apply in_or_app; right; now left|now right].
        -- right. exists to_add. split; [apply in_or_app; right; now left|now left].
    + rewrite bind_load by assumption.
      assert (Hdr : 0 <= d < 2 ^ 64) by (rewrite <- H1; apply load64_range).
      destruct (IH s d f H4 Hap') as (s' & l1 & l2 & Hrun & El & (P1 & P2) & Hseg' & Hfr);
        try assumption.
      { intros e He. apply Hok. now right. }
      { simpl in Hfuel. lia. }
      exists s', (d :: l1), l2. split; [exact Hrun|]. split; [now rewrite El|].
      split; [split; [intros d0 [<-|Hd0]; [apply Z.ltb_ge in E; exact E|now apply P1]
                     |exact P2]|].
      destruct Hfr as (F1 & F2 & F3).
      assert (Hout : forall e, In e (l ++ [to_add]) ->
                e <> prev /\ apart (prev + 8) 24 (e + 8) 24 /\
                e <> d /\ apart (d + 8) 24 (e + 8) 24).
      { intros e He.
        destruct (nodes_apart_head _ e _ Hap) as [? ?]; [now right|].
        destruct (nodes_apart_head _ e _ Hap') as [? ?]; [assumption|].
        repeat split; congruence || assumption. }
      split.
      * cbn [app lseg]. repeat split; try assumption.
        -- rewrite F3; [assumption|].
           intros w [->|(e & He & Hw)].
           ++ unfold apart, off_right_ptr in *. lia.
           ++ destruct (Hout e He) as (_ & Ha & _).
              unfold apart, off_left_ptr, off_right_ptr in *. lia.
        -- rewrite F3; [assumption|].
           intros w [->|(e & He & Hw)].
           ++ unfold apart, off_left_ptr, off_right_ptr in *. lia.
           ++ destruct (Hout e He) as (_ & _ & _ & Ha).
              unfold apart, off_left_ptr, off_right_ptr in *. lia.
      * repeat split; try assumption.
        intros a Ha. apply F3. intros w [->|(e & He & Hw)].
        -- apply Ha. right. exists d. split; [now left|now right].
        -- apply Ha. right. exists e. split; [now right|assumption].
Qed.

Lemma insert_loop_spec (to_add : Z) (l : list Z) :
  forall (s : state) (prev : Z) (fuel : nat),
  lseg (mem s) prev l NULL ->
  nodes_apart (prev :: l ++ [to_add]) ->
  (forall d, In d (prev :: l ++ [to_add]) -> hdr_ok s d) ->
  0 < to_add < 2 ^ 64 -> 0 <= prev < 2 ^ 64 ->
  (length l < fuel)%nat ->
  exists s' l1 l2,
    insert_loop fuel prev (load64 (mem s) (prev + off_right_ptr)) to_add s = Ok tt s' /\
    l = l1 ++ l2 /\
    lseg (mem s') prev (l1 ++ to_add :: l2) NULL /\
    only_changed (fun w => w = prev + off_right_ptr \/ links_of (l ++ [to_add]) w) s s'.
Proof.
  intros s prev fuel H1 H2 H3 H4 H5 H6.
  destruct (insert_loop_pos to_add l s prev fuel H1 H2 H3 H4 H5 H6)
    as (s' & l1 & l2 & R1 & R2 & _ & R3 & R4).
  exists s', l1, l2.
  split; [exact R1|split; [exact R2|split; [exact R3|exact R4]]].
Qed.

(** ** Walking a bin for a chunk that is large enough *)

Lemma take_fit_some (r : Z) (l : list (Z * Z)) : forall x l',
  take_fit r l = Some (x, l') ->
  exists l1 l2, l = l1 ++ x :: l2 /\ l' = l1 ++ l2 /\ r <= snd x.
Proof.
  induction l as [|y l IH]; intros x l' H; cbn [take_fit] in H; [discriminate|].
  destruct (snd y >=? r) eqn:E.
  - inversion H; subst. exists [], l'. repeat split. lia.
  - destruct (take_fit r l) as [[z l'']|] eqn:E2; [|discriminate].
    inversion H; subst.
    destruct (IH _ _ eq_refl) as (l1 & l2 & -> & -> & Hr).
    exists (y :: l1), l2. repeat split. assumption.
Qed.

Lemma take_fit_none (r : Z) (l : list (Z * Z)) :
  take_fit r l = None -> forall x, In x l -> snd x < r.
Proof.
  induction l as [|y l IH]; intros H x Hx; [contradiction|].
  cbn [take_fit] in H. destruct (snd y >=? r) eqn:E; [discriminate|].
  destruct (take_fit r l) as [[z l'']|] eqn:E2; [discriminate|].
  destruct Hx as [<-|Hx]; [lia|]. now apply IH.
Qed.

Lemma search_bin_select_spec (r : Z) (gl : list (Z * Z)) :
  forall (s : state) (prev : Z) (fuel : nat),
  lseg (mem s) prev (map fst gl) NULL ->
  (forall x, In x gl -> hdr_ok s (fst x) /\ chunk_size s (fst x) = snd x) ->
  (length gl < fuel)%nat ->
  search_bin_select fuel (load64 (mem s) (prev + off_right_ptr)) r s
  = Ok (match take_fit (int_to_u64 r) gl with
        | Some (x, _) => fst x
        | None => NULL
        end) s.
Proof.
  induction gl as [|x gl IH]; intros s prev fuel Hseg Hok Hfuel;
    (destruct fuel as [|f]; [simpl in Hfuel; lia|]).
  - cbn [map lseg] in Hseg. rewrite Hseg. reflexivity.
  - cbn [map lseg] in Hseg. destruct Hseg as (H1 & H2 & H3 & H4). rewrite H1.
    cbn [search_bin_select take_fit]. rewrite (neq_null_negb _ H2). cbv iota.
    destruct (Hok x ltac:(now left)) as ((V8 & V16 & V24) & Hsz).
    rewrite bind_load by assumption.
    unfold chunk_size in Hsz. rewrite Hsz.
    destruct (snd x >=? int_to_u64 r) eqn:E; [reflexivity|].
    rewrite bind_load by assumption.
    rewrite (IH s (fst x) f H4).
    + destruct (take_fit (int_to_u64 r) gl) as [[y l']|]; reflexivity.
    + intros y Hy. apply Hok. now right.
    + simpl in Hfuel. lia.
Qed.

(** ** The chunks of all bins *)

Lemma bin_ids_nodup : NoDup bin_ids.
Proof.
  unfold bin_ids. generalize (seq_NoDup 46 0). generalize (seq 0 46).
  induction l as [|a l IH]; intros H; cbn [map]; constructor.
  - apply NoDup_cons_iff in H. destruct H as [H _].
    rewrite in_map_iff. intros (b & E & Hb). apply Nat2Z.inj in E. now subst.
  - apply IH. apply NoDup_cons_iff in H. tauto.
Qed.

Lemma in_all_chunks (G : gbins) (x : Z * Z) :
  In x (all_chunks G) <-> exists i, 0 <= i < NUM_BINS /\ In x (G i).
Proof.
  unfold all_chunks. rewrite in_flat_map. split.
  - intros (i & Hi & Hx). exists i. split; [now apply bin_ids_in|assumption].
  - intros (i & Hi & Hx). exists i. split; [now apply bin_ids_in|assumption].
Qed.

Lemma flat_map_set_bin_notin (G : gbins) (i : Z) (l : list (Z * Z)) (ids : list Z) :
  ~ In i ids -> flat_map (set_bin G i l) ids = flat_map G ids.
Proof.
  induction ids as [|j ids IH]; intros H; [reflexivity|].
  cbn [flat_map]. rewrite IH by (intros K; apply H; now right).
  unfold set_bin at 1. destruct (j =? i) eqn:E; [|reflexivity].
  apply Z.eqb_eq in E. subst. elim H. now left.
Qed.

Lemma all_chunks_app (G : gbins) (i : Z) :
  0 <= i < NUM_BINS ->
  exists A B, all_chunks G = A ++ G i ++ B /\
              forall l, all_chunks (set_bin G i l) = A ++ l ++ B.
Proof.
  intros Hi. apply bin_ids_in in Hi.
  destruct (in_split _ _ Hi) as (pre & post & E).
  pose proof bin_ids_nodup as Hnd. rewrite E in Hnd.
  pose proof (NoDup_remove_2 _ _ _ Hnd) as Hni.
  exists (flat_map G pre), (flat_map G post). unfold all_chunks. rewrite E. split.
  - rewrite flat_map_app. reflexivity.
  - intros l. rewrite flat_map_app. cbn [flat_map].
    rewrite !flat_map_set_bin_notin.
    + unfold set_bin. now rewrite Z.eqb_refl.
    + intros K. apply Hni. apply in_or_app. now right.
    + intros K. apply Hni. apply in_or_app. now left.
Qed.

Lemma in_all_chunks_set (G : gbins) (i : Z) (l : list (Z * Z)) (x : Z * Z) :
  0 <= i < NUM_BINS ->
  In x (all_chunks (set_bin G i l)) <->
  In x l \/ exists j, j <> i /\ 0 <= j < NUM_BINS /\ In x (G j).
Proof.
  intros Hi. rewrite in_all_chunks. split.
  - intros (j & Hj & Hx). unfold set_bin in Hx. destruct (j =? i) eqn:E.
    + now left.
    + right. exists j. apply Z.eqb_neq in E. auto.
  - intros [Hx|(j & Hne & Hj & Hx)].
    + exists i. split; [assumption|]. unfold set_bin. now rewrite Z.eqb_refl.
    + exists j. split; [assumption|]. unfold set_bin.
      apply Z.eqb_neq in Hne. now rewrite Hne.
Qed.

Lemma add_nodes (wp : Z) (G : gbins) (i : Z) (l1 l2 : list (Z * Z)) (x : Z * Z) :
  0 <= i < NUM_BINS ->
  Add (fst x) (nodes wp (set_bin G i (l1 ++ l2))) (nodes wp (set_bin G i (l1 ++ x :: l2))).
Proof.
  intros Hi. destruct (all_chunks_app G i Hi) as (A & B & _ & E).
  unfold nodes. rewrite !E. rewrite !map_app. cbn [map].
  rewrite !app_assoc. rewrite <- (app_assoc _ (map fst l2) (map fst B)).
  rewrite <- (app_assoc _ (fst x :: map fst l2) (map fst B)).
  cbn [app]. apply Add_app.
Qed.

Lemma nodes_set_bin_same (wp : Z) (G : gbins) (i : Z) :
  0 <= i < NUM_BINS -> nodes wp (set_bin G i (G i)) = nodes wp G.
Proof.
  intros Hi. destruct (all_chunks_app G i Hi) as (A & B & E1 & E).
  unfold nodes. now rewrite E, E1.
Qed.

(** ** Separation of nodes *)

Lemma nodes_apart_add (a : Z) (N N' : list Z) :
  Add a N N' ->
  nodes_apart N' <->
  nodes_apart N /\ ~ In a N /\ forall b, In b N -> apart (a + 8) 24 (b + 8) 24.
Proof.
  intros HA. unfold nodes_apart. rewrite (NoDup_Add HA). split.
  - intros [[Hnd Hni] Hsep]. repeat split; try assumption.
    + intros x y Hx Hy. apply Hsep; apply (Add_in HA); now right.
    + intros b Hb. apply Hsep; [apply (Add_in HA); now left
                               |apply (Add_in HA); now right|].
      intros ->. contradiction.
  - intros ([Hnd Hsep] & Hni & Ha). repeat split; try assumption.
    intros x y Hx Hy Hne. apply (Add_in HA) in Hx. apply (Add_in HA) in Hy.
    destruct Hx as [<-|Hx]; destruct Hy as [<-|Hy].
    + congruence.
    + now apply Ha.
    + specialize (Ha x Hx). unfold apart in *. lia.
    + now apply Hsep.
Qed.

Lemma nodes_apart_sub (N N' : list Z) :
  nodes_apart N -> NoDup N' -> incl N' N -> nodes_apart N'.
Proof.
  intros [_ Hsep] Hnd Hin. split; [assumption|].
  intros a b Ha Hb. apply Hsep; now apply Hin.
Qed.

Lemma links_of_apart (M N : list Z) (d o : Z) :
  nodes_apart M -> incl N M -> In d M ->
  o = 8 \/ (~ In d N /\ (o = 16 \/ o = 24)) ->
  forall w, links_of N w -> apart (d + o) 8 w 8.
Proof.
  intros [_ Hsep] Hin Hd Ho w (e & He & Hw).
  unfold off_left_ptr, off_right_ptr in Hw.
  destruct (Z.eq_dec d e) as [->|Hne].
  - destruct Ho as [->|[Hn _]]; [|contradiction]. unfold apart. lia.
  - specialize (Hsep d e Hd (Hin _ He) Hne). unfold apart in *. lia.
Qed.

Lemma links_of_incl (N M : list Z) (w : Z) :
  incl N M -> links_of N w -> links_of M w.
Proof. intros H (d & Hd & Hw). exists d. split; [now apply H|assumption]. Qed.

(** ** The engine's own block *)

Lemma info_valid (s : state) (a : Z) :
  info_ok s -> wmalloc_ptr s <= a -> a + 8 <= wmalloc_ptr s + sizeof_wmalloc_info ->
  valid s a = true.
Proof.
  intros H H1 H2.
  apply (range_mapped_valid s (wmalloc_ptr s) sizeof_wmalloc_info);
    try assumption; try apply H.
  pose proof (io_pos s H). lia.
Qed.

Lemma dummy_hdr_ok (s : state) (i : Z) :
  info_ok s -> 0 <= i < NUM_BINS -> hdr_ok s (dummy_addr (wmalloc_ptr s) i).
Proof.
  intros H Hi. unfold NUM_BINS in Hi.
  unfold hdr_ok, dummy_addr, off_curr_chunk_size, off_left_ptr, off_right_ptr.
  repeat split; apply info_valid; try assumption; unfold sizeof_wmalloc_info; lia.
Qed.

Lemma dummy_in_nodes (wp : Z) (G : gbins) (i : Z) :
  0 <= i < NUM_BINS -> In (dummy_addr wp i) (nodes wp G).
Proof.
  intros Hi. unfold nodes. apply in_or_app. left.
  apply in_map. now apply bin_ids_in.
Qed.

Lemma chunk_in_nodes (wp : Z) (G : gbins) (x : Z * Z) :
  In x (all_chunks G) -> In (fst x) (nodes wp G).
Proof. intros H. unfold nodes. apply in_or_app. right. now apply in_map. Qed.

Lemma in_nodes (wp : Z) (G : gbins) (d : Z) :
  In d (nodes wp G) ->
  (exists i, 0 <= i < NUM_BINS /\ d = dummy_addr wp i) \/
  (exists x, In x (all_chunks G) /\ d = fst x).
Proof.
  unfold nodes. intros H. apply in_app_or in H. destruct H as [H|H].
  - left. apply in_map_iff in H. destruct H as (i & <- & Hi).
    exists i. split; [now apply bin_ids_in|reflexivity].
  - right. apply in_map_iff in H. destruct H as (x & <- & Hx). now exists x.
Qed.

Lemma bin_in_all (G : gbins) (i : Z) (x : Z * Z) :
  0 <= i < NUM_BINS -> In x (G i) -> In x (all_chunks G).
Proof. intros Hi Hx. apply in_all_chunks. now exists i. Qed.

(** The nodes of one bin, dummy first. *)
Lemma reg_bin (s : state) (G : gbins) (i : Z) :
  reg s G -> 0 <= i < NUM_BINS ->
  let N := dummy_addr (wmalloc_ptr s) i :: map fst (G i) in
  nodes_apart N /\ incl N (nodes (wmalloc_ptr s) G) /\
  (forall d, In d N -> hdr_ok s d) /\
  0 <= dummy_addr (wmalloc_ptr s) i < 2 ^ 64.
Proof.
  intros R Hi N.
  assert (Hincl : incl N (nodes (wmalloc_ptr s) G)).
  { intros d [<-|Hd]; [now apply dummy_in_nodes|].
    apply in_map_iff in Hd. destruct Hd as (x & <- & Hx).
    apply chunk_in_nodes. now apply (bin_in_all G i). }
  pose proof (io_pos s (reg_info s G R)) as Hpos.
  pose proof (io_top s (reg_info s G R)) as Htop.
  split; [|split; [assumption|split]].
  - apply (nodes_apart_sub _ _ (reg_apart s G R)); [|assumption].
    subst N. constructor.
    + intros Hd. apply in_map_iff in Hd. destruct Hd as (x & E & Hx).
      destruct (reg_hdr s G R x (bin_in_all G i x Hi Hx)) as (_ & _ & _ & Ha).
      rewrite E in Ha. unfold apart, dummy_addr, sizeof_wmalloc_info, NUM_BINS in *. lia.
    + destruct (all_chunks_app G i Hi) as (A & B & E & _).
      pose proof (reg_apart s G R) as [Hnd _]. unfold nodes in Hnd.
      apply NoDup_app_remove_l in Hnd. rewrite E, !map_app in Hnd.
      apply NoDup_app_remove_l in Hnd. now apply NoDup_app_remove_r in Hnd.
  - intros d [<-|Hd]; [apply dummy_hdr_ok; [apply R|assumption]|].
    apply in_map_iff in Hd. destruct Hd as (x & <- & Hx).
    apply (reg_hdr s G R). now apply (bin_in_all G i).
  - unfold dummy_addr, sizeof_wmalloc_info, NUM_BINS in *. lia.
Qed.

(** ** Relinking one bin leaves the rest of the registry alone *)

Lemma relink_apart (s : state) (G : gbins) (i : Z) (E : list Z) (d o : Z) :
  reg s G -> 0 <= i < NUM_BINS ->
  (forall e b, In e E -> In b (nodes (wmalloc_ptr s) G) -> apart (e + 8) 24 (b + 8) 24) ->
  In d (nodes (wmalloc_ptr s) G) ->
  o = 8 \/ (~ In d (dummy_addr (wmalloc_ptr s) i :: map fst (G i)) /\ (o = 16 \/ o = 24)) ->
  forall w, links_of ((dummy_addr (wmalloc_ptr s) i :: map fst (G i)) ++ E) w ->
  apart (d + o) 8 w 8.
Proof.
  intros R Hi HE Hd Ho w (e & He & Hw).
  apply in_app_or in He. destruct He as [He|He].
  - destruct (reg_bin s G i R Hi) as (_ & Hincl & _).
    eapply (links_of_apart _ _ d o (reg_apart s G R) Hincl Hd Ho).
    exists e. split; assumption.
  - specialize (HE e d He Hd).
    unfold apart, off_left_ptr, off_right_ptr in *. lia.
Qed.

Lemma reg_relink (s s' : state) (G : gbins) (i : Z) (E : list Z) :
  reg s G -> 0 <= i < NUM_BINS ->
  only_changed (links_of ((dummy_addr (wmalloc_ptr s) i :: map fst (G i)) ++ E)) s s' ->
  (forall e b, In e E -> In b (nodes (wmalloc_ptr s) G) -> apart (e + 8) 24 (b + 8) 24) ->
  (forall e, In e E -> apart (e + 8) 24 (wmalloc_ptr s) sizeof_wmalloc_info) ->
  info_ok s' /\
  (forall j, j <> i -> 0 <= j < NUM_BINS ->
     lseg (mem s') (dummy_addr (wmalloc_ptr s') j) (map fst (G j)) NULL) /\
  (forall x, In x (all_chunks G) ->
     hdr_ok s' (fst x) /\ chunk_size s' (fst x) = snd x /\ 0 < fst x /\
     apart (fst x + 8) 24 (wmalloc_ptr s') sizeof_wmalloc_info).
Proof.
  intros R Hi Hfr HE HEi.
  pose proof Hfr as (F1 & F2 & F3).
  pose proof (reg_info s G R) as I.
  assert (Hinfo : forall a, wmalloc_ptr s <= a ->
            a + 8 <= wmalloc_ptr s + sizeof_wmalloc_info ->
            (forall j, 0 <= j < NUM_BINS ->
               apart a 8 (dummy_addr (wmalloc_ptr s) j + 16) 16) ->
            load64 (mem s') a = load64 (mem s) a).
  { intros a Ha1 Ha2 Ha3. apply F3. intros w (e & He & Hw).
    apply in_app_or in He. destruct He as [[<-|He]|He].
    - specialize (Ha3 i Hi). unfold apart, off_left_ptr, off_right_ptr in *. lia.
    - apply in_map_iff in He. destruct He as (x & <- & Hx).
      destruct (reg_hdr s G R x (bin_in_all G i x Hi Hx)) as (_ & _ & _ & Hap).
      unfold apart, off_left_ptr, off_right_ptr in *. lia.
    - specialize (HEi e He). unfold apart, off_left_ptr, off_right_ptr in *. lia. }
  split; [|split].
  - destruct I as [I1 I2 I3 I4 I5 I6].
    constructor; rewrite ?F1; try assumption.
    + eapply only_changed_range_mapped; eassumption.
    + intros j Hj. rewrite Hinfo; [now apply I4| | |];
        unfold bin_addr, dummy_addr, sizeof_wmalloc_info, NUM_BINS, apart in *; try lia;
        intros k Hk; lia.
    + intros j Hj. rewrite Hinfo; [now apply I5| | |];
        unfold bin_addr, dummy_addr, sizeof_wmalloc_info, NUM_BINS, apart,
          off_curr_chunk_size in *; try lia;
        intros k Hk; lia.
    + intros j Hj. rewrite Hinfo; [now apply I6| | |];
        unfold bin_index_addr, dummy_addr, sizeof_wmalloc_info, NUM_BINS, apart in *; try lia;
        intros k Hk; lia.
  - intros j Hne Hj. rewrite F1.
    destruct (reg_bin s G j R Hj) as (Hap & Hincl & _).
    assert (Hnot : forall d, In d (dummy_addr (wmalloc_ptr s) j :: map fst (G j)) ->
              ~ In d (dummy_addr (wmalloc_ptr s) i :: map fst (G i))).
    { intros d Hd Hd'.
      destruct Hd as [<-|Hd]; destruct Hd' as [Hd'|Hd'].
      - unfold dummy_addr in Hd'. lia.
      - apply in_map_iff in Hd'. destruct Hd' as (x & E' & Hx).
        destruct (reg_hdr s G R x (bin_in_all G i x Hi Hx)) as (_ & _ & _ & Ha).
        rewrite E' in Ha.
        unfold apart, dummy_addr, sizeof_wmalloc_info, NUM_BINS in *. lia.
      - apply in_map_iff in Hd. destruct Hd as (x & E' & Hx).
        destruct (reg_hdr s G R x (bin_in_all G j x Hj Hx)) as (_ & _ & _ & Ha).
        rewrite E', <- Hd' in Ha.
        unfold apart, dummy_addr, sizeof_wmalloc_info, NUM_BINS in *. lia.
      - (* a chunk in two bins contradicts NoDup *)
        apply in_map_iff in Hd. destruct Hd as (x & Ex & Hx).
        apply in_map_iff in Hd'. destruct Hd' as (y & Ey & Hy).
        pose proof (reg_apart s G R) as [Hnd _]. unfold nodes in Hnd.
        apply NoDup_app_remove_l in Hnd.
        destruct (all_chunks_app G i Hi) as (A & B & EA & EB).
        assert (Hin : In x (all_chunks (set_bin G i []))).
        { apply in_all_chunks_set; [assumption|]. right. exists j. auto. }
        rewrite EB in Hin. cbn [app] in Hin.
        rewrite EA in Hnd.
        apply in_split in Hy. destruct Hy as (g1 & g2 & Eg). rewrite Eg in Hnd.
        rewrite !map_app in Hnd. cbn [map] in Hnd.
        rewrite <- app_assoc in Hnd. cbn [app] in Hnd.
        rewrite app_assoc in Hnd. apply NoDup_remove_2 in Hnd. apply Hnd.
        rewrite Ey, <- Ex.
        apply in_app_or in Hin. apply in_or_app.
        destruct Hin as [Hin|Hin].
        + left. apply in_or_app. left. now apply in_map.
        + right. apply in_or_app. right. now apply in_map. }
    apply (lseg_ext (mem s)); [| |now apply (reg_lists s G R)].
    + intros d Hd. apply F3.
      apply (relink_apart s G i E d 24 R Hi HE); [now apply Hincl|].
      right. split; [now apply Hnot|now right].
    + intros d Hd. apply F3.
      apply (relink_apart s G i E d 16 R Hi HE); [apply Hincl; now right|].
      right. split; [apply Hnot; now right|now left].
  - intros x Hx. destruct (reg_hdr s G R x Hx) as ((V1 & V2 & V3) & Hs & Hp & Ha).
    unfold hdr_ok. rewrite !(only_changed_valid _ _ _ _ Hfr). rewrite F1.
    repeat split; try assumption.
    unfold chunk_size in *. rewrite <- Hs. apply F3.
    apply (relink_apart s G i E (fst x) 8 R Hi HE); [now apply chunk_in_nodes|now left].
Qed.

(** ** The scans, run on an initialized table *)

Lemma load_bin_index_ok (s : state) (i : Z) :
  info_ok s -> 0 <= i < NUM_BINS -> load_bin_index i s = Ok (U i) s.
Proof.
  intros I Hi. unfold load_bin_index. rewrite bind_get_wmalloc_ptr.
  rewrite load_ok.
  - now rewrite (io_table s I).
  - apply info_valid; [assumption| |];
      unfold bin_index_addr, sizeof_wmalloc_info, NUM_BINS in *; lia.
Qed.

Lemma load_bin_ok (s : state) (i : Z) :
  info_ok s -> 0 <= i < NUM_BINS ->
  load_bin i s = Ok (dummy_addr (wmalloc_ptr s) i) s.
Proof.
  intros I Hi. unfold load_bin. rewrite bind_get_wmalloc_ptr.
  rewrite load_ok.
  - now rewrite (io_bin s I).
  - apply info_valid; [assumption| |];
      unfold bin_addr, sizeof_wmalloc_info, NUM_BINS in *; lia.
Qed.

Lemma add_chunk_scan_ok (s : state) (c : Z) :
  info_ok s -> valid s (c + off_curr_chunk_size) = true ->
  forall (k : nat) (i : Z) (fuel : nat),
  0 <= i <= 45 -> i + Z.of_nat k = NUM_BINS -> (k <= fuel)%nat ->
  add_chunk_scan fuel c i s = Ok (scan_bin k (chunk_size s c) i) s.
Proof.
  intros I V. unfold NUM_BINS.
  induction k as [|k IH]; intros i fuel Hi Hk Hf; [lia|].
  destruct fuel as [|f]; [lia|]. cbn [add_chunk_scan scan_bin].
  rewrite bind_load by assumption.
  rewrite (bind_ok _ _ _ _ _ (load_bin_index_ok s i I ltac:(unfold NUM_BINS; lia))).
  fold (chunk_size s c).
  destruct (chunk_size s c >? U i) eqn:E; [|reflexivity].
  assert (i <> 45).
  { intros ->. change (U 45) with (2 ^ 64 - 1) in E.
    pose proof (load64_range (mem s) (c + off_curr_chunk_size)).
    unfold chunk_size in E. lia. }
  apply IH; lia.
Qed.

Lemma find_bin_ok (s : state) (r : Z) (fuel : nat) :
  info_ok s -> r < 2 ^ 64 -> (45 <= fuel)%nat ->
  find_bin fuel r s = Ok (find_of r) s.
Proof.
  intros I Hr Hf. unfold find_bin, find_of.
  assert (H : forall (k : nat) (i : Z) (fuel : nat),
            0 <= i <= 45 -> i + Z.of_nat k = NUM_BINS -> (k <= fuel)%nat ->
            find_bin_loop fuel r i s = Ok (find_scan k r i) s).
  { unfold NUM_BINS. clear fuel Hf.
    induction k as [|k IH]; intros i fuel Hi Hk Hf; [lia|].
    destruct fuel as [|f]; [lia|]. cbn [find_bin_loop find_scan].
    rewrite (bind_ok _ _ _ _ _ (load_bin_index_ok s i I ltac:(unfold NUM_BINS; lia))).
    destruct (r >? U i) eqn:E; cbn [andb]; [|reflexivity].
    assert (i <> 45).
    { intros ->. change (U 45) with (2 ^ 64 - 1) in E. lia. }
    replace (i <? NUM_BINS) with true
      by (symmetry; apply Z.ltb_lt; unfold NUM_BINS; lia).
    apply IH; lia. }
  apply H; unfold NUM_BINS; lia.
Qed.

(** ** Removing from and adding to the registry *)

Lemma reg_remove (s : state) (G : gbins) (i : Z) (l1 l2 : list (Z * Z)) (x : Z * Z) :
  reg s G -> 0 <= i < NUM_BINS -> G i = l1 ++ x :: l2 ->
  exists s', remove_chunk (fst x) s = Ok (fst x) s' /\
    reg s' (set_bin G i (l1 ++ l2)) /\
    only_changed (links (wmalloc_ptr s) G) s s' /\
    chunk_size s' (fst x) = snd x.
Proof.
  intros R Hi HG.
  destruct (reg_bin s G i R Hi) as (Hap & Hincl & Hok & Hd).
  pose proof (reg_lists s G R i Hi) as Hseg.
  rewrite HG, map_app in Hseg, Hap, Hok. cbn [map] in Hseg, Hap, Hok.
  destruct (remove_chunk_spec s _ _ _ _ Hseg Hap Hok) as (s' & Hrun & Hseg' & Hfr).
  exists s'. split; [exact Hrun|].
  assert (Hfr' : only_changed
            (links_of ((dummy_addr (wmalloc_ptr s) i :: map fst (G i)) ++ [])) s s').
  { rewrite app_nil_r, HG, map_app. exact Hfr. }
  destruct (reg_relink s s' G i [] R Hi Hfr') as (I' & L' & H');
    [intros ? ? []|intros ? []|].
  pose proof Hfr as (F1 & F2 & F3).
  split; [|split].
  - constructor.
    + exact I'.
    + intros j Hj. unfold set_bin. destruct (j =? i) eqn:E.
      * apply Z.eqb_eq in E. subst j. rewrite F1, map_app. exact Hseg'.
      * apply Z.eqb_neq in E. now apply L'.
    + intros y Hy. apply H'. apply in_all_chunks_set in Hy; [|assumption].
      destruct Hy as [Hy|(j & _ & Hj & Hy)].
      * apply (bin_in_all G i); [assumption|]. rewrite HG.
        apply in_app_or in Hy. apply in_or_app.
        destruct Hy; [now left|right; now right].
      * now apply (bin_in_all G j).
    + rewrite F1.
      pose proof (add_nodes (wmalloc_ptr s) G i l1 l2 x Hi) as HA.
      rewrite <- HG, nodes_set_bin_same in HA by assumption.
      apply (nodes_apart_add _ _ _ HA). apply R.
  - eapply only_changed_weaken; [|exact Hfr].
    intros w. apply links_of_incl. rewrite HG, map_app in Hincl. exact Hincl.
  - apply H'. apply (bin_in_all G i); [assumption|]. rewrite HG.
    apply in_or_app. right. now left.
Qed.

Lemma reg_add_pos (s : state) (G : gbins) (c : Z) (fuel : nat) :
  reg s G ->
  0 < c < 2 ^ 64 -> hdr_ok s c ->
  apart (c + 8) 24 (wmalloc_ptr s) sizeof_wmalloc_info ->
  (forall b, In b (nodes (wmalloc_ptr s) G) -> apart (c + 8) 24 (b + 8) 24) ->
  (46 <= fuel)%nat -> (length (G (bin_of (chunk_size s c))) < fuel)%nat ->
  exists s' l1 l2, add_chunk fuel c s = Ok tt s' /\
    G (bin_of (chunk_size s c)) = l1 ++ l2 /\
    reg s' (set_bin G (bin_of (chunk_size s c)) (l1 ++ (c, chunk_size s c) :: l2)) /\
    only_changed (fun w => links (wmalloc_ptr s) G w \/
                           w = c + off_left_ptr \/ w = c + off_right_ptr) s s' /\
    (forall y, In y l1 -> snd y <= chunk_size s c) /\
    (forall y, hd_error l2 = Some y -> chunk_size s c < snd y).
Proof.
  intros R Hc Hh Hci Hcn Hf1 Hf2.
  pose proof (reg_info s G R) as I.
  set (sz := chunk_size s c) in *.
  assert (Hsz : sz < 2 ^ 64) by apply load64_range.
  destruct (bin_of_spec sz Hsz) as (Hi & _).
  set (i := bin_of sz) in *.
  assert (Hi' : 0 <= i < NUM_BINS) by (unfold NUM_BINS; lia).
  destruct (reg_bin s G i R Hi') as (Hap & Hincl & Hok & Hd).
  pose proof (reg_lists s G R i Hi') as Hseg.
  destruct Hh as (V8 & V16 & V24).
  set (head := dummy_addr (wmalloc_ptr s) i) in *.
  assert (Hap' : nodes_apart (head :: map fst (G i) ++ [c])).
  { apply (nodes_apart_add c (head :: map fst (G i))).
    - change (head :: map fst (G i) ++ [c]) with ((head :: map fst (G i)) ++ [c]).
      rewrite <- (app_nil_r (head :: map fst (G i))) at 1. apply Add_app.
    - split; [assumption|]. split.
      + intros Hin. specialize (Hcn c (Hincl _ Hin)). unfold apart in Hcn. lia.
      + intros b Hb. apply Hcn. now apply Hincl. }
  assert (Hok' : forall d, In d (head :: map fst (G i) ++ [c]) -> hdr_ok s d).
  { intros d [<-|Hd']; [apply Hok; now left|].
    apply in_app_or in Hd'. destruct Hd' as [Hd'|[<-|[]]].
    - apply Hok. now right.
    - repeat split; assumption. }
  destruct (insert_loop_pos c (map fst (G i)) s head fuel Hseg Hap' Hok' Hc Hd)
    as (s' & l1 & l2 & Hrun & El & (P1 & P2) & Hseg' & Hfr).
  { rewrite length_map. exact Hf2. }
  apply map_eq_app in El. destruct El as (g1 & g2 & HG & <- & <-).
  exists s', g1, g2.
  assert (Hfr' : only_changed (links_of ((head :: map fst (G i)) ++ [c])) s s').
  { eapply only_changed_weaken; [|exact Hfr].
    intros w [->|(d & Hd' & Hw)].
    - exists head. split; [now left|now right].
    - exists d. split; [now right|assumption]. }
  destruct (reg_relink s s' G i [c] R Hi' Hfr') as (I' & L' & H').
  { intros e b [<-|[]] Hb. now apply Hcn. }
  { intros e [<-|[]]. exact Hci. }
  pose proof Hfr as (F1 & F2 & F3).
  split; [|split; [exact HG|split; [|split]]].
  - unfold add_chunk.
    rewrite bind_assert by (apply neq_null_negb; unfold NULL; lia).
    rewrite (bind_ok _ _ _ _ _ (add_chunk_scan_ok s c I V8 46 0 fuel
                                  ltac:(lia) ltac:(reflexivity) Hf1)).
    fold sz. change (scan_bin 46 sz 0) with i.
    rewrite (bind_ok _ _ _ _ _ (load_bin_ok s i I Hi')). fold head.
    unfold insert_in_place.
    rewrite bind_assert by (apply neq_null_negb; unfold NULL, head, dummy_addr;
                            pose proof (io_pos s I); lia).
    rewrite bind_load by (apply (Hok head); now left).
    exact Hrun.
  - constructor.
    + exact I'.
    + intros j Hj. unfold set_bin. destruct (j =? i) eqn:E.
      * apply Z.eqb_eq in E. subst j. rewrite F1, map_app. exact Hseg'.
      * apply Z.eqb_neq in E. now apply L'.
    + intros y Hy. apply in_all_chunks_set in Hy; [|assumption].
      assert (Hy' : y = (c, sz) \/ In y (all_chunks G)).
      { destruct Hy as [Hy|(j & _ & Hj & Hy)].
        - apply in_app_or in Hy. destruct Hy as [Hy|[Hy|Hy]].
          + right. apply (bin_in_all G i); [assumption|]. rewrite HG.
            apply in_or_app. now left.
          + now left.
          + right. apply (bin_in_all G i); [assumption|]. rewrite HG.
            apply in_or_app. now right.
        - right. now apply (bin_in_all G j). }
      destruct Hy' as [->|Hy']; [|now apply H'].
      cbn [fst snd]. unfold hdr_ok. rewrite !(only_changed_valid _ _ _ _ Hfr), F1.
      repeat split; try assumption; try lia.
      unfold chunk_size. apply F3.
      intros w [->|(d & Hd' & Hw)].
      * specialize (Hcn head (Hincl head (or_introl eq_refl))).
        unfold apart, off_curr_chunk_size, off_right_ptr in *. lia.
      * apply in_app_or in Hd'. destruct Hd' as [Hd'|[<-|[]]].
        -- specialize (Hcn d (Hincl d (or_intror Hd'))).
           unfold apart, off_curr_chunk_size, off_left_ptr, off_right_ptr in *. lia.
        -- unfold apart, off_curr_chunk_size, off_left_ptr, off_right_ptr in *. lia.
    + rewrite F1.
      pose proof (add_nodes (wmalloc_ptr s) G i g1 g2 (c, sz) Hi') as HA.
      rewrite <- HG, nodes_set_bin_same in HA by assumption.
      apply (nodes_apart_add _ _ _ HA). split; [apply R|]. split.
      * intros Hin. specialize (Hcn c Hin). unfold apart in Hcn. lia.
      * exact Hcn.
  - eapply only_changed_weaken; [|exact Hfr].
    intros w [->|(d & Hd' & Hw)].
    + left. exists head. split; [apply Hincl; now left|now right].
    + apply in_app_or in Hd'. destruct Hd' as [Hd'|[<-|[]]].
      * left. exists d. split; [apply Hincl; now right|assumption].
      * right. exact Hw.
  - assert (Hsize : forall y, In y (G i) -> chunk_size s (fst y) = snd y).
    { intros y Hy. apply (reg_hdr s G R). now apply (bin_in_all G i). }
    split.
    + intros y Hy. rewrite <- (Hsize y) by (rewrite HG; apply in_or_app; now left).
      apply P1. now apply in_map.
    + intros y Hy. destruct g2 as [|z g2]; [discriminate|].
      injection Hy as ->.
      rewrite <- (Hsize y) by (rewrite HG; apply in_or_app; right; now left).
      apply P2. reflexivity.
Qed.

Lemma reg_add (s : state) (G : gbins) (c : Z) (fuel : nat) :
  reg s G ->
  0 < c < 2 ^ 64 -> hdr_ok s c ->
  apart (c + 8) 24 (wmalloc_ptr s) sizeof_wmalloc_info ->
  (forall b, In b (nodes (wmalloc_ptr s) G) -> apart (c + 8) 24 (b + 8) 24) ->
  (46 <= fuel)%nat -> (length (G (bin_of (chunk_size s c))) < fuel)%nat ->
  exists s' l1 l2, add_chunk fuel c s = Ok tt s' /\
    G (bin_of (chunk_size s c)) = l1 ++ l2 /\
    reg s' (set_bin G (bin_of (chunk_size s c)) (l1 ++ (c, chunk_size s c) :: l2)) /\
    only_changed (fun w => links (wmalloc_ptr s) G w \/
                           w = c + off_left_ptr \/ w = c + off_right_ptr) s s'.
Proof.
  intros H1 H2 H3 H4 H5 H6 H7.
  destruct (reg_add_pos s G c fuel H1 H2 H3 H4 H5 H6 H7)
    as (s' & l1 & l2 & R1 & R2 & R3 & R4 & _).
  exists s', l1, l2.
  split; [exact R1|split; [exact R2|split; [exact R3|exact R4]]].
Qed.

(** ** What the registry offers *)

Lemma longest_ge (G : gbins) (i : Z) :
  0 <= i < NUM_BINS -> (length (G i) <= longest G)%nat.
Proof.
  intros Hi. apply bin_ids_in in Hi. unfold longest.
  induction bin_ids as [|j ids IH]; [contradiction|].
  cbn [map fold_right]. destruct Hi as [->|Hi]; [lia|].
  specialize (IH Hi). lia.
Qed.

Lemma search_bin_reg (s : state) (G : gbins) (i r : Z) (fuel : nat) :
  reg s G -> 0 <= i < NUM_BINS -> 0 < int_to_u64 r ->
  (length (G i) + 1 < fuel)%nat ->
  match take_fit (int_to_u64 r) (G i) with
  | Some (x, l) =>
      exists s', search_bin fuel i r s = Ok (fst x) s' /\
        reg s' (set_bin G i l) /\
        only_changed (links (wmalloc_ptr s) G) s s' /\
        chunk_size s' (fst x) = snd x /\ In x (G i) /\ int_to_u64 r <= snd x
  | None => search_bin fuel i r s = Ok NULL s
  end.
Proof.
  intros R Hi Hr Hf.
  pose proof (reg_info s G R) as I.
  destruct (reg_bin s G i R Hi) as (Hap & Hincl & Hok & Hd).
  pose proof (reg_lists s G R i Hi) as Hseg.
  pose proof (io_dummy s I i Hi) as Hz.
  set (head := dummy_addr (wmalloc_ptr s) i) in *.
  destruct (Hok head ltac:(now left)) as (V8 & V16 & V24).
  assert (Hsel : search_bin_select fuel head r s
                 = Ok (match take_fit (int_to_u64 r) (G i) with
                       | Some (x, _) => fst x
                       | None => NULL
                       end) s).
  { destruct fuel as [|f]; [lia|]. cbn [search_bin_select].
    rewrite neq_null_negb by (unfold NULL; subst head; unfold dummy_addr;
                              pose proof (io_pos s I); lia).
    rewrite bind_load by assumption.
    rewrite Hz.
    replace (0 >=? int_to_u64 r) with false
      by (symmetry; rewrite Z.geb_leb; apply Z.leb_gt; lia).
    rewrite bind_load by assumption.
    apply (search_bin_select_spec r (G i) s head f Hseg).
    - intros x Hx. destruct (reg_hdr s G R x (bin_in_all G i x Hi Hx)) as (? & ? & _).
      split; assumption.
    - lia. }
  unfold search_bin.
  destruct (take_fit (int_to_u64 r) (G i)) as [[x l]|] eqn:E.
  - destruct (take_fit_some _ _ _ _ E) as (l1 & l2 & HG & -> & Hge).
    destruct (reg_remove s G i l1 l2 x R Hi HG) as (s' & Hrun & R' & Hfr & Hsz).
    exists s'.
    rewrite (bind_ok _ _ _ _ _ (load_bin_ok s i I Hi)). fold head.
    rewrite (bind_ok _ _ _ _ _ Hsel).
    destruct (reg_hdr s G R x) as (_ & _ & Hpos & _).
    { apply (bin_in_all G i); [assumption|]. rewrite HG. apply in_or_app. right. now left. }
    rewrite neq_null_negb by (unfold NULL; lia).
    conj_split; try assumption.
    rewrite HG. apply in_or_app. right. now left.
  - rewrite (bind_ok _ _ _ _ _ (load_bin_ok s i I Hi)). fold head.
    rewrite (bind_ok _ _ _ _ _ Hsel). reflexivity.
Qed.

Lemma check_bigger_reg (s : state) (G : gbins) :
  reg s G ->
  forall (k : nat) (j : Z) (fuel : nat),
  0 <= j -> j + Z.of_nat k = NUM_BINS -> (k < fuel)%nat ->
  match take_bigger k G j with
  | Some (x, G') =>
      exists s', check_bigger_loop fuel j s = Ok (fst x) s' /\
        reg s' G' /\
        only_changed (links (wmalloc_ptr s) G) s s' /\
        chunk_size s' (fst x) = snd x /\
        exists j', j <= j' < NUM_BINS /\ In x (G j')
  | None => check_bigger_loop fuel j s = Ok NULL s
  end.
Proof.
  intros R. pose proof (reg_info s G R) as I.
  induction k as [|k IH]; intros j fuel Hj Hk Hf;
    (destruct fuel as [|f]; [lia|]); cbn [take_bigger check_bigger_loop].
  - replace (j <? NUM_BINS) with false by (symmetry; apply Z.ltb_ge; lia).
    reflexivity.
  - assert (Hj' : 0 <= j < NUM_BINS) by lia.
    replace (j <? NUM_BINS) with true by (symmetry; apply Z.ltb_lt; lia).
    rewrite (bind_ok _ _ _ _ _ (load_bin_ok s j I Hj')).
    destruct (reg_bin s G j R Hj') as (Hap & Hincl & Hok & Hd).
    destruct (Hok _ ltac:(now left)) as (V8 & V16 & V24).
    rewrite bind_load by assumption.
    pose proof (reg_lists s G R j Hj') as Hseg.
    rewrite (lseg_next _ _ _ _ Hseg).
    destruct (G j) as [|x l] eqn:E; cbn [map hd].
    + change (negb (NULL =? NULL)) with false. cbv iota.
      specialize (IH (j + 1) f ltac:(lia) ltac:(lia) ltac:(lia)).
      destruct (take_bigger k G (j + 1)) as [[y G']|]; [|exact IH].
      destruct IH as (s' & H1 & H2 & H3 & H4 & j' & H5 & H6).
      exists s'. conj_split; try assumption. exists j'. split; [lia|assumption].
    + destruct (reg_remove s G j [] l x R Hj' E) as (s' & Hrun & R' & Hfr & Hsz).
      destruct (reg_hdr s G R x) as (_ & _ & Hpos & _).
      { apply (bin_in_all G j); [assumption|]. rewrite E. now left. }
      rewrite neq_null_negb by (unfold NULL; lia).
      exists s'. conj_split; try assumption.
      exists j. split; [lia|]. rewrite E. now left.
Qed.

Lemma seen_small (r : Z) : 0 <= r < 2 ^ 31 -> seen r = r.
Proof.
  intros H. unfold seen, to_int, int_to_u64, wrap64.
  rewrite (Z.mod_small r (2 ^ 32)) by lia.
  replace (r <? 2 ^ 31) with true by (symmetry; apply Z.ltb_lt; lia).
  apply Z.mod_small. lia.
Qed.

(** Below [2^32] the conversion never makes the requirement smaller. *)
Lemma seen_ge (r : Z) : 0 < r < 2 ^ 32 -> r <= seen r < 2 ^ 64.
Proof.
  intros H. unfold seen, to_int, int_to_u64, wrap64.
  rewrite (Z.mod_small r (2 ^ 32)) by lia.
  destruct (r <? 2 ^ 31) eqn:E.
  - apply Z.ltb_lt in E. rewrite Z.mod_small by lia. lia.
  - apply Z.ltb_ge in E.
    replace (r - 2 ^ 32) with ((r - 2 ^ 32 + 2 ^ 64) + (-1) * 2 ^ 64) by lia.
    rewrite Z.mod_add by lia. rewrite Z.mod_small by lia. lia.
Qed.

Lemma find_free_chunk_spec (s : state) (G : gbins) (r : Z) (fuel : nat) :
  reg s G -> 0 < r < 2 ^ 64 -> 0 < seen r -> (48 + longest G <= fuel)%nat ->
  match lookup G r with
  | Some (x, G') =>
      exists s', find_free_chunk fuel r s = Ok (fst x) s' /\
        reg s' G' /\
        only_changed (links (wmalloc_ptr s) G) s s' /\
        chunk_size s' (fst x) = snd x /\
        exists j, find_of r <= j < NUM_BINS /\ In x (G j) /\
                  (j = find_of r -> seen r <= snd x)
  | None => find_free_chunk fuel r s = Ok NULL s
  end.
Proof.
  intros R Hr H0r Hf. pose proof (reg_info s G R) as I.
  destruct (find_of_spec r ltac:(lia)) as (Hi & _).
  assert (Hi' : 0 <= find_of r < NUM_BINS) by (unfold NUM_BINS; lia).
  pose proof (longest_ge G (find_of r) Hi') as Hlen.
  pose proof (search_bin_reg s G (find_of r) (to_int r) fuel R Hi') as HS.
  fold (seen r) in HS.
  assert (Hfu : (length (G (find_of r)) + 1 < fuel)%nat) by lia.
  specialize (HS H0r Hfu).
  unfold lookup, find_free_chunk.
  rewrite (bind_ok _ _ _ _ _ (find_bin_ok s r fuel I ltac:(lia) ltac:(lia))).
  destruct (take_fit (seen r) (G (find_of r))) as [[x l]|] eqn:E.
  - destruct HS as (s' & H1 & H2 & H3 & H4 & H5 & H6).
    exists s'. rewrite (bind_ok _ _ _ _ _ H1).
    destruct (reg_hdr s G R x (bin_in_all G _ x Hi' H5)) as (_ & _ & Hpos & _).
    replace (fst x =? NULL) with false by (symmetry; apply Z.eqb_neq; unfold NULL; lia).
    conj_split; try assumption; try reflexivity.
    exists (find_of r). conj_split; try lia; try assumption.
  - rewrite (bind_ok _ _ _ _ _ HS).
    change (NULL =? NULL) with true. cbv iota. unfold check_bigger_bins.
    pose proof (check_bigger_reg s G R (Z.to_nat (45 - find_of r)) (find_of r + 1) fuel
                  ltac:(lia) ltac:(unfold NUM_BINS; lia) ltac:(lia)) as HB.
    destruct (take_bigger (Z.to_nat (45 - find_of r)) G (find_of r + 1)) as [[x G']|];
      [|exact HB].
    destruct HB as (s' & H1 & H2 & H3 & H4 & j & H5 & H6).
    exists s'. conj_split; try assumption.
    exists j. conj_split; try lia; try assumption.
Qed.

(** ** Writes outside the registry *)

Lemma links_apart_word (s : state) (G : gbins) (a : Z) :
  reg s G ->
  apart a 8 (wmalloc_ptr s) sizeof_wmalloc_info ->
  (forall x, In x (all_chunks G) -> apart a 8 (fst x + 16) 16) ->
  forall w, links (wmalloc_ptr s) G w -> apart a 8 w 8.
Proof.
  intros R Hi Hx w (d & Hd & Hw).
  pose proof (io_pos s (reg_info s G R)).
  apply in_nodes in Hd. destruct Hd as [(i & Hi' & ->)|(x & Hx' & ->)].
  - unfold apart, dummy_addr, sizeof_wmalloc_info, NUM_BINS, off_left_ptr,
      off_right_ptr in *. lia.
  - specialize (Hx x Hx').
    unfold apart, off_left_ptr, off_right_ptr in *. lia.
Qed.

Lemma reg_frame (P : Z -> Prop) (s s' : state) (G : gbins) :
  reg s G -> only_changed P s s' ->
  (forall w, P w -> apart w 8 (wmalloc_ptr s) sizeof_wmalloc_info /\
                    forall x, In x (all_chunks G) -> apart w 8 (fst x + 8) 24) ->
  reg s' G.
Proof.
  intros R Hfr HP. pose proof Hfr as (F1 & F2 & F3).
  pose proof (reg_info s G R) as I.
  assert (Hin : forall a, wmalloc_ptr s <= a ->
            a + 8 <= wmalloc_ptr s + sizeof_wmalloc_info ->
            load64 (mem s') a = load64 (mem s) a).
  { intros a H1 H2. apply F3. intros w Hw. destruct (HP w Hw) as [Ha _].
    unfold apart in *. lia. }
  assert (Hch : forall x o, In x (all_chunks G) -> 8 <= o <= 24 ->
            load64 (mem s') (fst x + o) = load64 (mem s) (fst x + o)).
  { intros x o Hx Ho. apply F3. intros w Hw. destruct (HP w Hw) as [_ Ha].
    specialize (Ha x Hx). unfold apart in *. lia. }
  constructor.
  - destruct I as [I1 I2 I3 I4 I5 I6].
    constructor; rewrite ?F1; try assumption.
    + eapply only_changed_range_mapped; eassumption.
    + intros j Hj. rewrite Hin; [now apply I4| |];
        unfold bin_addr, sizeof_wmalloc_info, NUM_BINS in *; lia.
    + intros j Hj. rewrite Hin; [now apply I5| |];
        unfold dummy_addr, sizeof_wmalloc_info, NUM_BINS, off_curr_chunk_size in *; lia.
    + intros j Hj. rewrite Hin; [now apply I6| |];
        unfold bin_index_addr, sizeof_wmalloc_info, NUM_BINS in *; lia.
  - intros i Hi. rewrite F1.
    apply (lseg_ext (mem s)); [| |now apply (reg_lists s G R)].
    + intros d [<-|Hd].
      * apply Hin; unfold dummy_addr, sizeof_wmalloc_info, NUM_BINS, off_right_ptr in *; lia.
      * apply in_map_iff in Hd. destruct Hd as (x & <- & Hx).
        apply Hch; [now apply (bin_in_all G i)|unfold off_right_ptr; lia].
    + intros d Hd. apply in_map_iff in Hd. destruct Hd as (x & <- & Hx).
      apply Hch; [now apply (bin_in_all G i)|unfold off_left_ptr; lia].
  - intros x Hx. destruct (reg_hdr s G R x Hx) as ((V1 & V2 & V3) & Hs & Hp & Ha).
    unfold hdr_ok. rewrite !(only_changed_valid _ _ _ _ Hfr). rewrite F1.
    conj_split; try assumption.
    unfold chunk_size in *. rewrite <- Hs. apply Hch; [assumption|].
    unfold off_curr_chunk_size. lia.
  - rewrite F1. apply R.
Qed.

(** ** The flag bit and the size bits of a boundary word *)

Lemma land_mask_flag : Z.land SIZE_MASK FLAG_BIT = 0.
Proof. reflexivity. Qed.

Lemma size_plus_flag (w : Z) :
  0 <= w < 2 ^ 64 -> Z.land SIZE_MASK w + Z.land FLAG_BIT w = w.
Proof.
  intros H.
  rewrite Z.add_nocarry_lxor.
  - rewrite Z.lxor_lor.
    + rewrite <- Z.land_lor_distr_l.
      change (Z.lor SIZE_MASK FLAG_BIT) with (Z.ones 64).
      rewrite Z.land_comm, Z.land_ones by lia. apply Z.mod_small. lia.
    + rewrite (Z.land_comm SIZE_MASK), (Z.land_comm FLAG_BIT).
      rewrite Z.land_assoc, <- (Z.land_assoc w SIZE_MASK w).
      rewrite (Z.land_comm SIZE_MASK w), Z.land_assoc, Z.land_diag.
      rewrite <- Z.land_assoc. rewrite land_mask_flag. apply Z.land_0_r.
  - rewrite (Z.land_comm SIZE_MASK), (Z.land_comm FLAG_BIT).
    rewrite Z.land_assoc, <- (Z.land_assoc w SIZE_MASK w).
    rewrite (Z.land_comm SIZE_MASK w), Z.land_assoc, Z.land_diag.
    rewrite <- Z.land_assoc. rewrite land_mask_flag. apply Z.land_0_r.
Qed.

Lemma land_mask_small (w : Z) : 0 <= w < 2 ^ 63 -> Z.land w SIZE_MASK = w.
Proof.
  intros H. change SIZE_MASK with (Z.ones 63). rewrite Z.land_ones by lia.
  apply Z.mod_small. lia.
Qed.


(** ** The boundary words of a chunk *)

Lemma get_prev_chunk_size_ok (s : state) (c : Z) :
  c <> NULL -> valid s c = true ->
  get_prev_chunk_size c s = Ok (Z.land (load64 (mem s) c) SIZE_MASK) s.
Proof.
  intros Hc V. unfold get_prev_chunk_size, off_prev_chunk_size.
  rewrite bind_assert by now apply neq_null_negb.
  rewrite Z.add_0_r. rewrite bind_load by assumption. reflexivity.
Qed.

Lemma next_size_addr_ok (s : state) (c : Z) :
  valid s (c + 8) = true ->
  next_size_addr c s = Ok (wrap64 (c + chunk_size s c - 8)) s.
Proof.
  intros V. unfold next_size_addr, off_curr_chunk_size.
  rewrite bind_load by assumption. reflexivity.
Qed.

Lemma get_next_chunk_size_ok (s : state) (c : Z) :
  c <> NULL -> valid s (c + 8) = true ->
  valid s (wrap64 (c + chunk_size s c - 8)) = true ->
  get_next_chunk_size c s
  = Ok (Z.land SIZE_MASK (load64 (mem s) (wrap64 (c + chunk_size s c - 8)))) s.
Proof.
  intros Hc V1 V2. unfold get_next_chunk_size.
  rewrite bind_assert by now apply neq_null_negb.
  rewrite (bind_ok _ _ _ _ _ (next_size_addr_ok s c V1)).
  rewrite bind_load by assumption. reflexivity.
Qed.

Lemma get_prev_chunk_ok (s : state) (c : Z) :
  c <> NULL -> valid s c = true ->
  get_prev_chunk c s = Ok (wrap64 (c - Z.land (load64 (mem s) c) SIZE_MASK)) s.
Proof.
  intros Hc V. unfold get_prev_chunk.
  rewrite bind_assert by now apply neq_null_negb.
  rewrite (bind_ok _ _ _ _ _ (get_prev_chunk_size_ok s c Hc V)). reflexivity.
Qed.

Lemma get_next_chunk_ok (s : state) (c : Z) :
  c <> NULL -> valid s (c + 8) = true ->
  get_next_chunk c s = Ok (wrap64 (c + chunk_size s c)) s.
Proof.
  intros Hc V. unfold get_next_chunk, off_curr_chunk_size.
  rewrite bind_assert by now apply neq_null_negb.
  rewrite bind_load by assumption. reflexivity.
Qed.

Lemma set_next_flag_ok (s : state) (c f : Z) :
  c <> NULL -> valid s (c + 8) = true ->
  valid s (wrap64 (c + chunk_size s c - 8)) = true ->
  set_next_flag c f s
  = Ok tt (upd_mem s (wrap64 (c + chunk_size s c - 8))
             (flagged f (load64 (mem s) (wrap64 (c + chunk_size s c - 8))))).
Proof.
  intros Hc V1 V2. unfold set_next_flag.
  rewrite bind_assert by now apply neq_null_negb.
  rewrite (bind_ok _ _ _ _ _ (next_size_addr_ok s c V1)).
  rewrite bind_load by assumption. unfold flagged.
  destruct (f =? 1); now rewrite store_ok.
Qed.

Lemma set_prev_flag_ok (s : state) (c f : Z) :
  c <> NULL -> valid s c = true ->
  set_prev_flag c f s
  = Ok tt (upd_mem s c (flagged f (load64 (mem s) c))).
Proof.
  intros Hc V. unfold set_prev_flag, off_prev_chunk_size.
  rewrite bind_assert by now apply neq_null_negb.
  rewrite Z.add_0_r. rewrite bind_load by assumption. unfold flagged.
  destruct (f =? 1); now rewrite store_ok.
Qed.

Lemma set_prev_chunk_size_ok (s : state) (c v : Z) :
  c <> NULL -> valid s c = true ->
  set_prev_chunk_size c v s
  = Ok tt (upd_mem s c (wrap64 (v + Z.land FLAG_BIT (load64 (mem s) c)))).
Proof.
  intros Hc V. unfold set_prev_chunk_size, off_prev_chunk_size.
  rewrite bind_assert by now apply neq_null_negb.
  rewrite Z.add_0_r. rewrite bind_load by assumption.
  now rewrite store_ok.
Qed.

Lemma set_next_chunk_size_ok (s : state) (c v : Z) :
  c <> NULL -> valid s (c + 8) = true ->
  valid s (wrap64 (c + chunk_size s c - 8)) = true ->
  set_next_chunk_size c v s
  = Ok tt (upd_mem s (wrap64 (c + chunk_size s c - 8))
             (wrap64 (v + Z.land FLAG_BIT
                            (load64 (mem s) (wrap64 (c + chunk_size s c - 8)))))).
Proof.
  intros Hc V1 V2. unfold set_next_chunk_size.
  rewrite bind_assert by now apply neq_null_negb.
  rewrite (bind_ok _ _ _ _ _ (next_size_addr_ok s c V1)).
  rewrite bind_load by assumption. now rewrite store_ok.
Qed.

Lemma mark_neighbours_spec (f : Z) (s : state) (c : Z) :
  neighbours_ok s c ->
  mark_neighbours f c s = Ok tt (neighbours_marked f s c).
Proof.
  intros (Hc & V0 & V8 & Hsz & Htop & Vt & Hl & Hr).
  assert (Hc0 : c <> NULL) by (unfold NULL; lia).
  unfold neighbours_marked. cbv zeta in Hl, Hr.
  set (sz := chunk_size s c) in *.
  set (psz := Z.land (load64 (mem s) c) SIZE_MASK) in *.
  set (nsz := Z.land SIZE_MASK (load64 (mem s) (c + sz - 8))) in *.
  set (s1 := if psz =? 0 then s
             else upd_mem s (c - 8) (flagged f (load64 (mem s) (c - 8)))).
  unfold mark_neighbours.
  rewrite bind_assert by (now apply neq_null_negb).
  rewrite bind_load by assumption.
  rewrite (bind_ok _ _ _ _ _ (get_prev_chunk_size_ok s c Hc0 V0)). fold psz.
  assert (Hstep : forall k : unit -> M unit,
            bind (if negb (psz =? 0)
                  then bind (get_prev_chunk c) (fun prev_chunk => set_next_flag prev_chunk f)
                  else ret tt) k s = k tt s1).
  { intros k. subst s1. destruct (psz =? 0) eqn:E; cbn [negb]; [reflexivity|].
    apply Z.eqb_neq in E. destruct (Hl E) as (Hp & Vp & Hps & Vc8).
    rewrite bind_assoc.
    rewrite (bind_ok _ _ _ _ _ (get_prev_chunk_ok s c Hc0 V0)). fold psz.
    rewrite (wrap64_small (c - psz)) by lia.
    assert (Ea : wrap64 (c - psz + chunk_size s (c - psz) - 8) = c - 8).
    { rewrite Hps. replace (c - psz + psz - 8) with (c - 8) by lia.
      apply wrap64_small. apply valid_range in Vc8. lia. }
    rewrite (bind_ok _ _ _ _ _ (set_next_flag_ok s (c - psz) f
               ltac:(unfold NULL; lia) Vp ltac:(rewrite Ea; exact Vc8))).
    rewrite Ea. reflexivity. }
  rewrite Hstep. clear Hstep.
  assert (Hm : forall a, a = c \/ c + 8 <= a ->
            load64 (mem s1) a = load64 (mem s) a).
  { intros a Ha. subst s1. destruct (psz =? 0); [reflexivity|].
    cbn [mem upd_mem]. apply load64_store64_other. lia. }
  assert (Hv : forall a, valid s1 a = valid s a)
    by (intros a; subst s1; destruct (psz =? 0); reflexivity).
  assert (Hcs : chunk_size s1 c = sz)
    by (unfold chunk_size, off_curr_chunk_size; rewrite Hm by lia; reflexivity).
  assert (Et : wrap64 (c + sz - 8) = c + sz - 8)
    by (apply wrap64_small; apply valid_range in Vt; lia).
  rewrite (bind_ok _ _ _ _ _ (get_next_chunk_size_ok s1 c Hc0
             ltac:(rewrite Hv; exact V8)
             ltac:(rewrite Hcs, Et, Hv; exact Vt))).
  rewrite Hcs, Et. rewrite (Hm (c + sz - 8)) by lia. fold nsz.
  destruct (nsz =? 0) eqn:E; cbn [negb]; [reflexivity|].
  apply Z.eqb_neq in E. specialize (Hr E).
  rewrite (bind_ok _ _ _ _ _ (get_next_chunk_ok s1 c Hc0
             ltac:(rewrite Hv; exact V8))).
  assert (En : wrap64 (c + sz) = c + sz)
    by (apply wrap64_small; apply valid_range in Hr; lia).
  rewrite Hcs, En.
  rewrite (set_prev_flag_ok s1 (c + sz) f ltac:(unfold NULL; lia)
             ltac:(rewrite Hv; exact Hr)).
  rewrite (Hm (c + sz)) by lia.
  reflexivity.
Qed.

Lemma set_unavailable_spec (s : state) (c : Z) :
  neighbours_ok s c -> set_unavailable c s = Ok tt (neighbours_marked 0 s c).
Proof. exact (mark_neighbours_spec 0 s c). Qed.

Lemma set_available_spec (s : state) (c : Z) :
  neighbours_ok s c -> set_available c s = Ok tt (neighbours_marked 1 s c).
Proof. exact (mark_neighbours_spec 1 s c). Qed.

Lemma neighbours_marked_frame (f : Z) (s : state) (c : Z) :
  only_changed (fun w => w = c - 8 \/ w = c + chunk_size s c)
    s (neighbours_marked f s c).
Proof.
  unfold neighbours_marked.
  destruct (Z.land (load64 (mem s) c) SIZE_MASK =? 0);
    destruct (Z.land SIZE_MASK (load64 (mem s) (c + chunk_size s c - 8)) =? 0).
  - apply only_changed_refl.
  - apply only_changed_upd. now right.
  - apply only_changed_upd. now left.
  - eapply only_changed_trans; apply only_changed_upd; [now left|now right].
Qed.

(** ** Carving the residue off a chunk *)

Lemma split_residue_spec (s : state) (G : gbins) (c sz r : Z) (fuel : nat) :
  carve_ok s G c sz r -> (46 <= fuel)%nat -> (longest G < fuel)%nat ->
  exists s1, split_residue fuel c r s = Ok tt s1 /\
    wmalloc_ptr s1 = wmalloc_ptr s /\ mapped s1 = mapped s /\
    load64 (mem s1) c = load64 (mem s) c /\
    load64 (mem s1) (c + sz - 8) = load64 (mem s) (c + sz - 8) /\
    (forall a, a + 8 <= c \/ c + sz <= a ->
       apart a 8 (wmalloc_ptr s) sizeof_wmalloc_info ->
       (forall x, In x (all_chunks G) -> apart a 8 (fst x + 16) 16) ->
       load64 (mem s1) a = load64 (mem s) a) /\
    if r + MINIMUM_CHUNK_SIZE <=? sz then
      chunk_size s1 c = r /\ chunk_size s1 (c + r) = sz - r /\
      load64 (mem s1) (c + r - 8)
        = wrap64 (sz - r + Z.land FLAG_BIT (load64 (mem s) (c + r - 8))) /\
      load64 (mem s1) (c + r)
        = wrap64 (r + Z.land FLAG_BIT (load64 (mem s) (c + r))) /\
      exists l1 l2, G (bin_of (sz - r)) = l1 ++ l2 /\
        reg s1 (set_bin G (bin_of (sz - r)) (l1 ++ (c + r, sz - r) :: l2))
    else s1 = s.
Proof.
  intros [R Hc Htop Hmap Hsz Hinfo Hout Hreq Hnw] Hf1 Hf2.
  unfold MINIMUM_CHUNK_SIZE in *.
  assert (Hszr : sz < 2 ^ 64) by lia.
  assert (V : forall a, c <= a -> a + 8 <= c + sz -> valid s a = true).
  { intros a H1 H2. apply (range_mapped_valid s c sz); try assumption; lia. }
  assert (Hc0 : c <> NULL) by (unfold NULL; lia).
  unfold split_residue, off_curr_chunk_size.
  rewrite bind_load by (apply V; lia). rewrite chunk_size_eq, Hsz.
  unfold MINIMUM_CHUNK_SIZE.
  destruct (r + 40 <=? sz) eqn:E.
  2:{ apply Z.leb_gt in E.
      replace (sz >=? wrap64 (r + 40)) with false.
      2:{ symmetry. rewrite Z.geb_leb. apply Z.leb_gt.
          rewrite wrap64_small by lia. lia. }
      exists s. conj_split; reflexivity || (intros; reflexivity). }
  apply Z.leb_le in E.
  replace (sz >=? wrap64 (r + 40)) with true.
  2:{ symmetry. rewrite Z.geb_leb. apply Z.leb_le.
      rewrite wrap64_small by lia. lia. }
  (* the trailing word of [c] is read *)
  assert (Et : wrap64 (c + sz - 8) = c + sz - 8) by (apply wrap64_small; lia).
  rewrite (bind_ok _ _ _ _ _ (get_next_chunk_size_ok s c Hc0 ltac:(apply V; lia)
             ltac:(rewrite Hsz, Et; apply V; lia))).
  rewrite Hsz, Et.
  set (w0 := load64 (mem s) (c + sz - 8)).
  (* the size of the left part *)
  rewrite bind_store by (apply V; lia).
  set (sa := upd_mem s (c + 8) r).
  assert (Hsa : chunk_size sa c = r).
  { unfold chunk_size, off_curr_chunk_size, sa. cbn [mem upd_mem].
    rewrite load64_store64_same. apply wrap64_small. lia. }
  assert (Er : wrap64 (c + r - 8) = c + r - 8) by (apply wrap64_small; lia).
  rewrite (bind_ok _ _ _ _ _ (set_next_chunk_size_ok sa c (wrap64 (sz - r)) Hc0
             ltac:(apply V; lia) ltac:(rewrite Hsa, Er; apply V; lia))).
  rewrite Hsa, Er. rewrite (wrap64_small (sz - r)) by lia.
  replace (load64 (mem sa) (c + r - 8)) with (load64 (mem s) (c + r - 8))
    by (unfold sa; cbn [mem upd_mem]; rewrite load64_store64_other by lia; reflexivity).
  set (v1 := wrap64 (sz - r + Z.land FLAG_BIT (load64 (mem s) (c + r - 8)))).
  set (sb := upd_mem sa (c + r - 8) v1).
  assert (Hsb : load64 (mem sb) (c + 8) = r).
  { unfold sb. cbn [mem upd_mem]. rewrite load64_store64_other by lia. exact Hsa. }
  rewrite bind_load by (apply V; lia). rewrite Hsb.
  assert (En : wrap64 (c + r) = c + r) by (apply wrap64_small; lia).
  rewrite En.
  rewrite bind_store by (apply V; lia).
  set (sc := upd_mem sb (c + r + 8) (sz - r)).
  assert (Hsc : load64 (mem sc) (c + 8) = r).
  { unfold sc. cbn [mem upd_mem]. rewrite load64_store64_other by lia. exact Hsb. }
  rewrite bind_load by (apply V; lia). rewrite Hsc.
  rewrite (bind_ok _ _ _ _ _ (set_prev_chunk_size_ok sc (c + r) r
             ltac:(unfold NULL; lia) ltac:(apply V; lia))).
  replace (load64 (mem sc) (c + r)) with (load64 (mem s) (c + r))
    by (unfold sc, sb, sa; cbn [mem upd_mem];
        rewrite !load64_store64_other by lia; reflexivity).
  set (v2 := wrap64 (r + Z.land FLAG_BIT (load64 (mem s) (c + r)))).
  set (sd := upd_mem sc (c + r) v2).
  assert (Hsd : chunk_size sd (c + r) = sz - r).
  { unfold chunk_size, off_curr_chunk_size, sd, sc. cbn [mem upd_mem].
    rewrite load64_store64_other by lia.
    rewrite load64_store64_same. apply wrap64_small. lia. }
  assert (Ee : wrap64 (c + r + (sz - r) - 8) = c + sz - 8).
  { replace (c + r + (sz - r) - 8) with (c + sz - 8) by lia. exact Et. }
  rewrite (bind_ok _ _ _ _ _ (set_next_chunk_size_ok sd (c + r) _
             ltac:(unfold NULL; lia) ltac:(apply V; lia)
             ltac:(rewrite Hsd, Ee; apply V; lia))).
  rewrite Hsd, Ee.
  replace (load64 (mem sd) (c + sz - 8)) with w0
    by (unfold sd, sc, sb, sa; cbn [mem upd_mem];
        rewrite !load64_store64_other by lia; reflexivity).
  rewrite (size_plus_flag w0) by apply load64_range.
  rewrite (wrap64_small w0) by apply load64_range.
  set (se := upd_mem sd (c + sz - 8) w0).
  (* the new chunk goes to its bin *)
  assert (Hfe : only_changed (fun w => c <= w /\ w + 8 <= c + sz) s se).
  { unfold se, sd, sc, sb, sa.
    eapply only_changed_trans; [eapply only_changed_trans;
      [eapply only_changed_trans; [eapply only_changed_trans|]|]|];
      apply only_changed_upd; lia. }
  assert (Re : reg se G).
  { apply (reg_frame _ s se G R Hfe). intros w [H1 H2]. split.
    - unfold apart in *. lia.
    - intros x Hx. specialize (Hout x Hx). unfold apart in *. lia. }
  assert (Hse : chunk_size se (c + r) = sz - r).
  { unfold chunk_size, off_curr_chunk_size, se. cbn [mem upd_mem].
    rewrite load64_store64_other by lia. exact Hsd. }
  assert (Hwp : wmalloc_ptr se = wmalloc_ptr s) by reflexivity.
  destruct (reg_add se G (c + r) fuel Re) as (s1 & l1 & l2 & Hrun & HG & R1 & Hfr);
    try assumption.
  { lia. }
  { unfold hdr_ok, off_curr_chunk_size, off_left_ptr, off_right_ptr.
    conj_split; apply V; lia. }
  { rewrite Hwp. unfold apart in *. lia. }
  { rewrite Hwp. intros b Hb. apply in_nodes in Hb.
    destruct Hb as [(i & Hi & ->)|(x & Hx & ->)].
    - pose proof (io_pos s (reg_info s G R)).
      unfold apart, dummy_addr, sizeof_wmalloc_info, NUM_BINS in *. lia.
    - specialize (Hout x Hx). unfold apart in *. lia. }
  { rewrite Hse. pose proof (longest_ge G (bin_of (sz - r))) as Hl.
    destruct (bin_of_spec (sz - r) ltac:(lia)) as (Hb & _).
    specialize (Hl ltac:(unfold NUM_BINS; lia)). lia. }
  rewrite Hse in *.
  exists s1. split; [exact Hrun|].
  pose proof Hfr as (F1 & F2 & F3).
  assert (Hlink : forall a, apart a 8 (wmalloc_ptr s) sizeof_wmalloc_info ->
            (forall x, In x (all_chunks G) -> apart a 8 (fst x + 16) 16) ->
            apart a 8 (c + r + 16) 16 ->
            load64 (mem s1) a = load64 (mem se) a).
  { intros a H1 H2 H3. apply F3. intros w [Hw|[->| ->]].
    - apply (links_apart_word se G a Re); assumption.
    - unfold apart, off_left_ptr in *. lia.
    - unfold apart, off_right_ptr in *. lia. }
  assert (Hin : forall a, c <= a -> a + 8 <= c + sz ->
            apart a 8 (c + r + 16) 16 ->
            load64 (mem s1) a = load64 (mem se) a).
  { intros a H1 H2 H3. apply Hlink; [| |assumption].
    - unfold apart in *. lia.
    - intros x Hx. specialize (Hout x Hx). unfold apart in *. lia. }
  conj_split.
  - rewrite F1. reflexivity.
  - rewrite F2. reflexivity.
  - rewrite Hin by (unfold apart; lia).
    unfold se, sd, sc, sb, sa. cbn [mem upd_mem].
    rewrite !load64_store64_other by lia. reflexivity.
  - rewrite Hin by (unfold apart; lia).
    unfold se. cbn [mem upd_mem]. rewrite load64_store64_same.
    apply wrap64_small, load64_range.
  - intros a Ha H1 H2. rewrite Hlink; try assumption; [|unfold apart; lia].
    unfold se, sd, sc, sb, sa. cbn [mem upd_mem].
    rewrite !load64_store64_other by lia. reflexivity.
  - unfold chunk_size, off_curr_chunk_size.
    rewrite Hin by (unfold apart; lia).
    unfold se, sd. cbn [mem upd_mem].
    rewrite !load64_store64_other by lia. exact Hsc.
  - unfold chunk_size, off_curr_chunk_size.
    rewrite Hin by (unfold apart; lia). exact Hse.
  - rewrite Hin by (unfold apart; lia).
    unfold se, sd, sc, sb. cbn [mem upd_mem].
    rewrite !load64_store64_other by lia.
    rewrite load64_store64_same. unfold v1. apply wrap64_small, wrap64_range.
  - rewrite Hin by (unfold apart; lia).
    unfold se, sd. cbn [mem upd_mem].
    rewrite !load64_store64_other by lia.
    rewrite load64_store64_same. unfold v2. apply wrap64_small, wrap64_range.
  - exists l1, l2. split; assumption.
Qed.

(** ** [split_chunk] as a whole *)

Lemma split_chunk_spec (s : state) (G : gbins) (c sz r : Z) (fuel : nat) :
  carve_ok s G c sz r -> left_ok s G c -> right_ok s c sz ->
  (46 <= fuel)%nat -> (longest G < fuel)%nat ->
  exists s1,
    split_chunk fuel c r s = Ok tt (neighbours_marked 0 s1 c) /\
    split_residue fuel c r s = Ok tt s1 /\
    wmalloc_ptr s1 = wmalloc_ptr s /\ mapped s1 = mapped s /\
    load64 (mem s1) c = load64 (mem s) c /\
    load64 (mem s1) (c + sz - 8) = load64 (mem s) (c + sz - 8) /\
    if r + MINIMUM_CHUNK_SIZE <=? sz then
      chunk_size s1 c = r /\ chunk_size s1 (c + r) = sz - r /\
      load64 (mem s1) (c + r - 8)
        = wrap64 (sz - r + Z.land FLAG_BIT (load64 (mem s) (c + r - 8))) /\
      load64 (mem s1) (c + r)
        = wrap64 (r + Z.land FLAG_BIT (load64 (mem s) (c + r))) /\
      exists l1 l2, G (bin_of (sz - r)) = l1 ++ l2 /\
        reg s1 (set_bin G (bin_of (sz - r)) (l1 ++ (c + r, sz - r) :: l2))
    else s1 = s.
Proof.
  intros Hcv Hleft Hright Hf1 Hf2.
  destruct (split_residue_spec s G c sz r fuel Hcv Hf1 Hf2)
    as (s1 & Hrun & F1 & F2 & Hl & Ht & Hfr & Hpost).
  destruct Hcv as [R Hc Htop Hmap Hsz Hinfo Hout Hreq Hnw].
  unfold MINIMUM_CHUNK_SIZE in *.
  exists s1. conj_split; try assumption.
  assert (V : forall a, c <= a -> a + 8 <= c + sz -> valid s1 a = true).
  { intros a H1 H2. unfold valid. rewrite F2.
    apply (range_mapped_valid s c sz); try assumption; lia. }
  assert (Hv : forall a, valid s1 a = valid s a)
    by (intros a; unfold valid; now rewrite F2).
  assert (Hsz1 : (chunk_size s1 c = r /\ r + 40 <= sz) \/ (chunk_size s1 c = sz /\ s1 = s)).
  { destruct (r + 40 <=? sz) eqn:E.
    - left. apply Z.leb_le in E. tauto.
    - right. subst s1. tauto. }
  unfold split_chunk.
  rewrite bind_assert by (apply neq_null_negb; unfold NULL; lia).
  rewrite (bind_ok _ _ _ _ _ Hrun).
  apply set_unavailable_spec.
  unfold neighbours_ok. rewrite Hl.
  conj_split; try (apply V; lia); try lia.
  - intros Hp. destruct (Hleft Hp) as (H1 & H2 & H3 & H4 & H5 & H6).
    unfold MINIMUM_CHUNK_SIZE in H1.
    rewrite !Hv. split; [lia|]. split; [assumption|]. split; [|assumption].
    unfold chunk_size, off_curr_chunk_size in *.
    rewrite Hfr; [exact H3|lia|assumption|assumption].
  - intros Hn. destruct Hsz1 as [[E1 ?]|[E1 ?]]; rewrite E1 in *.
    + apply V; lia.
    + subst s1. apply Hright. exact Hn.
Qed.

(** ** A fresh region from the operating system *)

Lemma reg_transfer (s s' : state) (G : gbins) :
  reg s G -> wmalloc_ptr s' = wmalloc_ptr s ->
  (forall c sz, range_mapped s c sz -> range_mapped s' c sz) ->
  (forall a, valid s a = true -> valid s' a = true) ->
  (forall a, valid s a = true -> load64 (mem s') a = load64 (mem s) a) ->
  reg s' G.
Proof.
  intros R Hwp Hrm Hv Hm. pose proof (reg_info s G R) as I.
  assert (Hin : forall a, wmalloc_ptr s <= a ->
            a + 8 <= wmalloc_ptr s + sizeof_wmalloc_info ->
            load64 (mem s') a = load64 (mem s) a).
  { intros a H1 H2. apply Hm. now apply info_valid. }
  constructor.
  - destruct I as [I1 I2 I3 I4 I5 I6].
    constructor; rewrite ?Hwp; try assumption.
    + now apply Hrm.
    + intros j Hj. rewrite Hin; [now apply I4| |];
        unfold bin_addr, sizeof_wmalloc_info, NUM_BINS in *; lia.
    + intros j Hj. rewrite Hin; [now apply I5| |];
        unfold dummy_addr, sizeof_wmalloc_info, NUM_BINS, off_curr_chunk_size in *; lia.
    + intros j Hj. rewrite Hin; [now apply I6| |];
        unfold bin_index_addr, sizeof_wmalloc_info, NUM_BINS in *; lia.
  - intros i Hi. rewrite Hwp.
    destruct (reg_bin s G i R Hi) as (_ & _ & Hok & _).
    apply (lseg_ext (mem s)); [| |now apply (reg_lists s G R)].
    + intros d Hd. apply Hm. now apply (Hok d).
    + intros d Hd. apply Hm. apply (Hok d). now right.
  - intros x Hx. destruct (reg_hdr s G R x Hx) as ((V1 & V2 & V3) & Hs & Hp & Ha).
    rewrite Hwp. unfold hdr_ok, chunk_size in *.
    conj_split; try assumption; try (now apply Hv).
    rewrite Hm; assumption.
  - rewrite Hwp. apply R.
Qed.

Lemma allocate_chunk_ok (s : state) (G : gbins) (e : os_env) (r : Z) :
  reg s G ->
  mmap_ret e <> MAP_FAILED -> mmap_length r <> 0 ->
  0 < mmap_ret e -> mmap_ret e + mmap_length r <= 2 ^ 64 ->
  (forall m, In m (mapped s) -> apart (mmap_ret e) (mmap_length r) (fst m) (snd m)) ->
  exists s', allocate_chunk e r s = Ok (mmap_ret e) s' /\
    wmalloc_ptr s' = wmalloc_ptr s /\
    mapped s' = (mmap_ret e, mmap_length r) :: mapped s /\
    chunk_size s' (mmap_ret e) = mmap_length r /\
    load64 (mem s') (mmap_ret e) = 0 /\
    load64 (mem s') (mmap_ret e + mmap_length r - 8) = 0 /\
    reg s' G /\
    (forall a, valid s a = true -> load64 (mem s') a = load64 (mem s) a) /\
    (forall a, mmap_ret e + 16 <= a -> a + 16 <= mmap_ret e + mmap_length r ->
       load64 (mem s') a = 0).
Proof.
  intros R Hb HL Hpos Htop Hfresh.
  set (b := mmap_ret e) in *. set (L := mmap_length r) in *.
  assert (HL' : PAGE_SIZE <= L < 2 ^ 64)
    by (destruct (mmap_length_cases r); [contradiction|assumption]).
  unfold PAGE_SIZE in HL'.
  unfold allocate_chunk, off_curr_chunk_size. fold b L.
  set (s0 := mkState (wmalloc_ptr s) (zero_range (mem s) b L) ((b, L) :: mapped s)).
  assert (Hm : mmap_call b L s = Ok b s0).
  { unfold mmap_call.
    apply Z.eqb_neq in HL, Hb. rewrite HL, Hb. reflexivity. }
  rewrite (bind_ok _ _ _ _ _ Hm).
  apply Z.eqb_neq in Hb as Hb'. rewrite Hb'.
  assert (V : forall s1 a, mapped s1 = mapped s0 -> b <= a -> a + 8 <= b + L ->
            valid s1 a = true).
  { intros s1 a Hs1 H1 H2. apply (range_mapped_valid s1 b L); try lia.
    exists (b, L). rewrite Hs1. split; [now left|]. cbn [fst snd]. lia. }
  assert (Hb0 : b <> NULL) by (unfold NULL; lia).
  rewrite (bind_ok _ _ _ _ _ (set_prev_chunk_size_ok s0 b 0 Hb0
             ltac:(apply V; [reflexivity|lia|lia]))).
  assert (Z0 : forall a, b <= a -> a + 8 <= b + L -> load64 (mem s0) a = 0).
  { intros a H1 H2. unfold s0. cbn [mem]. now apply load64_zero_range_in. }
  rewrite (Z0 b) by lia.
  change (wrap64 (0 + Z.land FLAG_BIT 0)) with 0.
  set (sa := upd_mem s0 b 0).
  rewrite bind_store by (apply V; [reflexivity|lia|lia]).
  set (sb := upd_mem sa (b + 8) L).
  assert (Hsb : chunk_size sb b = L).
  { unfold chunk_size, sb. cbn [mem upd_mem]. rewrite load64_store64_same.
    apply wrap64_small. lia. }
  assert (Et : wrap64 (b + L - 8) = b + L - 8) by (apply wrap64_small; lia).
  rewrite (bind_ok _ _ _ _ _ (set_next_chunk_size_ok sb b 0 Hb0
             ltac:(apply V; [reflexivity|lia|lia])
             ltac:(rewrite Hsb, Et; apply V; [reflexivity|lia|lia]))).
  rewrite Hsb, Et.
  replace (load64 (mem sb) (b + L - 8)) with 0.
  2:{ unfold sb, sa, off_curr_chunk_size. cbn [mem upd_mem].
      rewrite !load64_store64_other by lia. symmetry. apply Z0; lia. }
  change (wrap64 (0 + Z.land FLAG_BIT 0)) with 0.
  eexists. split; [reflexivity|].
  assert (Hout : forall a, valid s a = true ->
            load64 (mem (upd_mem sb (b + L - 8) 0)) a = load64 (mem s) a).
  { intros a Ha. apply valid_mapped in Ha. destruct Ha as (m & Hin & H1 & H2).
    specialize (Hfresh m Hin). unfold apart in Hfresh.
    unfold sb, sa, s0, off_curr_chunk_size. cbn [mem upd_mem].
    rewrite !load64_store64_other by lia.
    apply load64_zero_range_out. lia. }
  conj_split; try reflexivity.
  - unfold chunk_size. cbn [mem upd_mem]. unfold off_curr_chunk_size.
    rewrite load64_store64_other by lia. exact Hsb.
  - unfold sb, sa, off_curr_chunk_size. cbn [mem upd_mem].
    rewrite !load64_store64_other by lia. apply load64_store64_same.
  - cbn [mem upd_mem]. apply load64_store64_same.
  - apply (reg_transfer s _ G R).
    + reflexivity.
    + intros c sz (m & Hin & H1 & H2). exists m. split; [right; exact Hin|lia].
    + intros a Ha. unfold valid in *. cbn [mapped upd_mem sb sa s0 existsb].
      rewrite !andb_true_iff in *. destruct Ha as [Ha1 Ha2]. split; [assumption|].
      apply orb_true_iff. now right.
    + exact Hout.
  - exact Hout.
  - intros a H1 H2. unfold sb, sa, off_curr_chunk_size. cbn [mem upd_mem].
    rewrite !load64_store64_other by lia. apply Z0; lia.
Qed.

(** ** Initialization *)

Lemma fill_bin_indices_ok (cont : Z -> bool) (next : Z -> Z) :
  forall (fuel : nat) (i idx : Z) (s : state),
  fill_stops fuel cont next i = true ->
  let vals := fill_values fuel cont next i in
  0 <= idx -> idx + Z.of_nat (length vals) <= NUM_BINS ->
  block_valid s ->
  Forall (fun v => 0 <= v < 2 ^ 64) vals ->
  (forall k, (k < length vals)%nat -> nth k vals 0 = U (idx + Z.of_nat k)) ->
  table_upto s idx ->
  exists s', fill_bin_indices fuel cont next i idx s
             = Ok (idx + Z.of_nat (length vals)) s' /\
    wmalloc_ptr s' = wmalloc_ptr s /\ mapped s' = mapped s /\
    table_upto s' (idx + Z.of_nat (length vals)) /\
    (forall a, a + 8 <= bin_index_addr (wmalloc_ptr s) 0 \/
               bin_index_addr (wmalloc_ptr s) NUM_BINS <= a ->
       load64 (mem s') a = load64 (mem s) a).
Proof.
  induction fuel as [|f IH]; intros i idx s Hstop vals Hidx Hlen Hv Hr Hn Ht.
  - discriminate.
  - cbn [fill_stops] in Hstop. subst vals. cbn [fill_values fill_bin_indices] in *.
    destruct (cont i) eqn:Ec.
    + cbn [length] in Hlen.
      inversion Hr as [|v l Hv0 Hr' Ee]. subst v l.
      assert (Hva : valid s (bin_index_addr (wmalloc_ptr s) idx) = true).
      { apply Hv; unfold bin_index_addr, sizeof_wmalloc_info, NUM_BINS in *; lia. }
      rewrite bind_get_wmalloc_ptr.
      rewrite (bind_store _ _ _ _ Hva).
      set (s1 := upd_mem s (bin_index_addr (wmalloc_ptr s) idx) i).
      destruct (IH (next i) (idx + 1) s1 Hstop) as (s' & E & Hwp & Hm & Ht' & Hf).
      * lia.
      * lia.
      * intros a H1 H2. unfold s1. rewrite valid_upd_mem. now apply Hv.
      * exact Hr'.
      * intros k Hk. specialize (Hn (S k) ltac:(cbn [length]; lia)).
        cbn [nth] in Hn. rewrite Hn. f_equal. lia.
      * intros k Hk. unfold s1. cbn [mem upd_mem wmalloc_ptr].
        destruct (Z.eq_dec k idx) as [->|Hne].
        -- rewrite load64_store64_same.
           specialize (Hn O ltac:(cbn [length]; lia)). cbn [nth] in Hn.
           replace (idx + Z.of_nat 0) with idx in Hn by lia.
           rewrite <- Hn. apply wrap64_small. lia.
        -- rewrite load64_store64_other by (unfold bin_index_addr; lia).
           apply Ht. lia.
      * exists s'. cbn [length].
        replace (idx + Z.of_nat (S (length (fill_values f cont next (next i)))))
          with (idx + 1 + Z.of_nat (length (fill_values f cont next (next i)))) by lia.
        split; [exact E|]. split; [exact Hwp|]. split; [exact Hm|].
        split; [exact Ht'|].
        intros a Ha. rewrite Hf by exact Ha.
        unfold s1. cbn [mem upd_mem].
        apply load64_store64_other.
        unfold bin_index_addr, NUM_BINS in *. lia.
    + exists s. cbn [length]. replace (idx + Z.of_nat 0) with idx by lia.
      conj_split; auto.
Qed.

Lemma init_dummies_ok : forall (k : nat) (i : Z) (s : state),
  0 <= i -> i + Z.of_nat k <= NUM_BINS ->
  0 <= wmalloc_ptr s -> wmalloc_ptr s + sizeof_wmalloc_info <= 2 ^ 64 ->
  block_valid s -> dummies_upto s i ->
  exists s', init_dummies k i s = Ok tt s' /\
    wmalloc_ptr s' = wmalloc_ptr s /\ mapped s' = mapped s /\
    dummies_upto s' (i + Z.of_nat k) /\
    (forall a, a + 8 <= wmalloc_ptr s \/ bin_index_addr (wmalloc_ptr s) 0 <= a ->
       load64 (mem s') a = load64 (mem s) a).
Proof.
  induction k as [|k IH]; intros i s Hi Hk Hwp Htop Hv Hd.
  - exists s. replace (i + Z.of_nat 0) with i by lia. conj_split; auto.
  - cbn [init_dummies].
    unfold NUM_BINS, sizeof_wmalloc_info in *.
    set (wp := wmalloc_ptr s) in *.
    assert (V : forall o, 0 <= o -> o + 8 <= 2208 -> valid s (wp + o) = true).
    { intros o H1 H2. apply Hv; unfold sizeof_wmalloc_info; fold wp; lia. }
    rewrite bind_get_wmalloc_ptr. fold wp.
    unfold dummy_addr, bin_addr, off_curr_chunk_size, off_left_ptr, off_right_ptr, NULL.
    rewrite bind_store
      by (replace (wp + 368 + 32 * i + 8) with (wp + (376 + 32 * i)) by lia; apply V; lia).
    rewrite bind_store
      by (rewrite valid_upd_mem;
          replace (wp + 368 + 32 * i + 16) with (wp + (384 + 32 * i)) by lia; apply V; lia).
    rewrite bind_store
      by (rewrite !valid_upd_mem;
          replace (wp + 368 + 32 * i + 24) with (wp + (392 + 32 * i)) by lia; apply V; lia).
    rewrite bind_store
      by (rewrite !valid_upd_mem; apply V; lia).
    match goal with |- exists s', init_dummies k (i + 1) ?s0 = _ /\ _ =>
      set (s4 := s0) end.
    assert (Hwp4 : wmalloc_ptr s4 = wp) by reflexivity.
    assert (Hm4 : mapped s4 = mapped s) by reflexivity.
    assert (F4 : forall a,
               apart a 8 (wp + 8 * i) 8 -> apart a 8 (wp + 368 + 32 * i + 8) 24 ->
               load64 (mem s4) a = load64 (mem s) a).
    { intros a H1 H2. unfold apart in *. unfold s4.
      rewrite !mem_upd_mem.
      rewrite !load64_store64_other by lia. reflexivity. }
    destruct (IH (i + 1) s4) as (s' & E & Hwp' & Hm' & Hd' & Hf');
      try (rewrite ?Hwp4; lia).
    + intros a H1 H2. unfold s4. rewrite !valid_upd_mem. apply Hv; assumption.
    + intros j Hj. rewrite Hwp4.
      unfold dummy_addr, bin_addr, off_curr_chunk_size, off_left_ptr, off_right_ptr, NULL.
      destruct (Z.eq_dec j i) as [->|Hne].
      * unfold s4. rewrite !mem_upd_mem.
        split; [|split; [|split]].
        -- rewrite load64_store64_same. apply wrap64_small. lia.
        -- rewrite !load64_store64_other by lia.
           rewrite load64_store64_same. reflexivity.
        -- rewrite !load64_store64_other by lia.
           rewrite load64_store64_same. reflexivity.
        -- rewrite !load64_store64_other by lia.
           rewrite load64_store64_same. reflexivity.
      * destruct (Hd j ltac:(lia)) as (D1 & D2 & D3 & D4).
        fold wp in D1, D2, D3, D4.
        unfold dummy_addr, bin_addr, off_curr_chunk_size, off_left_ptr,
          off_right_ptr, NULL in D1, D2, D3, D4.
        rewrite !F4 by (unfold apart; lia).
        auto.
    + exists s'. replace (i + Z.of_nat (S k)) with (i + 1 + Z.of_nat k) by lia.
      split; [exact E|]. split; [now rewrite Hwp'|]. split; [now rewrite Hm'|].
      split; [exact Hd'|].
      intros a Ha. rewrite Hf' by (rewrite Hwp4; exact Ha).
      unfold bin_index_addr in Ha.
      apply F4; unfold apart; lia.
Qed.

Ltac fill_step F cont next i idx s :=
  pose proof (fill_bin_indices_ok cont next 64 i idx s eq_refl) as F;
  cbv zeta in F;
  let v := eval vm_compute in (fill_values 64 cont next i) in
  change (fill_values 64 cont next i) with v in F;
  let n := eval vm_compute in (Z.of_nat (length v)) in
  change (Z.of_nat (length v)) with n in F;
  let m := eval vm_compute in (idx + n) in
  change (idx + n) with m in F.

Ltac fill_values_ok :=
  match goal with
  | |- Forall _ _ => repeat (constructor; [lia|]); constructor
  | |- forall k : nat, _ -> nth k _ _ = _ =>
      let k := fresh "k" in let Hk := fresh "Hk" in
      intros k Hk;
      repeat (destruct k as [|k]; [reflexivity|]);
      cbn [length] in Hk; lia
  end.

Lemma initialize_bin_indices_ok (s : state) :
  0 < wmalloc_ptr s -> wmalloc_ptr s + sizeof_wmalloc_info <= 2 ^ 64 ->
  block_valid s ->
  exists s', initialize_bin_indices s = Ok tt s' /\
    wmalloc_ptr s' = wmalloc_ptr s /\ mapped s' = mapped s /\
    table_upto s' NUM_BINS /\
    (forall a, a + 8 <= bin_index_addr (wmalloc_ptr s) 0 \/
               bin_index_addr (wmalloc_ptr s) NUM_BINS <= a ->
       load64 (mem s') a = load64 (mem s) a).
Proof.
  intros Hpos Htop Hv.
  unfold initialize_bin_indices.
  rewrite bind_get_wmalloc_ptr.
  rewrite bind_assert by (apply neq_null_negb; unfold NULL; lia).
  assert (T0 : table_upto s 0) by (intros k Hk; lia).
  fill_step F1 (fun i => i <=? 128) (fun i => i + 8) 40 0 s.
  destruct F1 as (s1 & E1 & W1 & M1 & T1 & R1);
    try assumption; try fill_values_ok; try (unfold NUM_BINS; lia).
  rewrite (bind_ok _ _ _ _ _ E1).
  assert (V1 : block_valid s1).
  { intros a H1 H2. unfold valid. rewrite M1. rewrite W1 in H1, H2. now apply Hv. }
  fill_step F2 (fun i => i <=? 256) (fun i => i + 16) 144 12 s1.
  destruct F2 as (s2 & E2 & W2 & M2 & T2 & R2);
    try assumption; try fill_values_ok; try (unfold NUM_BINS; lia).
  rewrite (bind_ok _ _ _ _ _ E2).
  assert (V2 : block_valid s2).
  { intros a H1 H2. unfold valid. rewrite M2. rewrite W2 in H1, H2. now apply V1. }
  fill_step F3 (fun i => i <=? 512) (fun i => i + 32) 288 20 s2.
  destruct F3 as (s3 & E3 & W3 & M3 & T3 & R3);
    try assumption; try fill_values_ok; try (unfold NUM_BINS; lia).
  rewrite (bind_ok _ _ _ _ _ E3).
  assert (V3 : block_valid s3).
  { intros a H1 H2. unfold valid. rewrite M3. rewrite W3 in H1, H2. now apply V2. }
  fill_step F4 (fun i => i <=? 1024) (fun i => i + 64) 576 28 s3.
  destruct F4 as (s4 & E4 & W4 & M4 & T4 & R4);
    try assumption; try fill_values_ok; try (unfold NUM_BINS; lia).
  rewrite (bind_ok _ _ _ _ _ E4).
  assert (V4 : block_valid s4).
  { intros a H1 H2. unfold valid. rewrite M4. rewrite W4 in H1, H2. now apply V3. }
  fill_step F5 (fun i => i <? 1000000) (fun i => i * 2) 2048 36 s4.
  destruct F5 as (s5 & E5 & W5 & M5 & T5 & R5);
    try assumption; try fill_values_ok; try (unfold NUM_BINS; lia).
  rewrite (bind_ok _ _ _ _ _ E5).
  assert (V5 : block_valid s5).
  { intros a H1 H2. unfold valid. rewrite M5. rewrite W5 in H1, H2. now apply V4. }
  assert (Ew : wmalloc_ptr s5 = wmalloc_ptr s) by congruence.
  assert (Hva : valid s5 (bin_index_addr (wmalloc_ptr s) 45) = true).
  { apply V5; rewrite Ew; unfold bin_index_addr, sizeof_wmalloc_info; lia. }
  unfold store. rewrite Hva.
  exists (upd_mem s5 (bin_index_addr (wmalloc_ptr s) 45) (2 ^ 64 - 1)).
  split; [reflexivity|]. split; [exact Ew|].
  split; [cbn [mapped upd_mem]; congruence|]. split.
  - intros k Hk. rewrite wmalloc_ptr_upd_mem, mem_upd_mem, Ew.
    unfold NUM_BINS in Hk.
    destruct (Z.eq_dec k 45) as [->|Hne].
    + rewrite load64_store64_same. reflexivity.
    + rewrite load64_store64_other by (unfold bin_index_addr; lia).
      rewrite <- Ew. apply T5. lia.
  - intros a Ha. rewrite mem_upd_mem.
    rewrite load64_store64_other by (unfold bin_index_addr, NUM_BINS in *; lia).
    rewrite R5, R4, R3, R2, R1; try reflexivity; try congruence.
Qed.

Lemma dummies_apart (wp : Z) : nodes_apart (map (dummy_addr wp) bin_ids).
Proof.
  split.
  - apply NoDup_map_NoDup_ForallPairs; [|apply bin_ids_nodup].
    intros i j _ _ H. unfold dummy_addr in H. lia.
  - intros a b Ha Hb Hne.
    apply in_map_iff in Ha. destruct Ha as (i & <- & Hi).
    apply in_map_iff in Hb. destruct Hb as (j & <- & Hj).
    apply bin_ids_in in Hi, Hj.
    assert (i <> j) by congruence.
    unfold apart, dummy_addr. lia.
Qed.

Lemma reg_no_chunks (s : state) (G : gbins) :
  all_chunks G = [] ->
  0 < wmalloc_ptr s -> wmalloc_ptr s + sizeof_wmalloc_info <= 2 ^ 64 ->
  range_mapped s (wmalloc_ptr s) sizeof_wmalloc_info ->
  dummies_upto s NUM_BINS -> table_upto s NUM_BINS ->
  reg s G.
Proof.
  intros HG Hpos Htop Hm Hd Ht.
  assert (HGi : forall i, 0 <= i < NUM_BINS -> G i = []).
  { intros i Hi. destruct (G i) as [|x l] eqn:E; [reflexivity|].
    assert (Hin : In x (all_chunks G)).
    { apply bin_in_all with i; [exact Hi|]. rewrite E. now left. }
    rewrite HG in Hin. destruct Hin. }
  constructor.
  - constructor; try assumption.
    + intros i Hi. now destruct (Hd i Hi).
    + intros i Hi. now destruct (Hd i Hi) as (_ & ? & _).
  - intros i Hi. rewrite (HGi i Hi). cbn [map lseg].
    now destruct (Hd i Hi) as (_ & _ & _ & ?).
  - intros x Hx. rewrite HG in Hx. destruct Hx.
  - unfold nodes. rewrite HG. cbn [map]. rewrite app_nil_r.
    apply dummies_apart.
Qed.

(** [sbrk] succeeds: the engine's block is set up with empty bins. *)
Lemma initialize_wmalloc_ok (e : os_env) (s : state) :
  sbrk_ret e <> MAP_FAILED ->
  0 < sbrk_ret e -> sbrk_ret e + sizeof_wmalloc_info <= 2 ^ 64 ->
  exists s', initialize_wmalloc e s = Ok 1 s' /\
    wmalloc_ptr s' = sbrk_ret e /\
    mapped s' = (sbrk_ret e, sizeof_wmalloc_info) :: mapped s /\
    reg s' no_chunks /\
    (forall a, a + 8 <= sbrk_ret e \/ sbrk_ret e + sizeof_wmalloc_info <= a ->
       load64 (mem s') a = load64 (mem s) a).
Proof.
  intros Hf Hpos Htop.
  unfold initialize_wmalloc.
  unfold bind at 1. unfold sbrk_call.
  apply Z.eqb_neq in Hf. rewrite Hf.
  unfold bind at 1. unfold set_wmalloc_ptr. cbn [wmalloc_ptr mem mapped].
  rewrite Hf.
  set (s0 := mkState (sbrk_ret e) (mem s) ((sbrk_ret e, sizeof_wmalloc_info) :: mapped s)).
  assert (Hr0 : range_mapped s0 (sbrk_ret e) sizeof_wmalloc_info).
  { exists (sbrk_ret e, sizeof_wmalloc_info). cbn. split; [now left|lia]. }
  assert (V0 : block_valid s0).
  { intros a H1 H2. cbn [wmalloc_ptr s0] in H1, H2.
    apply (range_mapped_valid s0 (sbrk_ret e) sizeof_wmalloc_info); auto; lia. }
  destruct (init_dummies_ok (Z.to_nat NUM_BINS) 0 s0) as (s1 & E1 & W1 & M1 & D1 & R1);
    try assumption; try (cbn [wmalloc_ptr s0]; unfold NUM_BINS; lia).
  { intros j Hj. lia. }
  rewrite (bind_ok _ _ _ _ _ E1).
  cbn [wmalloc_ptr s0] in W1, R1.
  assert (V1 : block_valid s1).
  { intros a H1 H2. unfold valid. rewrite M1. rewrite W1 in H1, H2. now apply V0. }
  destruct (initialize_bin_indices_ok s1) as (s2 & E2 & W2 & M2 & T2 & R2);
    try assumption; try (rewrite W1; lia).
  rewrite (bind_ok _ _ _ _ _ E2). unfold ret.
  rewrite W1 in W2, R2.
  exists s2. split; [reflexivity|]. split; [exact W2|].
  split; [rewrite M2, M1; reflexivity|]. split.
  - apply reg_no_chunks; try (rewrite W2; assumption).
    + reflexivity.
    + rewrite W2. destruct Hr0 as (r & Hin & Hr). exists r.
      rewrite M2, M1. split; assumption.
    + intros j Hj. rewrite W2.
      replace (0 + Z.of_nat (Z.to_nat NUM_BINS)) with NUM_BINS in D1
        by (unfold NUM_BINS; lia).
      specialize (D1 j Hj). rewrite W1 in D1.
      unfold NUM_BINS in Hj.
      unfold dummy_addr, bin_addr, bin_index_addr, off_curr_chunk_size,
        off_left_ptr, off_right_ptr, NUM_BINS in *.
      rewrite !R2 by lia. exact D1.
    + exact T2.
  - intros a Ha. unfold sizeof_wmalloc_info in Ha.
    rewrite R2 by (unfold bin_index_addr, NUM_BINS; lia).
    rewrite R1 by (unfold bin_index_addr; lia).
    reflexivity.
Qed.

(** ** Well-formed free lists: what the registry offers *)

Lemma wf_chunk (s : state) (G : gbins) (x : Z * Z) :
  wf s G -> In x (all_chunks G) ->
  chunk_ok s G (fst x) (snd x) /\ 0 <= bin_of (snd x) < NUM_BINS /\
  In x (G (bin_of (snd x))).
Proof.
  intros W Hx. apply in_all_chunks in Hx. destruct Hx as (i & Hi & Hin).
  destruct x as [c sz]. cbn [fst snd].
  destruct (wf_chunks s G W i c sz Hi Hin) as [Hc Hb].
  rewrite Hb. auto.
Qed.

Lemma wf_reg (s : state) (G : gbins) : wf s G -> reg s G.
Proof.
  intros W. constructor.
  - apply W.
  - apply W.
  - intros x Hx. destruct (wf_chunk s G x W Hx) as ([P1 P2 P3 P4 P5 P6 _ _] & _).
    unfold MINIMUM_CHUNK_SIZE in P2.
    unfold hdr_ok, off_curr_chunk_size, off_left_ptr, off_right_ptr.
    conj_split; try assumption;
      try (apply (range_mapped_valid s (fst x) (snd x)); auto; lia).
    unfold apart in *. lia.
  - pose proof (wf_info s G W) as I. destruct I as [I1 I2 _ _ _ _].
    unfold sizeof_wmalloc_info in *.
    assert (Hd : forall a, In a (map (dummy_addr (wmalloc_ptr s)) bin_ids) ->
              wmalloc_ptr s + 368 <= a /\ a + 32 <= wmalloc_ptr s + 2208).
    { intros a Ha. apply in_map_iff in Ha. destruct Ha as (i & <- & Hi).
      apply bin_ids_in in Hi. unfold dummy_addr, NUM_BINS in *. lia. }
    assert (Hc : forall a, In a (map fst (all_chunks G)) ->
              exists x, In x (all_chunks G) /\ a = fst x /\
                        MINIMUM_CHUNK_SIZE <= snd x /\
                        apart a (snd x) (wmalloc_ptr s) 2208).
    { intros a Ha. apply in_map_iff in Ha. destruct Ha as (x & <- & Hx).
      destruct (wf_chunk s G x W Hx) as ([P1 P2 P3 P4 P5 P6 _ _] & _).
      exists x. auto. }
    unfold MINIMUM_CHUNK_SIZE in Hc.
    split.
    + unfold nodes. apply NoDup_app.
      * apply dummies_apart.
      * apply W.
      * intros a Ha Hb. apply Hd in Ha. apply Hc in Hb.
        destruct Hb as (x & _ & -> & Hmin & Hap). unfold apart in Hap. lia.
    + intros a b Ha Hb Hne. unfold nodes in Ha, Hb.
      apply in_app_or in Ha, Hb.
      destruct Ha as [Ha|Ha], Hb as [Hb|Hb].
      * destruct (dummies_apart (wmalloc_ptr s)) as [_ H]. now apply H.
      * apply Hd in Ha. apply Hc in Hb.
        destruct Hb as (x & _ & -> & Hmin & Hap). unfold apart in *. lia.
      * apply Hd in Hb. apply Hc in Ha.
        destruct Ha as (x & _ & -> & Hmin & Hap). unfold apart in *. lia.
      * apply Hc in Ha, Hb.
        destruct Ha as (x & Hx & -> & Hmx & _), Hb as (y & Hy & -> & Hmy & _).
        pose proof (wf_apart s G W x y Hx Hy Hne) as H.
        unfold apart in *. lia.
Qed.

(** Nothing in the bins: the registry is well formed as soon as it is in
    order. *)
Lemma wf_empty (s : state) (G : gbins) :
  reg s G -> all_chunks G = [] -> wf s G.
Proof.
  intros R HG. constructor.
  - apply R.
  - apply R.
  - intros i c sz Hi Hin.
    assert (H : In (c, sz) (all_chunks G)) by (now apply bin_in_all with i).
    rewrite HG in H. destruct H.
  - rewrite HG. constructor.
  - intros x y Hx. rewrite HG in Hx. destruct Hx.
Qed.

(** *** The registry as a pure lookup *)

Lemma take_bigger_some (G : gbins) : forall (k : nat) (j0 : Z) x G',
  take_bigger k G j0 = Some (x, G') ->
  exists j l, j0 <= j < j0 + Z.of_nat k /\ G j = x :: l /\ G' = set_bin G j l.
Proof.
  induction k as [|k IH]; intros j0 x G' H; [discriminate|].
  cbn [take_bigger] in H. destruct (G j0) as [|y l] eqn:E.
  - destruct (IH _ _ _ H) as (j & l & Hj & Hl & HG).
    exists j, l. split; [lia|auto].
  - inversion H; subst. exists j0, l. split; [lia|auto].
Qed.

Lemma lookup_some (G : gbins) (r : Z) (x : Z * Z) (G' : gbins) :
  r < 2 ^ 64 -> lookup G r = Some (x, G') ->
  exists j l1 l2, find_of r <= j < NUM_BINS /\ G j = l1 ++ x :: l2 /\
    G' = set_bin G j (l1 ++ l2) /\ (j = find_of r -> seen r <= snd x).
Proof.
  intros Hr H. unfold lookup in H.
  destruct (find_of_spec r Hr) as (Hf & _).
  destruct (take_fit (seen r) (G (find_of r))) as [[y l]|] eqn:E.
  - inversion H; subst y G'. clear H.
    destruct (take_fit_some _ _ _ _ E) as (l1 & l2 & H1 & H2 & H3).
    exists (find_of r), l1, l2. subst l. unfold NUM_BINS. split; [lia|auto].
  - destruct (take_bigger_some _ _ _ _ _ H) as (j & l & Hj & Hl & HG).
    exists j, [], l. cbn [app]. unfold NUM_BINS.
    split; [lia|]. split; [exact Hl|]. split; [exact HG|]. lia.
Qed.

(** Bins hold the sizes of their class, and below [2^32] the conversion to
    [int] does not make a requirement smaller: what is offered fits. *)
Lemma lookup_fits (s : state) (G : gbins) (r : Z) (x : Z * Z) (G' : gbins) :
  wf s G -> 0 < r < 2 ^ 32 -> lookup G r = Some (x, G') ->
  r <= snd x /\ In x (all_chunks G) /\
  forall y, In y (all_chunks G') -> In y (all_chunks G) /\ fst y <> fst x.
Proof.
  intros W Hr32 H.
  assert (Hr : r < 2 ^ 64) by lia.
  pose proof (seen_ge r Hr32) as Hseen.
  destruct (lookup_some G r x G' Hr H) as (j & l1 & l2 & Hj & HG & HG' & Hfit).
  destruct (find_of_spec r Hr) as (Hf & Hu & _).
  assert (Hj' : 0 <= j < NUM_BINS) by lia.
  assert (Hin : In x (G j)) by (rewrite HG; apply in_elt).
  assert (Hall : In x (all_chunks G)) by (now apply bin_in_all with j).
  split; [|split; [exact Hall|]].
  - destruct (Z.eq_dec j (find_of r)) as [e|Hne]; [specialize (Hfit e); lia|].
    destruct x as [c sz]. cbn [snd].
    destruct (wf_chunks s G W j c sz Hj' Hin) as [Hc Hb].
    destruct Hc as [P1 P2 P3 _ _ _ _ _].
    destruct (bin_of_spec sz ltac:(lia)) as (_ & _ & Hlow).
    rewrite Hb in Hlow. specialize (Hlow (find_of r) ltac:(lia)). lia.
  - intros y Hy. subst G'.
    apply in_all_chunks_set in Hy; [|exact Hj'].
    pose proof (wf_nodup s G W) as Hnd.
    destruct (all_chunks_app G j Hj') as (A & B & EA & _).
    rewrite EA, HG in Hnd. rewrite !map_app in Hnd. cbn [map] in Hnd.
    assert (Hy' : In y (A ++ (l1 ++ l2) ++ B) -> fst y <> fst x).
    { intros Hyin Heq.
      replace (map fst A ++ (map fst l1 ++ fst x :: map fst l2) ++ map fst B)
        with ((map fst A ++ map fst l1) ++ fst x :: (map fst l2 ++ map fst B)) in Hnd
        by (rewrite <- !app_assoc; reflexivity).
      apply NoDup_remove_2 in Hnd. apply Hnd.
      rewrite <- Heq. rewrite <- !map_app. apply in_map.
      rewrite !in_app_iff in *. tauto. }
    destruct Hy as [Hy|(j' & Hne & Hj'' & Hy)].
    + split.
      * apply bin_in_all with j; [exact Hj'|]. rewrite HG.
        apply in_app_or in Hy. apply in_or_app. cbn [In]. tauto.
      * apply Hy'. apply in_or_app. right. apply in_or_app. now left.
    + assert (Hya : In y (all_chunks G)) by (now apply bin_in_all with j').
      split; [exact Hya|].
      apply Hy'. rewrite EA, HG in Hya.
      rewrite !in_app_iff in *. cbn [In] in Hya.
      destruct Hya as [?|[[?|[Heq|?]]|?]]; try tauto.
      subst y. exfalso.
      destruct x as [c sz].
      destruct (wf_chunks s G W j c sz Hj' Hin) as [_ Hb1].
      destruct (wf_chunks s G W j' c sz Hj'' Hy) as [_ Hb2].
      congruence.
Qed.

Lemma longest_le (G : gbins) (k : nat) :
  (forall i, 0 <= i < NUM_BINS -> (length (G i) <= k)%nat) -> (longest G <= k)%nat.
Proof.
  intros H. unfold longest.
  assert (H' : forall i, In i bin_ids -> (length (G i) <= k)%nat)
    by (intros i Hi; apply H; now apply bin_ids_in).
  clear H. induction bin_ids as [|j ids IH]; cbn [map fold_right]; [lia|].
  pose proof (H' j ltac:(now left)).
  specialize (IH ltac:(intros i Hi; apply H'; now right)). lia.
Qed.

Lemma longest_set_bin (G : gbins) (j : Z) (l : list (Z * Z)) :
  0 <= j < NUM_BINS -> (length l <= length (G j))%nat ->
  (longest (set_bin G j l) <= longest G)%nat.
Proof.
  intros Hj Hl. apply longest_le. intros i Hi. unfold set_bin.
  destruct (i =? j) eqn:E.
  - pose proof (longest_ge G j Hj). lia.
  - now apply longest_ge.
Qed.

Lemma necessary_length_small (n : Z) :
  0 <= n -> n + CHUNK_OVERHEAD < 2 ^ 64 ->
  necessary_length n = Z.max MINIMUM_CHUNK_SIZE (n + CHUNK_OVERHEAD).
Proof.
  intros H1 H2. unfold necessary_length.
  rewrite wrap64_small by (unfold CHUNK_OVERHEAD in *; lia).
  destruct (n + CHUNK_OVERHEAD <? MINIMUM_CHUNK_SIZE) eqn:E.
  - apply Z.ltb_lt in E. lia.
  - apply Z.ltb_ge in E. lia.
Qed.

(** The words of a chunk in a bin, other than its link fields, lie outside
    the engine's block and are no link field of the registry. *)
Lemma chunk_words_out (s : state) (G : gbins) (x : Z * Z) (a : Z) :
  wf s G -> In x (all_chunks G) ->
  fst x <= a -> a + 8 <= fst x + snd x ->
  a + 8 <= fst x + 16 \/ fst x + 32 <= a ->
  valid s a = true /\
  apart a 8 (wmalloc_ptr s) sizeof_wmalloc_info /\
  forall y, In y (all_chunks G) -> apart a 8 (fst y + 16) 16.
Proof.
  intros W Hx H1 H2 H3.
  destruct (wf_chunk s G x W Hx) as ([P1 P2 P3 P4 P5 P6 _ _] & _).
  split; [|split].
  - apply (range_mapped_valid s (fst x) (snd x)); auto; lia.
  - unfold apart in *. lia.
  - intros y Hy.
    destruct (wf_chunk s G y W Hy) as ([Q1 Q2 Q3 _ _ _ _ _] & _).
    unfold MINIMUM_CHUNK_SIZE in *.
    destruct (Z.eq_dec (fst x) (fst y)) as [E|Hne].
    + unfold apart. lia.
    + pose proof (wf_apart s G W x y Hx Hy Hne) as H.
      unfold apart in *. lia.
Qed.

Lemma chunk_words_apart (s : state) (G : gbins) (x : Z * Z) (a : Z) :
  wf s G -> In x (all_chunks G) ->
  fst x <= a -> a + 8 <= fst x + snd x ->
  a + 8 <= fst x + 16 \/ fst x + 32 <= a ->
  forall w, links (wmalloc_ptr s) G w -> apart a 8 w 8.
Proof.
  intros W Hx H1 H2 H3.
  destruct (chunk_words_out s G x a W Hx H1 H2 H3) as (_ & Hi & Hy).
  now apply (links_apart_word s G a (wf_reg s G W)).
Qed.

(** A chunk taken from a well-formed registry can be carved. *)
Lemma wf_carve (s s1 : state) (G G' : gbins) (x : Z * Z) (r : Z) :
  wf s G -> In x (all_chunks G) ->
  (forall y, In y (all_chunks G') -> In y (all_chunks G) /\ fst y <> fst x) ->
  reg s1 G' -> only_changed (links (wmalloc_ptr s) G) s s1 ->
  chunk_size s1 (fst x) = snd x ->
  MINIMUM_CHUNK_SIZE <= r <= snd x -> r + MINIMUM_CHUNK_SIZE < 2 ^ 64 ->
  carve_ok s1 G' (fst x) (snd x) r /\ left_ok s1 G' (fst x) /\
  right_ok s1 (fst x) (snd x).
Proof.
  intros W Hx Hsub R1 OC Hsz Hr Hnw.
  destruct (wf_chunk s G x W Hx) as ([P1 P2 P3 P4 P5 P6 P7 P8] & _).
  pose proof OC as (Hwp & Hmp & Hld).
  unfold MINIMUM_CHUNK_SIZE in *.
  split; [|split].
  - constructor; try assumption.
    + now apply (only_changed_range_mapped (links (wmalloc_ptr s) G) s s1).
    + now rewrite Hwp.
    + intros y Hy. destruct (Hsub y Hy) as [Hy' Hne].
      destruct (wf_chunk s G y W Hy') as ([Q1 Q2 Q3 _ _ _ _ _] & _).
      pose proof (wf_apart s G W x y Hx Hy' (not_eq_sym Hne)) as H.
      unfold apart, MINIMUM_CHUNK_SIZE in *. lia.
  - unfold left_ok in *. cbv zeta in *.
    rewrite (Hld (fst x))
      by (apply (chunk_words_apart s G x); auto; lia).
    intros Hp. destruct (P7 Hp) as (L1 & L2 & L3 & L4 & L5 & L6).
    rewrite !(only_changed_valid (links (wmalloc_ptr s) G) s s1) by exact OC.
    rewrite Hwp.
    conj_split; try assumption; try (destruct L1; assumption).
    + unfold chunk_size in *. rewrite Hld; [exact L3|].
      unfold off_curr_chunk_size.
      apply (links_apart_word s G _ (wf_reg s G W)); assumption.
    + intros y Hy. apply L6. now apply Hsub.
  - unfold right_ok in *.
    rewrite (Hld (fst x + snd x - 8))
      by (apply (chunk_words_apart s G x); auto; lia).
    rewrite (only_changed_valid (links (wmalloc_ptr s) G) s s1) by exact OC.
    exact P8.
Qed.

Lemma neighbours_marked_other (f : Z) (s : state) (c a : Z) :
  a + 16 <= c \/ c <= a ->
  a + 8 <= c + chunk_size s c \/ c + chunk_size s c + 8 <= a ->
  load64 (mem (neighbours_marked f s c)) a = load64 (mem s) a.
Proof.
  intros H1 H2.
  destruct (neighbours_marked_frame f s c) as (_ & _ & H).
  apply H. intros w [->| ->]; unfold apart; lia.
Qed.

(** *** [wmalloc] served from the registry *)

Lemma wmalloc_body_reuse (s : state) (G : gbins) (e : os_env) (n : Z) (fuel : nat)
    (x : Z * Z) (G' : gbins) :
  wf s G -> 0 <= n -> n + CHUNK_OVERHEAD < 2 ^ 32 ->
  (48 + longest G <= fuel)%nat ->
  lookup G (necessary_length n) = Some (x, G') ->
  exists s', wmalloc_body fuel e n s = Ok (fst x + 16) s' /\
    wmalloc_ptr s' = wmalloc_ptr s /\ mapped s' = mapped s /\
    In x (all_chunks G) /\ necessary_length n <= snd x /\
    (if necessary_length n + MINIMUM_CHUNK_SIZE <=? snd x
     then chunk_size s' (fst x) = necessary_length n /\
          chunk_size s' (fst x + necessary_length n) = snd x - necessary_length n
     else chunk_size s' (fst x) = snd x).
Proof.
  intros W Hn Hn' Hfuel Hl.
  pose proof (necessary_length_small n Hn
                ltac:(unfold CHUNK_OVERHEAD in *; lia)) as Er.
  set (r := necessary_length n) in *.
  assert (Hr : MINIMUM_CHUNK_SIZE <= r < 2 ^ 32)
    by (unfold MINIMUM_CHUNK_SIZE, CHUNK_OVERHEAD in *; lia).
  unfold MINIMUM_CHUNK_SIZE in Hr.
  pose proof (seen_ge r ltac:(lia)) as Hseen.
  pose proof (find_free_chunk_spec s G r fuel (wf_reg s G W) ltac:(lia)
                ltac:(lia) Hfuel) as F.
  rewrite Hl in F. destruct F as (s1 & E1 & R1 & OC & Hsz & _).
  destruct (lookup_fits s G r x G' W ltac:(lia) Hl) as (Hfit & Hx & Hsub).
  destruct (lookup_some G r x G' ltac:(lia) Hl) as (j & l1 & l2 & Hj & HG & HG' & _).
  destruct (find_of_spec r ltac:(lia)) as (Hf & _).
  assert (Hlong : (longest G' <= longest G)%nat).
  { subst G'. apply longest_set_bin; [lia|]. rewrite HG.
    rewrite !length_app. cbn [length]. lia. }
  destruct (wf_carve s s1 G G' x r W Hx Hsub R1 OC Hsz
              ltac:(unfold MINIMUM_CHUNK_SIZE; lia)
              ltac:(unfold MINIMUM_CHUNK_SIZE; lia)) as (Cv & Lo & Ro).
  destruct (split_chunk_spec s1 G' (fst x) (snd x) r fuel Cv Lo Ro
              ltac:(lia) ltac:(lia))
    as (s2 & E2 & _ & Hwp2 & Hmp2 & _ & _ & Hcase).
  destruct (wf_chunk s G x W Hx) as ([P1 P2 P3 P4 P5 P6 P7 P8] & _).
  unfold MINIMUM_CHUNK_SIZE in *.
  pose proof OC as (Hwp1 & Hmp1 & _).
  destruct (neighbours_marked_frame 0 s2 (fst x)) as (Hwp3 & Hmp3 & _).
  exists (neighbours_marked 0 s2 (fst x)).
  split.
  { unfold wmalloc_body. cbv zeta. fold r.
    rewrite (bind_ok _ _ _ _ _ E1).
    replace (fst x =? NULL) with false
      by (symmetry; apply Z.eqb_neq; unfold NULL; lia).
    rewrite bind_assoc. rewrite (bind_ok _ _ _ _ _ E2).
    rewrite bind_ret. unfold ret.
    rewrite wrap64_small by lia. reflexivity. }
  split; [congruence|]. split; [congruence|].
  split; [exact Hx|]. split; [exact Hfit|].
  destruct (r + 40 <=? snd x) eqn:Esp.
  - apply Z.leb_le in Esp.
    destruct Hcase as (C1 & C2 & _).
    unfold chunk_size in *. unfold off_curr_chunk_size in *.
    rewrite !neighbours_marked_other;
      unfold chunk_size, off_curr_chunk_size; rewrite ?C1; auto; lia.
  - apply Z.leb_gt in Esp. subst s2.
    unfold chunk_size in *. unfold off_curr_chunk_size in *.
    rewrite !neighbours_marked_other;
      unfold chunk_size, off_curr_chunk_size; rewrite ?Hsz; auto; lia.
Qed.

(** ** [wmalloc] served by the operating system *)

Lemma mmap_length_ge (r : Z) :
  0 <= r < 2 ^ 63 ->
  r <= mmap_length r /\ MMAP_SIZE <= mmap_length r < 2 ^ 64 /\
  mmap_length r <= r + MMAP_SIZE.
Proof.
  intros Hr. unfold mmap_length, MMAP_SIZE, PAGE_SIZE.
  destruct (r <=? 131072) eqn:E.
  - apply Z.leb_le in E. lia.
  - apply Z.leb_gt in E.
    pose proof (Z.div_mod r 4096 ltac:(lia)).
    pose proof (Z.mod_pos_bound r 4096 ltac:(lia)).
    rewrite wrap64_small by lia. lia.
Qed.

(** With no left neighbour announced, marking touches the right neighbour
    only; with none announced on either side, nothing. *)
Lemma neighbours_marked_no_prev (f : Z) (s : state) (c : Z) :
  Z.land (load64 (mem s) c) SIZE_MASK = 0 ->
  only_changed (fun w => w = c + chunk_size s c) s (neighbours_marked f s c).
Proof.
  intros H. unfold neighbours_marked. cbv zeta. rewrite H.
  change (0 =? 0) with true. cbv iota.
  destruct (_ =? 0).
  - apply only_changed_refl.
  - now apply only_changed_upd.
Qed.

Lemma neighbours_marked_none (f : Z) (s : state) (c : Z) :
  Z.land (load64 (mem s) c) SIZE_MASK = 0 ->
  Z.land SIZE_MASK (load64 (mem s) (c + chunk_size s c - 8)) = 0 ->
  neighbours_marked f s c = s.
Proof.
  intros H1 H2. unfold neighbours_marked. cbv zeta. rewrite H1, H2.
  reflexivity.
Qed.

Lemma flagged_mask (f w : Z) :
  0 <= w -> Z.land (wrap64 (flagged f w)) SIZE_MASK = Z.land w SIZE_MASK.
Proof.
  intros Hw. unfold wrap64.
  rewrite <- Z.land_ones by lia.
  rewrite <- Z.land_assoc.
  change (Z.land (Z.ones 64) SIZE_MASK) with SIZE_MASK.
  unfold flagged. destruct (f =? 1).
  - rewrite <- Z.land_assoc. now rewrite Z.land_diag.
  - apply Z.bits_inj'. intros k Hk.
    rewrite !Z.land_spec, Z.lxor_spec.
    change FLAG_BIT with (2 ^ 63). change SIZE_MASK with (Z.ones 63).
    rewrite Z.pow2_bits_eqb by lia.
    destruct (Z_lt_ge_dec k 63).
    + replace (63 =? k) with false by (symmetry; apply Z.eqb_neq; lia).
      now rewrite xorb_false_r.
    + rewrite Z.ones_spec_high by lia. now rewrite !andb_false_r.
Qed.

Lemma neighbours_marked_next (f : Z) (s : state) (c : Z) :
  Z.land (load64 (mem s) c) SIZE_MASK = 0 ->
  Z.land (load64 (mem (neighbours_marked f s c)) (c + chunk_size s c)) SIZE_MASK
  = Z.land (load64 (mem s) (c + chunk_size s c)) SIZE_MASK.
Proof.
  intros H. unfold neighbours_marked. cbv zeta. rewrite H.
  change (0 =? 0) with true. cbv iota.
  destruct (_ =? 0); [reflexivity|].
  rewrite mem_upd_mem, load64_store64_same.
  apply flagged_mask. apply load64_range.
Qed.

(** The registry has nothing to offer and [mmap] succeeds. *)
Lemma lookup_none_fresh (s : state) (G : gbins) (e : os_env) (n : Z) (fuel : nat) :
  reg s G -> 0 <= n -> n + CHUNK_OVERHEAD < 2 ^ 32 ->
  (48 + longest G <= fuel)%nat ->
  lookup G (necessary_length n) = None ->
  mmap_ret e <> MAP_FAILED -> 0 < mmap_ret e ->
  mmap_ret e + mmap_length (necessary_length n) <= 2 ^ 64 ->
  (forall m, In m (mapped s) ->
     apart (mmap_ret e) (mmap_length (necessary_length n)) (fst m) (snd m)) ->
  let r := necessary_length n in
  let c := mmap_ret e in
  let L := mmap_length r in
  exists s', wmalloc_body fuel e n s = Ok (c + 16) s' /\
    grown s s' G c L /\ fresh_chunk s' G c L r.
Proof.
  intros R Hn Hn' Hfuel Hl Hmf Hpos Htop Hfresh r c L.
  pose proof (necessary_length_small n Hn
                ltac:(unfold CHUNK_OVERHEAD in *; lia)) as Er.
  fold r in Er, Hl, Htop, Hfresh. fold c in Hmf, Hpos, Htop, Hfresh.
  fold L in Htop, Hfresh.
  assert (Hr : MINIMUM_CHUNK_SIZE <= r < 2 ^ 32)
    by (unfold MINIMUM_CHUNK_SIZE, CHUNK_OVERHEAD in *; lia).
  unfold MINIMUM_CHUNK_SIZE in Hr.
  destruct (mmap_length_ge r ltac:(lia)) as (HL1 & HL2 & HL3).
  fold L in HL1, HL2, HL3. unfold MMAP_SIZE in HL2, HL3.
  pose proof (seen_ge r ltac:(lia)) as Hseen.
  pose proof (find_free_chunk_spec s G r fuel R ltac:(lia) ltac:(lia) Hfuel) as F.
  rewrite Hl in F.
  destruct (allocate_chunk_ok s G e r R Hmf ltac:(fold L; lia) Hpos Htop Hfresh)
    as (sa & Ea & Hwpa & Hmpa & Hsza & Hlead & Htrail & Ra & Hold & Hzero).
  fold c L in Ea, Hmpa, Hsza, Hlead, Htrail, Hzero.
  assert (Hinfo : apart c L (wmalloc_ptr s) sizeof_wmalloc_info).
  { destruct (io_mapped s (reg_info s G R)) as (m & Hm & H1 & H2).
    specialize (Hfresh m Hm). unfold apart in *. lia. }
  assert (Hout : forall y, In y (all_chunks G) -> apart c L (fst y + 8) 24).
  { intros y Hy. destruct (reg_hdr s G R y Hy) as ((V1 & _ & V3) & _).
    apply valid_mapped in V1, V3.
    destruct V1 as (m1 & Hm1 & A1 & A2), V3 as (m3 & Hm3 & B1 & B2).
    pose proof (Hfresh m1 Hm1). pose proof (Hfresh m3 Hm3).
    unfold apart, off_curr_chunk_size, off_right_ptr in *. lia. }
  assert (Hold' : forall a, valid s a = true -> a + 8 <= c \/ c + L <= a).
  { intros a Ha. apply valid_mapped in Ha. destruct Ha as (m & Hm & A1 & A2).
    pose proof (Hfresh m Hm). unfold apart in *. lia. }
  assert (Cv : carve_ok sa G c L r).
  { constructor; try assumption; unfold MINIMUM_CHUNK_SIZE; try lia.
    - exists (c, L). rewrite Hmpa. split; [now left|]. cbn [fst snd]. lia.
    - now rewrite Hwpa. }
  assert (Lo : left_ok sa G c).
  { unfold left_ok. cbv zeta. rewrite Hlead. intros H. now elim H. }
  assert (Ro : right_ok sa c L).
  { unfold right_ok. rewrite Htrail. intros H. now elim H. }
  destruct (split_chunk_spec sa G c L r fuel Cv Lo Ro ltac:(lia) ltac:(lia))
    as (s2 & E2 & E2' & Hwp2 & Hmp2 & Hlead2 & Htrail2 & Hcase).
  destruct (split_residue_spec sa G c L r fuel Cv ltac:(lia) ltac:(lia))
    as (s2' & E2'' & _ & _ & _ & _ & Hfr2 & _).
  rewrite E2' in E2''. inversion E2''. subst s2'. clear E2''.
  rewrite Hlead in Hlead2. rewrite Htrail in Htrail2.
  assert (Ebody : wmalloc_body fuel e n s = Ok (c + 16) (neighbours_marked 0 s2 c)).
  { unfold wmalloc_body. cbv zeta. fold r.
    rewrite (bind_ok _ _ _ _ _ F).
    change (NULL =? NULL) with true. cbv iota.
    rewrite !bind_assoc. rewrite (bind_ok _ _ _ _ _ Ea).
    rewrite bind_assoc. rewrite (bind_ok _ _ _ _ _ E2).
    rewrite !bind_ret. unfold ret.
    rewrite wrap64_small by lia. reflexivity. }
  assert (Hp0 : Z.land (load64 (mem s2) c) SIZE_MASK = 0)
    by (rewrite Hlead2; reflexivity).
  pose proof (neighbours_marked_no_prev 0 s2 c Hp0) as (Hwp3 & Hmp3 & Hld3).
  pose proof (neighbours_marked_next 0 s2 c Hp0) as Hnext.
  assert (Hsz2 : r <= chunk_size s2 c <= L).
  { unfold MINIMUM_CHUNK_SIZE in Hcase. destruct (r + 40 <=? L) eqn:Esp.
    - apply Z.leb_le in Esp. destruct Hcase as (-> & _). lia.
    - subst s2. rewrite Hsza. lia. }
  assert (Hfr3 : forall a, a + 8 <= c \/ c + L <= a ->
            load64 (mem (neighbours_marked 0 s2 c)) a = load64 (mem s2) a).
  { intros a Ha. unfold MINIMUM_CHUNK_SIZE in Hcase.
    destruct (r + 40 <=? L) eqn:Esp.
    - apply Z.leb_le in Esp. destruct Hcase as (C1 & _).
      apply Hld3. intros w ->. rewrite C1. unfold apart. lia.
    - subst s2. rewrite neighbours_marked_none;
        [reflexivity|exact Hp0|rewrite Hsza, Htrail; reflexivity]. }
  exists (neighbours_marked 0 s2 c).
  split; [exact Ebody|]. split.
  { split; [congruence|]. split; [congruence|].
    intros a Ha Hai Hay.
    rewrite Hfr3 by (now apply Hold').
    rewrite Hfr2; [now apply Hold|now apply Hold'|now rewrite Hwpa|exact Hay]. }
  unfold fresh_chunk, MINIMUM_CHUNK_SIZE in *.
  split; [exact Hpos|]. split; [exact Htop|]. split; [lia|]. split; [lia|].
  split.
  { exists (c, L). rewrite Hmp3, Hmp2, Hmpa. split; [now left|]. cbn [fst snd]. lia. }
  split; [rewrite Hwp3, Hwp2, Hwpa; exact Hinfo|].
  split; [exact Hout|].
  destruct (r + 40 <=? L) eqn:Esp.
  - apply Z.leb_le in Esp.
    destruct Hcase as (C1 & C2 & C3 & C4 & l1 & l2 & HG & R2).
    rewrite (Hzero (c + r - 8)) in C3 by lia.
    change (Z.land FLAG_BIT 0) with 0 in C3.
    rewrite Z.add_0_r, wrap64_small in C3 by lia.
    rewrite (Hzero (c + r)) in C4 by lia.
    change (Z.land FLAG_BIT 0) with 0 in C4.
    rewrite Z.add_0_r, wrap64_small in C4 by lia.
    rewrite C1 in Hnext. rewrite C4 in Hnext.
    rewrite (land_mask_small r) in Hnext by lia.
    assert (Hfr : forall a, apart a 8 (c + r) 8 ->
              load64 (mem (neighbours_marked 0 s2 c)) a = load64 (mem s2) a).
    { intros a Ha. apply Hld3. intros w ->. now rewrite C1. }
    unfold chunk_size, off_curr_chunk_size in *.
    rewrite !Hfr by (unfold apart; lia).
    conj_split; try assumption.
    exists l1, l2. split; [exact HG|].
    apply (reg_frame (fun w => w = c + chunk_size s2 c) s2 _ _ R2).
    + apply (neighbours_marked_no_prev 0 s2 c Hp0).
    + intros w ->. unfold chunk_size, off_curr_chunk_size. rewrite C1.
      rewrite Hwp2, Hwpa. split; [unfold apart in *; lia|].
      intros y Hy.
      destruct (bin_of_spec (L - r) ltac:(lia)) as (Hb & _).
      apply in_all_chunks_set in Hy; [|unfold NUM_BINS; lia].
      assert (Hy' : y = (c + r, L - r) \/ In y (all_chunks G)).
      { destruct Hy as [Hy|(j & _ & Hj & Hy)].
        - apply in_app_or in Hy. cbn [In] in Hy.
          destruct Hy as [Hy|[Hy|Hy]]; [right|now left|right];
            apply bin_in_all with (bin_of (L - r)); try (unfold NUM_BINS; lia);
            rewrite HG; apply in_or_app; tauto.
        - right. now apply bin_in_all with j. }
      destruct Hy' as [->|Hy'].
      * cbn [fst]. unfold apart. lia.
      * specialize (Hout y Hy'). unfold apart in *. lia.
  - apply Z.leb_gt in Esp. subst s2.
    rewrite neighbours_marked_none in *; try assumption;
      try (rewrite Hsza, Htrail; reflexivity).
    conj_split; assumption.
Qed.

(** ** The three ways a call of [wmalloc] ends *)

Lemma wmalloc_initialized (fuel : nat) (e : os_env) (n : Z) (s : state) :
  wmalloc_ptr s <> NULL -> wmalloc fuel e n s = wmalloc_body fuel e n s.
Proof.
  intros H. unfold wmalloc. rewrite bind_get_wmalloc_ptr.
  apply Z.eqb_neq in H. rewrite H. rewrite bind_ret. reflexivity.
Qed.

Lemma wmalloc_first (fuel : nat) (e : os_env) (n : Z) (s s0 : state) :
  wmalloc_ptr s = NULL -> initialize_wmalloc e s = Ok 1 s0 ->
  wmalloc fuel e n s = wmalloc_body fuel e n s0.
Proof.
  intros H E. unfold wmalloc. rewrite bind_get_wmalloc_ptr.
  rewrite H. change (NULL =? NULL) with true. cbv iota.
  rewrite (bind_ok _ _ _ _ _ E). reflexivity.
Qed.

Lemma wmalloc_sbrk_fails (fuel : nat) (e : os_env) (n : Z) (s : state) :
  wmalloc_ptr s = NULL -> sbrk_ret e = MAP_FAILED ->
  wmalloc fuel e n s = Ok NULL (mkState MAP_FAILED (mem s) (mapped s)).
Proof.
  intros Hwp He.
  unfold wmalloc, get_wmalloc_ptr, bind.
  rewrite Hwp. change (NULL =? NULL) with true. cbv iota.
  unfold initialize_wmalloc, bind, sbrk_call. rewrite He.
  rewrite Z.eqb_refl. unfold set_wmalloc_ptr. rewrite Z.eqb_refl.
  reflexivity.
Qed.

Lemma wmalloc_body_mmap_fails (fuel : nat) (e : os_env) (n : Z) (s s1 : state) :
  find_free_chunk fuel (necessary_length n) s = Ok NULL s1 ->
  mmap_ret e = MAP_FAILED ->
  wmalloc_body fuel e n s = Err AssertFail.
Proof.
  intros E He. unfold wmalloc_body. cbv zeta.
  rewrite (bind_ok _ _ _ _ _ E).
  change (NULL =? NULL) with true. cbv iota.
  unfold bind, allocate_chunk, bind, mmap_call.
  rewrite He. rewrite Z.eqb_refl, orb_true_r.
  rewrite Z.eqb_refl. reflexivity.
Qed.

Lemma take_bigger_empty (G : gbins) :
  (forall i, G i = []) -> forall (k : nat) (j : Z), take_bigger k G j = None.
Proof.
  intros H. induction k as [|k IH]; intros j; [reflexivity|].
  cbn [take_bigger]. rewrite H. apply IH.
Qed.

Lemma lookup_no_chunks (r : Z) : lookup no_chunks r = None.
Proof.
  unfold lookup. cbv zeta. cbn [no_chunks take_fit].
  now apply take_bigger_empty.
Qed.

(** An initialized engine. *)
Lemma wmalloc_body_cases (fuel : nat) (e : os_env) (n : Z) (s : state) (G : gbins) :
  wf s G -> 0 <= n -> n + CHUNK_OVERHEAD < 2 ^ 32 ->
  (48 + longest G <= fuel)%nat ->
  (mmap_ret e = MAP_FAILED \/
   (0 < mmap_ret e /\ mmap_ret e + mmap_length (necessary_length n) <= 2 ^ 64 /\
    forall m, In m (mapped s) ->
      apart (mmap_ret e) (mmap_length (necessary_length n)) (fst m) (snd m))) ->
  let r := necessary_length n in
  (mmap_ret e = MAP_FAILED /\ lookup G r = None /\
   wmalloc_body fuel e n s = Err AssertFail) \/
  (exists c sz s', wmalloc_body fuel e n s = Ok (c + 16) s' /\
     dispensed s' c sz r /\
     ((c = mmap_ret e /\ sz = mmap_length r /\ lookup G r = None /\
       mapped s' = (c, sz) :: mapped s) \/
      (In (c, sz) (all_chunks G) /\ mapped s' = mapped s))).
Proof.
  intros W Hn Hn' Hfuel Hos r.
  pose proof (necessary_length_small n Hn
                ltac:(unfold CHUNK_OVERHEAD in *; lia)) as Er.
  fold r in Er, Hos.
  assert (Hr : MINIMUM_CHUNK_SIZE <= r < 2 ^ 32)
    by (unfold MINIMUM_CHUNK_SIZE, CHUNK_OVERHEAD in *; lia).
  unfold MINIMUM_CHUNK_SIZE in Hr.
  pose proof (seen_ge r ltac:(lia)) as Hseen.
  destruct (lookup G r) as [[x G']|] eqn:Hl.
  - right.
    destruct (wmalloc_body_reuse s G e n fuel x G' W Hn Hn' Hfuel Hl)
      as (s' & E & Hwp & Hmp & Hx & Hfit & Hsz).
    fold r in Hfit, Hsz.
    destruct (wf_chunk s G x W Hx) as ([P1 P2 P3 P4 P5 P6 P7 P8] & _).
    exists (fst x), (snd x), s'. split; [exact E|]. split.
    + unfold dispensed. conj_split; try assumption.
      destruct P4 as (m & Hm & H1 & H2). exists m. rewrite Hmp. auto.
    + right. destruct x. auto.
  - destruct Hos as [Hf|(Hpos & Htop & Hfresh)].
    + left. split; [exact Hf|]. split; [reflexivity|].
      pose proof (find_free_chunk_spec s G r fuel (wf_reg s G W) ltac:(lia)
                    ltac:(lia) Hfuel) as F.
      rewrite Hl in F.
      now apply (wmalloc_body_mmap_fails fuel e n s s).
    + right.
      assert (Hmf : mmap_ret e <> MAP_FAILED).
      { destruct (mmap_length_ge r ltac:(lia)) as (_ & HL & _).
        unfold MAP_FAILED, MMAP_SIZE in *. lia. }
      destruct (lookup_none_fresh s G e n fuel (wf_reg s G W) Hn Hn' Hfuel Hl
                  Hmf Hpos Htop Hfresh)
        as (s' & E & (Hwp & Hmp & _) & Hf).
      fold r in E, Hmp, Hf.
      destruct Hf as (F1 & F2 & F3 & F4 & F5 & _ & _ & _ & _ & Hcase).
      exists (mmap_ret e), (mmap_length r), s'. split; [exact E|]. split.
      * unfold dispensed. conj_split; try assumption; try lia.
        destruct (r + MINIMUM_CHUNK_SIZE <=? mmap_length r).
        -- destruct Hcase as (C1 & C2 & _). auto.
        -- destruct Hcase as (C1 & _). exact C1.
      * left. auto.
Qed.

(** Any engine that works as designed, and any answer the operating system
    may give. *)
Lemma wmalloc_cases (fuel : nat) (e : os_env) (n : Z) (s : state) (G : gbins) :
  engine_ok s G -> os_sound s e (mmap_length (necessary_length n)) ->
  0 <= n -> n + CHUNK_OVERHEAD < 2 ^ 32 ->
  (48 + longest G <= fuel)%nat ->
  let r := necessary_length n in
  (wmalloc_ptr s = NULL /\ sbrk_ret e = MAP_FAILED /\
   exists s', wmalloc fuel e n s = Ok NULL s') \/
  (mmap_ret e = MAP_FAILED /\ lookup G r = None /\
   wmalloc fuel e n s = Err AssertFail) \/
  (exists c sz s', wmalloc fuel e n s = Ok (c + 16) s' /\
     dispensed s' c sz r /\
     ((c = mmap_ret e /\ sz = mmap_length r /\ lookup G r = None) \/
      (In (c, sz) (all_chunks G) /\ mapped s' = mapped s))).
Proof.
  intros [[Hwp HG]|W] Hos Hn Hn' Hfuel r.
  - destruct Hos as [Hsb Hmm]. specialize (Hsb Hwp).
    rewrite Hwp in Hmm. change (NULL =? NULL) with true in Hmm. cbv iota in Hmm.
    destruct Hsb as [Hsb|[Hsb1 Hsb2]].
    + left. split; [exact Hwp|]. split; [exact Hsb|].
      eexists. now apply wmalloc_sbrk_fails.
    + right.
      assert (Hsf : sbrk_ret e <> MAP_FAILED)
        by (unfold MAP_FAILED, sizeof_wmalloc_info in *; lia).
      destruct (initialize_wmalloc_ok e s Hsf Hsb1 Hsb2)
        as (s0 & E0 & Hwp0 & Hmp0 & R0 & _).
      rewrite (wmalloc_first fuel e n s s0 Hwp E0).
      subst G.
      assert (W0 : wf s0 no_chunks) by (apply wf_empty; [exact R0|reflexivity]).
      assert (Hos0 : mmap_ret e = MAP_FAILED \/
                (0 < mmap_ret e /\
                 mmap_ret e + mmap_length (necessary_length n) <= 2 ^ 64 /\
                 forall m, In m (mapped s0) ->
                   apart (mmap_ret e) (mmap_length (necessary_length n)) (fst m) (snd m))).
      { destruct Hmm as [?|(H1 & H2 & H3)]; [now left|right].
        rewrite Hmp0. auto. }
      destruct (wmalloc_body_cases fuel e n s0 no_chunks W0 Hn Hn' Hfuel Hos0)
        as [H|(c & sz & s' & E & Hd & Hc)].
      * left. exact H.
      * right. exists c, sz, s'. split; [exact E|]. split; [exact Hd|].
        destruct Hc as [(H1 & H2 & H3 & _)|[H _]]; [left; auto|destruct H].
  - right.
    assert (Hwp : wmalloc_ptr s <> NULL).
    { pose proof (io_pos s (wf_info s G W)). unfold NULL. lia. }
    rewrite (wmalloc_initialized fuel e n s Hwp).
    destruct Hos as [_ Hmm].
    apply Z.eqb_neq in Hwp. rewrite Hwp in Hmm. cbn [app] in Hmm.
    destruct (wmalloc_body_cases fuel e n s G W Hn Hn' Hfuel Hmm)
      as [H|(c & sz & s' & E & Hd & Hc)].
    + left. exact H.
    + right. exists c, sz, s'. split; [exact E|]. split; [exact Hd|].
      destruct Hc as [(H1 & H2 & H3 & _)|H]; [left; auto|right; exact H].
Qed.

(** ** Release of the chunk just taken from a fresh region *)

Lemma flat_map_ext_in {A B} (f g : A -> list B) (l : list A) :
  (forall a, In a l -> f a = g a) -> flat_map f l = flat_map g l.
Proof.
  induction l as [|a l IH]; intros H; [reflexivity|].
  cbn [flat_map]. rewrite (H a) by now left.
  rewrite IH; [reflexivity|]. intros b Hb. apply H. now right.
Qed.

Lemma reg_ext (s : state) (G G' : gbins) :
  (forall i, 0 <= i < NUM_BINS -> G i = G' i) -> reg s G -> reg s G'.
Proof.
  intros H R.
  assert (E : all_chunks G' = all_chunks G).
  { unfold all_chunks. apply flat_map_ext_in. intros i Hi.
    symmetry. apply H. now apply bin_ids_in. }
  constructor.
  - apply R.
  - intros i Hi. rewrite <- (H i Hi). now apply R.
  - rewrite E. apply R.
  - unfold nodes. rewrite E. apply R.
Qed.

Lemma set_bin_twice (G : gbins) (b : Z) (l l' : list (Z * Z)) (i : Z) :
  set_bin (set_bin G b l) b l' i = set_bin G b l' i.
Proof. unfold set_bin. now destruct (i =? b). Qed.

Lemma set_bin_same (G : gbins) (b : Z) (l : list (Z * Z)) (i : Z) :
  G b = l -> set_bin G b l i = G i.
Proof.
  intros H. unfold set_bin. destruct (i =? b) eqn:E; [|reflexivity].
  apply Z.eqb_eq in E. now subst.
Qed.

(** The chunks of a registry after [x] has joined bin [b]. *)
Lemma in_all_chunks_insert (G : gbins) (b : Z) (l1 l2 : list (Z * Z)) (x y : Z * Z) :
  0 <= b < NUM_BINS -> G b = l1 ++ l2 ->
  In y (all_chunks (set_bin G b (l1 ++ x :: l2))) <-> y = x \/ In y (all_chunks G).
Proof.
  intros Hb HG. rewrite in_all_chunks_set by exact Hb. split.
  - intros [Hy|(j & _ & Hj & Hy)].
    + apply in_app_or in Hy. cbn [In] in Hy.
      destruct Hy as [Hy|[Hy|Hy]]; [right|now left|right];
        apply bin_in_all with b; try exact Hb;
        rewrite HG; apply in_or_app; tauto.
    + right. now apply bin_in_all with j.
  - intros [->|Hy].
    + left. apply in_elt.
    + apply in_all_chunks in Hy. destruct Hy as (j & Hj & Hy).
      destruct (Z.eq_dec j b) as [->|Hne].
      * left. rewrite HG in Hy. apply in_app_or in Hy.
        apply in_or_app. cbn [In]. tauto.
      * right. exists j. auto.
Qed.

Lemma in_bin_insert (G : gbins) (b : Z) (l1 l2 : list (Z * Z)) (x y : Z * Z) (j : Z) :
  G b = l1 ++ l2 ->
  In y (set_bin G b (l1 ++ x :: l2) j) -> (y = x /\ j = b) \/ In y (G j).
Proof.
  intros HG Hy. unfold set_bin in Hy. destruct (j =? b) eqn:E; [|now right].
  apply Z.eqb_eq in E. subst j.
  apply in_app_or in Hy. cbn [In] in Hy.
  destruct Hy as [Hy|[Hy|Hy]]; [right|left; auto|right];
    rewrite HG; apply in_or_app; tauto.
Qed.

Lemma valid_same_mapped (s s' : state) (a : Z) :
  mapped s' = mapped s -> valid s' a = valid s a.
Proof. intros H. unfold valid. now rewrite H. Qed.

Lemma is_prev_available_ok (s : state) (c : Z) :
  c <> NULL -> valid s c = true ->
  is_prev_available c s
  = Ok (let w := load64 (mem s) c in
        if negb (w =? 0) then if Z.shiftr w 63 =? 0 then 1 else 0 else 0) s.
Proof.
  intros Hc Hv. unfold is_prev_available, off_prev_chunk_size.
  rewrite bind_assert by now apply neq_null_negb.
  rewrite Z.add_0_r. rewrite bind_load by exact Hv. cbv zeta.
  destruct (negb (load64 (mem s) c =? 0)); [|reflexivity].
  now destruct (Z.shiftr (load64 (mem s) c) 63 =? 0).
Qed.

Lemma is_next_available_ok (s : state) (c : Z) :
  c <> NULL -> valid s (c + 8) = true ->
  valid s (wrap64 (c + chunk_size s c - 8)) = true ->
  is_next_available c s
  = Ok (let w := load64 (mem s) (wrap64 (c + chunk_size s c - 8)) in
        if negb (w =? 0) then if Z.shiftr w 63 =? 0 then 1 else 0 else 0) s.
Proof.
  intros Hc Hv Hv'. unfold is_next_available.
  rewrite bind_assert by now apply neq_null_negb.
  rewrite (bind_ok _ _ _ _ _ (next_size_addr_ok s c Hv)).
  rewrite bind_load by exact Hv'. cbv zeta.
  destruct (negb (_ =? 0)); [|reflexivity].
  now destruct (Z.shiftr _ 63 =? 0).
Qed.

(** After a join that leaves no neighbour on either side, there is no size
    to pass on. *)
Lemma set_adjacent_sizes_alone (s : state) (c : Z) :
  c <> NULL -> valid s c = true -> valid s (c + 8) = true ->
  valid s (wrap64 (c + chunk_size s c - 8)) = true ->
  load64 (mem s) c = 0 ->
  load64 (mem s) (wrap64 (c + chunk_size s c - 8)) = 0 ->
  set_adjacent_sizes c 1 s = Ok tt s.
Proof.
  intros Hc V0 V8 Vt H0 Ht. unfold set_adjacent_sizes.
  rewrite bind_assert by now apply neq_null_negb.
  unfold off_curr_chunk_size, off_prev_chunk_size.
  rewrite bind_load by exact V8.
  rewrite Z.add_0_r. rewrite bind_load by exact V0.
  rewrite H0. change (negb (0 =? 0)) with false. cbv iota.
  rewrite bind_ret.
  rewrite (bind_ok _ _ _ _ _ (get_next_chunk_size_ok s c Hc V8 Vt)).
  rewrite Ht. reflexivity.
Qed.

Lemma shiftr_63_small (w : Z) : 0 <= w < 2 ^ 63 -> Z.shiftr w 63 = 0.
Proof.
  intros H. rewrite Z.shiftr_div_pow2 by lia. apply Z.div_small. lia.
Qed.

(** The first chunk of a process, or a chunk for which the registry had
    nothing to offer: [s0] is the state in which the region is mapped, after
    the initialization if there was one. *)
Lemma wmalloc_fresh_chunk (fuel : nat) (e : os_env) (n : Z) (s : state) (G : gbins)
    (p : Z) (s1 : state) :
  engine_ok s G -> lookup G (necessary_length n) = None ->
  os_sound s e (mmap_length (necessary_length n)) ->
  0 <= n -> n + CHUNK_OVERHEAD < 2 ^ 32 -> (48 + longest G <= fuel)%nat ->
  wmalloc fuel e n s = Ok p s1 -> p <> NULL ->
  let c := mmap_ret e in
  let L := mmap_length (necessary_length n) in
  p = c + 16 /\
  exists s0, wf s0 G /\ grown s0 s1 G c L /\
    (forall m, In m (mapped s0) -> apart c L (fst m) (snd m)) /\
    fresh_chunk s1 G c L (necessary_length n).
Proof.
  intros He Hl Hos Hn Hn' Hfuel E Hp c L.
  pose proof (necessary_length_small n Hn
                ltac:(unfold CHUNK_OVERHEAD in *; lia)) as Er.
  set (r := necessary_length n) in *.
  assert (Hr : MINIMUM_CHUNK_SIZE <= r < 2 ^ 32)
    by (unfold MINIMUM_CHUNK_SIZE, CHUNK_OVERHEAD in *; lia).
  pose proof (seen_ge r ltac:(unfold MINIMUM_CHUNK_SIZE in *; lia)) as Hseen.
  destruct (mmap_length_ge r ltac:(unfold MINIMUM_CHUNK_SIZE in *; lia))
    as (HL1 & HL2 & HL3).
  fold L in HL1, HL2, HL3.
  assert (Hbody : forall s0, wf s0 G ->
            (mmap_ret e = MAP_FAILED \/
             (0 < mmap_ret e /\ mmap_ret e + L <= 2 ^ 64 /\
              forall m, In m (mapped s0) ->
                apart (mmap_ret e) L (fst m) (snd m))) ->
            wmalloc_body fuel e n s0 = Ok p s1 ->
            p = c + 16 /\
            exists s0, wf s0 G /\ grown s0 s1 G c L /\
              (forall m, In m (mapped s0) -> apart c L (fst m) (snd m)) /\
              fresh_chunk s1 G c L r).
  { intros s0 W0 Hmm Eb.
    pose proof (wf_reg s0 G W0) as R0.
    destruct Hmm as [Hmf|(H1 & H2 & H3)].
    - pose proof (find_free_chunk_spec s0 G r fuel R0
                    ltac:(unfold MINIMUM_CHUNK_SIZE in *; lia)
                    ltac:(unfold MINIMUM_CHUNK_SIZE in *; lia) Hfuel) as F.
      rewrite Hl in F.
      rewrite (wmalloc_body_mmap_fails fuel e n s0 s0 F Hmf) in Eb. discriminate.
    - assert (Hmf : mmap_ret e <> MAP_FAILED)
        by (unfold MAP_FAILED, MMAP_SIZE in *; lia).
      destruct (lookup_none_fresh s0 G e n fuel R0 Hn Hn' Hfuel Hl Hmf H1 H2 H3)
        as (s' & E' & Hg & Hf).
      fold r c L in E', Hg, Hf.
      rewrite E' in Eb. inversion Eb. subst p s'. clear Eb.
      split; [reflexivity|]. exists s0. auto. }
  destruct He as [[Hwp HG]|W].
  - destruct Hos as [Hsb Hmm]. specialize (Hsb Hwp).
    rewrite Hwp in Hmm. change (NULL =? NULL) with true in Hmm. cbv iota in Hmm.
    destruct Hsb as [Hsb|[Hsb1 Hsb2]].
    + rewrite (wmalloc_sbrk_fails fuel e n s Hwp Hsb) in E.
      inversion E. subst p. now elim Hp.
    + assert (Hsf : sbrk_ret e <> MAP_FAILED)
        by (unfold MAP_FAILED, sizeof_wmalloc_info in *; lia).
      destruct (initialize_wmalloc_ok e s Hsf Hsb1 Hsb2)
        as (s0 & E0 & Hwp0 & Hmp0 & R0 & _).
      rewrite (wmalloc_first fuel e n s s0 Hwp E0) in E.
      assert (W0 : wf s0 G)
        by (subst G; apply wf_empty; [exact R0|reflexivity]).
      apply (Hbody s0 W0); [|exact E].
      destruct Hmm as [?|(H1 & H2 & H3)]; [now left|right].
      rewrite Hmp0. auto.
  - assert (Hwp : wmalloc_ptr s <> NULL).
    { pose proof (io_pos s (wf_info s _ W)). unfold NULL. lia. }
    rewrite (wmalloc_initialized fuel e n s Hwp) in E.
    destruct Hos as [_ Hmm].
    apply Z.eqb_neq in Hwp. rewrite Hwp in Hmm. cbn [app] in Hmm.
    apply (Hbody s W Hmm E).
Qed.

(** Putting the whole region back into the registry. *)
Lemma readd_chunk (s : state) (G : gbins) (c L : Z) (fuel : nat) :
  reg s G ->
  0 < c -> MINIMUM_CHUNK_SIZE <= L < 2 ^ 63 -> c + L <= 2 ^ 64 ->
  range_mapped s c L -> apart c L (wmalloc_ptr s) sizeof_wmalloc_info ->
  (forall y, In y (all_chunks G) -> apart c L (fst y + 8) 24) ->
  chunk_size s c = L ->
  (48 + longest G <= fuel)%nat ->
  exists s' l1 l2, add_chunk fuel c s = Ok tt s' /\
    G (bin_of L) = l1 ++ l2 /\
    reg s' (set_bin G (bin_of L) (l1 ++ (c, L) :: l2)) /\
    wmalloc_ptr s' = wmalloc_ptr s /\ mapped s' = mapped s /\
    forall a, apart a 8 (wmalloc_ptr s) sizeof_wmalloc_info ->
      (forall y, In y (all_chunks G) -> apart a 8 (fst y + 16) 16) ->
      apart a 8 (c + 16) 16 ->
      load64 (mem s') a = load64 (mem s) a.
Proof.
  intros R Hc HL Htop Hm Hinfo Hout Hsz Hfuel.
  unfold MINIMUM_CHUNK_SIZE in HL.
  assert (V : forall a, c <= a -> a + 8 <= c + L -> valid s a = true).
  { intros a H1 H2. apply (range_mapped_valid s c L); auto; lia. }
  destruct (bin_of_spec L ltac:(lia)) as (Hb & _).
  pose proof (longest_ge G (bin_of L) ltac:(unfold NUM_BINS; lia)) as Hlen.
  destruct (reg_add s G c fuel R) as (s' & l1 & l2 & E & HG & R' & OC).
  - lia.
  - unfold hdr_ok, off_curr_chunk_size, off_left_ptr, off_right_ptr.
    conj_split; apply V; lia.
  - unfold apart in *. lia.
  - intros b Hb'. apply in_nodes in Hb'.
    destruct Hb' as [(i & Hi & ->)|(y & Hy & ->)].
    + unfold apart, dummy_addr, sizeof_wmalloc_info, NUM_BINS in *. lia.
    + specialize (Hout y Hy). unfold apart in *. lia.
  - lia.
  - rewrite Hsz. lia.
  - rewrite Hsz in HG, R'.
    destruct OC as (Hwp & Hmp & Hld).
    exists s', l1, l2. conj_split; try assumption.
    intros a Hai Hay Hac. apply Hld.
    intros w [Hw|[->| ->]];
      [|unfold apart, off_left_ptr in *; lia|unfold apart, off_right_ptr in *; lia].
    revert w Hw. now apply (links_apart_word s G a R).
Qed.

(** Releasing the chunk just dispensed from a fresh region: a residue is
    taken back from its bin and joined, and the whole region goes to the
    bins as one chunk. *)
Lemma wfree_fresh_chunk (s1 : state) (G : gbins) (c L r : Z) (fuel : nat) :
  fresh_chunk s1 G c L r -> (48 + longest G <= fuel)%nat ->
  exists s2 l1 l2, wfree fuel (c + 16) s1 = Ok tt s2 /\
    G (bin_of L) = l1 ++ l2 /\
    reg s2 (set_bin G (bin_of L) (l1 ++ (c, L) :: l2)) /\
    wmalloc_ptr s2 = wmalloc_ptr s1 /\ mapped s2 = mapped s1 /\
    load64 (mem s2) c = 0 /\ load64 (mem s2) (c + L - 8) = 0 /\
    forall a, a + 8 <= c \/ c + L <= a ->
      apart a 8 (wmalloc_ptr s1) sizeof_wmalloc_info ->
      (forall y, In y (all_chunks G) -> apart a 8 (fst y + 16) 16) ->
      load64 (mem s2) a = load64 (mem s1) a.
Proof.
  intros (Hc & Htop & Hr & HL63 & Hmap & Hinfo & Hout & Hlead & Htrail & Hcase) Hfuel.
  unfold MINIMUM_CHUNK_SIZE in *.
  assert (V : forall s a, mapped s = mapped s1 -> c <= a -> a + 8 <= c + L ->
            valid s a = true).
  { intros s a Hs H1 H2. rewrite (valid_same_mapped s1 s a Hs).
    apply (range_mapped_valid s1 c L); auto; lia. }
  assert (Hcn : c <> NULL) by (unfold NULL; lia).
  assert (Hin : forall a, c <= a -> a + 8 <= c + L ->
            apart a 8 (wmalloc_ptr s1) sizeof_wmalloc_info /\
            forall y, In y (all_chunks G) -> apart a 8 (fst y + 16) 16).
  { intros a H1 H2. split; [unfold apart in *; lia|].
    intros y Hy. specialize (Hout y Hy). unfold apart in *. lia. }
  unfold wfree. cbv zeta.
  replace (wrap64 (c + 16 - 16)) with c by (rewrite wrap64_small; lia).
  destruct (r + 40 <=? L) eqn:Esp.
  - (* the region was split *)
    apply Z.leb_le in Esp.
    destruct Hcase as (C1 & C2 & C3 & _ & l1 & l2 & HG & R1).
    set (x := (c + r, L - r)) in *.
    set (b := bin_of (L - r)) in *.
    destruct (bin_of_spec (L - r) ltac:(lia)) as (Hb & _). fold b in Hb.
    assert (Hb' : 0 <= b < NUM_BINS) by (unfold NUM_BINS; lia).
    set (G1 := set_bin G b (l1 ++ x :: l2)) in *.
    assert (HG1 : forall y, In y (all_chunks G1) <-> y = x \/ In y (all_chunks G))
      by (intros y; now apply in_all_chunks_insert).
    assert (Nok : neighbours_ok s1 c).
    { unfold neighbours_ok. cbv zeta. rewrite C1, Hlead, C3.
      conj_split; try lia; try (apply V; [reflexivity|lia|lia]).
      - intros H. now elim H.
      - intros _. apply V; [reflexivity|lia|lia]. }
    rewrite (bind_ok _ _ _ _ _ (set_available_spec s1 c Nok)).
    set (s2 := neighbours_marked 1 s1 c).
    assert (Hp0 : Z.land (load64 (mem s1) c) SIZE_MASK = 0)
      by (rewrite Hlead; reflexivity).
    pose proof (neighbours_marked_no_prev 1 s1 c Hp0) as OC12.
    fold s2 in OC12. rewrite C1 in OC12.
    pose proof OC12 as (Hwp2 & Hmp2 & Hld2).
    assert (Hfr2 : forall a, apart a 8 (c + r) 8 ->
              load64 (mem s2) a = load64 (mem s1) a).
    { intros a Ha. apply Hld2. now intros w ->. }
    assert (R2 : reg s2 G1).
    { apply (reg_frame _ s1 s2 _ R1 OC12).
      intros w ->. split; [unfold apart in *; lia|].
      intros y Hy. apply HG1 in Hy. destruct Hy as [->|Hy].
      - cbn [fst x]. unfold apart. lia.
      - specialize (Hout y Hy). unfold apart in *. lia. }
    rewrite (bind_ok _ _ _ _ _ (is_prev_available_ok s2 c Hcn
               ltac:(apply V; [exact Hmp2|lia|lia]))).
    cbv zeta. rewrite (Hfr2 c) by (unfold apart; lia). rewrite Hlead.
    change (negb (0 =? 0)) with false. cbv iota.
    change (0 =? 1) with false. cbv iota.
    rewrite bind_ret.
    assert (Hsz2 : chunk_size s2 c = r).
    { unfold chunk_size, off_curr_chunk_size in *.
      rewrite Hfr2 by (unfold apart; lia). exact C1. }
    assert (Et2 : wrap64 (c + chunk_size s2 c - 8) = c + r - 8)
      by (rewrite Hsz2; apply wrap64_small; lia).
    rewrite (bind_ok _ _ _ _ _ (is_next_available_ok s2 c Hcn
               ltac:(apply V; [exact Hmp2|lia|lia])
               ltac:(rewrite Et2; apply V; [exact Hmp2|lia|lia]))).
    cbv zeta. rewrite Et2. rewrite (Hfr2 (c + r - 8)) by (unfold apart; lia).
    rewrite C3.
    replace (negb (L - r =? 0)) with true
      by (symmetry; apply negb_true_iff, Z.eqb_neq; lia).
    cbv iota. rewrite shiftr_63_small by lia.
    change (0 =? 0) with true. cbv iota.
    change (1 =? 1) with true. cbv iota.
    rewrite !bind_assoc.
    rewrite (bind_ok _ _ _ _ _ (get_next_chunk_ok s2 c Hcn
               ltac:(apply V; [exact Hmp2|lia|lia]))).
    rewrite Hsz2. rewrite (wrap64_small (c + r)) by lia.
    rewrite !bind_assoc.
    assert (HG1b : G1 b = l1 ++ x :: l2).
    { unfold G1, set_bin. now rewrite Z.eqb_refl. }
    destruct (reg_remove s2 G1 b l1 l2 x R2 Hb' HG1b)
      as (s3 & E3 & R3 & OC23 & Hsz3).
    cbn [fst snd x] in E3, Hsz3.
    rewrite (bind_ok _ _ _ _ _ E3).
    pose proof OC23 as (Hwp3 & Hmp3 & Hld3).
    assert (Hfr3 : forall a,
              apart a 8 (wmalloc_ptr s1) sizeof_wmalloc_info ->
              (forall y, In y (all_chunks G) -> apart a 8 (fst y + 16) 16) ->
              apart a 8 (c + r + 16) 16 ->
              load64 (mem s3) a = load64 (mem s2) a).
    { intros a Hai Hay Hax. apply Hld3.
      apply (links_apart_word s2 G1 a R2).
      - now rewrite Hwp2.
      - intros y Hy. apply HG1 in Hy. destruct Hy as [->|Hy]; [exact Hax|].
        now apply Hay. }
    assert (R3' : reg s3 G).
    { apply (reg_ext s3 _ _ (fun i _ => eq_trans
               (set_bin_twice G b (l1 ++ x :: l2) (l1 ++ l2) i)
               (set_bin_same G b (l1 ++ l2) i HG)) R3). }
    assert (Hmp31 : mapped s3 = mapped s1) by congruence.
    (* join_chunks *)
    unfold join_chunks, off_curr_chunk_size.
    rewrite bind_assoc.
    rewrite bind_load by (apply V; [exact Hmp31|lia|lia]).
    rewrite bind_assoc.
    rewrite bind_load by (apply V; [exact Hmp31|lia|lia]).
    destruct (Hin (c + 8) ltac:(lia) ltac:(lia)) as [Hi8 Hy8].
    rewrite (Hfr3 (c + 8)) by (auto; unfold apart; lia).
    rewrite chunk_size_eq, Hsz2, chunk_size_eq, Hsz3.
    replace (r + (L - r)) with L by lia.
    rewrite (wrap64_small L) by lia.
    rewrite bind_assoc.
    rewrite bind_store by (apply V; [exact Hmp31|lia|lia]).
    set (s4 := upd_mem s3 (c + 8) L).
    assert (Hmp4 : mapped s4 = mapped s1) by exact Hmp31.
    assert (Hwp4 : wmalloc_ptr s4 = wmalloc_ptr s1)
      by (change (wmalloc_ptr s4) with (wmalloc_ptr s3); congruence).
    assert (Hsz4 : chunk_size s4 c = L).
    { unfold chunk_size, off_curr_chunk_size, s4. rewrite mem_upd_mem.
      rewrite load64_store64_same. apply wrap64_small. lia. }
    assert (Hfr4 : forall a,
              apart a 8 (wmalloc_ptr s1) sizeof_wmalloc_info ->
              (forall y, In y (all_chunks G) -> apart a 8 (fst y + 16) 16) ->
              apart a 8 (c + r + 16) 16 -> apart a 8 (c + r) 8 ->
              apart a 8 (c + 8) 8 ->
              load64 (mem s4) a = load64 (mem s1) a).
    { intros a Hai Hay H1 H2 H3. unfold s4. rewrite mem_upd_mem.
      rewrite load64_store64_other by (unfold apart in H3; lia).
      rewrite Hfr3 by assumption. now apply Hfr2. }
    assert (Hlead4 : load64 (mem s4) c = 0).
    { destruct (Hin c ltac:(lia) ltac:(lia)) as [Hi Hy].
      rewrite Hfr4; auto; unfold apart; lia. }
    assert (Htrail4 : load64 (mem s4) (c + L - 8) = 0).
    { destruct (Hin (c + L - 8) ltac:(lia) ltac:(lia)) as [Hi Hy].
      rewrite Hfr4; auto; unfold apart; lia. }
    assert (Et4 : wrap64 (c + chunk_size s4 c - 8) = c + L - 8)
      by (rewrite Hsz4; apply wrap64_small; lia).
    pose proof (set_adjacent_sizes_alone s4 c Hcn
               ltac:(apply V; [exact Hmp4|lia|lia])
               ltac:(apply V; [exact Hmp4|lia|lia])
               ltac:(rewrite Et4; apply V; [exact Hmp4|lia|lia])
               Hlead4
               ltac:(rewrite Et4; exact Htrail4)) as Eadj.
    rewrite bind_assoc.
    rewrite (bind_ok _ _ _ _ _ Eadj).
    rewrite bind_ret.
    assert (R4 : reg s4 G).
    { apply (reg_frame (fun w => w = c + 8) s3 s4 _ R3').
      - now apply only_changed_upd.
      - intros w ->. split.
        + rewrite Hwp3, Hwp2. unfold apart in *. lia.
        + intros y Hy. specialize (Hout y Hy). unfold apart in *. lia. }
    destruct (readd_chunk s4 G c L fuel R4 Hc ltac:(unfold MINIMUM_CHUNK_SIZE; lia)
                Htop) as (s5 & l1' & l2' & E5 & HG5 & R5 & Hwp5 & Hmp5 & Hfr5);
      try assumption.
    + destruct Hmap as (m & Hm & H1 & H2). exists m. rewrite Hmp4. auto.
    + now rewrite Hwp4.
    + rewrite Hwp4 in Hfr5.
      exists s5, l1', l2'. conj_split; try assumption; try congruence.
      * destruct (Hin c ltac:(lia) ltac:(lia)) as [Hi Hy].
        rewrite Hfr5; auto; unfold apart; lia.
      * destruct (Hin (c + L - 8) ltac:(lia) ltac:(lia)) as [Hi Hy].
        rewrite Hfr5; auto; unfold apart; lia.
      * intros a Ha Hai Hay.
        rewrite Hfr5 by (auto; unfold apart; lia).
        apply Hfr4; auto; unfold apart; lia.
  - (* the region was dispensed whole *)
    apply Z.leb_gt in Esp.
    destruct Hcase as (C1 & R1).
    assert (Nok : neighbours_ok s1 c).
    { unfold neighbours_ok. cbv zeta. rewrite C1, Hlead, Htrail.
      conj_split; try lia; try (apply V; [reflexivity|lia|lia]).
      - intros H. now elim H.
      - intros H. now elim H. }
    rewrite (bind_ok _ _ _ _ _ (set_available_spec s1 c Nok)).
    rewrite neighbours_marked_none
      by (rewrite ?C1, ?Hlead, ?Htrail; reflexivity).
    rewrite (bind_ok _ _ _ _ _ (is_prev_available_ok s1 c Hcn
               ltac:(apply V; [reflexivity|lia|lia]))).
    cbv zeta. rewrite Hlead.
    change (negb (0 =? 0)) with false. cbv iota.
    change (0 =? 1) with false. cbv iota.
    rewrite bind_ret.
    assert (Et : wrap64 (c + chunk_size s1 c - 8) = c + L - 8)
      by (rewrite C1; apply wrap64_small; lia).
    rewrite (bind_ok _ _ _ _ _ (is_next_available_ok s1 c Hcn
               ltac:(apply V; [reflexivity|lia|lia])
               ltac:(rewrite Et; apply V; [reflexivity|lia|lia]))).
    cbv zeta. rewrite Et, Htrail.
    change (negb (0 =? 0)) with false. cbv iota.
    change (0 =? 1) with false. cbv iota.
    rewrite bind_ret.
    destruct (readd_chunk s1 G c L fuel R1 Hc ltac:(unfold MINIMUM_CHUNK_SIZE; lia)
                Htop Hmap Hinfo Hout C1 Hfuel)
      as (s5 & l1' & l2' & E5 & HG5 & R5 & Hwp5 & Hmp5 & Hfr5).
    exists s5, l1', l2'. conj_split; try assumption.
    + destruct (Hin c ltac:(lia) ltac:(lia)) as [Hi Hy].
      rewrite Hfr5; auto; unfold apart; lia.
    + destruct (Hin (c + L - 8) ltac:(lia) ltac:(lia)) as [Hi Hy].
      rewrite Hfr5; auto; unfold apart; lia.
    + intros a Ha Hai Hay. apply Hfr5; auto; unfold apart; lia.
Qed.

(** ** What the lookup cannot overlook *)

Lemma take_bigger_none (G : gbins) : forall (k : nat) (j0 : Z),
  take_bigger k G j0 = None ->
  forall j, j0 <= j < j0 + Z.of_nat k -> G j = [].
Proof.
  induction k as [|k IH]; intros j0 H j Hj; [lia|].
  cbn [take_bigger] in H. destruct (G j0) as [|y l] eqn:E; [|discriminate].
  destruct (Z.eq_dec j j0) as [->|Hne]; [exact E|].
  apply (IH (j0 + 1) H). lia.
Qed.

(** A chunk that is large enough, in a bin [find_bin] can reach, is not
    overlooked.  (Bin 0 is out of reach: the scan of [find_bin] starts at
    bin 1.) *)
Lemma lookup_finds (G : gbins) (r : Z) (x : Z * Z) (j : Z) :
  0 <= r < 2 ^ 31 -> 1 <= j < NUM_BINS -> In x (G j) ->
  r <= snd x -> snd x <= U j ->
  lookup G r <> None.
Proof.
  intros Hr31 Hj Hin Hfit HU H.
  assert (Hr : r < 2 ^ 64) by lia.
  rewrite <- (seen_small r Hr31) in Hfit.
  destruct (find_of_spec r Hr) as (Hf & Hu & Hlow).
  assert (Hij : find_of r <= j).
  { destruct (Z_le_gt_dec (find_of r) j); [assumption|].
    specialize (Hlow j ltac:(lia)). rewrite (seen_small r Hr31) in Hfit. lia. }
  unfold lookup in H. cbv zeta in H.
  destruct (take_fit (seen r) (G (find_of r))) as [[y l]|] eqn:E; [discriminate|].
  destruct (Z.eq_dec j (find_of r)) as [->|Hne].
  - pose proof (take_fit_none _ _ E x Hin). lia.
  - rewrite (take_bigger_none G _ _ H j) in Hin; [destruct Hin|].
    unfold NUM_BINS in *. lia.
Qed.


(** ** The registry after the release *)

Lemma valid_grown (s s' : state) (c L a : Z) :
  mapped s' = (c, L) :: mapped s -> valid s a = true -> valid s' a = true.
Proof.
  intros Hm H. unfold valid in *. rewrite Hm. cbn [existsb].
  rewrite !andb_true_iff in *. destruct H as [H1 H2]. split; [exact H1|].
  apply orb_true_iff. now right.
Qed.

(** A well-formed registry stays well formed when a chunk that spans a
    freshly mapped region and announces no neighbour joins it. *)
Lemma wf_grown (s s' : state) (G : gbins) (c L : Z) (l1 l2 : list (Z * Z)) :
  wf s G -> grown s s' G c L ->
  (forall m, In m (mapped s) -> apart c L (fst m) (snd m)) ->
  G (bin_of L) = l1 ++ l2 ->
  reg s' (set_bin G (bin_of L) (l1 ++ (c, L) :: l2)) ->
  0 < c -> MINIMUM_CHUNK_SIZE <= L -> c + L <= 2 ^ 64 ->
  load64 (mem s') c = 0 -> load64 (mem s') (c + L - 8) = 0 ->
  wf s' (set_bin G (bin_of L) (l1 ++ (c, L) :: l2)).
Proof.
  intros W (Hwp & Hmp & Hfr) Hfresh HG R' Hc HL Htop H0 Ht.
  unfold MINIMUM_CHUNK_SIZE in HL.
  destruct (bin_of_spec L ltac:(lia)) as (Hb & _).
  assert (Hb' : 0 <= bin_of L < NUM_BINS) by (unfold NUM_BINS; lia).
  set (G3 := set_bin G (bin_of L) (l1 ++ (c, L) :: l2)) in *.
  assert (HG3 : forall y, In y (all_chunks G3) <-> y = (c, L) \/ In y (all_chunks G))
    by (intros y; now apply in_all_chunks_insert).
  assert (Hold : forall a, valid s a = true -> a + 8 <= c \/ c + L <= a).
  { intros a Ha. apply valid_mapped in Ha. destruct Ha as (m & Hm & A1 & A2).
    pose proof (Hfresh m Hm). unfold apart in *. lia. }
  assert (Hinfo : apart c L (wmalloc_ptr s) sizeof_wmalloc_info).
  { destruct (io_mapped s (wf_info s G W)) as (m & Hm & H1 & H2).
    specialize (Hfresh m Hm). unfold apart in *. lia. }
  assert (Rgrow : forall c' sz', range_mapped s c' sz' -> range_mapped s' c' sz').
  { intros c' sz' (m & Hm & H1 & H2). exists m. rewrite Hmp.
    split; [now right|lia]. }
  assert (Hrange : forall y, In y (all_chunks G) ->
            apart c L (fst y) (snd y)).
  { intros y Hy.
    destruct (wf_chunk s G y W Hy) as ([_ _ _ (m & Hm & H1 & H2) _ _ _ _] & _).
    specialize (Hfresh m Hm). unfold apart in *. lia. }
  constructor.
  - apply R'.
  - apply R'.
  - intros i c' sz' Hi Hin.
    assert (Hall : In (c', sz') (all_chunks G3)) by (now apply bin_in_all with i).
    destruct (reg_hdr s' G3 R' _ Hall) as (_ & Hsz & _). cbn [fst snd] in Hsz.
    apply in_bin_insert in Hin; [|exact HG].
    destruct Hin as [(E & ->)|Hin].
    + inversion E. subst c' sz'. split; [|reflexivity].
      constructor; try assumption; try (unfold MINIMUM_CHUNK_SIZE; lia).
      * exists (c, L). rewrite Hmp. split; [now left|]. cbn [fst snd]. lia.
      * now rewrite Hwp.
      * unfold left_ok. cbv zeta. rewrite H0. intros H. now elim H.
      * unfold right_ok. rewrite Ht. intros H. now elim H.
    + destruct (wf_chunks s G W i c' sz' Hi Hin) as [[P1 P2 P3 P4 P5 P6 P7 P8] Hbin].
      split; [|exact Hbin].
      assert (Hx : In (c', sz') (all_chunks G)) by (now apply bin_in_all with i).
      unfold MINIMUM_CHUNK_SIZE in P2.
      constructor; try assumption.
      * now apply Rgrow.
      * now rewrite Hwp.
      * unfold left_ok in *. cbv zeta in *.
        destruct (chunk_words_out s G (c', sz') c' W Hx) as (V1 & A1 & A2);
          cbn [fst snd]; try lia.
        rewrite (Hfr c' V1 A1 A2).
        intros Hp. destruct (P7 Hp) as (L1 & L2 & L3 & L4 & L5 & L6).
        rewrite Hwp.
        split; [exact L1|]. split; [now apply (valid_grown s s' c L)|].
        split; [|split; [now apply (valid_grown s s' c L)|split; [exact L5|]]].
        -- unfold chunk_size, off_curr_chunk_size in *.
           rewrite Hfr; assumption.
        -- intros y Hy. apply HG3 in Hy. destruct Hy as [->|Hy]; [|now apply L6].
           cbn [fst]. specialize (Hold _ L2). unfold apart. lia.
      * unfold right_ok in *.
        destruct (chunk_words_out s G (c', sz') (c' + sz' - 8) W Hx) as (V1 & A1 & A2);
          cbn [fst snd]; try lia.
        rewrite (Hfr _ V1 A1 A2).
        intros H. apply (valid_grown s s' c L); auto.
  - destruct (reg_apart s' G3 R') as [Hnd _]. unfold nodes in Hnd.
    now apply NoDup_app_remove_l in Hnd.
  - intros x y Hx Hy Hne. apply HG3 in Hx, Hy.
    destruct Hx as [->|Hx], Hy as [->|Hy].
    + now elim Hne.
    + cbn [fst snd]. now apply Hrange.
    + cbn [fst snd]. specialize (Hrange x Hx). unfold apart in *. lia.
    + now apply (wf_apart s G W).
Qed.

(** ** The next allocation finds the released chunk *)

Lemma lookup_none_inv (G : gbins) (r : Z) :
  r < 2 ^ 64 -> lookup G r = None ->
  (forall x, In x (G (find_of r)) -> snd x < seen r) /\
  (forall j, find_of r < j < NUM_BINS -> G j = []).
Proof.
  intros Hr H. unfold lookup in H. cbv zeta in H.
  destruct (find_of_spec r Hr) as (Hf & _).
  destruct (take_fit (seen r) (G (find_of r))) as [[y l]|] eqn:E; [discriminate|].
  split.
  - now apply take_fit_none.
  - intros j Hj. apply (take_bigger_none G _ _ H j).
    unfold NUM_BINS in *. lia.
Qed.

Lemma longest_insert (G : gbins) (b : Z) (l1 l2 : list (Z * Z)) (x : Z * Z) :
  0 <= b < NUM_BINS -> G b = l1 ++ l2 ->
  (longest (set_bin G b (l1 ++ x :: l2)) <= S (longest G))%nat.
Proof.
  intros Hb HG. apply longest_le. intros i Hi. unfold set_bin.
  destruct (i =? b).
  - pose proof (longest_ge G b Hb) as H. rewrite HG in H.
    rewrite !length_app in *. cbn [length]. lia.
  - pose proof (longest_ge G i Hi). lia.
Qed.

Lemma wmalloc_takes_released (s : state) (G : gbins) (c L : Z)
    (l1 l2 : list (Z * Z)) (e : os_env) (n : Z) (fuel : nat) :
  wf s (set_bin G (bin_of L) (l1 ++ (c, L) :: l2)) ->
  G (bin_of L) = l1 ++ l2 ->
  lookup G (necessary_length n) = None ->
  0 <= n -> n + CHUNK_OVERHEAD < 2 ^ 31 ->
  necessary_length n <= L -> MINIMUM_CHUNK_SIZE < L < 2 ^ 64 ->
  (49 + longest G <= fuel)%nat ->
  exists s', wmalloc fuel e n s = Ok (c + 16) s' /\ mapped s' = mapped s.
Proof.
  intros W HG Hnone Hn Hn' HrL HL Hfuel.
  pose proof (necessary_length_small n Hn
                ltac:(unfold CHUNK_OVERHEAD in *; lia)) as Er.
  set (r := necessary_length n) in *.
  assert (Hr31 : 0 <= r < 2 ^ 31)
    by (unfold MINIMUM_CHUNK_SIZE, CHUNK_OVERHEAD in *; lia).
  assert (Hr : r < 2 ^ 64) by lia.
  set (G3 := set_bin G (bin_of L) (l1 ++ (c, L) :: l2)) in *.
  assert (Hwp : wmalloc_ptr s <> NULL).
  { pose proof (io_pos s (wf_info s _ W)). unfold NULL. lia. }
  rewrite (wmalloc_initialized fuel e n s Hwp).
  destruct (bin_of_spec L ltac:(lia)) as (Hb & HbU & Hblow).
  assert (Hb' : 0 <= bin_of L < NUM_BINS) by (unfold NUM_BINS; lia).
  assert (Hb1 : 1 <= bin_of L).
  { destruct (Z.eq_dec (bin_of L) 0) as [E0|]; [|lia].
    rewrite E0 in HbU. change (U 0) with 40 in HbU.
    unfold MINIMUM_CHUNK_SIZE in HL. lia. }
  pose proof (longest_insert G (bin_of L) l1 l2 (c, L) Hb' HG) as Hlong.
  fold G3 in Hlong.
  destruct (lookup_none_inv G r Hr Hnone) as (Hsmall & Hempty).
  destruct (lookup G3 r) as [[x G']|] eqn:Hl.
  - destruct (wmalloc_body_reuse s G3 e n fuel x G' W Hn ltac:(lia) ltac:(lia) Hl)
      as (s' & E & _ & Hmp & _).
    destruct (lookup_some G3 r x G' Hr Hl) as (j & k1 & k2 & Hj & HGj & _ & Hfit).
    assert (Hin : In x (G3 j)) by (rewrite HGj; apply in_elt).
    apply in_bin_insert in Hin; [|exact HG].
    destruct Hin as [(-> & _)|Hin].
    + exists s'. auto.
    + exfalso. destruct (Z.eq_dec j (find_of r)) as [Ej|Hne].
      * specialize (Hfit Ej). rewrite Ej in Hin.
        specialize (Hsmall x Hin). lia.
      * rewrite (Hempty j ltac:(lia)) in Hin. destruct Hin.
  - exfalso. revert Hl.
    apply (lookup_finds G3 r (c, L) (bin_of L)); try assumption.
    + lia.
    + unfold G3, set_bin. rewrite Z.eqb_refl. apply in_elt.
Qed.

(** Allocation from a fresh region, release, allocation. *)
Lemma fresh_release_reuse (fuel : nat) (e1 e2 : os_env) (n : Z) (s : state)
    (G : gbins) (p : Z) (s1 : state) :
  engine_ok s G -> lookup G (necessary_length n) = None ->
  os_sound s e1 (mmap_length (necessary_length n)) ->
  0 <= n -> n + CHUNK_OVERHEAD < 2 ^ 31 -> (49 + longest G <= fuel)%nat ->
  wmalloc fuel e1 n s = Ok p s1 -> p <> NULL ->
  let c := mmap_ret e1 in
  let L := mmap_length (necessary_length n) in
  exists s2 s3 l1 l2, wfree fuel p s1 = Ok tt s2 /\
    G (bin_of L) = l1 ++ l2 /\
    wf s2 (set_bin G (bin_of L) (l1 ++ (c, L) :: l2)) /\
    wmalloc fuel e2 n s2 = Ok p s3 /\
    mapped s2 = mapped s1 /\ mapped s3 = mapped s2.
Proof.
  intros He Hl Hos Hn Hn' Hfuel E Hp c L.
  destruct (wmalloc_fresh_chunk fuel e1 n s G p s1 He Hl Hos Hn ltac:(lia)
              ltac:(lia) E Hp) as (-> & s0 & W0 & Hg & Hfresh & Hf).
  fold c L in Hg, Hfresh, Hf |- *.
  destruct (wfree_fresh_chunk s1 G c L _ fuel Hf ltac:(lia))
    as (s2 & l1 & l2 & E2 & HG & R2 & Hwp2 & Hmp2 & Hlead & Htrail & Hfr).
  destruct Hf as (Hc & Htop & Hr & HL63 & _).
  destruct Hg as (Hwp1 & Hmp1 & Hfr1).
  assert (Hg2 : grown s0 s2 G c L).
  { split; [congruence|]. split; [congruence|].
    intros a Ha Hai Hay.
    assert (Hout : a + 8 <= c \/ c + L <= a).
    { apply valid_mapped in Ha. destruct Ha as (m & Hm & A1 & A2).
      pose proof (Hfresh m Hm). unfold apart in *. lia. }
    rewrite Hfr; [now apply Hfr1|exact Hout|now rewrite Hwp1|exact Hay]. }
  pose proof (wf_grown s0 s2 G c L l1 l2 W0 Hg2 Hfresh HG R2 Hc
                ltac:(lia) Htop Hlead Htrail) as W2.
  destruct (mmap_length_ge (necessary_length n)) as (_ & HL & _).
  { pose proof (necessary_length_small n Hn
                  ltac:(unfold CHUNK_OVERHEAD in *; lia)).
    unfold MINIMUM_CHUNK_SIZE, CHUNK_OVERHEAD in *. lia. }
  fold L in HL. unfold MMAP_SIZE in HL.
  destruct (wmalloc_takes_released s2 G c L l1 l2 e2 n fuel W2 HG Hl Hn Hn'
              ltac:(lia) ltac:(unfold MINIMUM_CHUNK_SIZE; lia) Hfuel)
    as (s3 & E3 & Hmp3).
  exists s2, s3, l1, l2. auto 10.
Qed.

(** ** Order inside a bin, and what a walk finds *)

Lemma ascending_insert (x : Z * Z) (l2 : list (Z * Z)) : forall l1,
  ascending (l1 ++ l2) ->
  (forall y, In y l1 -> snd y <= snd x) ->
  (forall y, hd_error l2 = Some y -> snd x < snd y) ->
  ascending (l1 ++ x :: l2).
Proof.
  induction l1 as [|a l1 IH]; intros Ha H1 H2; cbn [app ascending] in *.
  - split; [|exact Ha]. intros y Hy.
    destruct l2 as [|h t]; [destruct Hy|].
    specialize (H2 h eq_refl). cbn [ascending] in Ha. destruct Ha as [Hh _].
    destruct Hy as [<-|Hy]; [lia|]. specialize (Hh y Hy). lia.
  - destruct Ha as [Hfirst Hrest]. split.
    + intros y Hy. apply in_app_or in Hy. destruct Hy as [Hy|[<-|Hy]].
      * apply Hfirst. apply in_or_app. now left.
      * apply H1. now left.
      * apply Hfirst. apply in_or_app. now right.
    + apply IH; [exact Hrest| |exact H2]. intros y Hy. apply H1. now right.
Qed.

Lemma ascending_remove (x : Z * Z) (l2 : list (Z * Z)) : forall l1,
  ascending (l1 ++ x :: l2) -> ascending (l1 ++ l2).
Proof.
  induction l1 as [|a l1 IH]; intros Ha; cbn [app ascending] in *.
  - apply Ha.
  - destruct Ha as [Hfirst Hrest]. split; [|now apply IH].
    intros y Hy. apply Hfirst. apply in_app_or in Hy. apply in_or_app.
    destruct Hy; [now left|right; now right].
Qed.

(** Everything behind the first larger chunk is larger too. *)
Lemma ascending_behind (l : list (Z * Z)) (sz : Z) :
  ascending l -> (forall y, hd_error l = Some y -> sz < snd y) ->
  forall y, In y l -> sz < snd y.
Proof.
  intros Ha Hh y Hy. destruct l as [|h t]; [destruct Hy|].
  specialize (Hh h eq_refl). destruct Ha as [Hfirst _].
  destruct Hy as [<-|Hy]; [exact Hh|]. specialize (Hfirst y Hy). lia.
Qed.

Lemma ascending_app_r (l1 l2 : list (Z * Z)) : ascending (l1 ++ l2) -> ascending l2.
Proof.
  induction l1 as [|a l1 IH]; intros Ha; [exact Ha|]. apply IH. apply Ha.
Qed.

Lemma bins_sorted_set (G : gbins) (i : Z) (l : list (Z * Z)) :
  bins_sorted G -> ascending l -> bins_sorted (set_bin G i l).
Proof.
  intros HG Hl j Hj. unfold set_bin. destruct (j =? i); [exact Hl|now apply HG].
Qed.

(** The chunk a walk takes is the first that is large enough. *)
Lemma take_fit_first (r : Z) (l : list (Z * Z)) : forall x l',
  take_fit r l = Some (x, l') ->
  exists l1 l2, l = l1 ++ x :: l2 /\ l' = l1 ++ l2 /\ r <= snd x /\
    forall y, In y l1 -> snd y < r.
Proof.
  induction l as [|y l IH]; intros x l' H; cbn [take_fit] in H; [discriminate|].
  destruct (snd y >=? r) eqn:E.
  - inversion H; subst. exists [], l'. repeat split; [lia|intros ? []].
  - destruct (take_fit r l) as [[z l'']|] eqn:E2; [|discriminate].
    inversion H; subst.
    destruct (IH _ _ eq_refl) as (l1 & l2 & -> & -> & Hr & Hlt).
    exists (y :: l1), l2. repeat split; [assumption|].
    intros w [<-|Hw]; [lia|now apply Hlt].
Qed.

(** In a bin in ascending order it is also the smallest that is large
    enough. *)
Lemma take_fit_best (r : Z) (l : list (Z * Z)) (x : Z * Z) (l' : list (Z * Z)) :
  ascending l -> take_fit r l = Some (x, l') ->
  forall y, In y l -> r <= snd y -> snd x <= snd y.
Proof.
  intros Ha H y Hy Hr.
  destruct (take_fit_first r l x l' H) as (l1 & l2 & -> & _ & _ & Hlt).
  apply in_app_or in Hy. destruct Hy as [Hy|[<-|Hy]].
  - specialize (Hlt y Hy). lia.
  - lia.
  - apply ascending_app_r in Ha. destruct Ha as [Hfirst _]. now apply Hfirst.
Qed.

(** The bigger bins are looked at in order; the first chunk of the first
    bin that is not empty is taken. *)
Lemma take_bigger_first (G : gbins) : forall (k : nat) (j0 : Z) x G',
  take_bigger k G j0 = Some (x, G') ->
  exists j l, j0 <= j < j0 + Z.of_nat k /\ G j = x :: l /\ G' = set_bin G j l /\
    forall i, j0 <= i < j -> G i = [].
Proof.
  induction k as [|k IH]; intros j0 x G' H; [discriminate|].
  cbn [take_bigger] in H. destruct (G j0) as [|y l] eqn:E.
  - destruct (IH _ _ _ H) as (j & l & Hj & Hl & HG & Hempty).
    exists j, l. split; [lia|]. split; [exact Hl|]. split; [exact HG|].
    intros i Hi. destruct (Z.eq_dec i j0) as [->|]; [exact E|]. apply Hempty. lia.
  - inversion H; subst. exists j0, l. split; [lia|]. split; [exact E|].
    split; [reflexivity|]. intros i Hi. lia.
Qed.

Lemma take_bigger_nothing (G : gbins) : forall (k : nat) (j0 : Z),
  take_bigger k G j0 = None -> forall i, j0 <= i < j0 + Z.of_nat k -> G i = [].
Proof.
  induction k as [|k IH]; intros j0 H i Hi; [lia|].
  cbn [take_bigger] in H. destruct (G j0) as [|y l] eqn:E; [|discriminate].
  destruct (Z.eq_dec i j0) as [->|]; [exact E|]. apply (IH (j0 + 1) H). lia.
Qed.

(** The bounds of the bins grow with the index. *)
Lemma U_mono (i j : Z) : 0 <= i -> i <= j -> j <= 45 -> U i <= U j.
Proof.
  intros Hi Hij Hj.
  assert (H : forall n m : nat, (n <= m)%nat -> (m <= 45)%nat ->
            U (Z.of_nat n) <= U (Z.of_nat m)).
  { intros n m Hnm Hm.
    assert (Hstep : forall k : nat, (k < 45)%nat ->
              U (Z.of_nat k) <= U (Z.of_nat (S k))).
    { intros k Hk. do 45 (destruct k as [|k]; [vm_compute; discriminate|]). lia. }
    induction Hnm as [|m Hnm IH]; [lia|].
    specialize (IH ltac:(lia)). specialize (Hstep m ltac:(lia)). lia. }
  specialize (H (Z.to_nat i) (Z.to_nat j) ltac:(lia) ltac:(lia)).
  rewrite !Z2Nat.id in H by lia. exact H.
Qed.

(** A chunk of a well-formed registry lies in the bin of its size. *)
Lemma wf_bin_bounds (s : state) (G : gbins) (j : Z) (y : Z * Z) :
  wf s G -> 0 <= j < NUM_BINS -> In y (G j) ->
  MINIMUM_CHUNK_SIZE <= snd y <= U j /\ (0 < j -> U (j - 1) < snd y).
Proof.
  intros W Hj Hy. destruct y as [c sz]. cbn [snd].
  destruct (wf_chunks s G W j c sz Hj Hy) as [[P1 P2 P3 _ _ _ _ _] Hb].
  destruct (bin_of_spec sz ltac:(lia)) as (H1 & H2 & H3).
  rewrite Hb in *. split; [lia|]. intros H0. apply H3. lia.
Qed.

(** ** The registry after an allocation from a fresh region *)

(** The chunks of a well-formed registry stay in order when a region is
    mapped and chunks inside it join the registry. *)
Lemma chunk_ok_grown (s s' : state) (G G' : gbins) (c L : Z) (x : Z * Z) :
  wf s G -> grown s s' G c L ->
  (forall m, In m (mapped s) -> apart c L (fst m) (snd m)) ->
  (forall y, In y (all_chunks G') ->
     In y (all_chunks G) \/ (c <= fst y /\ fst y + 32 <= c + L)) ->
  In x (all_chunks G) -> chunk_ok s' G' (fst x) (snd x).
Proof.
  intros W (Hwp & Hmp & Hfr) Hfresh Hsub Hx.
  assert (Hold : forall a, valid s a = true -> a + 8 <= c \/ c + L <= a).
  { intros a Ha. apply valid_mapped in Ha. destruct Ha as (m & Hm & A1 & A2).
    pose proof (Hfresh m Hm). unfold apart in *. lia. }
  assert (Rgrow : forall c' sz', range_mapped s c' sz' -> range_mapped s' c' sz').
  { intros c' sz' (m & Hm & H1 & H2). exists m. rewrite Hmp.
    split; [now right|lia]. }
  destruct (wf_chunk s G x W Hx) as ([P1 P2 P3 P4 P5 P6 P7 P8] & _).
  destruct x as [c' sz']. cbn [fst snd] in *.
  unfold MINIMUM_CHUNK_SIZE in P2.
  assert (Hsame : forall a, c' <= a -> a + 8 <= c' + sz' ->
            a + 8 <= c' + 16 \/ c' + 32 <= a ->
            load64 (mem s') a = load64 (mem s) a).
  { intros a A1 A2 A3.
    destruct (chunk_words_out s G (c', sz') a W Hx) as (V1 & B1 & B2);
      cbn [fst snd]; try lia.
    now apply Hfr. }
  constructor; try assumption.
  - now apply Rgrow.
  - unfold chunk_size, off_curr_chunk_size in *. rewrite Hsame; [exact P5|lia|lia|lia].
  - now rewrite Hwp.
  - unfold left_ok in *. cbv zeta in *.
    rewrite (Hsame c') by lia.
    intros Hp. destruct (P7 Hp) as (L1 & L2 & L3 & L4 & L5 & L6).
    rewrite Hwp.
    split; [exact L1|]. split; [now apply (valid_grown s s' c L)|].
    split; [|split; [now apply (valid_grown s s' c L)|split; [exact L5|]]].
    + unfold chunk_size, off_curr_chunk_size in *.
      rewrite Hfr; assumption.
    + intros y Hy. destruct (Hsub y Hy) as [Hy'|Hy']; [now apply L6|].
      specialize (Hold _ L2). unfold apart. lia.
  - unfold right_ok in *.
    rewrite (Hsame (c' + sz' - 8)) by lia.
    intros H. apply (valid_grown s s' c L); auto.
Qed.

(** A region was mapped and handed out whole: the registry is as it was. *)
Lemma wf_grown_same (s s' : state) (G : gbins) (c L : Z) :
  wf s G -> grown s s' G c L ->
  (forall m, In m (mapped s) -> apart c L (fst m) (snd m)) ->
  reg s' G -> wf s' G.
Proof.
  intros W Hg Hfresh R'.
  constructor.
  - apply R'.
  - apply R'.
  - intros i c' sz' Hi Hin. split; [|now apply (wf_chunks s G W i c' sz')].
    apply (chunk_ok_grown s s' G G c L (c', sz') W Hg Hfresh);
      [intros y Hy; now left|now apply bin_in_all with i].
  - apply W.
  - apply W.
Qed.

(** A region was mapped and a chunk inside it joined the registry. *)
Lemma wf_grown_inside (s s' : state) (G : gbins) (c L c' L' : Z)
    (l1 l2 : list (Z * Z)) :
  wf s G -> grown s s' G c L ->
  (forall m, In m (mapped s) -> apart c L (fst m) (snd m)) ->
  G (bin_of L') = l1 ++ l2 ->
  reg s' (set_bin G (bin_of L') (l1 ++ (c', L') :: l2)) ->
  0 < c -> c <= c' -> c' + L' <= c + L -> c + L <= 2 ^ 64 ->
  MINIMUM_CHUNK_SIZE <= L' ->
  left_ok s' (set_bin G (bin_of L') (l1 ++ (c', L') :: l2)) c' ->
  right_ok s' c' L' ->
  wf s' (set_bin G (bin_of L') (l1 ++ (c', L') :: l2)).
Proof.
  intros W Hg Hfresh HG R' Hc Hc' Hin' Htop HL Hleft Hright.
  pose proof Hg as (Hwp & Hmp & Hfr).
  unfold MINIMUM_CHUNK_SIZE in HL.
  destruct (bin_of_spec L' ltac:(lia)) as (Hb & _).
  assert (Hb' : 0 <= bin_of L' < NUM_BINS) by (unfold NUM_BINS; lia).
  set (G3 := set_bin G (bin_of L') (l1 ++ (c', L') :: l2)) in *.
  assert (HG3 : forall y, In y (all_chunks G3) <-> y = (c', L') \/ In y (all_chunks G))
    by (intros y; now apply in_all_chunks_insert).
  assert (Hinfo : apart c L (wmalloc_ptr s) sizeof_wmalloc_info).
  { destruct (io_mapped s (wf_info s G W)) as (m & Hm & H1 & H2).
    specialize (Hfresh m Hm). unfold apart in *. lia. }
  assert (Hrange : forall y, In y (all_chunks G) ->
            apart c L (fst y) (snd y)).
  { intros y Hy.
    destruct (wf_chunk s G y W Hy) as ([_ _ _ (m & Hm & H1 & H2) _ _ _ _] & _).
    specialize (Hfresh m Hm). unfold apart in *. lia. }
  constructor.
  - apply R'.
  - apply R'.
  - intros i d sz Hi Hin.
    assert (Hall : In (d, sz) (all_chunks G3)) by (now apply bin_in_all with i).
    destruct (reg_hdr s' G3 R' _ Hall) as (_ & Hsz & _). cbn [fst snd] in Hsz.
    apply in_bin_insert in Hin; [|exact HG].
    destruct Hin as [(E & ->)|Hin].
    + inversion E. subst d sz. split; [|reflexivity].
      constructor; try assumption; try (unfold MINIMUM_CHUNK_SIZE; lia).
      * exists (c, L). rewrite Hmp. split; [now left|]. cbn [fst snd]. lia.
      * rewrite Hwp. unfold apart in *. lia.
    + split; [|now apply (wf_chunks s G W i d sz)].
      apply (chunk_ok_grown s s' G G3 c L (d, sz) W Hg Hfresh);
        [|now apply bin_in_all with i].
      intros y Hy. apply HG3 in Hy. destruct Hy as [->|Hy]; [right|now left].
      cbn [fst]. lia.
  - destruct (reg_apart s' G3 R') as [Hnd _]. unfold nodes in Hnd.
    now apply NoDup_app_remove_l in Hnd.
  - intros x y Hx Hy Hne. apply HG3 in Hx, Hy.
    destruct Hx as [->|Hx], Hy as [->|Hy].
    + now elim Hne.
    + cbn [fst snd]. specialize (Hrange y Hy). unfold apart in *. lia.
    + cbn [fst snd]. specialize (Hrange x Hx). unfold apart in *. lia.
    + now apply (wf_apart s G W).
Qed.

(** What [wmalloc] leaves behind when it mapped a fresh region: a
    well-formed registry, which has gained the residue of the region if
    there is one. *)
Lemma wf_fresh_chunk (s0 s1 : state) (G : gbins) (c L r : Z) :
  wf s0 G -> grown s0 s1 G c L ->
  (forall m, In m (mapped s0) -> apart c L (fst m) (snd m)) ->
  fresh_chunk s1 G c L r ->
  if r + MINIMUM_CHUNK_SIZE <=? L then
    exists l1 l2, G (bin_of (L - r)) = l1 ++ l2 /\
      wf s1 (set_bin G (bin_of (L - r)) (l1 ++ (c + r, L - r) :: l2))
  else wf s1 G.
Proof.
  intros W Hg Hfresh (Hc & Htop & Hr & HL63 & Hm & Hinfo & Hout & H0 & Ht & Hcase).
  unfold MINIMUM_CHUNK_SIZE in *.
  destruct (r + 40 <=? L) eqn:E.
  - apply Z.leb_le in E.
    destruct Hcase as (S1 & S2 & T1 & T2 & l1 & l2 & HG & R1).
    exists l1, l2. split; [exact HG|].
    assert (V : forall a, c <= a -> a + 8 <= c + L -> valid s1 a = true).
    { intros a A1 A2. apply (range_mapped_valid s1 c L); auto; lia. }
    apply (wf_grown_inside s0 s1 G c L (c + r) (L - r) l1 l2 W Hg Hfresh HG R1);
      try lia; try (unfold MINIMUM_CHUNK_SIZE; lia).
    + unfold left_ok. cbv zeta. rewrite T2. intros _.
      replace (c + r - r) with c by lia.
      unfold MINIMUM_CHUNK_SIZE.
      split; [lia|]. split; [apply V; lia|]. split; [exact S1|].
      split; [apply V; lia|]. split; [unfold apart in *; lia|].
      intros y Hy. apply in_all_chunks_insert in Hy;
        [|destruct (bin_of_spec (L - r) ltac:(lia)); unfold NUM_BINS; lia|exact HG].
      destruct Hy as [->|Hy]; [cbn [fst]; unfold apart; lia|].
      specialize (Hout y Hy). unfold apart in *. lia.
    + unfold right_ok. replace (c + r + (L - r) - 8) with (c + L - 8) by lia.
      rewrite Ht. intros H. now elim H.
  - destruct Hcase as (S1 & R1).
    now apply (wf_grown_same s0 s1 G c L).
Qed.

(** ** A caller writes into its buffer *)

Lemma load64_store8_other (m : memory) (b v a : Z) :
  b < a \/ a + 8 <= b -> load64 (store8 m b v) a = load64 m a.
Proof.
  intros H. unfold load64. apply load_bytes_ext.
  intros x Hx. unfold store8.
  replace (x =? b) with false by (symmetry; apply Z.eqb_neq; lia).
  reflexivity.
Qed.

Lemma user_write_ok (s : state) (c L b v : Z) :
  range_mapped s c L -> 0 <= c -> c <= b < c + L ->
  exists s', user_write b v s = Ok tt s' /\
    wmalloc_ptr s' = wmalloc_ptr s /\ mapped s' = mapped s /\
    forall a, b < a \/ a + 8 <= b -> load64 (mem s') a = load64 (mem s) a.
Proof.
  intros (m & Hm & H1 & H2) Hc Hb. unfold user_write.
  replace (0 <=? b) with true by (symmetry; apply Z.leb_le; lia).
  replace (existsb (fun r => (fst r <=? b) && (b <? fst r + snd r)) (mapped s))
    with true.
  - cbn [andb]. eexists. split; [reflexivity|]. cbn [wmalloc_ptr mapped mem].
    split; [reflexivity|]. split; [reflexivity|].
    intros a Ha. now apply load64_store8_other.
  - symmetry. apply existsb_exists. exists m. split; [exact Hm|].
    apply andb_true_iff. split; [apply Z.leb_le|apply Z.ltb_lt]; lia.
Qed.

(** The registry reads its own block and the size and link fields of its
    chunks, nothing else. *)
Lemma reg_same_words (s s' : state) (G : gbins) :
  reg s G -> wmalloc_ptr s' = wmalloc_ptr s -> mapped s' = mapped s ->
  (forall a, wmalloc_ptr s <= a -> a + 8 <= wmalloc_ptr s + sizeof_wmalloc_info ->
     load64 (mem s') a = load64 (mem s) a) ->
  (forall x o, In x (all_chunks G) -> 8 <= o <= 24 ->
     load64 (mem s') (fst x + o) = load64 (mem s) (fst x + o)) ->
  reg s' G.
Proof.
  intros R F1 F2 Hin Hch.
  pose proof (reg_info s G R) as I.
  constructor.
  - destruct I as [I1 I2 I3 I4 I5 I6].
    constructor; rewrite ?F1; try assumption.
    + destruct I3 as (m & Hm & H1 & H2). exists m. rewrite F2. auto.
    + intros j Hj. rewrite Hin; [now apply I4| |];
        unfold bin_addr, sizeof_wmalloc_info, NUM_BINS in *; lia.
    + intros j Hj. rewrite Hin; [now apply I5| |];
        unfold dummy_addr, sizeof_wmalloc_info, NUM_BINS, off_curr_chunk_size in *; lia.
    + intros j Hj. rewrite Hin; [now apply I6| |];
        unfold bin_index_addr, sizeof_wmalloc_info, NUM_BINS in *; lia.
  - intros i Hi. rewrite F1.
    apply (lseg_ext (mem s)); [| |now apply (reg_lists s G R)].
    + intros d [<-|Hd].
      * apply Hin; unfold dummy_addr, sizeof_wmalloc_info, NUM_BINS, off_right_ptr in *; lia.
      * apply in_map_iff in Hd. destruct Hd as (x & <- & Hx).
        apply Hch; [now apply (bin_in_all G i)|unfold off_right_ptr; lia].
    + intros d Hd. apply in_map_iff in Hd. destruct Hd as (x & <- & Hx).
      apply Hch; [now apply (bin_in_all G i)|unfold off_left_ptr; lia].
  - intros x Hx. destruct (reg_hdr s G R x Hx) as ((V1 & V2 & V3) & Hs & Hp & Ha).
    unfold hdr_ok. rewrite !(valid_same_mapped s s') by exact F2. rewrite F1.
    conj_split; try assumption.
    unfold chunk_size in *. rewrite <- Hs. apply Hch; [assumption|].
    unfold off_curr_chunk_size. lia.
  - rewrite F1. apply R.
Qed.

(** A byte written into the buffer of the chunk just dispensed from a fresh
    region leaves the boundary words and the registry as they are. *)
Lemma fresh_chunk_write (s s' : state) (G : gbins) (c L r b : Z) :
  fresh_chunk s G c L r ->
  c + 16 <= b < c + r - 8 ->
  wmalloc_ptr s' = wmalloc_ptr s -> mapped s' = mapped s ->
  (forall a, b < a \/ a + 8 <= b -> load64 (mem s') a = load64 (mem s) a) ->
  fresh_chunk s' G c L r.
Proof.
  intros (Hc & Htop & Hr & HL63 & Hm & Hinfo & Hout & H0 & Ht & Hcase) Hb F1 F2 F3.
  unfold MINIMUM_CHUNK_SIZE in *.
  assert (Hreg : forall G', reg s G' ->
            (forall y, In y (all_chunks G') -> b < fst y + 8 \/ fst y + 32 <= b) ->
            reg s' G').
  { intros G' R' Hy.
    apply (reg_same_words s s' G' R' F1 F2).
    - intros a A1 A2. apply F3. unfold apart in Hinfo. lia.
    - intros x o Hx Ho. apply F3. specialize (Hy x Hx). lia. }
  unfold fresh_chunk, MINIMUM_CHUNK_SIZE.
  rewrite F1. conj_split; try assumption; try (destruct Hr; assumption).
  - destruct Hm as (m & Hm & H1 & H2). exists m. rewrite F2. auto.
  - rewrite F3 by lia. exact H0.
  - rewrite F3 by lia. exact Ht.
  - destruct (r + 40 <=? L) eqn:E.
    + apply Z.leb_le in E.
      destruct Hcase as (S1 & S2 & T1 & T2 & l1 & l2 & HG & R1).
      unfold chunk_size, off_curr_chunk_size in *.
      rewrite !F3 by lia. conj_split; try assumption.
      exists l1, l2. split; [exact HG|]. apply Hreg; [exact R1|].
      intros y Hy. apply in_all_chunks_insert in Hy;
        [|destruct (bin_of_spec (L - r) ltac:(lia)); unfold NUM_BINS; lia|exact HG].
      destruct Hy as [->|Hy]; [cbn [fst]; lia|].
      specialize (Hout y Hy). unfold apart in Hout. lia.
    + destruct Hcase as (S1 & R1).
      unfold chunk_size, off_curr_chunk_size in *.
      rewrite F3 by lia. split; [exact S1|]. apply Hreg; [exact R1|].
      intros y Hy. specialize (Hout y Hy). unfold apart in Hout. lia.
Qed.

Lemma grown_write (s0 s s' : state) (G : gbins) (c L b : Z) :
  grown s0 s G c L ->
  (forall m, In m (mapped s0) -> apart c L (fst m) (snd m)) ->
  c <= b < c + L ->
  wmalloc_ptr s' = wmalloc_ptr s -> mapped s' = mapped s ->
  (forall a, b < a \/ a + 8 <= b -> load64 (mem s') a = load64 (mem s) a) ->
  grown s0 s' G c L.
Proof.
  intros (G1 & G2 & G3) Hfresh Hb F1 F2 F3.
  split; [congruence|]. split; [congruence|].
  intros a Ha Hi Hy. rewrite F3; [now apply G3|].
  apply valid_mapped in Ha. destruct Ha as (m & Hm & A1 & A2).
  pose proof (Hfresh m Hm). unfold apart in *. lia.
Qed.

(** A run of writes into one live buffer, under a property of the state
    that every such write keeps. *)
Lemma run_writes_inv (I : state -> Prop) (fuel : nat) (k : nat) (b : buffer)
    (bufs : list buffer) (rest : list op) :
  nth_error bufs k = Some b -> buf_live b = true ->
  (forall s off v, I s -> 0 <= off < buf_len b ->
     exists s', user_write (buf_ptr b + off) v s = Ok tt s' /\ I s') ->
  forall (ws : list (Z * Z)) (s : state),
  Forall (fun w => 0 <= fst w < buf_len b) ws -> I s ->
  exists s', run fuel (writes_to k ws ++ rest) bufs s = run fuel rest bufs s' /\ I s'.
Proof.
  intros Hk Hlive Hstep.
  induction ws as [|w ws IH]; intros s Hws Hs.
  - exists s. split; [reflexivity|exact Hs].
  - inversion Hws as [|? ? Hw Hws']; subst.
    destruct (Hstep s (fst w) (snd w) Hs Hw) as (s1 & E1 & Hs1).
    destruct (IH s1 Hws' Hs1) as (s' & E' & Hs').
    exists s'. split; [|exact Hs'].
    cbn [writes_to map app run]. rewrite Hk, Hlive.
    replace (0 <=? fst w) with true by (symmetry; apply Z.leb_le; lia).
    replace (fst w <? buf_len b) with true by (symmetry; apply Z.ltb_lt; lia).
    cbn [andb]. rewrite E1. exact E'.
Qed.

(** ** An allocation that the operating system serves *)

(** With nothing to offer in the registry and an operating system that
    grants what is asked, [wmalloc] returns the start of the fresh region
    plus 16; [s0] is the state in which the region is mapped: [s], or [s]
    initialized. *)
Lemma wmalloc_fresh_total (fuel : nat) (e : os_env) (n : Z) (s : state) (G : gbins) :
  engine_ok s G -> lookup G (necessary_length n) = None ->
  os_sound s e (mmap_length (necessary_length n)) ->
  (wmalloc_ptr s = NULL -> sbrk_ret e <> MAP_FAILED) -> mmap_ret e <> MAP_FAILED ->
  0 <= n -> n + CHUNK_OVERHEAD < 2 ^ 32 -> (48 + longest G <= fuel)%nat ->
  let c := mmap_ret e in
  let L := mmap_length (necessary_length n) in
  exists s0 s1, wmalloc fuel e n s = Ok (c + 16) s1 /\
    (if wmalloc_ptr s =? NULL then initialize_wmalloc e s = Ok 1 s0 else s0 = s) /\
    wf s0 G /\ grown s0 s1 G c L /\
    (forall m, In m (mapped s0) -> apart c L (fst m) (snd m)) /\
    fresh_chunk s1 G c L (necessary_length n).
Proof.
  intros He Hl Hos Hsf Hmf Hn Hn' Hfuel c L.
  destruct He as [[Hwp HG]|W].
  - destruct Hos as [Hsb Hmm]. specialize (Hsb Hwp).
    rewrite Hwp in Hmm |- *. change (NULL =? NULL) with true in Hmm |- *.
    cbv iota in Hmm |- *.
    destruct Hsb as [Hsb|[Hsb1 Hsb2]]; [now elim (Hsf Hwp)|].
    destruct Hmm as [Hmm|(H1 & H2 & H3)]; [contradiction|].
    destruct (initialize_wmalloc_ok e s (Hsf Hwp) Hsb1 Hsb2)
      as (s0 & E0 & Hwp0 & Hmp0 & R0 & _).
    assert (W0 : wf s0 G)
      by (subst G; apply wf_empty; [exact R0|reflexivity]).
    assert (Hfresh : forall m, In m (mapped s0) -> apart c L (fst m) (snd m)).
    { rewrite Hmp0. exact H3. }
    destruct (lookup_none_fresh s0 G e n fuel (wf_reg s0 G W0) Hn Hn' Hfuel Hl
                Hmf H1 H2 Hfresh) as (s1 & E1 & Hg & Hf).
    exists s0, s1. rewrite (wmalloc_first fuel e n s s0 Hwp E0).
    auto 10.
  - assert (Hwp : wmalloc_ptr s <> NULL).
    { pose proof (io_pos s (wf_info s _ W)). unfold NULL. lia. }
    destruct Hos as [_ Hmm].
    pose proof Hwp as Hwp'.
    apply Z.eqb_neq in Hwp'. rewrite Hwp' in Hmm |- *. cbn [app] in Hmm.
    destruct Hmm as [Hmm|(H1 & H2 & H3)]; [contradiction|].
    destruct (lookup_none_fresh s G e n fuel (wf_reg s G W) Hn Hn' Hfuel Hl
                Hmf H1 H2 H3) as (s1 & E1 & Hg & Hf).
    exists s, s1. rewrite (wmalloc_initialized fuel e n s Hwp).
    auto 10.
Qed.

(** Releasing the chunk just dispensed from a fresh region leaves a
    well-formed registry that holds the whole region as one chunk. *)
Lemma release_fresh_wf (s0 s1 : state) (G : gbins) (c L r : Z) (fuel : nat) :
  wf s0 G -> grown s0 s1 G c L ->
  (forall m, In m (mapped s0) -> apart c L (fst m) (snd m)) ->
  fresh_chunk s1 G c L r -> (48 + longest G <= fuel)%nat ->
  exists s2 l1 l2, wfree fuel (c + 16) s1 = Ok tt s2 /\
    G (bin_of L) = l1 ++ l2 /\
    wf s2 (set_bin G (bin_of L) (l1 ++ (c, L) :: l2)) /\
    grown s0 s2 G c L.
Proof.
  intros W0 Hg Hfresh Hf Hfuel.
  destruct (wfree_fresh_chunk s1 G c L r fuel Hf Hfuel)
    as (s2 & l1 & l2 & E2 & HG & R2 & Hwp2 & Hmp2 & Hlead & Htrail & Hfr).
  destruct Hf as (Hc & Htop & Hr & HL63 & _).
  destruct Hg as (Hwp1 & Hmp1 & Hfr1).
  assert (Hg2 : grown s0 s2 G c L).
  { split; [congruence|]. split; [congruence|].
    intros a Ha Hai Hay.
    assert (Hout : a + 8 <= c \/ c + L <= a).
    { apply valid_mapped in Ha. destruct Ha as (m & Hm & A1 & A2).
      pose proof (Hfresh m Hm). unfold apart in *. lia. }
    rewrite Hfr; [now apply Hfr1|exact Hout|now rewrite Hwp1|exact Hay]. }
  exists s2, l1, l2. split; [exact E2|]. split; [exact HG|]. split; [|exact Hg2].
  apply (wf_grown s0 s2 G c L l1 l2 W0 Hg2 Hfresh HG R2 Hc); try assumption.
  unfold MINIMUM_CHUNK_SIZE in *. lia.
Qed.

(** ** A caller that takes a buffer, fills it and releases it *)

Lemma nth_error_last {A} (l : list A) (a : A) : nth_error (l ++ [a]) (length l) = Some a.
Proof.
  rewrite nth_error_app2 by lia. now rewrite Nat.sub_diag.
Qed.

Lemma kill_last (bufs : list buffer) (b : buffer) :
  kill (length bufs) (bufs ++ [b])
  = bufs ++ [mkBuffer (buf_ptr b) (buf_len b) false].
Proof.
  unfold kill. rewrite nth_error_last.
  rewrite firstn_app, Nat.sub_diag, firstn_all. cbn [firstn].
  rewrite app_nil_r.
  rewrite skipn_all2 by (rewrite length_app; cbn [length]; lia).
  reflexivity.
Qed.

Lemma run_fresh_buffer (fuel : nat) (e : os_env) (n : Z) (s : state) (G : gbins)
    (bufs : list buffer) (ws : list (Z * Z)) :
  engine_ok s G -> lookup G (necessary_length n) = None ->
  os_sound s e (mmap_length (necessary_length n)) ->
  (wmalloc_ptr s = NULL -> sbrk_ret e <> MAP_FAILED) -> mmap_ret e <> MAP_FAILED ->
  0 <= n -> n + CHUNK_OVERHEAD < 2 ^ 32 -> (48 + longest G <= fuel)%nat ->
  Forall (fun w => 0 <= fst w < n) ws ->
  let c := mmap_ret e in
  let L := mmap_length (necessary_length n) in
  exists s0 s2 l1 l2,
    run fuel (Malloc e n :: writes_to (length bufs) ws ++ [Free (length bufs)]) bufs s
    = Finished (bufs ++ [mkBuffer (c + 16) n false]) s2 /\
    (if wmalloc_ptr s =? NULL then initialize_wmalloc e s = Ok 1 s0 else s0 = s) /\
    wf s0 G /\
    (forall m, In m (mapped s0) -> apart c L (fst m) (snd m)) /\
    G (bin_of L) = l1 ++ l2 /\
    wf s2 (set_bin G (bin_of L) (l1 ++ (c, L) :: l2)) /\
    grown s0 s2 G c L.
Proof.
  intros He Hl Hos Hsf Hmf Hn Hn' Hfuel Hws c L.
  destruct (wmalloc_fresh_total fuel e n s G He Hl Hos Hsf Hmf Hn Hn' Hfuel)
    as (s0 & s1 & E1 & Hs0 & W0 & Hg & Hfresh & Hf).
  fold c L in E1, Hg, Hfresh, Hf.
  pose proof (necessary_length_small n Hn
                ltac:(unfold CHUNK_OVERHEAD in *; lia)) as Er.
  set (r := necessary_length n) in *.
  pose proof Hf as (Hc & Htop & Hr & HL63 & Hm & _).
  set (b := mkBuffer (c + 16) n true).
  assert (Hlive : negb (c + 16 =? NULL) = true).
  { apply neq_null_negb. unfold NULL. lia. }
  destruct (run_writes_inv (fun s' => fresh_chunk s' G c L r /\ grown s0 s' G c L)
              fuel (length bufs) b (bufs ++ [b]) [Free (length bufs)]
              (nth_error_last bufs b) eq_refl) with (ws := ws) (s := s1)
    as (s1' & Erun & Hf' & Hg').
  - intros s' off v [Hf' Hg'] Hoff. cbn [buf_len buf_ptr b] in *.
    pose proof Hf' as (_ & _ & _ & _ & Hm' & _).
    destruct (user_write_ok s' c L (c + 16 + off) v Hm' ltac:(lia))
      as (s'' & E & F1 & F2 & F3).
    { unfold CHUNK_OVERHEAD, MINIMUM_CHUNK_SIZE in *. lia. }
    exists s''. split; [exact E|]. split.
    + apply (fresh_chunk_write s' s'' G c L r (c + 16 + off) Hf'); try assumption.
      unfold CHUNK_OVERHEAD, MINIMUM_CHUNK_SIZE in *. lia.
    + apply (grown_write s0 s' s'' G c L (c + 16 + off) Hg' Hfresh); try assumption.
      unfold CHUNK_OVERHEAD, MINIMUM_CHUNK_SIZE in *. lia.
  - exact Hws.
  - split; assumption.
  - destruct (release_fresh_wf s0 s1' G c L r fuel W0 Hg' Hfresh Hf' Hfuel)
      as (s2 & l1 & l2 & E2 & HG & W2 & Hg2).
    exists s0, s2, l1, l2.
    split; [|auto 10].
    cbn [run]. rewrite E1. rewrite Hlive. fold b. rewrite Erun.
    cbn [run]. rewrite nth_error_last. cbn [buf_live buf_ptr b].
    rewrite E2. rewrite kill_last. reflexivity.
Qed.

(** ** The debugging functions of the tests *)

Lemma sum_app (l1 l2 : list Z) :
  fold_right Z.add 0 (l1 ++ l2) = fold_right Z.add 0 l1 + fold_right Z.add 0 l2.
Proof.
  induction l1 as [|a l1 IH]; cbn [app fold_right]; [reflexivity|]. rewrite IH. lia.
Qed.

Lemma wrap64_add_l (a b : Z) : wrap64 (wrap64 a + b) = wrap64 (a + b).
Proof. unfold wrap64. apply Zplus_mod_idemp_l. Qed.

Lemma sum_sizes_spec (gl : list (Z * Z)) :
  forall (s : state) (prev : Z) (fuel : nat) (total : Z),
  lseg (mem s) prev (map fst gl) NULL ->
  (forall x, In x gl -> hdr_ok s (fst x) /\ chunk_size s (fst x) = snd x) ->
  (length gl < fuel)%nat -> 0 <= total < 2 ^ 64 ->
  sum_sizes fuel (load64 (mem s) (prev + off_right_ptr)) total s
  = Ok (wrap64 (total + fold_right Z.add 0 (map snd gl))) s.
Proof.
  induction gl as [|x gl IH]; intros s prev fuel total Hseg Hok Hfuel Ht;
    (destruct fuel as [|f]; [simpl in Hfuel; lia|]).
  - cbn [map lseg] in Hseg. rewrite Hseg. cbn [sum_sizes map fold_right].
    change (negb (NULL =? NULL)) with false. cbv iota.
    rewrite Z.add_0_r, wrap64_small by exact Ht. reflexivity.
  - cbn [map lseg] in Hseg. destruct Hseg as (H1 & H2 & H3 & H4). rewrite H1.
    cbn [sum_sizes map fold_right]. rewrite (neq_null_negb _ H2). cbv iota.
    destruct (Hok x ltac:(now left)) as ((V8 & V16 & V24) & Hsz).
    rewrite bind_load by assumption. rewrite bind_load by assumption.
    unfold chunk_size in Hsz. rewrite Hsz.
    rewrite (IH s (fst x) f _ H4).
    + rewrite wrap64_add_l. now rewrite Z.add_assoc.
    + intros y Hy. apply Hok. now right.
    + simpl in Hfuel. lia.
    + apply wrap64_range.
Qed.

(** The bins from [i] on. *)
Lemma calc_bins_spec (s : state) (G : gbins) (fuel : nat) :
  reg s G -> (longest G < fuel)%nat ->
  forall (k : nat) (i total : Z),
  0 <= i -> i + Z.of_nat k = NUM_BINS -> 0 <= total < 2 ^ 64 ->
  calc_bins fuel k i total s
  = Ok (wrap64 (total + fold_right Z.add 0
                  (map snd (flat_map G (map Z.of_nat (seq (Z.to_nat i) k)))))) s.
Proof.
  intros R Hfuel. pose proof (reg_info s G R) as I.
  induction k as [|k IH]; intros i total Hi Hk Ht.
  - cbn [calc_bins seq map flat_map fold_right].
    rewrite Z.add_0_r, wrap64_small by exact Ht. reflexivity.
  - assert (Hi' : 0 <= i < NUM_BINS) by lia.
    cbn [calc_bins seq map flat_map].
    rewrite (bind_ok _ _ _ _ _ (load_bin_ok s i I Hi')).
    destruct (dummy_hdr_ok s i I Hi') as (_ & _ & V24).
    rewrite bind_load by exact V24.
    rewrite (bind_ok _ _ _ _ _
               (sum_sizes_spec (G i) s (dummy_addr (wmalloc_ptr s) i) fuel total
                  (reg_lists s G R i Hi')
                  (fun x Hx => let H := reg_hdr s G R x (bin_in_all G i x Hi' Hx) in
                               conj (proj1 H) (proj1 (proj2 H)))
                  ltac:(pose proof (longest_ge G i Hi'); lia) Ht)).
    rewrite (IH (i + 1) _ ltac:(lia) ltac:(lia) (wrap64_range _)).
    rewrite wrap64_add_l. rewrite Z2Nat.id by lia.
    replace (Z.to_nat (i + 1)) with (S (Z.to_nat i)) by lia.
    rewrite map_app, sum_app. now rewrite Z.add_assoc.
Qed.

Lemma calc_mem_available_ok (s : state) (G : gbins) (fuel : nat) :
  reg s G -> (longest G < fuel)%nat ->
  calc_mem_available fuel s = Ok (wrap64 (total_free G)) s.
Proof.
  intros R Hfuel. unfold calc_mem_available.
  rewrite (calc_bins_spec s G fuel R Hfuel (Z.to_nat NUM_BINS) 0 0);
    [reflexivity|lia|reflexivity|lia].
Qed.

Lemma total_free_set (G : gbins) (b : Z) (l : list (Z * Z)) :
  0 <= b < NUM_BINS ->
  total_free (set_bin G b l)
  = total_free G - fold_right Z.add 0 (map snd (G b)) + fold_right Z.add 0 (map snd l).
Proof.
  intros Hb. unfold total_free.
  destruct (all_chunks_app G b Hb) as (A & B & EA & EB).
  rewrite EA, (EB l). rewrite !map_app, !sum_app. lia.
Qed.

Lemma total_free_insert (G : gbins) (b : Z) (l1 l2 : list (Z * Z)) (x : Z * Z) :
  0 <= b < NUM_BINS -> G b = l1 ++ l2 ->
  total_free (set_bin G b (l1 ++ x :: l2)) = total_free G + snd x.
Proof.
  intros Hb HG. rewrite total_free_set by exact Hb. rewrite HG.
  rewrite !map_app, !sum_app. cbn [map fold_right]. lia.
Qed.

Lemma print_sizes_spec (gl : list (Z * Z)) :
  forall (s : state) (prev : Z) (fuel : nat),
  lseg (mem s) prev (map fst gl) NULL ->
  (forall x, In x gl -> hdr_ok s (fst x) /\ chunk_size s (fst x) = snd x) ->
  (length gl < fuel)%nat ->
  print_sizes fuel (load64 (mem s) (prev + off_right_ptr)) s = Ok (map snd gl) s.
Proof.
  induction gl as [|x gl IH]; intros s prev fuel Hseg Hok Hfuel;
    (destruct fuel as [|f]; [simpl in Hfuel; lia|]).
  - cbn [map lseg] in Hseg. rewrite Hseg. reflexivity.
  - cbn [map lseg] in Hseg. destruct Hseg as (H1 & H2 & H3 & H4). rewrite H1.
    cbn [print_sizes map]. rewrite (neq_null_negb _ H2). cbv iota.
    destruct (Hok x ltac:(now left)) as ((V8 & V16 & V24) & Hsz).
    rewrite bind_load by assumption. rewrite bind_load by assumption.
    unfold chunk_size in Hsz. rewrite Hsz.
    rewrite (bind_ok _ _ _ _ _ (IH s (fst x) f H4
               (fun y Hy => Hok y (or_intror Hy)) ltac:(simpl in Hfuel; lia))).
    reflexivity.
Qed.

Lemma print_bins_spec (s : state) (G : gbins) (fuel : nat) :
  reg s G -> (longest G < fuel)%nat ->
  forall (k : nat) (i : Z),
  0 <= i -> i + Z.of_nat k = NUM_BINS ->
  print_bins fuel k i s
  = Ok (map (fun j => (U j, map snd (G j))) (map Z.of_nat (seq (Z.to_nat i) k))) s.
Proof.
  intros R Hfuel. pose proof (reg_info s G R) as I.
  induction k as [|k IH]; intros i Hi Hk; [reflexivity|].
  assert (Hi' : 0 <= i < NUM_BINS) by lia.
  cbn [print_bins seq map].
  rewrite (bind_ok _ _ _ _ _ (load_bin_index_ok s i I Hi')).
  rewrite (bind_ok _ _ _ _ _ (load_bin_ok s i I Hi')).
  destruct (dummy_hdr_ok s i I Hi') as (_ & _ & V24).
  rewrite bind_load by exact V24.
  rewrite (bind_ok _ _ _ _ _
             (print_sizes_spec (G i) s (dummy_addr (wmalloc_ptr s) i) fuel
                (reg_lists s G R i Hi')
                (fun x Hx => let H := reg_hdr s G R x (bin_in_all G i x Hi' Hx) in
                             conj (proj1 H) (proj1 (proj2 H)))
                ltac:(pose proof (longest_ge G i Hi'); lia))).
  rewrite (bind_ok _ _ _ _ _ (IH (i + 1) ltac:(lia) ltac:(lia))).
  rewrite Z2Nat.id by lia.
  replace (Z.to_nat (i + 1)) with (S (Z.to_nat i)) by lia.
  reflexivity.
Qed.

(** ** The first allocation of a process *)

Lemma os_at_sound_first (len : Z) :
  0 <= len <= 2 ^ 63 -> os_sound initial_state (os_at 1) len.
Proof.
  intros Hlen. split.
  - intros _. right. vm_compute. split; [reflexivity|discriminate].
  - right. change (mmap_ret (os_at 1)) with (2 ^ 32).
    split; [lia|]. split; [lia|].
    intros r [<-|[]]. right. cbn [fst snd sbrk_ret os_at].
    unfold sizeof_wmalloc_info. lia.
Qed.

Lemma first_allocation (n : Z) :
  0 <= n -> n + CHUNK_OVERHEAD < 2 ^ 32 ->
  let r := necessary_length n in
  let L := mmap_length r in
  exists s1, wmalloc 64 (os_at 1) n initial_state = Ok (2 ^ 32 + 16) s1 /\
    state_after 64 [Malloc (os_at 1) n] = s1 /\
    fresh_chunk s1 no_chunks (2 ^ 32) L r /\
    if r + MINIMUM_CHUNK_SIZE <=? L
    then wf s1 (one_chunk (2 ^ 32 + r, L - r)) else wf s1 no_chunks.
Proof.
  intros Hn Hn' r L.
  pose proof (necessary_length_small n Hn
                ltac:(unfold CHUNK_OVERHEAD in *; lia)) as Er.
  fold r in Er.
  destruct (mmap_length_ge r) as (L1 & L2 & L3).
  { unfold CHUNK_OVERHEAD, MINIMUM_CHUNK_SIZE in *. lia. }
  fold L in L1, L2, L3. unfold MMAP_SIZE in *.
  destruct (wmalloc_fresh_total 64 (os_at 1) n initial_state no_chunks
              (or_introl (conj eq_refl eq_refl)) (lookup_no_chunks _)
              (os_at_sound_first L ltac:(unfold CHUNK_OVERHEAD, MINIMUM_CHUNK_SIZE in *; lia))
              ltac:(intros _; vm_compute; discriminate) ltac:(vm_compute; discriminate)
              Hn Hn' ltac:(vm_compute; lia))
    as (s0 & s1 & E & _ & W0 & Hg & Hfresh & Hf).
  fold r L in Hg, Hfresh, Hf. change (mmap_ret (os_at 1)) with (2 ^ 32) in *.
  exists s1. split; [exact E|]. split.
  { unfold state_after. cbn [run]. now rewrite E. }
  split; [exact Hf|].
  pose proof (wf_fresh_chunk s0 s1 no_chunks (2 ^ 32) L r W0 Hg Hfresh Hf) as W.
  destruct (r + MINIMUM_CHUNK_SIZE <=? L); [|exact W].
  destruct W as (l1 & l2 & HG & W).
  cbn [no_chunks] in HG. symmetry in HG. apply app_eq_nil in HG.
  destruct HG as [-> ->]. exact W.
Qed.

(** After a first buffer of 100 bytes the registry holds the residue of the
    region, 130948 bytes at [2^32 + 124]. *)
Lemma sample_wf :
  wf (state_after 64 [Malloc (os_at 1) 100]) (one_chunk (2 ^ 32 + 124, 130948)).
Proof.
  destruct (first_allocation 100 ltac:(lia) ltac:(unfold CHUNK_OVERHEAD; lia))
    as (s1 & _ & -> & _ & W).
  exact W.
Qed.

Lemma sample_fresh :
  fresh_chunk (state_after 64 [Malloc (os_at 1) 100]) no_chunks (2 ^ 32) 131072 124.
Proof.
  destruct (first_allocation 100 ltac:(lia) ltac:(unfold CHUNK_OVERHEAD; lia))
    as (s1 & _ & -> & Hf & _).
  exact Hf.
Qed.


Lemma bins_sorted_one (x : Z * Z) : bins_sorted (one_chunk x).
Proof.
  intros i _. unfold one_chunk, set_bin, no_chunks.
  destruct (i =? _); cbn [ascending]; [|exact I].
  split; [intros ? []|exact I].
Qed.

Lemma longest_one (x : Z * Z) : (longest (one_chunk x) <= 1)%nat.
Proof.
  apply longest_le. intros i _. unfold one_chunk, set_bin, no_chunks.
  destruct (i =? _); cbn [length]; lia.
Qed.

Lemma all_chunks_one (x : Z * Z) :
  snd x < 2 ^ 64 -> forall y, In y (all_chunks (one_chunk x)) <-> y = x.
Proof.
  intros Hx y. destruct (bin_of_spec (snd x) Hx) as (Hb & _).
  unfold one_chunk.
  rewrite (in_all_chunks_insert no_chunks (bin_of (snd x)) [] [] x y
             ltac:(unfold NUM_BINS; lia) eq_refl).
  split; [intros [H|H]; [exact H|]|now left].
  apply in_all_chunks in H. destruct H as (j & _ & []).
Qed.

Lemma sample_facts :
  let s := state_after 64 [Malloc (os_at 1) 100] in
  wmalloc_ptr s = 4096 /\ mapped s = [(2 ^ 32, 131072); (4096, 2208)] /\
  chunk_size s (2 ^ 32) = 124.
Proof. vm_compute. repeat split; reflexivity. Qed.

Lemma sample_hdr : hdr_ok (state_after 64 [Malloc (os_at 1) 100]) (2 ^ 32).
Proof.
  pose proof sample_facts as H. cbv zeta in H. revert H.
  generalize (state_after 64 [Malloc (os_at 1) 100]). intros s (_ & Hm & _).
  unfold hdr_ok, valid. rewrite Hm. repeat split.
Qed.

Lemma sample_apart :
  let s := state_after 64 [Malloc (os_at 1) 100] in
  apart (2 ^ 32 + 8) 24 (wmalloc_ptr s) sizeof_wmalloc_info /\
  forall d, In d (nodes (wmalloc_ptr s) (one_chunk (2 ^ 32 + 124, 130948))) ->
    apart (2 ^ 32 + 8) 24 (d + 8) 24.
Proof.
  pose proof sample_facts as H. cbv zeta in H |- *. revert H.
  generalize (state_after 64 [Malloc (os_at 1) 100]). intros s (Hwp & _ & _).
  rewrite Hwp. split.
  - right. vm_compute; discriminate.
  - intros d Hd. apply in_nodes in Hd.
    destruct Hd as [(i & Hi & ->)|(x & Hx & ->)].
    + unfold apart, dummy_addr, NUM_BINS in *. lia.
    + apply (proj1 (all_chunks_one (2 ^ 32 + 124, 130948) ltac:(cbn [snd]; lia) x)) in Hx.
      subst x. cbn [fst].
      unfold apart. lia.
Qed.

(** ** Outcomes of concrete runs *)

Lemma ok_inv {A} (r : result A) (Q : A -> state -> Prop) :
  match r with Ok a s => Q a s | Err _ => False end ->
  exists a s, r = Ok a s /\ Q a s.
Proof. destruct r as [a s|e]; [|tauto]. intros H. now exists a, s. Qed.

(** ** C6: size of the region requested from the operating system *)

Lemma allocate_chunk_inv (e : os_env) (r : Z) (s s' : state) (c : Z) :
  allocate_chunk e r s = Ok c s' -> c <> NULL ->
  c = mmap_ret e /\ mmap_ret e <> MAP_FAILED /\ mmap_length r <> 0 /\
  mapped s' = (c, mmap_length r) :: mapped s /\
  chunk_size s' c = mmap_length r.
Proof.
  unfold allocate_chunk. intros H Hc.
  apply bind_inv in H. destruct H as (p & s1 & Hm & H).
  unfold mmap_call in Hm.
  destruct ((mmap_length r =? 0) || (mmap_ret e =? MAP_FAILED)) eqn:E.
  - inversion Hm; subst. simpl in H. inversion H. subst. now elim Hc.
  - apply orb_false_iff in E. destruct E as [E1 E2].
    inversion Hm; subst p s1. clear Hm. rewrite E2 in H.
    remember (mkState (wmalloc_ptr s) (zero_range (mem s) (mmap_ret e) (mmap_length r))
                      ((mmap_ret e, mmap_length r) :: mapped s)) as s0 eqn:Es0.
    unfold set_prev_chunk_size, set_next_chunk_size, next_size_addr in H.
    inv_run.
    repeat match goal with H : valid _ _ = true |- _ =>
      apply valid_range in H end.
    unfold off_prev_chunk_size, off_curr_chunk_size in *.
    assert (Hsz : load64 (store64 (store64 (mem s0) (mmap_ret e + 0) (wrap64
              (0 + Z.land FLAG_BIT (load64 (mem s0) (mmap_ret e + 0)))))
              (mmap_ret e + 8) (mmap_length r)) (mmap_ret e + 8) = mmap_length r).
    { rewrite load64_store64_same. apply wrap64_small.
      destruct (mmap_length_cases r); unfold PAGE_SIZE in *; lia. }
    repeat split; try lia.
    + rewrite Es0. reflexivity.
    + unfold chunk_size, off_curr_chunk_size. cbn [mem upd_mem] in *.
      rewrite Hsz in *.
      rewrite load64_store64_other; [exact Hsz|].
      destruct (mmap_length_cases r) as [?|Hl]; unfold PAGE_SIZE in *; [lia|].
      pose proof (wrap64_range (mmap_ret e + mmap_length r - 8)) as Hw.
      unfold wrap64 in *.
      destruct (Z_lt_ge_dec (mmap_ret e + mmap_length r - 8) (2 ^ 64)).
      * rewrite Z.mod_small by lia. lia.
      * replace (mmap_ret e + mmap_length r - 8)
          with ((mmap_ret e + mmap_length r - 8 - 2 ^ 64) + 1 * 2 ^ 64) by lia.
        rewrite Z.mod_add by lia. rewrite Z.mod_small by lia. lia.
Qed.

(** The announced size fails at the first requirement above the minimum. *)
Lemma region_size_counterexample :
  mmap_length 131073 <> announced_region_size 131073.
Proof. vm_compute. discriminate. Qed.

(** C6, as the code has it: when the OS arena source returns a chunk for the
    requirement [r], the mapped region and the chunk are exactly 131072 bytes
    if [r <= 131072], and otherwise [r / 4096 + 1] pages (rounded down), that
    is the smallest multiple of the page size above [r], as long as that
    stays below [2^64]. *)
Theorem region_size_of_allocate_chunk (e : os_env) (r : Z) (s s' : state) (c : Z) :
  0 <= r < 2 ^ 64 - PAGE_SIZE ->
  allocate_chunk e r s = Ok c s' -> c <> NULL ->
  let len := if r <=? MMAP_SIZE then MMAP_SIZE else (r / PAGE_SIZE + 1) * PAGE_SIZE in
  mapped s' = (c, len) :: mapped s /\ chunk_size s' c = len /\
  (MMAP_SIZE < r -> r < len <= r + PAGE_SIZE /\ len mod PAGE_SIZE = 0).
Proof.
  intros Hr H Hc len.
  destruct (allocate_chunk_inv e r s s' c H Hc) as (_ & _ & _ & Hm & Hs).
  assert (El : mmap_length r = len).
  { unfold mmap_length, len. destruct (r <=? MMAP_SIZE); [reflexivity|].
    apply wrap64_small. unfold PAGE_SIZE in *.
    pose proof (Z.div_mod r 4096 ltac:(lia)).
    pose proof (Z.mod_pos_bound r 4096 ltac:(lia)). lia. }
  rewrite El in *. repeat split; try assumption.
  - unfold len. destruct (r <=? MMAP_SIZE) eqn:E.
    + apply Z.leb_le in E. lia.
    + unfold PAGE_SIZE in *.
      pose proof (Z.div_mod r 4096 ltac:(lia)).
      pose proof (Z.mod_pos_bound r 4096 ltac:(lia)). lia.
  - unfold len. destruct (r <=? MMAP_SIZE) eqn:E.
    + apply Z.leb_le in E. lia.
    + unfold PAGE_SIZE in *.
      pose proof (Z.div_mod r 4096 ltac:(lia)).
      pose proof (Z.mod_pos_bound r 4096 ltac:(lia)). lia.
  - unfold len. destruct (r <=? MMAP_SIZE) eqn:E.
    + apply Z.leb_le in E. lia.
    + apply Z.mod_mul. unfold PAGE_SIZE. lia.
Qed.

Lemma region_size_witness :
  exists s', allocate_chunk (os_at 1) 131073 initial_state = Ok (2 ^ 32) s' /\
  mapped s' = [(2 ^ 32, 135168)] /\ chunk_size s' (2 ^ 32) = 135168.
Proof.
  destruct (ok_inv (allocate_chunk (os_at 1) 131073 initial_state)
              (fun c _ => c = 2 ^ 32)) as (c & s' & E & Hc).
  { vm_compute. reflexivity. }
  subst c. exists s'. split; [exact E|].
  pose proof (region_size_of_allocate_chunk (os_at 1) 131073 initial_state s' (2 ^ 32)
                ltac:(unfold PAGE_SIZE; lia) E ltac:(unfold NULL; lia)) as H.
  cbv zeta in H. destruct H as (H1 & H2 & _).
  split; [exact H1 | exact H2].
Defined.

(** ** C1: the operating system refuses the mapping *)

(** C1 (the code departs from it): when neither the bin of the request nor
    a bigger bin yields a chunk and [mmap] fails, [allocate_chunk] returns
    [NULL], [wmalloc] passes it to [split_chunk] unchecked, and the assertion
    there aborts the process: no null pointer reaches the caller. *)
Theorem mmap_failure_aborts (fuel : nat) (e : os_env) (n : Z) (s : state) :
  wmalloc_ptr s <> NULL ->
  returns (find_free_chunk fuel (necessary_length n) s) NULL ->
  mmap_ret e = MAP_FAILED ->
  wmalloc fuel e n s = Err AssertFail.
Proof.
  intros Hwp Hf He.
  unfold wmalloc, get_wmalloc_ptr.
  unfold bind at 1.
  apply Z.eqb_neq in Hwp. rewrite Hwp.
  unfold bind at 1. unfold ret at 1. cbv beta iota.
  change (1 =? -1) with false. cbv iota.
  unfold wmalloc_body.
  destruct (find_free_chunk fuel (necessary_length n) s) as [c s1|x] eqn:E;
    [|contradiction].
  simpl in Hf. subst c.
  rewrite (bind_ok _ _ _ _ _ E).
  change (NULL =? NULL) with true. cbv iota.
  unfold bind, allocate_chunk, bind, mmap_call.
  rewrite He. rewrite Z.eqb_refl, orb_true_r.
  rewrite Z.eqb_refl. unfold ret.
  reflexivity.
Qed.

(** An engine that is initialized and holds no free chunk: its only region
    was handed out whole. *)
Lemma mmap_failure_witness :
  wmalloc 64 os_no_mmap 1 (state_after 64 [Malloc (os_at 1) 131048]) = Err AssertFail.
Proof.
  apply (mmap_failure_aborts 64 os_no_mmap 1
           (state_after 64 [Malloc (os_at 1) 131048])).
  - vm_compute. discriminate.
  - vm_compute. reflexivity.
  - reflexivity.
Defined.

(** ** C7: the program break cannot be extended *)

(** C7 (the code departs from it): when [sbrk] fails, the first call returns
    [NULL], but [wmalloc_ptr] now holds [(void* ) -1] instead of [NULL]; the
    next call does not initialize again, whatever the operating system would
    answer, and faults on reading [bin_index] through that pointer. *)
Theorem sbrk_failure_is_not_retried (fuel : nat) (e e' : os_env) (n n' : Z) (s : state) :
  wmalloc_ptr s = NULL -> sbrk_ret e = MAP_FAILED ->
  exists s', wmalloc (S fuel) e n s = Ok NULL s' /\
             wmalloc_ptr s' = MAP_FAILED /\
             wmalloc (S fuel) e' n' s' = Err Segfault.
Proof.
  intros Hwp He.
  exists (mkState MAP_FAILED (mem s) (mapped s)).
  split; [|split].
  - unfold wmalloc, get_wmalloc_ptr, bind.
    rewrite Hwp. change (NULL =? NULL) with true. cbv iota.
    unfold initialize_wmalloc, bind, sbrk_call. rewrite He.
    rewrite Z.eqb_refl. unfold set_wmalloc_ptr. rewrite Z.eqb_refl.
    reflexivity.
  - reflexivity.
  - unfold wmalloc, get_wmalloc_ptr, bind. cbn [wmalloc_ptr].
    change (MAP_FAILED =? NULL) with false. cbv iota.
    unfold ret at 1. change (1 =? -1) with false. cbv iota.
    unfold wmalloc_body, find_free_chunk, bind, find_bin. cbn [find_bin_loop].
    unfold load_bin_index, get_wmalloc_ptr, bind, load, valid.
    cbn [wmalloc_ptr].
    replace (bin_index_addr MAP_FAILED 1 + 8 <=? 2 ^ 64) with false by reflexivity.
    rewrite andb_false_r. reflexivity.
Qed.

Lemma sbrk_failure_witness :
  exists s', wmalloc 64 os_no_sbrk 1 initial_state = Ok NULL s' /\
             wmalloc_ptr s' = MAP_FAILED /\
             wmalloc 64 (os_at 1) 1 s' = Err Segfault.
Proof.
  apply (sbrk_failure_is_not_retried 63 os_no_sbrk (os_at 1) 1 1 initial_state);
    reflexivity.
Defined.

(** ** C2, C3, C9: where the stated property fails *)

(** C2 fails: a request of [2^64 - 1] bytes is answered with a chunk of 40
    bytes; while a chunk of 602112 bytes is free, a request of [2^32 + 76]
    bytes, seen by [search_bin] as one of 100 bytes, is answered with that
    chunk; after a request of 17 bytes, a request of 1 byte is answered with
    a pointer that is 1 modulo 8. *)
Lemma allocate_contract_counterexample :
  ~ allocate_contract 64 (os_at 1) (2 ^ 64 - 1) initial_state /\
  ~ allocate_contract 64 (os_at 2) (2 ^ 32 + 76)
      (state_after 64 [Malloc (os_at 1) 600000; Free 0%nat]) /\
  ~ allocate_contract 64 (os_at 2) 1 (state_after 64 [Malloc (os_at 1) 17]).
Proof.
  split; [|split]; intro H.
  - destruct (ok_inv (wmalloc 64 (os_at 1) (2 ^ 64 - 1) initial_state)
                (fun p s' => p <> NULL /\ chunk_size s' (p - 16) = 40))
      as (p & s' & E & Hp & Hs).
    { vm_compute. split; [discriminate|reflexivity]. }
    destruct (H p s' E Hp) as [H1 _]. rewrite Hs in H1.
    unfold CHUNK_OVERHEAD in H1. lia.
  - destruct (ok_inv (wmalloc 64 (os_at 2) (2 ^ 32 + 76)
                 (state_after 64 [Malloc (os_at 1) 600000; Free 0%nat]))
                (fun p s' => p <> NULL /\ chunk_size s' (p - 16) = 602112))
      as (p & s' & E & Hp & Hs).
    { vm_compute. split; [discriminate|reflexivity]. }
    destruct (H p s' E Hp) as [H1 _]. rewrite Hs in H1.
    unfold CHUNK_OVERHEAD in H1. lia.
  - destruct (ok_inv (wmalloc 64 (os_at 2) 1 (state_after 64 [Malloc (os_at 1) 17]))
                (fun p s' => p <> NULL /\ p mod 8 = 1))
      as (p & s' & E & Hp & Hs).
    { vm_compute. split; [discriminate|reflexivity]. }
    destruct (H p s' E Hp) as [_ H1]. rewrite Hs in H1. discriminate.
Qed.

(** C3 fails: a request of 17 bytes leaves chunks of 41 and 131031 bytes. *)
Lemma sizes_aligned_counterexample :
  ~ sizes_aligned_claim 64 [Malloc (os_at 1) 17].
Proof.
  unfold sizes_aligned_claim.
  assert (E : leaves 64 [Malloc (os_at 1) 17]
                (fun bufs s => managed_sizes 64 bufs s = [41; 131031])).
  { vm_compute. reflexivity. }
  unfold leaves in E.
  destruct (run 64 [Malloc (os_at 1) 17] [] initial_state) as [bufs s| |];
    try contradiction.
  rewrite E. intro H. inversion H as [|? ? [H1 _] _]. discriminate.
Qed.

(** C9 fails: with two free chunks of 48 bytes in a bin, the chunk released
    is put behind the other one, which the next allocation takes; and a
    request of [2^31 - 24] bytes never finds the chunk it released. *)
Lemma reuse_counterexample :
  ~ reuse_claim 64 (os_at 2) (os_at 2) 24 (state_after 64 two_equal_chunks) /\
  ~ reuse_claim 64 (os_at 1) (os_at 2) (2 ^ 31 - 24) initial_state.
Proof.
  split; intro H.
  - destruct (ok_inv (wmalloc 64 (os_at 2) 24 (state_after 64 two_equal_chunks))
       (fun p s1 => p <> NULL /\ then_holds (wfree 64 p s1) (fun _ s2 =>
          then_holds (wmalloc 64 (os_at 2) 24 s2) (fun p' _ => p' <> p))))
      as (p & s1 & E1 & Hp & H1).
    { vm_compute. split; discriminate. }
    apply ok_inv in H1. destruct H1 as ([] & s2 & E2 & H2).
    apply ok_inv in H2. destruct H2 as (p' & s3 & E3 & H3).
    destruct (H p s1 s2 p' s3 E1 Hp E2 E3) as [H4 _]. contradiction.
  - destruct (ok_inv (wmalloc 64 (os_at 1) (2 ^ 31 - 24) initial_state)
       (fun p s1 => p <> NULL /\ then_holds (wfree 64 p s1) (fun _ s2 =>
          then_holds (wmalloc 64 (os_at 2) (2 ^ 31 - 24) s2) (fun p' _ => p' <> p))))
      as (p & s1 & E1 & Hp & H1).
    { vm_compute. split; discriminate. }
    apply ok_inv in H1. destruct H1 as ([] & s2 & E2 & H2).
    apply ok_inv in H2. destruct H2 as (p' & s3 & E3 & H3).
    destruct (H p s1 s2 p' s3 E1 Hp E2 E3) as [H4 _]. contradiction.
Qed.

(** Beyond a single call on a well-formed engine, no bound on sizes holds:
    [split_chunk] leaves the leading size word of the right neighbour as it
    was, and a later release of that neighbour joins it with a buffer in
    use.  Here the 16 bytes at [2^32 + 16] are handed out a second time
    while their owner still holds them, and the new owner's 100 bytes cover
    the header of the free chunk at [2^32 + 40], whose size is then whatever
    is written there. *)
Lemma live_buffer_dispensed_again :
  leaves 64 stale_left_size (fun bufs s =>
    map (fun b => (buf_ptr b, buf_live b)) bufs
    = [(2 ^ 32 + 16, false); (2 ^ 32 + 140, false);
       (2 ^ 32 + 16, true); (2 ^ 32 + 16, true)] /\
    In (2 ^ 32 + 40) (free_chunks 64 s)) /\
  leaves 64 (stale_left_size ++ [Write 3%nat 32 8]) (fun _ s =>
    In (2 ^ 32 + 40) (free_chunks 64 s) /\ chunk_size s (2 ^ 32 + 40) = 8).
Proof.
  split; vm_compute.
  - split; [reflexivity|]. right. left. reflexivity.
  - split; [|reflexivity]. right. left. reflexivity.
Qed.

(** ** C2, C3, C9: what the code does there *)

(** C2 (the code departs from it): [wmalloc] announces a chunk of at least
    the requested size plus overhead, and the README has it called like
    [malloc].  As the first call of a process, a request of [2^64 - 1] bytes
    is answered with a pointer to a chunk of 40 bytes in a region of 131072
    bytes: the requirement [n + 24] is computed modulo [2^64].  While a chunk
    of 602112 bytes is free, a request of [2^32 + 76] bytes reaches
    [search_bin] as the [int] 100 and is answered with that chunk, and
    nothing is mapped.  After a request of 17 bytes, which takes 41 bytes, a
    request of 1 byte is answered with a pointer that is 1 modulo 8. *)
Theorem wmalloc_dispenses_less_than_requested :
  necessary_length (2 ^ 64 - 1) = 40 /\
  then_holds (wmalloc 64 (os_at 1) (2 ^ 64 - 1) initial_state) (fun p s' =>
    p = 2 ^ 32 + 16 /\ chunk_size s' (p - 16) = 40 /\
    mapped s' = [(2 ^ 32, 131072); (4096, 2208)]) /\
  to_int (necessary_length (2 ^ 32 + 76)) = 100 /\
  (let s := state_after 64 [Malloc (os_at 1) 600000; Free 0%nat] in
   free_chunks 64 s = [2 ^ 32] /\
   then_holds (wmalloc 64 (os_at 2) (2 ^ 32 + 76) s) (fun p s' =>
     p = 2 ^ 32 + 16 /\ chunk_size s' (p - 16) = 602112 /\
     mapped s' = mapped s)) /\
  leaves 64 [Malloc (os_at 1) 17; Malloc (os_at 2) 1] (fun bufs s =>
    map buf_ptr bufs = [2 ^ 32 + 16; 2 ^ 32 + 57] /\
    chunk_size s (2 ^ 32) = 41 /\ (2 ^ 32 + 57) mod 8 = 1).
Proof. vm_compute. repeat split; reflexivity. Qed.

(** C3 (the code departs from it): sizes are not rounded to the word size,
    and a chunk in use can be put into a bin.  A first request of 17 bytes
    is served with a chunk of 41 bytes and leaves a residue of 131031 bytes.
    With requests that are all multiples of 8: when the second buffer of
    [chunk_in_use_released] is released, its leading word still announces
    the free left neighbour of 128 bytes that was there before 16 bytes were
    taken from it; [wfree] joins the two, and the chunk at [2^32], in use
    for the 16 bytes, lies in a bin with size 168.  The next request of 104
    bytes is served from it: two live buffers start at [2^32 + 16], and the
    free chunk at [2^32 + 40] has its size field at byte 32 of them.  Once
    the owner stores 8 there, a chunk of the bins has size 8. *)
Theorem managed_sizes_leave_the_bounds :
  leaves 64 [Malloc (os_at 1) 17]
    (fun bufs s => managed_sizes 64 bufs s = [41; 131031]) /\
  leaves 64 chunk_in_use_released (fun bufs s =>
    map (fun b => (buf_ptr b, buf_live b)) bufs
    = [(2 ^ 32 + 16, false); (2 ^ 32 + 144, false); (2 ^ 32 + 16, true)] /\
    free_chunks 64 s = [2 ^ 32 + 40; 2 ^ 32; 2 ^ 32 + 256] /\
    chunk_size s (2 ^ 32) = 168) /\
  leaves 64 (chunk_in_use_released ++ [Malloc (os_at 2) 104]) (fun bufs s =>
    map (fun b => (buf_ptr b, buf_len b, buf_live b)) (filter buf_live bufs)
    = [(2 ^ 32 + 16, 16, true); (2 ^ 32 + 16, 104, true)] /\
    free_chunks 64 s = [2 ^ 32 + 128; 2 ^ 32 + 40; 2 ^ 32 + 256] /\
    managed_sizes 64 bufs s = [128; 128; 40; 88; 130816]) /\
  leaves 64 (chunk_in_use_released ++ [Malloc (os_at 2) 104; Write 3%nat 32 8])
    (fun bufs s =>
       free_chunks 64 s = [2 ^ 32 + 128; 2 ^ 32 + 40; 2 ^ 32 + 256] /\
       managed_sizes 64 bufs s = [128; 128; 40; 8; 130816]).
Proof. vm_compute. repeat split; reflexivity. Qed.

(** C9 (the code departs from it): a request of [2^31 - 24] bytes needs
    [2^31] bytes, which [search_bin] receives as the [int] [- 2^31] and
    compares as [2^64 - 2^31].  The first call maps a region of
    [2^31 + 4096] bytes; after [wfree] the whole region is one free chunk, in
    bin 45, where [find_bin] sends the second call; [search_bin] passes it
    by, and the second call maps another region of the same length. *)
Theorem released_chunk_is_not_found_again :
  let n := 2 ^ 31 - 24 in
  necessary_length n = 2 ^ 31 /\ to_int (necessary_length n) = - 2 ^ 31 /\
  seen (necessary_length n) = 2 ^ 64 - 2 ^ 31 /\
  then_holds (wmalloc 64 (os_at 1) n initial_state) (fun p s1 =>
    p = 2 ^ 32 + 16 /\
    then_holds (wfree 64 p s1) (fun _ s2 =>
      free_chunks 64 s2 = [2 ^ 32] /\ chunk_size s2 (2 ^ 32) = 2 ^ 31 + 4096 /\
      returns (find_bin 64 (necessary_length n) s2) 45 /\
      bin_chunks 64 s2 45 = [2 ^ 32] /\
      then_holds (wmalloc 64 (os_at 2) n s2) (fun p' s3 =>
        p' = 2 * 2 ^ 32 + 16 /\
        mapped s3 = (2 * 2 ^ 32, 2 ^ 31 + 4096) :: mapped s2 /\
        free_chunks 64 s3 = [2 * 2 ^ 32 + 2 ^ 31; 2 ^ 32]))).
Proof. vm_compute. repeat split; reflexivity. Qed.

(** ** C4, C5, C10: the flag bit of a fresh boundary *)

(** C4 (the code departs from it): a released chunk whose following neighbour
    is free stays apart from it.  A buffer is dirtied and released; 16 bytes
    are taken from the same place: the residue at [2^32 + 40] is free; the
    16 bytes are released: the chunk at [2^32] keeps its size 40 and goes to
    bin 0, next to the free residue.  The second caller writes nothing and
    gets the same through sizes 48 and 41. *)
Theorem release_leaves_adjacent_free_chunks :
  leaves 64 (dirty_buffer ++ [Malloc (os_at 2) 16])
    (fun _ s => free_chunks 64 s = [2 ^ 32 + 40]) /\
  leaves 64 (dirty_buffer ++ [Malloc (os_at 2) 16; Free 1%nat])
    (fun _ s => free_chunks 64 s = [2 ^ 32; 2 ^ 32 + 40] /\
                chunk_size s (2 ^ 32) = 40 /\ adjacent_free 64 s = true) /\
  leaves 64 odd_sizes
    (fun _ s => free_chunks 64 s = [2 ^ 32; 2 ^ 32 + 41] /\
                chunk_size s (2 ^ 32) = 41 /\ adjacent_free 64 s = true).
Proof. vm_compute. repeat split; reflexivity. Qed.

(** C5 (the code departs from it): [split_chunk] on the free chunk the
    registry offers for a requirement of 40 bytes, in the state the dirtied
    buffer leaves: the chunk is split into 40 bytes and a residue that is put
    into a bin, but the residue's leading word ends with its flag bit clear:
    the dispensed chunk is described as available. *)
Theorem split_chunk_marks_dispensed_chunk_free :
  then_holds (find_free_chunk 64 40 (state_after 64 dirty_buffer)) (fun c s1 =>
    c = 2 ^ 32 /\ chunk_size s1 c = 131072 /\
    then_holds (split_chunk 64 c 40 s1) (fun _ s2 =>
      chunk_size s2 c = 40 /\ chunk_size s2 (c + 40) = 131032 /\
      free_chunks 64 s2 = [c + 40] /\
      Z.testbit (prev_word s2 (c + 40)) 63 = false /\
      returns (is_prev_available (c + 40) s2) 1)).
Proof. vm_compute. repeat split; reflexivity. Qed.

(** C10 (the code departs from it): at the moment [split_chunk] calls
    [set_unavailable], the leading word of the right neighbour has its top
    bit set, and the exclusive-or clears it.  First with the dirtied buffer,
    then without any write by the caller (requests of 104 and 89 bytes). *)
Theorem set_unavailable_meets_a_set_flag :
  then_holds (find_free_chunk 64 40 (state_after 64 dirty_buffer)) (fun c s1 =>
    then_holds (split_residue 64 c 40 s1) (fun _ s2 =>
      Z.testbit (prev_word s2 (c + chunk_size s2 c)) 63 = true /\
      then_holds (set_unavailable c s2) (fun _ s3 =>
        Z.testbit (prev_word s3 (c + chunk_size s3 c)) 63 = false))) /\
  then_holds (find_free_chunk 64 113 (state_after 64 old_boundary)) (fun c s1 =>
    then_holds (split_residue 64 c 113 s1) (fun _ s2 =>
      Z.testbit (prev_word s2 (c + chunk_size s2 c)) 63 = true /\
      then_holds (set_unavailable c s2) (fun _ s3 =>
        Z.testbit (prev_word s3 (c + chunk_size s3 c)) 63 = false))).
Proof. vm_compute. repeat split; reflexivity. Qed.

(** ** C8: the sentinel of a bin *)

(** C8 (the code departs from it): a request of [2^32 - 24] bytes needs
    [2^32] bytes, which [search_bin] receives as the [int] 0; the walk starts
    at the dummy node of bin 45, whose size 0 is not below 0, so the dummy is
    selected and handed to [remove_chunk], which writes through its null
    [left_ptr]. *)
Theorem search_bin_selects_the_dummy :
  let s := state_after 64 [Malloc (os_at 1) 1] in
  let n := 2 ^ 32 - 24 in
  to_int (necessary_length n) = 0 /\
  returns (find_bin 64 (necessary_length n) s) 45 /\
  returns (search_bin_select 64 (dummy_addr (wmalloc_ptr s) 45)
             (to_int (necessary_length n)) s) (dummy_addr (wmalloc_ptr s) 45) /\
  search_bin 64 45 (to_int (necessary_length n)) s = Err Segfault /\
  wmalloc 64 (os_at 2) n s = Err Segfault /\
  wmalloc 64 (os_at 1) n initial_state = Err Segfault.
Proof. vm_compute. repeat split; reflexivity. Qed.

(** ** Requests whose requirement reaches [search_bin] unharmed *)

(** For an engine that works as designed (not yet
    initialized, or with well-formed free lists), answers of the operating
    system that are sound, and a request of [n] bytes with [n + 24 < 2^32]
    (what passes through the [int] parameter of [search_bin] unharmed):
    the call does not fault; it aborts only when the registry has nothing to
    offer and [mmap] fails; and when it returns a non-null pointer [p], the
    chunk at [p - 16] has at least [n + 24] bytes and lies in mapped memory,
    so that [p] points to at least [n] writable bytes.  [p] is a multiple of
    8 when the free chunks of the registry and the region answered by [mmap]
    start at multiples of 8 -- which the engine does not maintain, since
    sizes are not rounded. *)
Theorem wmalloc_gives_room (fuel : nat) (e : os_env) (n : Z) (s : state) (G : gbins) :
  engine_ok s G -> os_sound s e (mmap_length (necessary_length n)) ->
  0 <= n -> n + CHUNK_OVERHEAD < 2 ^ 32 ->
  (48 + longest G <= fuel)%nat ->
  match wmalloc fuel e n s with
  | Ok p s' =>
      p <> NULL ->
      n + CHUNK_OVERHEAD <= chunk_size s' (p - 16) /\
      0 < p - 16 /\ p - 16 + chunk_size s' (p - 16) <= 2 ^ 64 /\
      range_mapped s' (p - 16) (chunk_size s' (p - 16)) /\
      ((forall x, In x (all_chunks G) -> fst x mod 8 = 0) ->
       mmap_ret e mod 8 = 0 -> p mod 8 = 0)
  | Err x => x = AssertFail /\ mmap_ret e = MAP_FAILED
  end.
Proof.
  intros He Hos Hn Hn' Hfuel.
  pose proof (necessary_length_small n Hn
                ltac:(unfold CHUNK_OVERHEAD in *; lia)) as Er.
  destruct (wmalloc_cases fuel e n s G He Hos Hn Hn' Hfuel)
    as [(_ & _ & s' & E)|[(Hf & _ & E)|(c & sz & s' & E & Hd & Hc)]];
    rewrite E.
  - intros H. now elim H.
  - auto.
  - intros _. replace (c + 16 - 16) with c by lia.
    destruct Hd as (D1 & D2 & D3 & D4 & D5).
    unfold MINIMUM_CHUNK_SIZE, CHUNK_OVERHEAD in *.
    assert (Hsz : necessary_length n <= chunk_size s' c <= sz).
    { destruct (necessary_length n + 40 <=? sz) eqn:Esp.
      - destruct D5 as [D5 _]. lia.
      - lia. }
    conj_split; try lia.
    + destruct D4 as (m & Hm & H1 & H2). exists m. split; [exact Hm|lia].
    + intros Hal Hmm.
      assert (Hc8 : c mod 8 = 0).
      { destruct Hc as [(-> & _)|[Hin _]]; [exact Hmm|].
        apply (Hal (c, sz) Hin). }
      rewrite Z.add_mod, Hc8 by lia. reflexivity.
Qed.

(** The registry after a first buffer was taken and released holds the whole
    region as one chunk, and is well formed. *)
Lemma well_formed_after_release :
  wf (state_after 64 [Malloc (os_at 1) 100; Free 0%nat])
     (one_chunk (2 ^ 32, 131072)).
Proof.
  destruct (ok_inv (wmalloc 64 (os_at 1) 100 initial_state)
              (fun p _ => p = 2 ^ 32 + 16)) as (p & s1 & E & ->).
  { vm_compute. reflexivity. }
  assert (Hos : os_sound initial_state (os_at 1) (mmap_length (necessary_length 100))).
  { split.
    - intros _. right. vm_compute. split; [reflexivity|discriminate].
    - right. split; [reflexivity|]. split; [vm_compute; discriminate|].
      intros r [<-|[]]. right. vm_compute. discriminate. }
  destruct (fresh_release_reuse 64 (os_at 1) (os_at 1) 100 initial_state no_chunks
              _ s1 (or_introl (conj eq_refl eq_refl)) (lookup_no_chunks _) Hos
              ltac:(lia) ltac:(unfold CHUNK_OVERHEAD; lia)
              ltac:(vm_compute; lia) E ltac:(discriminate))
    as (s2 & _ & l1 & l2 & E2 & HG & W2 & _).
  cbn [no_chunks] in HG. symmetry in HG. apply app_eq_nil in HG.
  destruct HG as [-> ->].
  assert (Es : state_after 64 [Malloc (os_at 1) 100; Free 0%nat] = s2).
  { unfold state_after. cbn [run]. rewrite E.
    cbn [app nth_error buf_live buf_ptr].
    change (negb (2 ^ 32 + 16 =? NULL)) with true. cbv iota.
    rewrite E2. reflexivity. }
  rewrite Es. exact W2.
Qed.

(** The first allocation of a process, and an allocation served by the
    registry after a release. *)
Lemma wmalloc_gives_room_witness :
  (exists p s', wmalloc 64 (os_at 1) 100 initial_state = Ok p s' /\
     p = 2 ^ 32 + 16 /\ 124 <= chunk_size s' (p - 16) /\
     range_mapped s' (p - 16) (chunk_size s' (p - 16)) /\ p mod 8 = 0) /\
  (exists p s', wmalloc 64 (os_at 2) 50
                  (state_after 64 [Malloc (os_at 1) 100; Free 0%nat]) = Ok p s' /\
     p = 2 ^ 32 + 16 /\ 74 <= chunk_size s' (p - 16) /\
     range_mapped s' (p - 16) (chunk_size s' (p - 16)) /\ p mod 8 = 0).
Proof.
  split.
  - destruct (ok_inv (wmalloc 64 (os_at 1) 100 initial_state)
                (fun p _ => p = 2 ^ 32 + 16)) as (p & s' & E & Hp).
    { vm_compute. reflexivity. }
    exists p, s'. split; [exact E|]. split; [exact Hp|].
    assert (Hos : os_sound initial_state (os_at 1) (mmap_length (necessary_length 100))).
    { split.
      - intros _. right. vm_compute. split; [reflexivity|discriminate].
      - right. split; [reflexivity|]. split; [vm_compute; discriminate|].
        intros r [<-|[]]. right. vm_compute. discriminate. }
    pose proof (wmalloc_gives_room 64 (os_at 1) 100 initial_state no_chunks
                  (or_introl (conj eq_refl eq_refl)) Hos
                  ltac:(lia) ltac:(unfold CHUNK_OVERHEAD; lia)
                  ltac:(vm_compute; lia)) as H.
    rewrite E in H.
    destruct (H ltac:(subst p; discriminate)) as (H1 & _ & _ & H4 & H5).
    split; [exact H1|]. split; [exact H4|].
    apply H5; [intros x []|reflexivity].
  - set (s := state_after 64 [Malloc (os_at 1) 100; Free 0%nat]).
    destruct (ok_inv (wmalloc 64 (os_at 2) 50 s)
                (fun p _ => p = 2 ^ 32 + 16)) as (p & s' & E & Hp).
    { vm_compute. reflexivity. }
    exists p, s'. split; [exact E|]. split; [exact Hp|].
    assert (Hos : os_sound s (os_at 2) (mmap_length (necessary_length 50))).
    { split.
      - intros H. vm_compute in H. discriminate.
      - right. split; [reflexivity|]. split; [vm_compute; discriminate|].
        intros r Hr. vm_compute in Hr.
        destruct Hr as [<-|[<-|[]]]; right; vm_compute; discriminate. }
    pose proof (wmalloc_gives_room 64 (os_at 2) 50 s (one_chunk (2 ^ 32, 131072))
                  (or_intror well_formed_after_release) Hos
                  ltac:(lia) ltac:(unfold CHUNK_OVERHEAD; lia)
                  ltac:(vm_compute; lia)) as H.
    rewrite E in H.
    destruct (H ltac:(subst p; discriminate)) as (H1 & _ & _ & H4 & H5).
    split; [exact H1|]. split; [exact H4|].
    apply H5; [|reflexivity].
    intros x Hx. vm_compute in Hx. destruct Hx as [<-|[]]. reflexivity.
Defined.

(** ** Sizes of the chunks one allocation produces *)

(** Under the same conditions, the chunk a
    successful call dispenses, taken from a chunk of [sz] bytes (a free chunk
    of the registry, or the fresh region), has at least 40 bytes: it has the
    [r = max 40 (n + 24)] bytes required when [sz >= r + 40], and the residue
    of [sz - r >= 40] bytes follows it; otherwise it keeps its [sz >= r]
    bytes.  Sizes are not rounded: they are multiples of 8 when [n] is one
    and the free chunks of the registry have sizes that are. *)
Theorem wmalloc_chunk_sizes (fuel : nat) (e : os_env) (n : Z) (s : state) (G : gbins) :
  engine_ok s G -> os_sound s e (mmap_length (necessary_length n)) ->
  0 <= n -> n + CHUNK_OVERHEAD < 2 ^ 32 ->
  (48 + longest G <= fuel)%nat ->
  match wmalloc fuel e n s with
  | Ok p s' =>
      p <> NULL ->
      let c := p - 16 in
      let r := Z.max MINIMUM_CHUNK_SIZE (n + CHUNK_OVERHEAD) in
      exists sz,
        (sz = mmap_length r \/ In (c, sz) (all_chunks G)) /\
        MINIMUM_CHUNK_SIZE <= chunk_size s' c /\
        (r + MINIMUM_CHUNK_SIZE <= sz ->
           chunk_size s' c = r /\ chunk_size s' (c + r) = sz - r /\
           MINIMUM_CHUNK_SIZE <= chunk_size s' (c + r)) /\
        (sz < r + MINIMUM_CHUNK_SIZE -> chunk_size s' c = sz /\ r <= sz) /\
        (n mod 8 = 0 -> (forall x, In x (all_chunks G) -> snd x mod 8 = 0) ->
           chunk_size s' c mod 8 = 0 /\
           (r + MINIMUM_CHUNK_SIZE <= sz -> chunk_size s' (c + r) mod 8 = 0))
  | Err x => x = AssertFail /\ mmap_ret e = MAP_FAILED
  end.
Proof.
  intros He Hos Hn Hn' Hfuel.
  pose proof (necessary_length_small n Hn
                ltac:(unfold CHUNK_OVERHEAD in *; lia)) as Er.
  destruct (wmalloc_cases fuel e n s G He Hos Hn Hn' Hfuel)
    as [(_ & _ & s' & E)|[(Hf & _ & E)|(c & sz & s' & E & Hd & Hc)]];
    rewrite E.
  - intros H. now elim H.
  - auto.
  - intros _. cbv zeta. replace (c + 16 - 16) with c by lia.
    rewrite Er in Hd, Hc.
    set (r := Z.max MINIMUM_CHUNK_SIZE (n + CHUNK_OVERHEAD)) in *.
    destruct Hd as (D1 & D2 & D3 & D4 & D5).
    assert (Hr : MINIMUM_CHUNK_SIZE <= r) by (unfold r; lia).
    exists sz. split; [destruct Hc as [(_ & -> & _)|[Hin _]]; auto|].
    assert (Hsz8 : n mod 8 = 0 ->
              (forall x, In x (all_chunks G) -> snd x mod 8 = 0) ->
              r mod 8 = 0 /\ sz mod 8 = 0).
    { intros Hn8 Hal. split.
      - unfold r, MINIMUM_CHUNK_SIZE, CHUNK_OVERHEAD.
        destruct (Z.max_spec 40 (n + 24)) as [[_ ->]|[_ ->]]; [|reflexivity].
        rewrite Z.add_mod, Hn8 by lia. reflexivity.
      - destruct Hc as [(_ & -> & _)|[Hin _]]; [|apply (Hal (c, sz) Hin)].
        unfold mmap_length, MMAP_SIZE, PAGE_SIZE.
        destruct (r <=? 131072); [reflexivity|].
        unfold wrap64.
        replace (2 ^ 64) with (8 * 2 ^ 61) by reflexivity.
        rewrite Z.rem_mul_r by lia.
        replace ((r / 4096 + 1) * 4096) with ((r / 4096 + 1) * 512 * 8) by lia.
        rewrite Z.mod_mul by lia.
        rewrite Z.add_0_l, Z.mul_comm, Z.mod_mul by lia. reflexivity. }
    unfold MINIMUM_CHUNK_SIZE in *.
    destruct (r + 40 <=? sz) eqn:Esp.
    + apply Z.leb_le in Esp. destruct D5 as [D5 D6].
      rewrite D5, D6. conj_split; try lia.
      * intros Hn8 Hal. destruct (Hsz8 Hn8 Hal) as [H1 H2].
        split; [exact H1|]. intros _.
        rewrite Zminus_mod, H1, H2. reflexivity.
    + apply Z.leb_gt in Esp. rewrite D5. conj_split; try lia.
      intros Hn8 Hal. destruct (Hsz8 Hn8 Hal) as [H1 H2].
      split; [exact H2|]. lia.
Qed.

Lemma wmalloc_chunk_sizes_witness :
  exists p s', wmalloc 64 (os_at 1) 17 initial_state = Ok p s' /\
    chunk_size s' (p - 16) = 41 /\ chunk_size s' (p - 16 + 41) = 131031.
Proof.
  destruct (ok_inv (wmalloc 64 (os_at 1) 17 initial_state)
              (fun p _ => p <> NULL)) as (p & s' & E & Hp).
  { vm_compute. discriminate. }
  exists p, s'. split; [exact E|].
  assert (Hos : os_sound initial_state (os_at 1) (mmap_length (necessary_length 17))).
  { split.
    - intros _. right. vm_compute. split; [reflexivity|discriminate].
    - right. split; [reflexivity|]. split; [vm_compute; discriminate|].
      intros r [<-|[]]. right. vm_compute. discriminate. }
  pose proof (wmalloc_chunk_sizes 64 (os_at 1) 17 initial_state no_chunks
                (or_introl (conj eq_refl eq_refl)) Hos
                ltac:(lia) ltac:(unfold CHUNK_OVERHEAD; lia)
                ltac:(vm_compute; lia)) as H.
  rewrite E in H. cbv zeta in H.
  destruct (H Hp) as (sz & [->|[]] & _ & H2 & _).
  change (Z.max MINIMUM_CHUNK_SIZE (17 + CHUNK_OVERHEAD)) with 41 in H2.
  change (mmap_length 41) with 131072 in H2.
  destruct (H2 ltac:(unfold MINIMUM_CHUNK_SIZE; lia)) as (H3 & H4 & _).
  split; [exact H3|exact H4].
Defined.

(** ** Allocate, release, allocate again *)

(** For an engine that works as designed whose
    registry has no chunk to offer for the request (as overall in a process
    that has not allocated yet), so that the first allocation maps a fresh
    region, for answers of the operating system that are sound and a request
    with [n + 24 < 2^31]: if [wmalloc n] returns a non-null [p], then
    [wfree p] succeeds and the next [wmalloc n] returns [p] again without
    mapping anything, whatever the operating system would answer. *)
Theorem reuse_after_release (fuel : nat) (e1 e2 : os_env) (n : Z) (s : state)
    (G : gbins) (p : Z) (s1 : state) :
  engine_ok s G -> lookup G (necessary_length n) = None ->
  os_sound s e1 (mmap_length (necessary_length n)) ->
  0 <= n -> n + CHUNK_OVERHEAD < 2 ^ 31 -> (49 + longest G <= fuel)%nat ->
  wmalloc fuel e1 n s = Ok p s1 -> p <> NULL ->
  exists s2 s3, wfree fuel p s1 = Ok tt s2 /\
    wmalloc fuel e2 n s2 = Ok p s3 /\ mapped s3 = mapped s2.
Proof.
  intros He Hl Hos Hn Hn' Hfuel E Hp.
  destruct (fresh_release_reuse fuel e1 e2 n s G p s1 He Hl Hos Hn Hn' Hfuel E Hp)
    as (s2 & s3 & _ & _ & E2 & _ & _ & E3 & _ & Hm).
  exists s2, s3. auto.
Qed.

Lemma reuse_after_release_witness :
  exists p s1 s2 s3,
    wmalloc 64 (os_at 1) 1 initial_state = Ok p s1 /\ p = 2 ^ 32 + 16 /\
    wfree 64 p s1 = Ok tt s2 /\
    wmalloc 64 os_no_mmap 1 s2 = Ok p s3 /\ mapped s3 = mapped s2.
Proof.
  destruct (ok_inv (wmalloc 64 (os_at 1) 1 initial_state)
              (fun p _ => p = 2 ^ 32 + 16)) as (p & s1 & E & Hp).
  { vm_compute. reflexivity. }
  assert (Hos : os_sound initial_state (os_at 1) (mmap_length (necessary_length 1))).
  { split.
    - intros _. right. vm_compute. split; [reflexivity|discriminate].
    - right. split; [reflexivity|]. split; [vm_compute; discriminate|].
      intros r [<-|[]]. right. vm_compute. discriminate. }
  destruct (reuse_after_release 64 (os_at 1) os_no_mmap 1 initial_state no_chunks
              p s1 (or_introl (conj eq_refl eq_refl)) (lookup_no_chunks _) Hos
              ltac:(lia) ltac:(unfold CHUNK_OVERHEAD; lia)
              ltac:(vm_compute; lia) E ltac:(subst p; discriminate))
    as (s2 & s3 & E2 & E3 & Hm).
  exists p, s1, s2, s3. auto.
Defined.

(** * Further properties of the code *)

(** ** The engine's block and the scan of the bounds *)

(** X1: when [sbrk] grants the block, [initialize_wmalloc] returns 1 and
    [wmalloc_ptr] is the block.  Each of the 46 bins points to its dummy
    node, which has size 0 and no successor, and [bin_index] holds the 46
    bounds 40, 48, ..., 128, 144, ..., 256, 288, ..., 512, 576, ..., 1024,
    2048, ..., 524288, [2^64 - 1].  Only the block is mapped, and no byte
    outside it is written. *)
Theorem initialize_wmalloc_sets_up_empty_bins (e : os_env) (s : state) :
  0 < sbrk_ret e -> sbrk_ret e + sizeof_wmalloc_info <= 2 ^ 64 ->
  exists s', initialize_wmalloc e s = Ok 1 s' /\
    wmalloc_ptr s' = sbrk_ret e /\
    mapped s' = (sbrk_ret e, sizeof_wmalloc_info) :: mapped s /\
    (forall i, 0 <= i < NUM_BINS ->
       load64 (mem s') (bin_addr (sbrk_ret e) i) = dummy_addr (sbrk_ret e) i /\
       chunk_size s' (dummy_addr (sbrk_ret e) i) = 0 /\
       load64 (mem s') (dummy_addr (sbrk_ret e) i + off_right_ptr) = NULL /\
       load64 (mem s') (bin_index_addr (sbrk_ret e) i) = nth (Z.to_nat i) bin_bounds 0) /\
    (forall a, a + 8 <= sbrk_ret e \/ sbrk_ret e + sizeof_wmalloc_info <= a ->
       load64 (mem s') a = load64 (mem s) a).
Proof.
  intros Hpos Htop.
  assert (Hsf : sbrk_ret e <> MAP_FAILED)
    by (unfold MAP_FAILED, sizeof_wmalloc_info in *; lia).
  destruct (initialize_wmalloc_ok e s Hsf Hpos Htop) as (s' & E & Hwp & Hmp & R & Hfr).
  exists s'. split; [exact E|]. split; [exact Hwp|]. split; [exact Hmp|].
  split; [|exact Hfr].
  intros i Hi. pose proof (reg_info s' no_chunks R) as [_ _ _ I4 I5 I6].
  pose proof (reg_lists s' no_chunks R i Hi) as Hseg.
  rewrite Hwp in *. cbn [no_chunks map lseg] in Hseg.
  split; [now apply I4|]. split; [now apply I5|]. split; [exact Hseg|].
  now apply I6.
Qed.

Lemma initialize_wmalloc_witness :
  exists s', initialize_wmalloc (os_at 1) initial_state = Ok 1 s' /\
    wmalloc_ptr s' = 4096 /\ mapped s' = [(4096, 2208)].
Proof.
  destruct (initialize_wmalloc_sets_up_empty_bins (os_at 1) initial_state)
    as (s' & E & H1 & H2 & _).
  - vm_compute. reflexivity.
  - vm_compute. discriminate.
  - exists s'. split; [exact E|]. split; [exact H1|exact H2].
Defined.

(** X2: on an initialized engine [find_bin] returns, for every requirement
    [r], the least bin [i >= 1] whose bound is at least [r], and changes
    nothing.  It never returns bin 0, also not for [r <= 40], and never
    leaves the table: the last bound [2^64 - 1] stops the scan at bin 45. *)
Theorem find_bin_returns_least_bin (s : state) (r : Z) (fuel : nat) :
  info_ok s -> 0 <= r < 2 ^ 64 -> (45 <= fuel)%nat ->
  exists i, find_bin fuel r s = Ok i s /\ 1 <= i <= 45 /\ r <= U i /\
    forall j, 1 <= j < i -> U j < r.
Proof.
  intros I Hr Hf. exists (find_of r).
  split; [apply find_bin_ok; [exact I|lia|exact Hf]|].
  apply find_of_spec. lia.
Qed.

Lemma find_bin_witness :
  exists i, find_bin 64 100 (state_after 64 [Malloc (os_at 1) 100])
            = Ok i (state_after 64 [Malloc (os_at 1) 100]) /\
    1 <= i <= 45 /\ 100 <= U i /\ forall j, 1 <= j < i -> U j < 100.
Proof.
  pose proof sample_wf as W. revert W.
  generalize (state_after 64 [Malloc (os_at 1) 100]). intros s W.
  apply (find_bin_returns_least_bin s 100 64).
  - exact (wf_info _ _ W).
  - lia.
  - lia.
Defined.

(** ** Bins as ordered lists *)

(** X3: [add_chunk] puts a chunk of size [sz] into the bin [b] that is the
    least one with [sz <= bin_index[b]], behind every chunk of the bin that
    is not larger and before all larger ones: a bin in ascending order of
    size stays so, and the other bins are not touched.  The chunk must be
    accessible and apart from the engine's block and from the nodes of the
    registry. *)
Theorem add_chunk_keeps_bins_sorted (s : state) (G : gbins) (c : Z) (fuel : nat) :
  reg s G -> bins_sorted G ->
  0 < c < 2 ^ 64 -> hdr_ok s c ->
  apart (c + 8) 24 (wmalloc_ptr s) sizeof_wmalloc_info ->
  (forall d, In d (nodes (wmalloc_ptr s) G) -> apart (c + 8) 24 (d + 8) 24) ->
  (46 <= fuel)%nat -> (longest G < fuel)%nat ->
  let sz := chunk_size s c in
  let b := bin_of sz in
  exists s' l1 l2, add_chunk fuel c s = Ok tt s' /\
    0 <= b <= 45 /\ sz <= U b /\ (forall j, 0 <= j < b -> U j < sz) /\
    G b = l1 ++ l2 /\
    (forall y, In y l1 -> snd y <= sz) /\ (forall y, In y l2 -> sz < snd y) /\
    reg s' (set_bin G b (l1 ++ (c, sz) :: l2)) /\
    bins_sorted (set_bin G b (l1 ++ (c, sz) :: l2)).
Proof.
  intros R Hs Hc Hh Hci Hcn Hf1 Hf2 sz b.
  assert (Hsz : sz < 2 ^ 64) by apply load64_range.
  destruct (bin_of_spec sz Hsz) as (Hb & HU & Hlow). fold b in Hb, HU, Hlow.
  assert (Hb' : 0 <= b < NUM_BINS) by (unfold NUM_BINS; lia).
  pose proof (longest_ge G b Hb') as Hlen.
  destruct (reg_add_pos s G c fuel R Hc Hh Hci Hcn Hf1 ltac:(fold sz b; lia))
    as (s' & l1 & l2 & E & HG & R' & _ & P1 & P2).
  fold sz b in HG, R', P1, P2.
  pose proof (Hs b Hb') as Hasc. rewrite HG in Hasc.
  exists s', l1, l2. conj_split; try assumption; try (destruct Hb; assumption).
  - apply (ascending_behind l2 sz (ascending_app_r l1 l2 Hasc) P2).
  - apply bins_sorted_set; [exact Hs|].
    apply ascending_insert; [exact Hasc|exact P1|exact P2].
Qed.

Lemma add_chunk_witness :
  exists s' l1 l2,
    add_chunk 64 (2 ^ 32) (state_after 64 [Malloc (os_at 1) 100]) = Ok tt s' /\
    reg s' (set_bin (one_chunk (2 ^ 32 + 124, 130948)) 11 (l1 ++ (2 ^ 32, 124) :: l2)).
Proof.
  pose proof sample_facts as F. pose proof sample_apart as A.
  pose proof sample_hdr as Hh. pose proof sample_wf as W.
  cbv zeta in F, A. revert F A Hh W.
  generalize (state_after 64 [Malloc (os_at 1) 100]).
  intros s (_ & _ & Hsz) (Hinfo & Hnodes) Hh W.
  destruct (add_chunk_keeps_bins_sorted s (one_chunk (2 ^ 32 + 124, 130948)) (2 ^ 32) 64)
    as (s' & l1 & l2 & E & _ & _ & _ & _ & _ & _ & R' & _).
  - exact (wf_reg _ _ W).
  - apply bins_sorted_one.
  - lia.
  - exact Hh.
  - exact Hinfo.
  - exact Hnodes.
  - lia.
  - pose proof (longest_one (2 ^ 32 + 124, 130948)). lia.
  - rewrite Hsz in R'. change (bin_of 124) with 11 in R'.
    exists s', l1, l2. split; [exact E|exact R'].
Defined.

Lemma remove_chunk_clears (c c' : Z) (s s' : state) :
  remove_chunk c s = Ok c' s' ->
  load64 (mem s') (c + off_left_ptr) = NULL /\
  load64 (mem s') (c + off_right_ptr) = NULL.
Proof.
  unfold remove_chunk. intros H. inv_run.
  unfold off_left_ptr, off_right_ptr, NULL. cbn [mem upd_mem]. split.
  - now rewrite load64_store64_same.
  - rewrite load64_store64_other by lia. now rewrite load64_store64_same.
Qed.

(** X4: [remove_chunk] of a chunk [x] that is in bin [i] of a registry in
    order returns [x], unlinks exactly [x] and keeps the order of the other
    chunks; both link fields of [x] are then [NULL], its size is unchanged,
    and only link fields of nodes of the registry were written. *)
Theorem remove_chunk_unlinks (s : state) (G : gbins) (i : Z) (l1 l2 : list (Z * Z))
    (x : Z * Z) :
  reg s G -> 0 <= i < NUM_BINS -> G i = l1 ++ x :: l2 ->
  exists s', remove_chunk (fst x) s = Ok (fst x) s' /\
    reg s' (set_bin G i (l1 ++ l2)) /\
    load64 (mem s') (fst x + off_left_ptr) = NULL /\
    load64 (mem s') (fst x + off_right_ptr) = NULL /\
    chunk_size s' (fst x) = snd x /\
    only_changed (links (wmalloc_ptr s) G) s s' /\
    (bins_sorted G -> bins_sorted (set_bin G i (l1 ++ l2))).
Proof.
  intros R Hi HG.
  destruct (reg_remove s G i l1 l2 x R Hi HG) as (s' & E & R' & OC & Hsz).
  destruct (remove_chunk_clears _ _ _ _ E) as [Hl Hr].
  exists s'. conj_split; try assumption.
  intros Hs. apply bins_sorted_set; [exact Hs|].
  apply (ascending_remove x). rewrite <- HG. now apply Hs.
Qed.

Lemma remove_chunk_witness :
  exists s', remove_chunk (2 ^ 32 + 124) (state_after 64 [Malloc (os_at 1) 100])
             = Ok (2 ^ 32 + 124) s' /\
    reg s' (set_bin (one_chunk (2 ^ 32 + 124, 130948)) 42 []) /\
    chunk_size s' (2 ^ 32 + 124) = 130948.
Proof.
  pose proof sample_wf as W. revert W.
  generalize (state_after 64 [Malloc (os_at 1) 100]). intros s W.
  destruct (remove_chunk_unlinks s (one_chunk (2 ^ 32 + 124, 130948)) 42 [] []
              (2 ^ 32 + 124, 130948))
    as (s' & E & R' & _ & _ & Hsz & _).
  - exact (wf_reg _ _ W).
  - unfold NUM_BINS. lia.
  - reflexivity.
  - exists s'. split; [exact E|]. split; [exact R'|exact Hsz].
Defined.

(** X5: [add_chunk] followed by [remove_chunk] of the same chunk gives the
    registry back as it was, with the chunk's size and both link fields
    [NULL]; nothing is mapped or unmapped on the way. *)
Theorem add_then_remove_restores (s : state) (G : gbins) (c : Z) (fuel : nat) :
  reg s G ->
  0 < c < 2 ^ 64 -> hdr_ok s c ->
  apart (c + 8) 24 (wmalloc_ptr s) sizeof_wmalloc_info ->
  (forall d, In d (nodes (wmalloc_ptr s) G) -> apart (c + 8) 24 (d + 8) 24) ->
  (46 <= fuel)%nat -> (longest G < fuel)%nat ->
  exists s1 s2, add_chunk fuel c s = Ok tt s1 /\
    remove_chunk c s1 = Ok c s2 /\
    reg s2 G /\ chunk_size s2 c = chunk_size s c /\
    load64 (mem s2) (c + off_left_ptr) = NULL /\
    load64 (mem s2) (c + off_right_ptr) = NULL /\
    wmalloc_ptr s2 = wmalloc_ptr s /\ mapped s2 = mapped s.
Proof.
  intros R Hc Hh Hci Hcn Hf1 Hf2.
  set (sz := chunk_size s c).
  assert (Hsz : sz < 2 ^ 64) by apply load64_range.
  destruct (bin_of_spec sz Hsz) as (Hb & _).
  assert (Hb' : 0 <= bin_of sz < NUM_BINS) by (unfold NUM_BINS; lia).
  pose proof (longest_ge G (bin_of sz) Hb') as Hlen.
  destruct (reg_add s G c fuel R Hc Hh Hci Hcn Hf1 ltac:(fold sz; lia))
    as (s1 & l1 & l2 & E1 & HG & R1 & (W1 & M1 & _)).
  fold sz in HG, R1.
  destruct (reg_remove s1 _ (bin_of sz) l1 l2 (c, sz) R1 Hb')
    as (s2 & E2 & R2 & (W2 & M2 & _) & Hsz2).
  { unfold set_bin. now rewrite Z.eqb_refl. }
  cbn [fst snd] in *.
  destruct (remove_chunk_clears _ _ _ _ E2) as [Hl Hr].
  exists s1, s2. conj_split; try assumption; try congruence.
  apply (reg_ext s2 (set_bin (set_bin G (bin_of sz) (l1 ++ (c, sz) :: l2))
                       (bin_of sz) (l1 ++ l2))); [|exact R2].
  intros i _. rewrite set_bin_twice. now apply set_bin_same.
Qed.

Lemma add_then_remove_witness :
  exists s1 s2,
    add_chunk 64 (2 ^ 32) (state_after 64 [Malloc (os_at 1) 100]) = Ok tt s1 /\
    remove_chunk (2 ^ 32) s1 = Ok (2 ^ 32) s2 /\
    reg s2 (one_chunk (2 ^ 32 + 124, 130948)).
Proof.
  pose proof sample_apart as A. pose proof sample_hdr as Hh.
  pose proof sample_wf as W. cbv zeta in A. revert A Hh W.
  generalize (state_after 64 [Malloc (os_at 1) 100]).
  intros s (Hinfo & Hnodes) Hh W.
  destruct (add_then_remove_restores s (one_chunk (2 ^ 32 + 124, 130948)) (2 ^ 32) 64)
    as (s1 & s2 & E1 & E2 & R2 & _).
  - exact (wf_reg _ _ W).
  - lia.
  - exact Hh.
  - exact Hinfo.
  - exact Hnodes.
  - lia.
  - pose proof (longest_one (2 ^ 32 + 124, 130948)). lia.
  - exists s1, s2. split; [exact E1|]. split; [exact E2|exact R2].
Defined.

(** ** Looking for a chunk *)

Lemma int_to_u64_pos (r : Z) :
  - 2 ^ 31 <= r < 2 ^ 31 -> r <> 0 ->
  0 < int_to_u64 r /\ (0 < r -> int_to_u64 r = r) /\ (r < 0 -> int_to_u64 r = 2 ^ 64 + r).
Proof.
  intros Hr Hne. unfold int_to_u64, wrap64.
  destruct (Z_lt_ge_dec r 0).
  - replace (r mod 2 ^ 64) with (2 ^ 64 + r).
    + lia.
    + apply (Z.mod_unique r (2 ^ 64) (-1)); lia.
  - rewrite Z.mod_small by lia. lia.
Qed.

(** X6: [search_bin] on bin [i] of a registry in order, for a requirement
    that is not 0 as an [int]: the requirement is compared as a [uint64_t]
    (a negative one counts as [2^64 + r]).  The first chunk of the bin whose
    size is at least the requirement is unlinked and returned, the chunks
    before it are all smaller, and in a bin in ascending order it is the
    smallest chunk that fits.  When no chunk of the bin fits, [NULL] is
    returned and nothing changes. *)
Theorem search_bin_takes_first_fit (s : state) (G : gbins) (i r : Z) (fuel : nat) :
  reg s G -> 0 <= i < NUM_BINS -> - 2 ^ 31 <= r < 2 ^ 31 -> r <> 0 ->
  (length (G i) + 1 < fuel)%nat ->
  let q := int_to_u64 r in
  (exists l1 x l2 s', G i = l1 ++ x :: l2 /\
      (forall y, In y l1 -> snd y < q) /\ q <= snd x /\
      search_bin fuel i r s = Ok (fst x) s' /\
      reg s' (set_bin G i (l1 ++ l2)) /\ chunk_size s' (fst x) = snd x /\
      (ascending (G i) -> forall y, In y (G i) -> q <= snd y -> snd x <= snd y)) \/
  ((forall y, In y (G i) -> snd y < q) /\ search_bin fuel i r s = Ok NULL s).
Proof.
  intros R Hi Hr Hne Hfuel q.
  destruct (int_to_u64_pos r Hr Hne) as (Hq & _).
  pose proof (search_bin_reg s G i r fuel R Hi Hq Hfuel) as H.
  fold q in H.
  destruct (take_fit q (G i)) as [[x l]|] eqn:E.
  - left. destruct H as (s' & E' & R' & _ & Hsz & _ & _).
    destruct (take_fit_first q (G i) x l E) as (l1 & l2 & HG & -> & Hfit & Hlt).
    exists l1, x, l2, s'. conj_split; try assumption.
    intros Ha. now apply (take_fit_best q (G i) x (l1 ++ l2)).
  - right. split; [|exact H]. now apply take_fit_none.
Qed.

Lemma search_bin_witness :
  exists s', search_bin 64 42 100 (state_after 64 [Malloc (os_at 1) 100])
             = Ok (2 ^ 32 + 124) s' /\
    chunk_size s' (2 ^ 32 + 124) = 130948.
Proof.
  pose proof sample_wf as W. revert W.
  generalize (state_after 64 [Malloc (os_at 1) 100]). intros s W.
  destruct (search_bin_takes_first_fit s (one_chunk (2 ^ 32 + 124, 130948)) 42 100 64)
    as [(l1 & x & l2 & s' & HG & _ & _ & E & _ & Hsz & _)|(Hsmall & _)].
  - exact (wf_reg _ _ W).
  - unfold NUM_BINS. lia.
  - lia.
  - lia.
  - change (one_chunk (2 ^ 32 + 124, 130948) 42) with [(2 ^ 32 + 124, 130948)].
    cbn [length]. lia.
  - change (one_chunk (2 ^ 32 + 124, 130948) 42) with [(2 ^ 32 + 124, 130948)] in HG.
    destruct l1 as [|y l1]; [|destruct l1; discriminate HG].
    injection HG as <- _. exists s'. split; [exact E|exact Hsz].
  - exfalso. specialize (Hsmall (2 ^ 32 + 124, 130948) (or_introl eq_refl)).
    cbv in Hsmall. discriminate Hsmall.
Defined.

(** X7: [check_bigger_bins] after bin [i] of a registry in order: the first
    chunk of the first bin above [i] that is not empty is unlinked and
    returned, whatever its size; with no chunk above bin [i], and always for
    [i = 45], [NULL] is returned and nothing changes. *)
Theorem check_bigger_bins_takes_first_chunk (s : state) (G : gbins) (i : Z) (fuel : nat) :
  reg s G -> 0 <= i < NUM_BINS -> (46 <= fuel)%nat ->
  (exists j x l s', i < j < NUM_BINS /\ (forall k, i < k < j -> G k = []) /\
      G j = x :: l /\
      check_bigger_bins fuel i s = Ok (fst x) s' /\
      reg s' (set_bin G j l) /\ chunk_size s' (fst x) = snd x) \/
  ((forall k, i < k < NUM_BINS -> G k = []) /\ check_bigger_bins fuel i s = Ok NULL s).
Proof.
  intros R Hi Hfuel. unfold NUM_BINS in Hi.
  pose proof (check_bigger_reg s G R (Z.to_nat (45 - i)) (i + 1) fuel
                ltac:(lia) ltac:(unfold NUM_BINS; lia) ltac:(lia)) as H.
  unfold check_bigger_bins.
  destruct (take_bigger (Z.to_nat (45 - i)) G (i + 1)) as [[x G']|] eqn:E.
  - left. destruct H as (s' & E' & R' & _ & Hsz & _).
    destruct (take_bigger_first G _ _ _ _ E) as (j & l & Hj & Hl & -> & Hempty).
    exists j, x, l, s'. unfold NUM_BINS. conj_split; try assumption; try lia.
    intros k Hk. apply Hempty. lia.
  - right. split; [|exact H]. intros k Hk.
    apply (take_bigger_nothing G _ _ E). unfold NUM_BINS in Hk. lia.
Qed.

Lemma check_bigger_bins_witness :
  exists s', check_bigger_bins 64 11 (state_after 64 [Malloc (os_at 1) 100])
             = Ok (2 ^ 32 + 124) s' /\
    chunk_size s' (2 ^ 32 + 124) = 130948.
Proof.
  pose proof sample_wf as W. revert W.
  generalize (state_after 64 [Malloc (os_at 1) 100]). intros s W.
  destruct (check_bigger_bins_takes_first_chunk s (one_chunk (2 ^ 32 + 124, 130948)) 11 64)
    as [(j & x & l & s' & Hj & Hempty & HG & E & _ & Hsz)|(Hempty & _)].
  - exact (wf_reg _ _ W).
  - unfold NUM_BINS. lia.
  - lia.
  - destruct (Z.eq_dec j 42) as [->|Hne].
    + change (one_chunk (2 ^ 32 + 124, 130948) 42) with [(2 ^ 32 + 124, 130948)] in HG.
      injection HG as <- _. exists s'. split; [exact E|exact Hsz].
    + exfalso. unfold one_chunk, set_bin in HG. cbn [snd] in HG.
      change (bin_of 130948) with 42 in HG.
      apply Z.eqb_neq in Hne. rewrite Hne in HG. discriminate HG.
  - exfalso. specialize (Hempty 42 ltac:(unfold NUM_BINS; lia)). discriminate Hempty.
Defined.


(** X8: best fit.  On a well-formed registry whose bins are in ascending
    order, and for a requirement [r] below [2^31], the first two steps of
    [wmalloc] take a chunk that holds [r] bytes and is, among the chunks of
    more than 40 bytes, the smallest one that does; when no chunk of more
    than 40 bytes holds [r] bytes they return [NULL] and change nothing.
    Chunks of exactly 40 bytes lie in bin 0, which is not looked at. *)
Theorem find_free_chunk_best_fit (s : state) (G : gbins) (r : Z) (fuel : nat) :
  wf s G -> bins_sorted G -> 0 < r < 2 ^ 31 -> (48 + longest G <= fuel)%nat ->
  (exists x G' s', find_free_chunk fuel r s = Ok (fst x) s' /\
      In x (all_chunks G) /\ r <= snd x /\ MINIMUM_CHUNK_SIZE < snd x /\
      reg s' G' /\ chunk_size s' (fst x) = snd x /\
      forall y, In y (all_chunks G) -> r <= snd y -> MINIMUM_CHUNK_SIZE < snd y ->
        snd x <= snd y) \/
  (find_free_chunk fuel r s = Ok NULL s /\
   forall y, In y (all_chunks G) -> MINIMUM_CHUNK_SIZE < snd y -> snd y < r).
Proof.
  intros W Hs Hr Hfuel.
  pose proof (seen_small r ltac:(lia)) as Hseen.
  pose proof (find_free_chunk_spec s G r fuel (wf_reg s G W) ltac:(lia)
                ltac:(lia) Hfuel) as F.
  destruct (find_of_spec r ltac:(lia)) as (Hi & HUi & Hlow).
  set (i := find_of r) in *.
  assert (Hi' : 0 <= i < NUM_BINS) by (unfold NUM_BINS; lia).
  (* where the chunks of the bins below and above [i] stand *)
  assert (Hbelow : forall j y, 0 <= j < i -> In y (G j) ->
            MINIMUM_CHUNK_SIZE < snd y -> snd y < r).
  { intros j y Hj Hy H40.
    destruct (wf_bin_bounds s G j y W ltac:(unfold NUM_BINS; lia) Hy) as [Hb _].
    destruct (Z.eq_dec j 0) as [->|Hne].
    - change (U 0) with 40 in Hb. unfold MINIMUM_CHUNK_SIZE in *. lia.
    - specialize (Hlow j ltac:(lia)). lia. }
  assert (Habove : forall j j' y, 0 <= j -> j < j' < NUM_BINS -> In y (G j') ->
            U j < snd y).
  { intros j j' y Hj Hj' Hy.
    destruct (wf_bin_bounds s G j' y W ltac:(lia) Hy) as [_ Hb].
    specialize (Hb ltac:(lia)).
    pose proof (U_mono j (j' - 1) ltac:(lia) ltac:(lia)
                  ltac:(unfold NUM_BINS in *; lia)). lia. }
  unfold lookup in F. cbv zeta in F. fold i in F. rewrite Hseen in F.
  destruct (take_fit r (G i)) as [[x l]|] eqn:E.
  - left. destruct F as (s' & E' & R' & _ & Hsz & _).
    destruct (take_fit_first r (G i) x l E) as (l1 & l2 & HG & -> & Hfit & Hlt).
    assert (Hx : In x (G i)) by (rewrite HG; apply in_elt).
    destruct (wf_bin_bounds s G i x W Hi' Hx) as [Hxb Hxl].
    exists x, (set_bin G i (l1 ++ l2)), s'.
    conj_split; try assumption.
    + now apply bin_in_all with i.
    + specialize (Hxl ltac:(lia)).
      pose proof (U_mono 0 (i - 1) ltac:(lia) ltac:(lia) ltac:(lia)) as H0.
      change (U 0) with 40 in H0. unfold MINIMUM_CHUNK_SIZE. lia.
    + intros y Hy Hry H40. apply in_all_chunks in Hy. destruct Hy as (j & Hj & Hy).
      destruct (Z_lt_ge_dec j i) as [Hlt'|Hge].
      * specialize (Hbelow j y ltac:(lia) Hy H40). lia.
      * destruct (Z.eq_dec j i) as [->|Hne].
        -- apply (take_fit_best r (G i) x (l1 ++ l2) (Hs i Hi') E y Hy Hry).
        -- specialize (Habove i j y ltac:(lia) ltac:(lia) Hy). lia.
  - pose proof (take_fit_none r (G i) E) as Hsmall.
    destruct (take_bigger (Z.to_nat (45 - i)) G (i + 1)) as [[x G']|] eqn:E2.
    + left. destruct F as (s' & E' & R' & _ & Hsz & _).
      destruct (take_bigger_first G _ _ _ _ E2) as (j' & l & Hj' & Hl & -> & Hempty).
      assert (Hj'' : i < j' < NUM_BINS) by (unfold NUM_BINS; lia).
      assert (Hx : In x (G j')) by (rewrite Hl; now left).
      pose proof (Habove i j' x ltac:(lia) Hj'' Hx) as Hbig.
      pose proof (U_mono 0 i ltac:(lia) ltac:(lia) ltac:(lia)) as H0.
      change (U 0) with 40 in H0.
      exists x, (set_bin G j' l), s'.
      conj_split; try assumption.
      * apply bin_in_all with j'; [lia|exact Hx].
      * lia.
      * unfold MINIMUM_CHUNK_SIZE. lia.
      * intros y Hy Hry H40. apply in_all_chunks in Hy. destruct Hy as (j & Hj & Hy).
        destruct (Z_lt_ge_dec j i) as [Hlt'|Hge].
        { specialize (Hbelow j y ltac:(lia) Hy H40). lia. }
        destruct (Z.eq_dec j i) as [->|Hne].
        { specialize (Hsmall y Hy). lia. }
        destruct (Z_lt_ge_dec j j') as [Hlt''|Hge'].
        { rewrite (Hempty j ltac:(lia)) in Hy. destruct Hy. }
        destruct (Z.eq_dec j j') as [->|Hne'].
        { pose proof (Hs j' ltac:(lia)) as Ha. rewrite Hl in Ha, Hy.
          destruct Ha as [Hfirst _].
          destruct Hy as [<-|Hy]; [lia|now apply Hfirst]. }
        destruct (wf_bin_bounds s G j' x W ltac:(lia) Hx) as [Hxb _].
        specialize (Habove j' j y ltac:(lia) ltac:(lia) Hy). lia.
    + right. split; [exact F|].
      intros y Hy H40. apply in_all_chunks in Hy. destruct Hy as (j & Hj & Hy).
      destruct (Z_lt_ge_dec j i) as [Hlt'|Hge].
      { apply (Hbelow j y ltac:(lia) Hy H40). }
      destruct (Z.eq_dec j i) as [->|Hne]; [now apply Hsmall|].
      rewrite (take_bigger_nothing G _ _ E2 j ltac:(unfold NUM_BINS in *; lia)) in Hy.
      destruct Hy.
Qed.

Lemma find_free_chunk_witness :
  exists s', find_free_chunk 64 124 (state_after 64 [Malloc (os_at 1) 100])
             = Ok (2 ^ 32 + 124) s' /\
    chunk_size s' (2 ^ 32 + 124) = 130948.
Proof.
  pose proof sample_wf as W. revert W.
  generalize (state_after 64 [Malloc (os_at 1) 100]). intros s W.
  destruct (find_free_chunk_best_fit s (one_chunk (2 ^ 32 + 124, 130948)) 124 64)
    as [(x & G' & s' & E & Hx & _ & _ & _ & Hsz & _)|(_ & Hsmall)].
  - exact W.
  - apply bins_sorted_one.
  - lia.
  - pose proof (longest_one (2 ^ 32 + 124, 130948)). lia.
  - apply (proj1 (all_chunks_one (2 ^ 32 + 124, 130948) ltac:(cbn [snd]; lia) x)) in Hx.
    subst x. exists s'. split; [exact E|exact Hsz].
  - exfalso. specialize (Hsmall (2 ^ 32 + 124, 130948)).
    cbn [snd] in Hsmall. unfold MINIMUM_CHUNK_SIZE in Hsmall.
    assert (130948 < 124); [|lia].
    apply Hsmall; [|lia].
    apply (proj2 (all_chunks_one (2 ^ 32 + 124, 130948) ltac:(cbn [snd]; lia) _)).
    reflexivity.
Defined.



(** ** Boundary words: a size in the low 63 bits, a flag in the top bit *)

Lemma testbit_63 (w : Z) : 0 <= w < 2 ^ 64 -> Z.testbit w 63 = (2 ^ 63 <=? w).
Proof.
  intros Hw.
  replace 63 with (0 + 63) at 1 by reflexivity.
  rewrite <- Z.div_pow2_bits by lia. rewrite Z.bit0_eqb.
  pose proof (Z.div_mod w (2 ^ 63) ltac:(lia)) as Hd.
  pose proof (Z.mod_pos_bound w (2 ^ 63) ltac:(lia)) as Hm.
  destruct (2 ^ 63 <=? w) eqn:E.
  - apply Z.leb_le in E. replace (w / 2 ^ 63) with 1 by nia. reflexivity.
  - apply Z.leb_gt in E. replace (w / 2 ^ 63) with 0 by nia. reflexivity.
Qed.

Lemma land_flag (w : Z) :
  0 <= w < 2 ^ 64 -> Z.land FLAG_BIT w = if Z.testbit w 63 then 2 ^ 63 else 0.
Proof.
  intros Hw. pose proof (size_plus_flag w Hw) as H.
  assert (Hs : Z.land SIZE_MASK w = w mod 2 ^ 63).
  { rewrite Z.land_comm. change SIZE_MASK with (Z.ones 63). apply Z.land_ones. lia. }
  rewrite Hs in H. rewrite (testbit_63 w Hw).
  destruct (2 ^ 63 <=? w) eqn:E.
  - apply Z.leb_le in E.
    replace (w mod 2 ^ 63) with (w - 2 ^ 63) in H; [lia|].
    apply (Z.mod_unique w (2 ^ 63) 1); lia.
  - apply Z.leb_gt in E. rewrite Z.mod_small in H by lia. lia.
Qed.

(** A size written below a kept flag bit reads back as it was written. *)
Lemma size_word (v w : Z) :
  0 <= v < 2 ^ 63 -> 0 <= w < 2 ^ 64 ->
  let w' := wrap64 (v + Z.land FLAG_BIT w) in
  0 <= w' < 2 ^ 64 /\ Z.land w' SIZE_MASK = v /\ Z.land SIZE_MASK w' = v /\
  Z.testbit w' 63 = Z.testbit w 63.
Proof.
  intros Hv Hw w'. subst w'. rewrite (land_flag w Hw).
  assert (Hmask : forall z, 0 <= z -> Z.land z SIZE_MASK = z mod 2 ^ 63).
  { intros z Hz. change SIZE_MASK with (Z.ones 63). apply Z.land_ones. lia. }
  destruct (Z.testbit w 63).
  - rewrite wrap64_small by lia. split; [lia|].
    rewrite (Z.land_comm SIZE_MASK), Hmask by lia.
    rewrite testbit_63 by lia.
    replace ((v + 2 ^ 63) mod 2 ^ 63) with v
      by (apply (Z.mod_unique (v + 2 ^ 63) (2 ^ 63) 1); lia).
    repeat split. apply Z.leb_le. lia.
  - rewrite Z.add_0_r, wrap64_small by lia. split; [lia|].
    rewrite (Z.land_comm SIZE_MASK), Hmask by lia.
    rewrite testbit_63 by lia. rewrite Z.mod_small by lia.
    repeat split. apply Z.leb_gt. lia.
Qed.

(** What the two flag operations make of a word, and what the availability
    test then answers. *)
Lemma flag_word (f w : Z) :
  0 <= w < 2 ^ 64 ->
  let w' := wrap64 (flagged f w) in
  0 <= w' < 2 ^ 64 /\
  Z.land w' SIZE_MASK = Z.land w SIZE_MASK /\
  Z.testbit w' 63 = (if f =? 1 then false else negb (Z.testbit w 63)) /\
  (if negb (w' =? 0) then if Z.shiftr w' 63 =? 0 then 1 else 0 else 0)
  = (if Z.testbit w' 63 then 0 else if Z.land w SIZE_MASK =? 0 then 0 else 1).
Proof.
  intros Hw w'.
  assert (Hr : 0 <= w' < 2 ^ 64) by apply wrap64_range.
  assert (Hm : Z.land w' SIZE_MASK = Z.land w SIZE_MASK)
    by (apply flagged_mask; lia).
  split; [exact Hr|]. split; [exact Hm|]. split.
  - unfold w', wrap64. rewrite Z.mod_pow2_bits_low by lia.
    unfold flagged. destruct (f =? 1).
    + rewrite Z.land_spec. change SIZE_MASK with (Z.ones 63).
      rewrite Z.ones_spec_high by lia. apply andb_false_r.
    + rewrite Z.lxor_spec. change FLAG_BIT with (2 ^ 63).
      rewrite Z.pow2_bits_true by lia. now destruct (Z.testbit w 63).
  - rewrite <- Hm. rewrite (testbit_63 w' Hr).
    assert (Hmask : Z.land w' SIZE_MASK = w' mod 2 ^ 63).
    { change SIZE_MASK with (Z.ones 63). apply Z.land_ones. lia. }
    rewrite Hmask. rewrite Z.shiftr_div_pow2 by lia.
    pose proof (Z.div_mod w' (2 ^ 63) ltac:(lia)) as Hd.
    pose proof (Z.mod_pos_bound w' (2 ^ 63) ltac:(lia)) as Hb.
    destruct (2 ^ 63 <=? w') eqn:E.
    + apply Z.leb_le in E.
      replace (w' =? 0) with false by (symmetry; apply Z.eqb_neq; lia).
      replace (w' / 2 ^ 63 =? 0) with false; [reflexivity|].
      symmetry. apply Z.eqb_neq. intros H0. rewrite H0 in Hd. lia.
    + apply Z.leb_gt in E. rewrite Z.mod_small by lia.
      rewrite Z.div_small by lia. cbn [Z.eqb].
      now destruct (w' =? 0).
Qed.

(** X10: [set_prev_chunk_size] followed by [get_prev_chunk_size] gives back
    every size below [2^63]; the flag bit of the word is the one found
    there, whatever it was, and no other word of the memory changes. *)
Theorem prev_chunk_size_round_trip (s : state) (c v : Z) :
  c <> NULL -> valid s c = true -> 0 <= v < 2 ^ 63 ->
  exists s', set_prev_chunk_size c v s = Ok tt s' /\
    get_prev_chunk_size c s' = Ok v s' /\
    Z.testbit (load64 (mem s') c) 63 = Z.testbit (load64 (mem s) c) 63 /\
    wmalloc_ptr s' = wmalloc_ptr s /\ mapped s' = mapped s /\
    forall a, apart a 8 c 8 -> load64 (mem s') a = load64 (mem s) a.
Proof.
  intros Hc Hv Hr.
  destruct (size_word v (load64 (mem s) c) Hr (load64_range _ _))
    as (Hw & Hsz & _ & Hbit).
  eexists. split; [apply (set_prev_chunk_size_ok s c v Hc Hv)|].
  rewrite get_prev_chunk_size_ok by (rewrite ?valid_upd_mem; assumption).
  cbn [mem upd_mem wmalloc_ptr mapped]. rewrite load64_store64_same.
  rewrite (wrap64_small _ Hw). rewrite Hsz.
  conj_split; try reflexivity; [exact Hbit|].
  intros a Ha. apply load64_store64_other. unfold apart in Ha. lia.
Qed.

Lemma prev_chunk_size_witness :
  exists s', set_prev_chunk_size (2 ^ 32) 77 (state_after 64 [Malloc (os_at 1) 100])
             = Ok tt s' /\
    get_prev_chunk_size (2 ^ 32) s' = Ok 77 s'.
Proof.
  pose proof sample_facts as F. cbv zeta in F. revert F.
  generalize (state_after 64 [Malloc (os_at 1) 100]). intros s (_ & Hm & _).
  destruct (prev_chunk_size_round_trip s (2 ^ 32) 77) as (s' & E1 & E2 & _).
  - discriminate.
  - unfold valid. rewrite Hm. reflexivity.
  - lia.
  - exists s'. split; [exact E1|exact E2].
Defined.

(** X11: the same for the trailing word of a chunk of at least 24 bytes
    that does not wrap around the address space: [set_next_chunk_size]
    followed by [get_next_chunk_size] gives back every size below [2^63],
    keeps the flag bit found in the word, and leaves the chunk's own size
    and every other word as they are. *)
Theorem next_chunk_size_round_trip (s : state) (c v : Z) :
  0 < c -> valid s (c + 8) = true ->
  24 <= chunk_size s c -> c + chunk_size s c <= 2 ^ 64 ->
  valid s (c + chunk_size s c - 8) = true -> 0 <= v < 2 ^ 63 ->
  let t := c + chunk_size s c - 8 in
  exists s', set_next_chunk_size c v s = Ok tt s' /\
    get_next_chunk_size c s' = Ok v s' /\
    chunk_size s' c = chunk_size s c /\
    Z.testbit (load64 (mem s') t) 63 = Z.testbit (load64 (mem s) t) 63 /\
    wmalloc_ptr s' = wmalloc_ptr s /\ mapped s' = mapped s /\
    forall a, apart a 8 t 8 -> load64 (mem s') a = load64 (mem s) a.
Proof.
  intros Hc V8 Hsz Htop Vt Hr t.
  assert (Hc0 : c <> NULL) by (unfold NULL; lia).
  assert (Et : wrap64 (c + chunk_size s c - 8) = t) by (apply wrap64_small; lia).
  destruct (size_word v (load64 (mem s) t) Hr (load64_range _ _))
    as (Hw & _ & Hsz' & Hbit).
  pose proof (set_next_chunk_size_ok s c v Hc0 V8 ltac:(rewrite Et; exact Vt)) as E1.
  rewrite Et in E1.
  set (s' := upd_mem s t (wrap64 (v + Z.land FLAG_BIT (load64 (mem s) t)))) in *.
  assert (Hcs : chunk_size s' c = chunk_size s c).
  { unfold chunk_size, off_curr_chunk_size, s'. cbn [mem upd_mem].
    apply load64_store64_other. unfold t. lia. }
  exists s'. split; [exact E1|].
  rewrite get_next_chunk_size_ok;
    [|exact Hc0|unfold s'; rewrite valid_upd_mem; exact V8
     |rewrite Hcs, Et; unfold s'; rewrite valid_upd_mem; exact Vt].
  rewrite Hcs, Et. unfold s' at 1 2. cbn [mem upd_mem].
  rewrite load64_store64_same. rewrite (wrap64_small _ Hw). rewrite Hsz'.
  conj_split; try reflexivity; try exact Hcs.
  - unfold s'. cbn [mem upd_mem]. rewrite load64_store64_same.
    rewrite (wrap64_small _ Hw). exact Hbit.
  - intros a Ha. unfold s'. cbn [mem upd_mem].
    apply load64_store64_other. unfold apart in Ha. lia.
Qed.

Lemma next_chunk_size_witness :
  exists s', set_next_chunk_size (2 ^ 32) 77 (state_after 64 [Malloc (os_at 1) 100])
             = Ok tt s' /\
    get_next_chunk_size (2 ^ 32) s' = Ok 77 s' /\ chunk_size s' (2 ^ 32) = 124.
Proof.
  pose proof sample_facts as F. cbv zeta in F. revert F.
  generalize (state_after 64 [Malloc (os_at 1) 100]). intros s (_ & Hm & Hsz).
  destruct (next_chunk_size_round_trip s (2 ^ 32) 77) as (s' & E1 & E2 & E3 & _).
  - lia.
  - unfold valid. rewrite Hm. reflexivity.
  - rewrite Hsz. lia.
  - rewrite Hsz. lia.
  - rewrite Hsz. unfold valid. rewrite Hm. reflexivity.
  - lia.
  - exists s'. split; [exact E1|]. split; [exact E2|]. now rewrite E3.
Defined.

(** X12: [set_prev_flag] never changes the size in the word.  With
    [flag = 1] it clears the top bit; with any other [flag] it inverts the
    bit instead of setting it, so a second call with [flag = 0] marks the
    neighbour available again.  Afterwards [is_prev_available] answers 1
    exactly when the top bit is clear and the size is not 0. *)
Theorem set_prev_flag_keeps_size (s : state) (c f : Z) :
  c <> NULL -> valid s c = true ->
  let w := load64 (mem s) c in
  exists s', set_prev_flag c f s = Ok tt s' /\
    get_prev_chunk_size c s' = Ok (Z.land w SIZE_MASK) s' /\
    Z.testbit (load64 (mem s') c) 63
    = (if f =? 1 then false else negb (Z.testbit w 63)) /\
    is_prev_available c s'
    = Ok (if Z.testbit (load64 (mem s') c) 63 then 0
          else if Z.land w SIZE_MASK =? 0 then 0 else 1) s' /\
    forall a, apart a 8 c 8 -> load64 (mem s') a = load64 (mem s) a.
Proof.
  intros Hc Hv w.
  destruct (flag_word f w (load64_range _ _)) as (Hr & Hm & Hbit & Hav).
  exists (upd_mem s c (flagged f w)).
  split; [apply (set_prev_flag_ok s c f Hc Hv)|].
  rewrite get_prev_chunk_size_ok by (rewrite ?valid_upd_mem; assumption).
  rewrite is_prev_available_ok by (rewrite ?valid_upd_mem; assumption).
  cbn [mem upd_mem]. rewrite load64_store64_same. cbv zeta.
  rewrite Hm, Hav. conj_split; try reflexivity; [exact Hbit|].
  intros a Ha. apply load64_store64_other. unfold apart in Ha. lia.
Qed.

Lemma set_prev_flag_witness :
  exists s', set_prev_flag (2 ^ 32 + 124) 0 (state_after 64 [Malloc (os_at 1) 100])
             = Ok tt s' /\
    get_prev_chunk_size (2 ^ 32 + 124) s' = Ok 124 s' /\
    is_prev_available (2 ^ 32 + 124) s' = Ok 1 s'.
Proof.
  assert (F : mapped (state_after 64 [Malloc (os_at 1) 100])
              = [(2 ^ 32, 131072); (4096, 2208)] /\
              load64 (mem (state_after 64 [Malloc (os_at 1) 100])) (2 ^ 32 + 124)
              = 2 ^ 63 + 124)
    by (vm_compute; split; reflexivity).
  revert F. generalize (state_after 64 [Malloc (os_at 1) 100]). intros s (Hm & Hw).
  destruct (set_prev_flag_keeps_size s (2 ^ 32 + 124) 0) as (s' & E1 & E2 & Hbit & E3 & _).
  - discriminate.
  - unfold valid. rewrite Hm. reflexivity.
  - rewrite Hw in E2, Hbit, E3. rewrite Hbit in E3.
    exists s'. split; [exact E1|]. split; [exact E2|exact E3].
Defined.

(** X13: the same for [set_next_flag] on the trailing word of a chunk of at
    least 24 bytes: the size in the word and the chunk's own size stay, the
    top bit is cleared by [flag = 1] and inverted by any other [flag], and
    [is_next_available] then answers 1 exactly when the bit is clear and the
    size in the word is not 0. *)
Theorem set_next_flag_keeps_size (s : state) (c f : Z) :
  0 < c -> valid s (c + 8) = true ->
  24 <= chunk_size s c -> c + chunk_size s c <= 2 ^ 64 ->
  valid s (c + chunk_size s c - 8) = true ->
  let t := c + chunk_size s c - 8 in
  let w := load64 (mem s) t in
  exists s', set_next_flag c f s = Ok tt s' /\
    chunk_size s' c = chunk_size s c /\
    get_next_chunk_size c s' = Ok (Z.land w SIZE_MASK) s' /\
    Z.testbit (load64 (mem s') t) 63
    = (if f =? 1 then false else negb (Z.testbit w 63)) /\
    is_next_available c s'
    = Ok (if Z.testbit (load64 (mem s') t) 63 then 0
          else if Z.land w SIZE_MASK =? 0 then 0 else 1) s' /\
    forall a, apart a 8 t 8 -> load64 (mem s') a = load64 (mem s) a.
Proof.
  intros Hc V8 Hsz Htop Vt t w.
  assert (Hc0 : c <> NULL) by (unfold NULL; lia).
  assert (Et : wrap64 (c + chunk_size s c - 8) = t) by (apply wrap64_small; lia).
  destruct (flag_word f w (load64_range _ _)) as (Hr & Hm & Hbit & Hav).
  pose proof (set_next_flag_ok s c f Hc0 V8 ltac:(rewrite Et; exact Vt)) as E1.
  rewrite Et in E1. fold w in E1.
  set (s' := upd_mem s t (flagged f w)) in *.
  assert (Hcs : chunk_size s' c = chunk_size s c).
  { unfold chunk_size, off_curr_chunk_size, s'. cbn [mem upd_mem].
    apply load64_store64_other. unfold t. lia. }
  assert (Hld : load64 (mem s') t = wrap64 (flagged f w)).
  { unfold s'. cbn [mem upd_mem]. apply load64_store64_same. }
  exists s'. split; [exact E1|]. split; [exact Hcs|].
  rewrite get_next_chunk_size_ok;
    [|exact Hc0|unfold s'; rewrite valid_upd_mem; exact V8
     |rewrite Hcs, Et; unfold s'; rewrite valid_upd_mem; exact Vt].
  rewrite is_next_available_ok;
    [|exact Hc0|unfold s'; rewrite valid_upd_mem; exact V8
     |rewrite Hcs, Et; unfold s'; rewrite valid_upd_mem; exact Vt].
  rewrite Hcs, Et, Hld. cbv zeta.
  rewrite (Z.land_comm SIZE_MASK), Hm, Hav.
  conj_split; try reflexivity; [exact Hbit|].
  intros a Ha. unfold s'. cbn [mem upd_mem].
  apply load64_store64_other. unfold apart in Ha. lia.
Qed.

Lemma set_next_flag_witness :
  exists s', set_next_flag (2 ^ 32) 1 (state_after 64 [Malloc (os_at 1) 100])
             = Ok tt s' /\
    get_next_chunk_size (2 ^ 32) s' = Ok 130948 s' /\
    is_next_available (2 ^ 32) s' = Ok 1 s'.
Proof.
  assert (F : mapped (state_after 64 [Malloc (os_at 1) 100])
              = [(2 ^ 32, 131072); (4096, 2208)] /\
              chunk_size (state_after 64 [Malloc (os_at 1) 100]) (2 ^ 32) = 124 /\
              load64 (mem (state_after 64 [Malloc (os_at 1) 100])) (2 ^ 32 + 124 - 8)
              = 130948)
    by (vm_compute; repeat split; reflexivity).
  revert F. generalize (state_after 64 [Malloc (os_at 1) 100]).
  intros s (Hm & Hsz & Hw).
  destruct (set_next_flag_keeps_size s (2 ^ 32) 1) as (s' & E1 & _ & E2 & Hbit & E3 & _).
  - lia.
  - unfold valid. rewrite Hm. reflexivity.
  - rewrite Hsz. lia.
  - rewrite Hsz. lia.
  - rewrite Hsz. unfold valid. rewrite Hm. reflexivity.
  - rewrite Hsz, Hw in E2, Hbit, E3. rewrite Hbit in E3.
    exists s'. split; [exact E1|]. split; [exact E2|exact E3].
Defined.

(** ** Splitting *)

(** Marking the neighbours leaves the size in the right neighbour's leading
    word as it is. *)
Lemma neighbours_marked_next_size (f : Z) (s : state) (c : Z) :
  Z.land (load64 (mem (neighbours_marked f s c)) (c + chunk_size s c)) SIZE_MASK
  = Z.land (load64 (mem s) (c + chunk_size s c)) SIZE_MASK.
Proof.
  pose proof (load64_range (mem s) (c + off_curr_chunk_size)) as Hsz.
  fold (chunk_size s c) in Hsz.
  unfold neighbours_marked. cbv zeta.
  destruct (Z.land (load64 (mem s) c) SIZE_MASK =? 0);
    destruct (Z.land SIZE_MASK (load64 (mem s) (c + chunk_size s c - 8)) =? 0);
    cbn [mem upd_mem].
  - reflexivity.
  - rewrite load64_store64_same. apply flagged_mask. apply load64_range.
  - rewrite load64_store64_other by lia. reflexivity.
  - rewrite load64_store64_same. apply flagged_mask. apply load64_range.
Qed.

(** X14: after [split_chunk] has cut a chunk of [sz] bytes down to [r]
    bytes (at least 40 bytes remain), the two halves find each other:
    [get_next_chunk] of the dispensed chunk is the residue at [c + r],
    [get_prev_chunk] of the residue is the dispensed chunk, and the sizes
    read from the boundary words between them are the sizes in the two
    headers. *)
Theorem split_chunk_halves_find_each_other (s : state) (G : gbins) (c sz r : Z)
    (fuel : nat) :
  carve_ok s G c sz r -> left_ok s G c -> right_ok s c sz ->
  r + MINIMUM_CHUNK_SIZE <= sz -> sz < 2 ^ 63 ->
  (46 <= fuel)%nat -> (longest G < fuel)%nat ->
  exists s', split_chunk fuel c r s = Ok tt s' /\
    chunk_size s' c = r /\ chunk_size s' (c + r) = sz - r /\
    get_next_chunk c s' = Ok (c + r) s' /\
    get_prev_chunk (c + r) s' = Ok c s' /\
    get_next_chunk_size c s' = Ok (sz - r) s' /\
    get_prev_chunk_size (c + r) s' = Ok r s' /\
    mapped s' = mapped s.
Proof.
  intros Cv Lo Ro Hsplit Hsz63 Hf1 Hf2.
  destruct (split_chunk_spec s G c sz r fuel Cv Lo Ro Hf1 Hf2)
    as (s1 & E & _ & Hwp & Hmp & _ & _ & Hcase).
  replace (r + MINIMUM_CHUNK_SIZE <=? sz) with true in Hcase
    by (symmetry; apply Z.leb_le; exact Hsplit).
  destruct Hcase as (C1 & C2 & T1 & T2 & _).
  destruct Cv as [_ Hc Htop Hm _ _ _ Hr _].
  unfold MINIMUM_CHUNK_SIZE in *.
  set (s' := neighbours_marked 0 s1 c) in *.
  destruct (neighbours_marked_frame 0 s1 c) as (_ & Hmp' & _). fold s' in Hmp'.
  assert (V : forall a, c <= a -> a + 8 <= c + sz -> valid s' a = true).
  { intros a A1 A2. rewrite (valid_same_mapped s s') by congruence.
    apply (range_mapped_valid s c sz); auto; lia. }
  assert (Hother : forall a, c <= a -> a + 8 <= c + r \/ c + r + 8 <= a ->
            load64 (mem s') a = load64 (mem s1) a).
  { intros a A1 A2. apply neighbours_marked_other; rewrite ?C1; lia. }
  assert (Hc0 : c <> NULL) by (unfold NULL; lia).
  assert (Hcr0 : c + r <> NULL) by (unfold NULL; lia).
  assert (S1 : chunk_size s' c = r).
  { unfold chunk_size, off_curr_chunk_size in *. rewrite Hother; [exact C1|lia|lia]. }
  assert (S2 : chunk_size s' (c + r) = sz - r).
  { unfold chunk_size, off_curr_chunk_size in *. rewrite Hother; [exact C2|lia|lia]. }
  assert (W1 : Z.land SIZE_MASK (load64 (mem s') (c + r - 8)) = sz - r).
  { rewrite Hother by lia. rewrite T1.
    apply (size_word (sz - r) _ ltac:(lia) (load64_range _ _)). }
  assert (W2 : Z.land (load64 (mem s') (c + r)) SIZE_MASK = r).
  { pose proof (neighbours_marked_next_size 0 s1 c) as H. rewrite C1 in H.
    fold s' in H. rewrite H, T2.
    apply (size_word r _ ltac:(lia) (load64_range _ _)). }
  exists s'. split; [exact E|]. split; [exact S1|]. split; [exact S2|].
  rewrite (get_next_chunk_ok s' c Hc0) by (apply V; lia).
  rewrite (get_prev_chunk_ok s' (c + r) Hcr0) by (apply V; lia).
  rewrite (get_next_chunk_size_ok s' c Hc0)
    by (rewrite ?S1, ?wrap64_small by lia; apply V; lia).
  rewrite (get_prev_chunk_size_ok s' (c + r) Hcr0) by (apply V; lia).
  rewrite S1, W2. rewrite (wrap64_small (c + r - 8)) by lia. rewrite W1.
  rewrite (wrap64_small (c + r)) by lia.
  replace (c + r - r) with c by lia. rewrite (wrap64_small c) by lia.
  conj_split; try reflexivity. congruence.
Qed.

Lemma split_chunk_witness :
  exists s1 s',
    remove_chunk (2 ^ 32 + 124) (state_after 64 [Malloc (os_at 1) 100])
    = Ok (2 ^ 32 + 124) s1 /\
    split_chunk 64 (2 ^ 32 + 124) 124 s1 = Ok tt s' /\
    get_next_chunk (2 ^ 32 + 124) s' = Ok (2 ^ 32 + 248) s' /\
    get_prev_chunk (2 ^ 32 + 248) s' = Ok (2 ^ 32 + 124) s'.
Proof.
  pose proof sample_wf as W. revert W.
  generalize (state_after 64 [Malloc (os_at 1) 100]). intros s W.
  set (x := (2 ^ 32 + 124, 130948)) in *.
  destruct (reg_remove s (one_chunk x) 42 [] [] x (wf_reg _ _ W))
    as (s1 & E1 & R1 & OC & Hsz); [unfold NUM_BINS; lia|reflexivity|].
  cbn [app fst snd x] in E1, R1, Hsz.
  assert (Hnone : forall y, ~ In y (all_chunks (set_bin (one_chunk x) 42 []))).
  { intros y Hy.
    apply (proj1 (in_all_chunks_set (one_chunk x) 42 [] y
                    ltac:(unfold NUM_BINS; lia))) in Hy.
    destruct Hy as [[]|(j & Hne & Hj & Hy)].
    unfold one_chunk, set_bin, no_chunks in Hy. cbn [snd x] in Hy.
    change (bin_of 130948) with 42 in Hy.
    apply Z.eqb_neq in Hne. rewrite Hne in Hy. destruct Hy. }
  destruct (wf_carve s s1 (one_chunk x) (set_bin (one_chunk x) 42 []) x 124 W)
    as (Cv & Lo & Ro).
  - apply (proj2 (all_chunks_one x ltac:(cbn [snd x]; lia) x)). reflexivity.
  - intros y Hy. exact (False_ind _ (Hnone y Hy)).
  - exact R1.
  - exact OC.
  - exact Hsz.
  - cbn [snd x]. unfold MINIMUM_CHUNK_SIZE. lia.
  - unfold MINIMUM_CHUNK_SIZE. lia.
  - cbn [fst snd x] in Cv, Lo, Ro.
    destruct (split_chunk_halves_find_each_other s1 _ (2 ^ 32 + 124) 130948 124 64
                Cv Lo Ro)
      as (s' & E2 & _ & _ & N1 & N2 & _).
    + unfold MINIMUM_CHUNK_SIZE. lia.
    + lia.
    + lia.
    + assert (H : (longest (set_bin (one_chunk x) 42 []) <= 0)%nat); [|lia].
      apply longest_le. intros i _. unfold one_chunk, set_bin, no_chunks.
      cbn [snd x]. change (bin_of 130948) with 42.
      destruct (i =? 42); cbv iota; cbn [length]; lia.
    + exists s1, s'. split; [exact E1|]. split; [exact E2|].
      split; [exact N1|exact N2].
Defined.

(** ** Memory from the operating system *)

(** X15: a requirement within the last page below [2^64] makes the length
    handed to [mmap] wrap around to 0; [mmap] rejects a length of 0, and
    [allocate_chunk] returns [NULL] without mapping or writing anything,
    whatever the operating system would answer. *)
Theorem allocate_chunk_refuses_last_page (e : os_env) (r : Z) (s : state) :
  2 ^ 64 - PAGE_SIZE <= r < 2 ^ 64 ->
  mmap_length r = 0 /\ allocate_chunk e r s = Ok NULL s.
Proof.
  intros Hr. unfold PAGE_SIZE in Hr.
  assert (El : mmap_length r = 0).
  { unfold mmap_length, MMAP_SIZE, PAGE_SIZE.
    replace (r <=? 131072) with false by (symmetry; apply Z.leb_gt; lia).
    replace (r / 4096) with (2 ^ 52 - 1).
    - reflexivity.
    - apply (Z.div_unique r 4096 (2 ^ 52 - 1) (r - (2 ^ 64 - 4096))); lia. }
  split; [exact El|].
  unfold allocate_chunk. cbv zeta. rewrite El.
  unfold bind, mmap_call. cbn [Z.eqb orb]. reflexivity.
Qed.

Lemma allocate_chunk_last_page_witness :
  mmap_length (2 ^ 64 - 1) = 0 /\
  allocate_chunk (os_at 1) (2 ^ 64 - 1) initial_state = Ok NULL initial_state.
Proof.
  apply (allocate_chunk_refuses_last_page (os_at 1) (2 ^ 64 - 1) initial_state).
  unfold PAGE_SIZE. lia.
Defined.

(** X16: when [mmap] grants a region that overlaps nothing mapped so far,
    [allocate_chunk] returns the region as one chunk: its size field holds
    the length of the region, its leading and trailing word announce no
    neighbour (both sizes read 0, neither neighbour is available), the
    registry is as it was, and no word that was accessible before
    changes. *)
Theorem allocate_chunk_makes_lone_chunk (s : state) (G : gbins) (e : os_env) (r : Z) :
  reg s G -> 0 <= r < 2 ^ 64 - PAGE_SIZE ->
  0 < mmap_ret e -> mmap_ret e + mmap_length r <= 2 ^ 64 ->
  (forall m, In m (mapped s) -> apart (mmap_ret e) (mmap_length r) (fst m) (snd m)) ->
  let c := mmap_ret e in
  let L := mmap_length r in
  exists s', allocate_chunk e r s = Ok c s' /\
    mapped s' = (c, L) :: mapped s /\ r <= L /\
    chunk_size s' c = L /\
    get_prev_chunk_size c s' = Ok 0 s' /\ get_next_chunk_size c s' = Ok 0 s' /\
    is_prev_available c s' = Ok 0 s' /\ is_next_available c s' = Ok 0 s' /\
    reg s' G /\
    forall a, valid s a = true -> load64 (mem s') a = load64 (mem s) a.
Proof.
  intros R Hr Hpos Htop Hfresh c L. unfold PAGE_SIZE in Hr.
  assert (HL : r <= L /\ 4096 <= L).
  { unfold L, mmap_length, MMAP_SIZE, PAGE_SIZE.
    destruct (r <=? 131072) eqn:E.
    - apply Z.leb_le in E. lia.
    - apply Z.leb_gt in E.
      pose proof (Z.div_mod r 4096 ltac:(lia)).
      pose proof (Z.mod_pos_bound r 4096 ltac:(lia)).
      rewrite wrap64_small by lia. lia. }
  fold c L in Htop, Hfresh.
  destruct (allocate_chunk_ok s G e r R)
    as (s' & E & Hwp & Hmp & Hsz & H0 & Ht & R' & Hfr & _); try assumption.
  { unfold MAP_FAILED. fold c L. lia. }
  { fold L. lia. }
  fold c L in E, Hmp, Hsz, H0, Ht.
  assert (V : forall a, c <= a -> a + 8 <= c + L -> valid s' a = true).
  { intros a A1 A2. apply (range_mapped_valid s' c L); try lia.
    exists (c, L). rewrite Hmp. split; [now left|]. cbn [fst snd]. lia. }
  assert (Hc0 : c <> NULL) by (unfold NULL; lia).
  assert (Et : wrap64 (c + chunk_size s' c - 8) = c + L - 8)
    by (rewrite Hsz; apply wrap64_small; lia).
  exists s'. split; [exact E|]. split; [exact Hmp|]. split; [lia|].
  split; [exact Hsz|].
  rewrite (get_prev_chunk_size_ok s' c Hc0) by (apply V; lia).
  rewrite (get_next_chunk_size_ok s' c Hc0) by (rewrite ?Et; apply V; lia).
  rewrite (is_prev_available_ok s' c Hc0) by (apply V; lia).
  rewrite (is_next_available_ok s' c Hc0) by (rewrite ?Et; apply V; lia).
  rewrite Et, H0, Ht. cbv zeta. cbn [Z.eqb negb Z.land].
  conj_split; try reflexivity; assumption.
Qed.

Lemma allocate_chunk_lone_witness :
  exists s', allocate_chunk (os_at 2) 200000 (state_after 64 [Malloc (os_at 1) 100])
             = Ok (2 * 2 ^ 32) s' /\
    chunk_size s' (2 * 2 ^ 32) = 200704 /\
    is_next_available (2 * 2 ^ 32) s' = Ok 0 s'.
Proof.
  pose proof sample_facts as F. pose proof sample_wf as W. cbv zeta in F.
  revert F W. generalize (state_after 64 [Malloc (os_at 1) 100]).
  intros s (_ & Hm & _) W.
  destruct (allocate_chunk_makes_lone_chunk s _ (os_at 2) 200000 (wf_reg _ _ W))
    as (s' & E & _ & _ & Hsz & _ & _ & _ & Hna & _).
  - unfold PAGE_SIZE. lia.
  - reflexivity.
  - vm_compute. discriminate.
  - rewrite Hm. intros m Hm'. cbn in Hm'.
    destruct Hm' as [<-|[<-|[]]]; right; vm_compute; discriminate.
  - exists s'. split; [exact E|]. split; [exact Hsz|exact Hna].
Defined.

(** ** What an allocation does to the rest *)

(** Nothing in the registry holds the requirement. *)
Lemma no_fit_lookup (s : state) (G : gbins) (r : Z) :
  engine_ok s G -> 0 < r < 2 ^ 32 ->
  (forall y, In y (all_chunks G) -> MINIMUM_CHUNK_SIZE < snd y -> snd y < r) ->
  lookup G r = None.
Proof.
  intros [[_ ->]|W] Hr Hno; [apply lookup_no_chunks|].
  destruct (lookup G r) as [[x G']|] eqn:E; [exfalso|reflexivity].
  destruct (lookup_fits s G r x G' W Hr E) as (Hfit & Hx & _).
  destruct (lookup_some G r x G' ltac:(lia) E) as (j & l1 & l2 & Hj & HG & _).
  destruct (find_of_spec r ltac:(lia)) as (Hf & _).
  assert (Hin : In x (G j)) by (rewrite HG; apply in_elt).
  destruct (wf_bin_bounds s G j x W ltac:(lia) Hin) as [_ Hlow].
  specialize (Hlow ltac:(lia)).
  pose proof (U_mono 0 (j - 1) ltac:(lia) ltac:(lia) ltac:(unfold NUM_BINS in *; lia)) as H0.
  change (U 0) with 40 in H0.
  specialize (Hno x Hx ltac:(unfold MINIMUM_CHUNK_SIZE; lia)). lia.
Qed.

(** X17: when a well-formed registry holds a chunk of more than 40 bytes
    that is large enough for a request below [2^31 - 24] bytes, [wmalloc]
    serves the request from the registry whatever the operating system would
    answer, also when [mmap] would fail: the chunk it returns was in a bin
    and holds the requirement, and nothing is mapped. *)
Theorem wmalloc_reuses_without_the_os (fuel : nat) (e : os_env) (n : Z) (s : state)
    (G : gbins) (y : Z * Z) :
  wf s G -> 0 <= n -> n + CHUNK_OVERHEAD < 2 ^ 31 ->
  (48 + longest G <= fuel)%nat ->
  In y (all_chunks G) -> necessary_length n <= snd y -> MINIMUM_CHUNK_SIZE < snd y ->
  exists x s', wmalloc fuel e n s = Ok (fst x + 16) s' /\
    In x (all_chunks G) /\ n + CHUNK_OVERHEAD <= snd x /\
    wmalloc_ptr s' = wmalloc_ptr s /\ mapped s' = mapped s.
Proof.
  intros W Hn Hn' Hfuel Hy Hfit H40.
  pose proof (necessary_length_small n Hn
                ltac:(unfold CHUNK_OVERHEAD in *; lia)) as Er.
  set (r := necessary_length n) in *.
  assert (Hr : 0 <= r < 2 ^ 31)
    by (unfold CHUNK_OVERHEAD, MINIMUM_CHUNK_SIZE in *; lia).
  assert (Hwp : wmalloc_ptr s <> NULL).
  { pose proof (io_pos s (wf_info s _ W)). unfold NULL. lia. }
  apply in_all_chunks in Hy. destruct Hy as (j & Hj & Hy).
  destruct (wf_bin_bounds s G j y W Hj Hy) as [Hb _].
  assert (Hj1 : 1 <= j).
  { destruct (Z.eq_dec j 0) as [->|]; [|lia].
    change (U 0) with 40 in Hb. unfold MINIMUM_CHUNK_SIZE in *. lia. }
  destruct (lookup G r) as [[x G']|] eqn:E.
  - destruct (wmalloc_body_reuse s G e n fuel x G' W Hn ltac:(lia) Hfuel E)
      as (s' & E' & Hwp' & Hmp' & Hx & Hfit' & _).
    exists x, s'. rewrite (wmalloc_initialized fuel e n s Hwp).
    fold r in Hfit'.
    conj_split; try assumption.
    unfold CHUNK_OVERHEAD, MINIMUM_CHUNK_SIZE in *. lia.
  - exfalso. revert E. apply (lookup_finds G r y j); try assumption; lia.
Qed.

Lemma wmalloc_reuses_witness :
  exists s', wmalloc 64 os_no_mmap 50 (state_after 64 [Malloc (os_at 1) 100])
             = Ok (2 ^ 32 + 124 + 16) s' /\
    mapped s' = mapped (state_after 64 [Malloc (os_at 1) 100]).
Proof.
  pose proof sample_wf as W. revert W.
  generalize (state_after 64 [Malloc (os_at 1) 100]). intros s W.
  set (x0 := (2 ^ 32 + 124, 130948)) in *.
  assert (Hx0 : In x0 (all_chunks (one_chunk x0)))
    by (apply (proj2 (all_chunks_one x0 ltac:(cbn [snd x0]; lia) x0)); reflexivity).
  destruct (wmalloc_reuses_without_the_os 64 os_no_mmap 50 s (one_chunk x0) x0 W)
    as (x & s' & E & Hx & _ & _ & Hmp).
  - lia.
  - unfold CHUNK_OVERHEAD. lia.
  - pose proof (longest_one x0). lia.
  - exact Hx0.
  - cbv. discriminate.
  - cbv. reflexivity.
  - apply (proj1 (all_chunks_one x0 ltac:(cbn [snd x0]; lia) x)) in Hx. subst x.
    exists s'. split; [exact E|exact Hmp].
Defined.



(** X19: the call that follows an allocation from a fresh region.  After
    [wmalloc] has served [n1] bytes, [n1 + 24 < 2^32], from a fresh region
    on a well-formed registry, the next call of [wmalloc], for any [n2] with
    [n2 + 24 < 2^32] and any answer of a sound operating system, either
    aborts because [mmap] failed, or returns [NULL], or returns [n2] bytes
    that lie in mapped memory and do not overlap the [n1] bytes of the
    first buffer.  This is about the one call that follows; calls after it
    are not covered. *)
Theorem fresh_buffer_stays_apart (fuel : nat) (e1 : os_env) (n1 : Z) (s : state)
    (G : gbins) :
  wf s G -> 0 <= n1 -> n1 + CHUNK_OVERHEAD < 2 ^ 32 ->
  (forall y, In y (all_chunks G) -> MINIMUM_CHUNK_SIZE < snd y ->
     snd y < necessary_length n1) ->
  os_sound s e1 (mmap_length (necessary_length n1)) -> mmap_ret e1 <> MAP_FAILED ->
  (49 + longest G <= fuel)%nat ->
  exists s1, wmalloc fuel e1 n1 s = Ok (mmap_ret e1 + 16) s1 /\
    forall e2 n2,
      os_sound s1 e2 (mmap_length (necessary_length n2)) ->
      0 <= n2 -> n2 + CHUNK_OVERHEAD < 2 ^ 32 ->
      match wmalloc fuel e2 n2 s1 with
      | Ok p2 s2 =>
          p2 <> NULL ->
          apart (mmap_ret e1 + 16) n1 p2 n2 /\ range_mapped s2 p2 n2
      | Err x => x = AssertFail /\ mmap_ret e2 = MAP_FAILED
      end.
Proof.
  intros W Hn1 Hn1' Hno Hos Hmf Hfuel.
  pose proof (necessary_length_small n1 Hn1
                ltac:(unfold CHUNK_OVERHEAD in *; lia)) as Er1.
  set (r1 := necessary_length n1) in *.
  set (c1 := mmap_ret e1) in *. set (L1 := mmap_length r1) in *.
  assert (Hl : lookup G r1 = None).
  { apply (no_fit_lookup s G r1 (or_intror W)); [|exact Hno].
    unfold CHUNK_OVERHEAD, MINIMUM_CHUNK_SIZE in *. lia. }
  assert (Hwp : wmalloc_ptr s <> NULL).
  { pose proof (io_pos s (wf_info s _ W)). unfold NULL. lia. }
  destruct (wmalloc_fresh_total fuel e1 n1 s G (or_intror W) Hl Hos
              ltac:(intros H; now elim Hwp) Hmf Hn1 Hn1' ltac:(lia))
    as (s0 & s1 & E & Hs0 & _ & Hg & Hfresh & Hf).
  apply Z.eqb_neq in Hwp. rewrite Hwp in Hs0. subst s0.
  fold c1 r1 L1 in E, Hg, Hfresh, Hf.
  exists s1. split; [exact E|].
  intros e2 n2 Hos2 Hn2 Hn2'.
  pose proof (necessary_length_small n2 Hn2
                ltac:(unfold CHUNK_OVERHEAD in *; lia)) as Er2.
  set (r2 := necessary_length n2) in *.
  pose proof (wf_fresh_chunk s s1 G c1 L1 r1 W Hg Hfresh Hf) as W1.
  pose proof Hg as (Hwp1 & Hmp1 & _).
  pose proof Hf as (Hc1 & Htop1 & Hr1 & _ & _ & _ & _ & _ & _ & _).
  unfold MINIMUM_CHUNK_SIZE, CHUNK_OVERHEAD in *.
  (* the registry after the first call, and where its chunks lie *)
  assert (HG1 : exists G1, wf s1 G1 /\ (longest G1 <= S (longest G))%nat /\
            forall y, In y (all_chunks G1) ->
              c1 + r1 <= fst y \/ fst y + snd y <= c1 \/ c1 + L1 <= fst y).
  { assert (Hold : forall y, In y (all_chunks G) ->
              fst y + snd y <= c1 \/ c1 + L1 <= fst y).
    { intros y Hy.
      destruct (wf_chunk s G y W Hy) as ([_ P2 _ (m & Hm & H1 & H2) _ _ _ _] & _).
      specialize (Hfresh m Hm). unfold apart, MINIMUM_CHUNK_SIZE in *. lia. }
    destruct (r1 + 40 <=? L1) eqn:Esp.
    - destruct W1 as (l1 & l2 & HG & W1).
      destruct (bin_of_spec (L1 - r1) ltac:(lia)) as (Hb & _).
      exists (set_bin G (bin_of (L1 - r1)) (l1 ++ (c1 + r1, L1 - r1) :: l2)).
      split; [exact W1|]. split.
      + apply longest_insert; [unfold NUM_BINS; lia|exact HG].
      + intros y Hy. apply in_all_chunks_insert in Hy;
          [|unfold NUM_BINS; lia|exact HG].
        destruct Hy as [->|Hy]; [cbn [fst]; lia|].
        specialize (Hold y Hy). lia.
    - exists G. split; [exact W1|]. split; [lia|].
      intros y Hy. specialize (Hold y Hy). lia. }
  destruct HG1 as (G1 & W1' & Hlong & Hplace).
  pose proof (wmalloc_cases fuel e2 n2 s1 G1 (or_intror W1') Hos2 Hn2
                ltac:(unfold CHUNK_OVERHEAD; lia) ltac:(lia)) as Hc.
  cbv zeta in Hc. fold r2 in Hc.
  destruct Hc as [(Hnull & _)|[(Hmf2 & _ & E2)|(c2 & sz2 & s2 & E2 & Hd & Hwhere)]].
  - exfalso. rewrite Hwp1 in Hnull. apply Z.eqb_neq in Hwp. tauto.
  - rewrite E2. split; [reflexivity|exact Hmf2].
  - rewrite E2. intros _.
    destruct Hd as (Hc2 & Htop2 & Hr2 & (m & Hm & M1 & M2) & _).
    split.
    + destruct Hwhere as [(Hc2' & Hsz2 & _)|(Hin & _)].
      * destruct Hos2 as [_ [Hf2|(_ & _ & Hap)]].
        { exfalso. rewrite <- Hc2' in Hf2. unfold MAP_FAILED in Hf2.
          assert (131072 <= sz2); [|lia].
          rewrite Hsz2. destruct (mmap_length_ge r2) as (_ & H & _); [lia|].
          unfold MMAP_SIZE in H. lia. }
        specialize (Hap (c1, L1)).
        replace (wmalloc_ptr s1 =? NULL) with false in Hap
          by (symmetry; rewrite Hwp1; exact Hwp).
        cbn [app] in Hap. rewrite Hmp1 in Hap.
        specialize (Hap (or_introl eq_refl)). cbn [fst snd] in Hap.
        rewrite <- Hc2', <- Hsz2 in Hap. unfold apart in *. lia.
      * specialize (Hplace (c2, sz2) Hin). cbn [fst snd] in Hplace.
        unfold apart. lia.
    + exists m. split; [exact Hm|]. lia.
Qed.

Lemma fresh_buffer_stays_apart_witness :
  exists s1 s2,
    wmalloc 64 (os_at 2) 200000 (state_after 64 [Malloc (os_at 1) 100])
    = Ok (2 * 2 ^ 32 + 16) s1 /\
    wmalloc 64 (os_at 3) 50 s1 = Ok (2 * 2 ^ 32 + 200040) s2 /\
    apart (2 * 2 ^ 32 + 16) 200000 (2 * 2 ^ 32 + 200040) 50 /\
    range_mapped s2 (2 * 2 ^ 32 + 200040) 50.
Proof.
  assert (F2 : then_holds
                 (wmalloc 64 (os_at 2) 200000 (state_after 64 [Malloc (os_at 1) 100]))
                 (fun _ s1 =>
                    wmalloc_ptr s1 = 4096 /\
                    mapped s1 = [(2 * 2 ^ 32, 200704); (2 ^ 32, 131072); (4096, 2208)] /\
                    returns (wmalloc 64 (os_at 3) 50 s1) (2 * 2 ^ 32 + 200040)))
    by (vm_compute; repeat split; reflexivity).
  pose proof sample_facts as F. pose proof sample_wf as W. cbv zeta in F.
  revert F W F2. generalize (state_after 64 [Malloc (os_at 1) 100]).
  intros s (Hwp & Hm & _) W F2.
  set (x0 := (2 ^ 32 + 124, 130948)) in *.
  destruct (fresh_buffer_stays_apart 64 (os_at 2) 200000 s (one_chunk x0) W)
    as (s1 & E & Hnext).
  - lia.
  - unfold CHUNK_OVERHEAD. lia.
  - intros y Hy _.
    apply (proj1 (all_chunks_one x0 ltac:(cbn [snd x0]; lia) y)) in Hy. subst y.
    cbv. reflexivity.
  - split.
    + intros H. rewrite Hwp in H. discriminate H.
    + right. split; [reflexivity|]. split; [vm_compute; discriminate|].
      rewrite Hwp, Hm. intros m Hm'. cbn in Hm'.
      destruct Hm' as [<-|[<-|[]]]; right; vm_compute; discriminate.
  - vm_compute. discriminate.
  - pose proof (longest_one x0). lia.
  - rewrite E in F2. cbn [then_holds] in F2. destruct F2 as (Hwp1 & Hm1 & Hret).
    specialize (Hnext (os_at 3) 50).
    destruct (wmalloc 64 (os_at 3) 50 s1) as [p2 s2|err] eqn:E2; [|destruct Hret].
    cbn [returns] in Hret. subst p2.
    destruct Hnext as [Hap Hrm].
    + split.
      * intros H. rewrite Hwp1 in H. discriminate H.
      * right. split; [reflexivity|]. split; [vm_compute; discriminate|].
        rewrite Hwp1, Hm1. intros m Hm'. cbn in Hm'.
        destruct Hm' as [<-|[<-|[<-|[]]]]; right; vm_compute; discriminate.
    + lia.
    + unfold CHUNK_OVERHEAD. lia.
    + discriminate.
    + exists s1, s2. change (mmap_ret (os_at 2)) with (2 * 2 ^ 32) in Hap.
      split; [exact E|]. split; [exact E2|]. split; [exact Hap|exact Hrm].
Defined.

(** ** The debugging functions *)

(** X20: on a registry in order, [calc_mem_available] returns the sum of
    the sizes of all chunks in the 46 bins, reduced modulo [2^64], and
    changes nothing; right after the initialization it returns 0. *)
Theorem calc_mem_available_sums_free_chunks (s : state) (G : gbins) (fuel : nat) :
  reg s G -> (longest G < fuel)%nat ->
  calc_mem_available fuel s = Ok (wrap64 (total_free G)) s /\
  (all_chunks G = [] -> calc_mem_available fuel s = Ok 0 s).
Proof.
  intros R Hfuel. pose proof (calc_mem_available_ok s G fuel R Hfuel) as E.
  split; [exact E|]. intros H. rewrite E. unfold total_free. now rewrite H.
Qed.

Lemma calc_mem_available_witness :
  calc_mem_available 64 (state_after 64 [Malloc (os_at 1) 100])
  = Ok 130948 (state_after 64 [Malloc (os_at 1) 100]).
Proof.
  pose proof sample_wf as W. revert W.
  generalize (state_after 64 [Malloc (os_at 1) 100]). intros s W.
  destruct (calc_mem_available_sums_free_chunks s
              (one_chunk (2 ^ 32 + 124, 130948)) 64 (wf_reg _ _ W)) as [E _].
  - pose proof (longest_one (2 ^ 32 + 124, 130948)). lia.
  - exact E.
Defined.

(** X21: on a registry in order, [print_available] prints one line for each
    of the 46 bins, in order: the bound of the bin and the sizes of its
    chunks in list order; it changes nothing. *)
Theorem print_available_lists_the_bins (s : state) (G : gbins) (fuel : nat) :
  reg s G -> (longest G < fuel)%nat ->
  print_available fuel s = Ok (map (fun j => (U j, map snd (G j))) bin_ids) s.
Proof.
  intros R Hfuel. unfold print_available.
  now rewrite (print_bins_spec s G fuel R Hfuel (Z.to_nat NUM_BINS) 0).
Qed.

Lemma print_available_witness :
  exists lines, print_available 64 (state_after 64 [Malloc (os_at 1) 100])
                = Ok lines (state_after 64 [Malloc (os_at 1) 100]) /\
    nth 42 lines (0, []) = (131072, [130948]) /\ length lines = 46%nat.
Proof.
  pose proof sample_wf as W. revert W.
  generalize (state_after 64 [Malloc (os_at 1) 100]). intros s W.
  eexists. split.
  - apply (print_available_lists_the_bins s (one_chunk (2 ^ 32 + 124, 130948)) 64
             (wf_reg _ _ W)).
    pose proof (longest_one (2 ^ 32 + 124, 130948)). lia.
  - split; reflexivity.
Defined.

(** ** Callers *)

Lemma fill_array_in_bounds (rand : Z -> Z) (count : Z) :
  Forall (fun w => 0 <= fst w < 4 * count) (fill_array rand count).
Proof.
  apply Forall_forall. intros w Hw. unfold fill_array in Hw.
  apply in_flat_map in Hw. destruct Hw as (i & Hi & Hw).
  apply in_seq in Hi. unfold int_bytes in Hw. cbn [In] in Hw.
  destruct Hw as [<-|[<-|[<-|[<-|[]]]]]; cbn [fst]; lia.
Qed.

(** X22: for [n + 24 < 2^32]: a caller that takes [n] bytes which the
    registry cannot supply, so that a fresh region is mapped, stores any
    bytes anywhere in the [n] bytes of its buffer and releases it, runs to
    the end, whatever it stored.  The whole region is then one free chunk: the residue that
    [wmalloc] had put into a bin was joined again.  The registry is well
    formed, and [calc_mem_available] reports the length of the region more
    than the registry held before. *)
Theorem filled_buffer_is_released_whole (fuel : nat) (e : os_env) (n : Z) (s : state)
    (G : gbins) (bufs : list buffer) (ws : list (Z * Z)) :
  engine_ok s G -> 0 <= n -> n + CHUNK_OVERHEAD < 2 ^ 32 ->
  (forall y, In y (all_chunks G) -> MINIMUM_CHUNK_SIZE < snd y ->
     snd y < necessary_length n) ->
  os_sound s e (mmap_length (necessary_length n)) ->
  (wmalloc_ptr s = NULL -> sbrk_ret e <> MAP_FAILED) -> mmap_ret e <> MAP_FAILED ->
  (49 + longest G <= fuel)%nat ->
  Forall (fun w => 0 <= fst w < n) ws ->
  let c := mmap_ret e in
  let L := mmap_length (necessary_length n) in
  let k := length bufs in
  exists s2 l1 l2,
    run fuel (Malloc e n :: writes_to k ws ++ [Free k]) bufs s
    = Finished (bufs ++ [mkBuffer (c + 16) n false]) s2 /\
    G (bin_of L) = l1 ++ l2 /\
    wf s2 (set_bin G (bin_of L) (l1 ++ (c, L) :: l2)) /\
    calc_mem_available fuel s2 = Ok (wrap64 (total_free G + L)) s2.
Proof.
  intros He Hn Hn' Hno Hos Hsf Hmf Hfuel Hws c L k.
  pose proof (necessary_length_small n Hn
                ltac:(unfold CHUNK_OVERHEAD in *; lia)) as Er.
  assert (Hl : lookup G (necessary_length n) = None).
  { apply (no_fit_lookup s G _ He); [|exact Hno].
    unfold CHUNK_OVERHEAD, MINIMUM_CHUNK_SIZE in *. lia. }
  destruct (run_fresh_buffer fuel e n s G bufs ws He Hl Hos Hsf Hmf Hn Hn'
              ltac:(lia) Hws)
    as (s0 & s2 & l1 & l2 & Erun & _ & _ & _ & HG & W2 & _).
  fold c L k in Erun, HG, W2.
  exists s2, l1, l2. split; [exact Erun|]. split; [exact HG|]. split; [exact W2|].
  destruct (mmap_length_ge (necessary_length n)) as (_ & HL & _).
  { unfold CHUNK_OVERHEAD, MINIMUM_CHUNK_SIZE in *. lia. }
  fold L in HL.
  destruct (bin_of_spec L ltac:(lia)) as (Hb & _).
  assert (Hb' : 0 <= bin_of L < NUM_BINS) by (unfold NUM_BINS; lia).
  rewrite (calc_mem_available_ok s2 _ fuel (wf_reg _ _ W2)).
  - now rewrite (total_free_insert G (bin_of L) l1 l2 (c, L) Hb' HG).
  - pose proof (longest_insert G (bin_of L) l1 l2 (c, L) Hb' HG). lia.
Qed.

Lemma filled_buffer_witness :
  exists s2, run 64 [Malloc (os_at 1) 100; Write 0%nat 23 255; Write 0%nat 31 255;
                     Free 0%nat] [] initial_state
             = Finished [mkBuffer (2 ^ 32 + 16) 100 false] s2 /\
    calc_mem_available 64 s2 = Ok 131072 s2.
Proof.
  destruct (filled_buffer_is_released_whole 64 (os_at 1) 100 initial_state no_chunks
              [] [(23, 255); (31, 255)])
    as (s2 & l1 & l2 & E & _ & _ & Hc).
  - left. split; reflexivity.
  - lia.
  - unfold CHUNK_OVERHEAD. lia.
  - intros y Hy. apply in_all_chunks in Hy. destruct Hy as (j & _ & []).
  - apply os_at_sound_first. vm_compute. split; discriminate.
  - intros _. vm_compute. discriminate.
  - vm_compute. discriminate.
  - vm_compute. lia.
  - repeat constructor; cbn [fst]; lia.
  - exists s2. split; [exact E|exact Hc].
Defined.

(** X23: [main] of example.c.  When the operating system grants the block
    of the engine and the region for the array, the program runs to the end
    for every sequence of numbers that [rand] returns: the array of 100000
    [int] is taken from a fresh region of 401408 bytes, filled and
    released.  At the end the region is one free chunk in a well-formed
    registry, the block and the region are all that is mapped, and
    [calc_mem_available] would report 401408 bytes. *)
Theorem example_main_runs_to_the_end (e : os_env) (rand : Z -> Z) (fuel : nat) :
  os_sound initial_state e 401408 ->
  sbrk_ret e <> MAP_FAILED -> mmap_ret e <> MAP_FAILED -> (49 <= fuel)%nat ->
  exists s,
    run fuel (example_main e rand) [] initial_state
    = Finished [mkBuffer (mmap_ret e + 16) 400000 false] s /\
    wf s (one_chunk (mmap_ret e, 401408)) /\
    mapped s = [(mmap_ret e, 401408); (sbrk_ret e, sizeof_wmalloc_info)] /\
    calc_mem_available fuel s = Ok 401408 s.
Proof.
  intros Hos Hsf Hmf Hfuel.
  assert (EL : mmap_length (necessary_length (4 * 100000)) = 401408) by reflexivity.
  destruct (run_fresh_buffer fuel e (4 * 100000) initial_state no_chunks []
              (fill_array rand 100000)
              (or_introl (conj eq_refl eq_refl)) (lookup_no_chunks _))
    as (s0 & s2 & l1 & l2 & Erun & E0 & _ & _ & HG & W2 & Hg).
  - rewrite EL. exact Hos.
  - intros _. exact Hsf.
  - exact Hmf.
  - lia.
  - unfold CHUNK_OVERHEAD. lia.
  - change (longest no_chunks) with 0%nat. lia.
  - apply fill_array_in_bounds.
  - rewrite EL in *. cbn [no_chunks] in HG. symmetry in HG.
    apply app_eq_nil in HG. destruct HG as [-> ->]. cbn [app] in W2.
    fold (one_chunk (mmap_ret e, 401408)) in W2.
    change (wmalloc_ptr initial_state =? NULL) with true in E0. cbv iota in E0.
    exists s2. split; [exact Erun|]. split; [exact W2|]. split.
    + destruct Hos as [Hsb _]. destruct (Hsb eq_refl) as [?|[Hp Ht]]; [contradiction|].
      destruct (initialize_wmalloc_ok e initial_state Hsf Hp Ht)
        as (s0' & E0' & _ & Hmp0 & _).
      rewrite E0 in E0'. injection E0' as <-.
      destruct Hg as (_ & Hmp & _). rewrite Hmp, Hmp0. reflexivity.
    + assert (Hlong : (longest (one_chunk (mmap_ret e, 401408%Z)) < fuel)%nat)
        by (pose proof (longest_one (mmap_ret e, 401408)); lia).
      exact (calc_mem_available_ok s2 (one_chunk (mmap_ret e, 401408)) fuel
               (wf_reg _ _ W2) Hlong).
Qed.

Lemma example_main_witness :
  exists s,
    run 64 (example_main (os_at 1) (fun i => 7 * i)) [] initial_state
    = Finished [mkBuffer (2 ^ 32 + 16) 400000 false] s /\
    mapped s = [(2 ^ 32, 401408); (4096, 2208)].
Proof.
  destruct (example_main_runs_to_the_end (os_at 1) (fun i => 7 * i) 64)
    as (s & E & _ & Hm & _).
  - apply os_at_sound_first. lia.
  - vm_compute. discriminate.
  - vm_compute. discriminate.
  - lia.
  - exists s. split; [exact E|exact Hm].
Defined.

(** ** Releasing *)








(** ** Marking a chunk in its neighbours *)








